(* ===== verification/_CoqProject ===== *)
-Q . S2P
Prelude.v
ListFacts.v
Rand.v
RustStr.v
StrFacts.v
Octets.v
Error.v
Channel.v
Streams.v
Net.v
Masque.v
MasqueH2.v
Sysprofile.v
Backlog.v
FlowCredit.v
Device.v
F64.v
Netstack.v
Service.v
Sink.v
ServiceFacts.v
Run.v
RunFacts.v
SimpleNet.v
NetstackCorrect.v
Dns.v
Sniff.v
Fragment.v
Routing.v
Upstream.v
SocksWire.v
Socks.v
SocksFacts.v
SocksUdp.v
SocksPair.v
AetherNoize.v
WireGuard.v
WgFacts.v
WgProgress.v
WgCorrect.v
WgVerify.v
LastConn.v
ExitLoc.v
ApiFront.v
Hops.v
Cidr.v
Prober.v
WgProber.v
HopLoop.v
Noize.v
Quic.v
QuicVerify.v
Session.v
CarrierLoop.v
Zerotrust.v
Account.v
Identity.v
