(* ===== verification/Prelude.v ===== *)
(** * A verification of the Aether engine

    Aether is an Android VPN application; its engine is the Rust crate
    src/native/aether/aether (source files named below without that path and
    its src/).  The engine accepts connections of the device on a SOCKS5
    listener, decides by rules what is blocked, goes out directly or goes
    through a tunnel, terminates TCP in a user-space network stack, and carries
    the resulting IP packets over one of several tunnels: HTTP/2 or HTTP/3
    CONNECT-IP (MASQUE) or WireGuard, each possibly behind an upstream proxy
    and possibly nested.  Before a tunnel it signs in, registers a device and
    keeps its identity, scans for gateways, and remembers those that worked.
    This library models that path and proves what each part promises.

    ** How the code is modelled

    A pure function is a Rocq function of the same name.  An operation on
    mutable state takes and returns it; a loop is a structural recursion over
    its data or has a fuel argument.  A Rust function that may fail or panic
    returns an [outcome] (this file): [Done], [Fail] (the error side of a
    [Result] or an [Option]), [Panic], or [Diverge] for a loop that used up its
    fuel or a schedule that ended while it was waiting.  [wp m Q R] says that
    [m] neither panics nor diverges.  Integers are [Z], with the wrap-around or
    saturation of the source written out, and with the width of [usize] as a
    parameter ([Arch], 32 or 64 bits) where a cast may cut; byte strings are
    lists of [Z], text is the list of its code points (RustStr.v).  An [async] task is a function
    of one turn of its loop; where tasks interleave they are a step relation,
    and what the scheduler, the clock, the socket and the peer choose is an
    argument or a premise of a step.  Code outside the repository (tokio
    channels, smoltcp, boringtun, the h2, regex, toml, serde_json and base64
    crates) is a class of operations, with the documented behaviour a proof
    needs as a second class of laws; each has a concrete instance with which
    the theorems are evaluated.  What a library is asked once per turn is data
    of the turn: the answers of quiche (Quic), of a check of a gateway and the
    order in which checks end (Prober), of an HTTP request (Account, Zerotrust),
    of a system call on a file (Identity), of a prompt (Session).  Random
    numbers come from a generator without laws (Rand): every sequence of draws
    is that of one.

    ** Files

    - Prelude, ListFacts, Rand, RustStr, StrFacts, Channel, Streams, Net, F64,
      Error: outcomes, slices, big-endian numbers; lists without repetition,
      prefixes and stable sorting; random draws; strings, UTF-8 and the number
      parsers of the standard library; channels and TCP streams as interfaces;
      addresses, their parsers and printers; binary64 arithmetic of the rate
      estimator; error.rs.
    - Octets: the cursor and QUIC varint code of the vendored octets crate
      (src/native/aether/quiche/octets/src/lib.rs), on which the capsules rest.
    - Masque, MasqueH2: masque.rs, the CONNECT-IP datagrams and capsules, and
      the tunnel tasks of masque_h2.rs with the receive path of quic.rs.
    - Sysprofile: sysprofile.rs, device tiers and the buffer sizes they give.
    - Backlog, FlowCredit, Device, Netstack, Service, Sink, Run: netstack.rs:
      the backlog of refused application data, the upload credit of a flow, the
      packet device, flows and commands, the servicing of sockets with the
      wedge detector and the rate estimator, the interface between the backlog
      and the flows, and one pass of the task.  ServiceFacts and RunFacts hold
      lemmas, SimpleNet a concrete smoltcp, NetstackCorrect the theorems.
    - Dns, Sniff, Fragment, Routing, Upstream: dns.rs with the in-tunnel
      resolver of socks.rs, sniff.rs, fragment.rs, routing.rs, upstream.rs.
    - SocksWire, Socks, SocksFacts, SocksUdp, SocksPair: socks.rs: messages,
      the CONNECT handler, its lemmas and theorems, the two UDP handlers, and
      the composition of this server with the SOCKS5 client of upstream.rs.
    - AetherNoize, WireGuard, WgFacts, WgProgress, WgCorrect, WgVerify:
      aethernoize.rs and wireguard.rs: decoys; the four tasks of
      [WgTunnel::run] as sections between their awaits (the socket, a queue, a
      timer, the lock, which the health check keeps while it sends) and their
      interleavings; invariants; what each task waits for and how it gets on;
      theorems and a concrete session; endpoint verification on a clock.
    - LastConn, ExitLoc, ApiFront: lastconn.rs, exitloc.rs, apifront.rs.
    - Cidr, Prober, WgProber: prober.rs and wg_prober.rs: address ranges and
      their sampling, the ladder of candidates and the scan that awaits their
      checks, for MASQUE gateways and for WireGuard endpoints.
    - Hops, HopLoop: the hops of nested tunnels in lib.rs: endpoints given by
      hand, inner edges, and the loops of warp in warp and MASQUE in MASQUE.
    - Noize, Quic, QuicVerify: noize.rs and quic.rs: what is sent before a QUIC
      handshake, the loop of the QUIC tunnel, the check of a gateway.
    - Session, CarrierLoop: the settings of lib.rs, the life of one tunnel
      ([run_masque_tunnel], [run_wireguard_tunnel]) and the loops around it
      ([run_masque], [run_wireguard]).
    - Zerotrust, Account, Identity: zerotrust.rs, account.rs, config.rs and
      [load_or_provision_warp] and [load_or_provision_masque] of lib.rs: signing
      in, the account API, the file of an identity and its states on disk, and
      when a saved identity is used, renewed or replaced.

    ** What the theorems show

    - The network stack (NetstackCorrect, FlowCredit, Device): a pass of the
      task loses and reorders no byte of any flow, serves every queue it has
      room for, keeps a flow that refuses data from delaying the others, answers
      every connection request exactly once, and reaps exactly the wedged
      flows; the measured upload budget is at least its floor and otherwise at
      most the send buffer, and the credit
      derived from it bounds the bytes a flow may have in the process; packets
      leave in order.
    - WireGuard (WgCorrect, WgVerify, AetherNoize): over every interleaving of
      the tasks each waits exactly for the outside, its clock or the lock, and
      gets on when the socket takes what it is given; what the session is
      called with and what it returns go through the uplink in order and once,
      whatever the batches; every message carries the client id and stripping
      restores it, sessions are replaced in place at most once in three seconds
      and when asked, and the tunnel is given up only after two checks saw
      silence or a new session could not start.  A verified endpoint answered a
      handshake and, if asked for, two probes; verification ends by its
      deadline but for the writes the socket makes it wait for.  Decoys are as
      configured, and keepalive decoys are never WireGuard messages.
    - SOCKS (SocksFacts, SocksUdp, SocksPair): what a connection or a datagram
      causes is what the rules decided for its target and for the name it
      announces, a relayed client loses no byte
      and is answered once, a UDP association serves one client, and the
      engine's own client and server understand each other.
    - Tunnels, parsers and the rest: capsules and datagrams in any segmentation
      are delivered or refused without panic, on both widths of [usize]
      (Masque, MasqueH2); rule lists mean
      what their text says (Routing); proxies are parsed, spoken to and detoured
      through as specified (Upstream); DNS answers are found, and only matching
      ones are believed (Dns); host names are found in a ClientHello or an HTTP
      head in any number of pieces, and fragmenting a ClientHello changes no
      byte of it (Sniff, Fragment); the API client, the exit policy and the ring
      of gateways follow their specifications (ApiFront, ExitLoc, LastConn);
      every device gets buffer sizes within bounds (Sysprofile).
    - QUIC (Noize, Quic, QuicVerify): the packets before a handshake are well
      formed and as many as configured; a run of the tunnel sends exactly the
      packets taken while its request was open and delivers exactly those of
      its stream, is ready once and only when validated; a gateway is accepted
      only after packets of its stream came back, before the deadline.
    - Gateways (Cidr, Prober, WgProber, Hops, HopLoop, Session, CarrierLoop): a
      scan returns a candidate that passed its check, the first or the best of
      those awaited, and ends only when all have answered, enough are found or
      its time is up; nested hops are distinct and where they were asked to be,
      and the loops around them keep a hop for two tunnels, drop it then unless
      it was named by hand, and take a missing one from a scan; a loop around
      one tunnel uses only gateways that were
      checked or found, remembers them, starts again from the newest that
      answers, and gives a failing endpoint its cooldown.
    - Identities (Zerotrust, Account, Identity): the form of a sign-in is read
      exactly, and so is a parameter of an address up to the first without a
      value; API calls are bounded in number and time; a refresh
      never touches keys, takes over the addresses the API reports, and a
      refusal rests on an answer; a save cut short
      anywhere leaves the old or the new file; a saved identity is replaced only
      if it was refused, and no error loses one.

    Some theorems state what the code does where that is not what it means to
    do, on a concrete input: the Examples [plus_is_a_hex_digit],
    [trailing_dot_query], [bare_ipv6_entry], [second_reply_after_sniffing],
    [unknown_location_passes_deny_list], [small_link_not_reported],
    [floor_above_buffer], [long_capsule_cut],
    [wg_policy_never_settles], [nonce_after_flag_missed], [later_cookie_missed],
    [direct_refusal_forgotten], [waits_before_giving_up],
    [refused_without_certificate] and [renewal_skips_profile].

    ** Bounds and fuel

    Fuel is chosen from the data so that the theorems show it is enough: the
    carry loop of the checksum has three turns, as two fold a 32-bit sum; a
    loop over a byte cursor has one turn per byte and one more (capsules,
    addresses, DNS records, TLS extensions, chunked bodies, escapes); the reader
    of a proxy's answer has 8194 turns, one per byte of its limit and two more;
    a reservation of credit has 10,001 turns of at least 2 ms, its 20 s limit;
    the WireGuard reader has two turns more than the session has packets
    queued.  The turns of an endpoint verification are a list: one that ends
    with the list is shown to be before its deadline still.  A datagram is cut at 65535 bytes, the size of the buffer it is
    read into.  Entities of a page have one turn per character and one more,
    and so has the scan of a packet template; the account API is tried five
    times and a login code three, by the structure of the recursion.  Loops
    that draw until enough values are new (edge addresses in ApiFront, spread
    hops in Hops, candidates in Prober) have no bound in the source either:
    there the fuel is an argument, and the theorems say that only draws short of
    enough new values ([short_of], [starved]) can use it up.

    ** What is not modelled

    Of lib.rs the choice of a protocol and the prompts before it; cli.rs,
    ffi.rs, main.rs and api.rs, entry points that marshal arguments around the
    modelled calls; bridges.rs, psiphon.rs and tor.rs, which start and supervise
    other programs and read what they print; tls.rs, calls of the TLS
    libraries; egress.rs, stats.rs and tunnelping.rs, socket options, log lines
    and measurements.  Of the modelled files: what quiche, boringtun, smoltcp
    and the TLS and HTTP libraries compute themselves, the TCP relays of socks.rs
    once both ends stand and its accept loop, log lines, and the pauses between
    decoys.  File permissions and paths are modelled as the saved identity uses
    them, directories are not.  quiche itself is vendored.

    ** What could follow

    The accept loop and half-closing relays of socks.rs; the readers of bridge
    lists and of the output of the programs of bridges.rs and tor.rs; the
    measurements of tunnelping.rs. *)

From stdpp Require Import base gmap list option numbers.
From Stdlib Require Import ZArith Lia.

#[global] Open Scope Z_scope.

(** ** Outcomes of evaluating Rust code

    [Done] is a value, [Fail] the error side of an [Option] or a [Result],
    [Panic] a Rust panic (an index out of range) and [Diverge] a loop that
    ran out of the fuel the model gave it. *)
Inductive outcome (E A : Type) : Type :=
| Done (a : A)
| Fail (e : E)
| Panic
| Diverge.
Arguments Done {E A} a.
Arguments Fail {E A} e.
Arguments Panic {E A}.
Arguments Diverge {E A}.

#[global] Instance outcome_ret E : MRet (outcome E) := fun A a => Done a.
#[global] Instance outcome_bind E : MBind (outcome E) := fun A B f m =>
  match m with
  | Done a => f a
  | Fail e => Fail e
  | Panic => Panic
  | Diverge => Diverge
  end.
#[global] Instance outcome_fmap E : FMap (outcome E) := fun A B f m =>
  match m with
  | Done a => Done (f a)
  | Fail e => Fail e
  | Panic => Panic
  | Diverge => Diverge
  end.

#[global] Instance outcome_eq_dec E A `{EqDecision E, EqDecision A} :
  EqDecision (outcome E A).
Proof. solve_decision. Defined.

(** A Rust function returning [Option<T>]. *)
Abbreviation opt := (outcome unit).

Definition no_value {A} : opt A := Fail tt.

(** The [?] operator on an [Option]. *)
Definition oget {A} (o : option A) : opt A :=
  match o with Some a => Done a | None => Fail tt end.

(** What an [opt] computation answers once it is known not to panic. *)
Definition to_option {A} (o : opt A) : option A :=
  match o with Done a => Some a | _ => None end.

(** [wp m Q R]: [m] neither panics nor diverges, its value satisfies [Q] and
    its error satisfies [R]. *)
Definition wp {E A} (m : outcome E A) (Q : A -> Prop) (R : E -> Prop) : Prop :=
  match m with
  | Done a => Q a
  | Fail e => R e
  | Panic | Diverge => False
  end.

Definition terminates {E A} (m : outcome E A) : Prop :=
  wp m (fun _ => True) (fun _ => True).

Lemma wp_bind {E A B} (m : outcome E A) (f : A -> outcome E B) Q R :
  wp m (fun a => wp (f a) Q R) R -> wp (m ≫= f) Q R.
Proof. by destruct m. Qed.

Lemma wp_mono {E A} (m : outcome E A) (Q Q' : A -> Prop) (R R' : E -> Prop) :
  wp m Q R -> (forall a, Q a -> Q' a) -> (forall e, R e -> R' e) -> wp m Q' R'.
Proof. destruct m; simpl; eauto. Qed.

Lemma wp_done_inv {E A} (m : outcome E A) (Q : A -> Prop) R a :
  wp m Q R -> m = Done a -> Q a.
Proof. by intros H ->. Qed.

Lemma wp_and {E A} (m : outcome E A) (Q Q' : A -> Prop) (R R' : E -> Prop) :
  wp m Q R -> wp m Q' R' ->
  wp m (fun a => Q a /\ Q' a) (fun e => R e /\ R' e).
Proof. destruct m; simpl; eauto. Qed.

Lemma wp_oget {A} (o : option A) (Q : A -> Prop) (R : unit -> Prop) :
  (forall a, o = Some a -> Q a) -> R tt -> wp (oget o) Q R.
Proof. destruct o; simpl; eauto. Qed.

(** ** Machine integers *)

Definition u8_max : Z := 255.
Definition u16_max : Z := 65535.
Definition u32_max : Z := 4294967295.
Definition u64_max : Z := 18446744073709551615.

Definition u8 (z : Z) : Z := z `mod` 256.
Definition u16 (z : Z) : Z := z `mod` 65536.
Definition u32 (z : Z) : Z := z `mod` 4294967296.
Definition u64 (z : Z) : Z := z `mod` 18446744073709551616.

(** The engine ships for 64-bit and for 32-bit ARM: [as_usize] is the cast of a
    wider value at the width of the target. *)
Class Arch := {
  usize_bits : Z;
  usize_bits_ok : usize_bits = 32 \/ usize_bits = 64;
}.
Definition as_usize `{Arch} (z : Z) : Z := z `mod` 2 ^ usize_bits.

Definition arm64 : Arch := Build_Arch 64 (or_intror eq_refl).
Definition armv7 : Arch := Build_Arch 32 (or_introl eq_refl).

Lemma as_usize_small `{Arch} z : 0 <= z <= u32_max -> as_usize z = z.
Proof.
  intros Hz. unfold as_usize, u32_max in *.
  destruct usize_bits_ok as [-> | ->]; rewrite Z.mod_small; lia.
Qed.

Lemma as_usize_nonneg `{Arch} z : 0 <= as_usize z.
Proof. unfold as_usize. destruct usize_bits_ok as [-> | ->]; apply Z.mod_pos_bound; lia. Qed.

(** The sums are written at 64 bits.  Those of [usize] values add lengths of
    buffers and offsets into them, which stay far below [2^32] where [usize] is
    32 bits wide, so the width does not show.  Numbers read from a text as a
    [usize] are read at 64 bits as well: a 32-bit target refuses those of
    [2^32] and more. *)
Definition checked_add (a b : Z) : option Z :=
  if a + b <=? u64_max then Some (a + b) else None.
Definition saturating_add (a b : Z) : Z := Z.min (a + b) u64_max.
Definition saturating_sub (a b : Z) : Z := Z.max 0 (a - b).
Definition saturating_mul (a b : Z) : Z := Z.min (a * b) u64_max.

(** ** Byte strings *)

Definition byte_ok (b : Z) : Prop := 0 <= b < 256.
Definition bytes_ok (l : list Z) : Prop := Forall byte_ok l.

#[global] Instance byte_ok_dec b : Decision (byte_ok b).
Proof. unfold byte_ok. apply _. Defined.
#[global] Instance bytes_ok_dec l : Decision (bytes_ok l).
Proof. unfold bytes_ok. apply _. Defined.

Definition zlen {A} (l : list A) : Z := Z.of_nat (length l).

(** [buf.get(i)] *)
Definition zget {A} (l : list A) (i : Z) : option A :=
  if i <? 0 then None else l !! Z.to_nat i.

(** [buf[i]], which panics out of range *)
Definition idx {E A} (l : list A) (i : Z) : outcome E A :=
  match zget l i with Some a => Done a | None => Panic end.

Definition zdrop {A} (n : Z) (l : list A) : list A := drop (Z.to_nat n) l.
Definition ztake {A} (n : Z) (l : list A) : list A := take (Z.to_nat n) l.

(** The bytes [a..b] of a slice. *)
Definition zsub {A} (l : list A) (a b : Z) : list A := ztake (b - a) (zdrop a l).

Definition in_slice {A} (l : list A) (a b : Z) : bool :=
  (0 <=? a) && (a <=? b) && (b <=? zlen l).

(** [buf.get(a..b)] *)
Definition get_slice {A} (l : list A) (a b : Z) : option (list A) :=
  if in_slice l a b then Some (zsub l a b) else None.

(** [&buf[a..b]], which panics out of range *)
Definition slice {E A} (l : list A) (a b : Z) : outcome E (list A) :=
  if in_slice l a b then Done (zsub l a b) else Panic.

(** [z.to_be_bytes()] of an integer of [n] bytes *)
Fixpoint be_bytes (n : nat) (z : Z) : list Z :=
  match n with
  | O => []
  | S k => (z / 256 ^ Z.of_nat k) `mod` 256 :: be_bytes k z
  end.

(** [from_be_bytes] *)
Definition be_value (l : list Z) : Z := fold_left (fun acc b => acc * 256 + b) l 0.

Definition be_u16 (a b : Z) : Z := a * 256 + b.

(** ** Tactics *)

Create HintDb bytes.
Create Rewrite HintDb bytes.
Create HintDb aether.

Ltac dest_if :=
  match goal with
  | |- context [if ?b then _ else _] =>
      lazymatch type of b with
      | bool => let E := fresh "E" in destruct b eqn:E
      | _ => case_decide
      end
  end.

Ltac bool_lia :=
  repeat match goal with
         | H : (_ && _)%bool = true |- _ => apply andb_prop in H as [? ?]
         | H : (_ && _)%bool = false |- _ => apply andb_false_iff in H
         | H : (_ || _)%bool = false |- _ => apply orb_false_elim in H as [? ?]
         | H : negb _ = true |- _ => apply negb_true_iff in H
         | H : negb _ = false |- _ => apply negb_false_iff in H
         end; lia.

(** ** Lists *)

Section list_facts.
Context {A : Type}.
Implicit Types l k : list A.

Lemma zlen_nonneg l : 0 <= zlen l.
Proof. unfold zlen; lia. Qed.

Lemma zlen_nil : zlen (@nil A) = 0.
Proof. done. Qed.

Lemma zlen_cons x l : zlen (x :: l) = 1 + zlen l.
Proof. unfold zlen; cbn [length]; lia. Qed.

Lemma zlen_app l k : zlen (l ++ k) = zlen l + zlen k.
Proof. unfold zlen. rewrite length_app. lia. Qed.

Lemma zlen_zero_inv l : zlen l = 0 -> l = [].
Proof. destruct l; [done|]. rewrite zlen_cons. pose proof (zlen_nonneg l). lia. Qed.

Lemma zlen_ztake n l : 0 <= n <= zlen l -> zlen (ztake n l) = n.
Proof. unfold zlen, ztake. rewrite length_take. lia. Qed.

Lemma zlen_zdrop n l : 0 <= n <= zlen l -> zlen (zdrop n l) = zlen l - n.
Proof. unfold zlen, zdrop. rewrite length_drop. lia. Qed.

Lemma ztake_zdrop n l : ztake n l ++ zdrop n l = l.
Proof. apply take_drop. Qed.

Lemma ztake_app_eq l k : ztake (zlen l) (l ++ k) = l.
Proof. unfold ztake, zlen. rewrite Nat2Z.id. by rewrite take_app_length. Qed.

Lemma zdrop_app_eq l k : zdrop (zlen l) (l ++ k) = k.
Proof. unfold zdrop, zlen. rewrite Nat2Z.id. by rewrite drop_app_length. Qed.

Lemma ztake_all n l : zlen l <= n -> ztake n l = l.
Proof. intros. unfold ztake. apply take_ge. unfold zlen in *. lia. Qed.

Lemma zdrop_0 l : zdrop 0 l = l.
Proof. done. Qed.

Lemma zdrop_zdrop a b l : 0 <= a -> 0 <= b -> zdrop a (zdrop b l) = zdrop (a + b) l.
Proof. intros. unfold zdrop. rewrite drop_drop. f_equal. lia. Qed.

Lemma zsub_app_mid (l1 l2 l3 : list A) a b :
  a = zlen l1 -> b = a + zlen l2 -> zsub (l1 ++ l2 ++ l3) a b = l2.
Proof.
  intros -> ->. unfold zsub. rewrite zdrop_app_eq.
  replace (zlen l1 + zlen l2 - zlen l1) with (zlen l2) by lia.
  apply ztake_app_eq.
Qed.

Lemma zlen_zsub l a b : 0 <= a <= b -> b <= zlen l -> zlen (zsub l a b) = b - a.
Proof.
  intros. unfold zsub. rewrite zlen_ztake; [done|]. rewrite zlen_zdrop; lia.
Qed.

Lemma zget_Some_lt l i x : zget l i = Some x -> 0 <= i < zlen l.
Proof.
  unfold zget. destruct (Z.ltb_spec i 0) as [|Hi]; [done|].
  intros Hl. apply lookup_lt_Some in Hl. unfold zlen. lia.
Qed.

Lemma zget_is_Some l i : 0 <= i < zlen l -> exists x, zget l i = Some x.
Proof.
  intros H. unfold zget. destruct (Z.ltb_spec i 0); [lia|].
  apply lookup_lt_is_Some. unfold zlen in H. lia.
Qed.

Lemma zget_None l i : zlen l <= i -> zget l i = None.
Proof.
  intros. unfold zget. destruct (i <? 0); [done|].
  apply lookup_ge_None. unfold zlen in *. lia.
Qed.

Lemma zget_None_inv l i : 0 <= i -> zget l i = None -> zlen l <= i.
Proof.
  intros ? Hn. destruct (decide (i < zlen l)) as [Hlt|]; [|lia].
  destruct (zget_is_Some l i) as [x Hx]; [lia|]. congruence.
Qed.

Lemma zget_app_r l k i : zlen l <= i -> zget (l ++ k) i = zget k (i - zlen l).
Proof.
  intros. unfold zget, zlen in *. destruct (Z.ltb_spec i 0); [lia|].
  destruct (Z.ltb_spec (i - Z.of_nat (length l)) 0); [lia|].
  rewrite lookup_app_r by lia. f_equal. lia.
Qed.

Lemma zget_app_l l k i : i < zlen l -> zget (l ++ k) i = zget l i.
Proof.
  intros. unfold zget, zlen in *. destruct (Z.ltb_spec i 0); [done|].
  rewrite lookup_app_l by lia. done.
Qed.

Lemma zget_0 x l : zget (x :: l) 0 = Some x.
Proof. done. Qed.

Lemma zget_app_mid l x k i : i = zlen l -> zget (l ++ x :: k) i = Some x.
Proof. intros ->. rewrite zget_app_r by lia. by rewrite Z.sub_diag. Qed.

Lemma zget_app_plus l k j : 0 <= j -> zget (l ++ k) (zlen l + j) = zget k j.
Proof. intros. rewrite zget_app_r by lia. f_equal. lia. Qed.

Lemma zget_In l i x : zget l i = Some x -> In x l.
Proof.
  unfold zget. destruct (i <? 0); [done|]. intros H.
  apply list_elem_of_In, list_elem_of_lookup. eauto.
Qed.

Lemma zget_zdrop l i n : 0 <= n -> 0 <= i -> zget (zdrop n l) i = zget l (n + i).
Proof.
  intros. unfold zget, zdrop. destruct (Z.ltb_spec i 0); [lia|].
  destruct (Z.ltb_spec (n + i) 0); [lia|]. rewrite lookup_drop. f_equal. lia.
Qed.

Lemma in_slice_true l a b : in_slice l a b = true <-> 0 <= a <= b /\ b <= zlen l.
Proof. unfold in_slice. rewrite !andb_true_iff, !Z.leb_le. tauto. Qed.

Lemma get_slice_Some l a b s :
  get_slice l a b = Some s -> s = zsub l a b /\ 0 <= a <= b /\ b <= zlen l.
Proof.
  unfold get_slice. destruct (in_slice l a b) eqn:E; [|done].
  apply in_slice_true in E. intros [= <-]. done.
Qed.
End list_facts.

Lemma wp_idx {E A} (l : list A) i (Q : A -> Prop) (R : E -> Prop) :
  0 <= i < zlen l -> (forall a, zget l i = Some a -> Q a) -> wp (idx l i) Q R.
Proof.
  intros Hi HQ. unfold idx. destruct (zget_is_Some l i Hi) as [x Hx].
  rewrite Hx. by apply HQ.
Qed.

Lemma wp_slice {E A} (l : list A) a b (Q : list A -> Prop) (R : E -> Prop) :
  0 <= a <= b -> b <= zlen l -> Q (zsub l a b) -> wp (slice l a b) Q R.
Proof.
  intros Ha Hb HQ. unfold slice.
  rewrite (proj2 (in_slice_true l a b)) by done. done.
Qed.

(** ** Big-endian integers *)

Lemma be_bytes_length n z : length (be_bytes n z) = n.
Proof. induction n; simpl; auto. Qed.

Lemma zlen_be_bytes n z : zlen (be_bytes n z) = Z.of_nat n.
Proof. unfold zlen. by rewrite be_bytes_length. Qed.

Lemma be_bytes_ok n z : bytes_ok (be_bytes n z).
Proof.
  induction n; simpl; constructor; [|done].
  unfold byte_ok. apply Z.mod_pos_bound. lia.
Qed.

Lemma be_value_acc l acc :
  fold_left (fun acc b => acc * 256 + b) l acc = acc * 256 ^ zlen l + be_value l.
Proof.
  revert acc. induction l as [|b l IH] using rev_ind; intros acc.
  - unfold zlen, be_value. simpl. lia.
  - unfold be_value. rewrite !fold_left_app, IH. simpl. rewrite zlen_app.
    change (zlen [b]) with 1. rewrite Z.pow_add_r by (unfold zlen; lia).
    unfold be_value. lia.
Qed.

Lemma be_value_cons b l : be_value (b :: l) = b * 256 ^ zlen l + be_value l.
Proof. unfold be_value at 1. simpl. rewrite be_value_acc. lia. Qed.

Lemma be_value_app l k : be_value (l ++ k) = be_value l * 256 ^ zlen k + be_value k.
Proof. unfold be_value at 1. rewrite fold_left_app. by rewrite be_value_acc. Qed.

Lemma be_value_bytes n z : be_value (be_bytes n z) = z `mod` 256 ^ Z.of_nat n.
Proof.
  induction n as [|n IH]; cbn [be_bytes].
  - rewrite Z.mod_1_r. done.
  - rewrite be_value_cons, IH, zlen_be_bytes, Nat2Z.inj_succ, Z.pow_succ_r by lia.
    assert (0 < 256 ^ Z.of_nat n) by (apply Z.pow_pos_nonneg; lia).
    rewrite (Z.mul_comm 256 (256 ^ _)), Z.rem_mul_r by lia. lia.
Qed.

Lemma be_value_bound l : bytes_ok l -> 0 <= be_value l < 256 ^ zlen l.
Proof.
  induction 1 as [|b l Hb Hl IH]; [unfold be_value, zlen; simpl; lia|].
  rewrite be_value_cons, zlen_cons, Z.pow_add_r by (unfold zlen; lia).
  unfold byte_ok in Hb. change (256 ^ 1) with 256. nia.
Qed.

Lemma be_bytes_2 z : be_bytes 2 z = [(z / 256) `mod` 256; z `mod` 256].
Proof. cbn. by rewrite Z.div_1_r. Qed.

Lemma be_u16_bytes z : 0 <= z < 65536 -> be_u16 ((z / 256) `mod` 256) (z `mod` 256) = z.
Proof. intros. unfold be_u16. Z.div_mod_to_equations. lia. Qed.

Lemma lor_shiftl a b n : 0 <= n -> 0 <= b < 2 ^ n -> Z.lor (Z.shiftl a n) b = a * 2 ^ n + b.
Proof.
  intros Hn Hb. rewrite Z.shiftl_mul_pow2 by done.
  assert (Hl : Z.land (a * 2 ^ n) b = 0).
  { apply Z.bits_inj'. intros i Hi. rewrite Z.land_spec, Z.bits_0.
    destruct (decide (i < n)); [by rewrite Z.mul_pow2_bits_low|].
    rewrite <- (Z.mod_small b (2 ^ n)), Z.mod_pow2_bits_high by lia. apply andb_false_r. }
  rewrite <- Z.lxor_lor by done. by rewrite <- Z.add_nocarry_lxor.
Qed.

(** ** Hints *)

#[export] Hint Resolve zlen_nonneg be_bytes_ok : bytes.
#[export] Hint Rewrite @zlen_nil @zlen_cons @zlen_app zlen_be_bytes : bytes.

Lemma bytes_ok_nil : bytes_ok [].
Proof. constructor. Qed.

Lemma bytes_ok_cons b l : byte_ok b -> bytes_ok l -> bytes_ok (b :: l).
Proof. by constructor. Qed.

#[export] Hint Resolve bytes_ok_nil bytes_ok_cons : bytes.

Lemma bytes_ok_app l k : bytes_ok (l ++ k) <-> bytes_ok l /\ bytes_ok k.
Proof. apply Forall_app. Qed.

Lemma bytes_ok_zget l i b : bytes_ok l -> zget l i = Some b -> byte_ok b.
Proof.
  intros H Hg. apply zget_In in Hg. unfold bytes_ok in H.
  rewrite List.Forall_forall in H. auto.
Qed.

Lemma bytes_ok_ztake n l : bytes_ok l -> bytes_ok (ztake n l).
Proof. apply Forall_take. Qed.

Lemma bytes_ok_zdrop n l : bytes_ok l -> bytes_ok (zdrop n l).
Proof. apply Forall_drop. Qed.

Lemma bytes_ok_zsub l a b : bytes_ok l -> bytes_ok (zsub l a b).
Proof. intros. by apply bytes_ok_ztake, bytes_ok_zdrop. Qed.

#[export] Hint Resolve bytes_ok_ztake bytes_ok_zdrop bytes_ok_zsub bytes_ok_zget : bytes.

(** ** Slices of known lists *)

Lemma slice_app_mid {E} (l1 l2 l3 : list Z) a b :
  a = zlen l1 -> b = a + zlen l2 -> @slice E _ (l1 ++ l2 ++ l3) a b = Done l2.
Proof.
  intros Ha Hb. unfold slice.
  assert (H : in_slice (l1 ++ l2 ++ l3) a b = true).
  { apply in_slice_true. autorewrite with bytes.
    pose proof (zlen_nonneg l1). pose proof (zlen_nonneg l2). pose proof (zlen_nonneg l3). lia. }
  rewrite H. by rewrite (zsub_app_mid l1 l2 l3).
Qed.

Lemma ztake_ztake_le {A} n k (l : list A) : 0 <= n <= k -> ztake n (ztake k l) = ztake n l.
Proof. intros. unfold ztake. rewrite take_take. f_equal. lia. Qed.

Lemma ztake_app_ge {A} n (l k : list A) : zlen l <= n -> ztake n (l ++ k) = l ++ ztake (n - zlen l) k.
Proof.
  unfold ztake, zlen. intros. rewrite take_app_ge by lia. do 2 f_equal. lia.
Qed.

Lemma ztake_min_len {A} n (l : list A) : 0 <= n -> ztake (Z.min (zlen l) n) l = ztake n l.
Proof.
  intros. destruct (Z.le_gt_cases (zlen l) n).
  - by rewrite Z.min_l, !ztake_all by lia.
  - by rewrite Z.min_r by lia.
Qed.

Lemma zlen_2_inv (l : list Z) : zlen l = 2 -> exists a b, l = [a; b].
Proof. destruct l as [|a [|b [|]]]; unfold zlen; simpl; try lia. eauto. Qed.

Lemma zlen_1_inv (l : list Z) : zlen l = 1 -> exists a, l = [a].
Proof. destruct l as [|a [|]]; unfold zlen; simpl; try lia. eauto. Qed.

Lemma zlen_4_inv (l : list Z) : zlen l = 4 -> exists a b c d, l = [a; b; c; d].
Proof. destruct l as [|a [|b [|c [|d [|]]]]]; unfold zlen; simpl; try lia. eauto. Qed.

Lemma be_u16_be_bytes a b : byte_ok a -> byte_ok b -> be_bytes 2 (be_u16 a b) = [a; b].
Proof.
  unfold byte_ok, be_u16. intros. rewrite be_bytes_2.
  rewrite Z.div_add_l, (Z.div_small b) by lia. rewrite Z.add_0_r, (Z.mod_small a) by lia.
  rewrite Z.add_comm, Z.mod_add, Z.mod_small by lia. done.
Qed.
