(* ===== verification/ListFacts.v ===== *)
(** * Lists without repetition, interleaving and stable sorting

    What the scanners and the choice of hops do with candidate lists: an
    element is appended unless it is already there ([HashSet::insert] guarding
    [Vec::push]), several lists are merged by turns, results are sorted by a
    key ([slice::sort_by_key], which is stable). *)

From stdpp Require Import base list numbers.
From Stdlib Require Import ZArith Lia Permutation Sorted.
From S2P Require Import Prelude.

(** ** Appending what is new *)

Section AddNew.
Context {A : Type} `{EqDecision A}.

Definition add_new (out : list A) (x : A) : list A :=
  if bool_decide (x ∈ out) then out else out ++ [x].

Definition add_all (out l : list A) : list A := fold_left add_new l out.

Lemma add_all_app out l k : add_all out (l ++ k) = add_all (add_all out l) k.
Proof. apply fold_left_app. Qed.

Lemma NoDup_snoc (l : list A) x : NoDup l -> x ∉ l -> NoDup (l ++ [x]).
Proof.
  intros Hd Hx. apply list.NoDup_app. split_and!; [done| |apply NoDup_singleton].
  intros y Hy ->%list_elem_of_singleton. done.
Qed.

Lemma add_new_NoDup out x : NoDup out -> NoDup (add_new out x).
Proof. intros Hd. unfold add_new. case_bool_decide; [done|by apply NoDup_snoc]. Qed.

Lemma elem_of_add_new out x y : y ∈ add_new out x <-> y ∈ out \/ y = x.
Proof.
  unfold add_new. case_bool_decide.
  - split; [by left|]. by intros [?| ->].
  - by rewrite elem_of_app, list_elem_of_singleton.
Qed.

Lemma add_all_NoDup out l : NoDup out -> NoDup (add_all out l).
Proof. revert out. induction l as [|x l IH]; intros out Hd; [done|]. by apply IH, add_new_NoDup. Qed.

Lemma elem_of_add_all out l y : y ∈ add_all out l <-> y ∈ out \/ y ∈ l.
Proof.
  revert out. induction l as [|x l IH]; intros out; cbn.
  - split; [by left|]. intros [?|?%not_elem_of_nil]; done.
  - change (y ∈ add_all (add_new out x) l <-> y ∈ out \/ y ∈ x :: l).
    rewrite IH, elem_of_add_new, elem_of_cons. tauto.
Qed.

Lemma add_all_prefix out l : out `prefix_of` add_all out l.
Proof.
  revert out. induction l as [|x l IH]; intros out; [done|]. cbn. etrans; [|apply IH].
  unfold add_new. case_bool_decide; [done|by eexists].
Qed.

(** A list without repetition is appended as it is. *)
Lemma add_all_fresh out l : NoDup l -> (forall x, x ∈ l -> x ∉ out) -> add_all out l = out ++ l.
Proof.
  intros Hd. revert out. induction Hd as [|x l Hx Hd IH]; intros out Hf; [by rewrite app_nil_r|].
  change (add_all (add_new out x) l = out ++ x :: l). unfold add_new.
  rewrite bool_decide_false by (apply Hf; apply elem_of_cons; by left). rewrite IH; [by rewrite <- app_assoc|]. intros y Hy [Hin|Hin]%elem_of_app.
  - revert Hin. apply Hf. apply elem_of_cons. by right.
  - apply list_elem_of_singleton in Hin as ->. done.
Qed.

Lemma add_all_id l : NoDup l -> add_all [] l = l.
Proof. intros Hd. rewrite add_all_fresh; [done|done|]. intros x _ Hx. by apply not_elem_of_nil in Hx. Qed.

Lemma Forall_add_all (P : A -> Prop) out l : Forall P out -> Forall P l -> Forall P (add_all out l).
Proof.
  rewrite !list.Forall_forall. intros Ho Hl x [?|?]%elem_of_add_all; auto.
Qed.

End AddNew.

(** ** Merging by turns *)

Lemma elem_of_flat_map {A B} (f : A -> list B) l y : y ∈ flat_map f l <-> exists x, x ∈ l /\ y ∈ f x.
Proof.
  split.
  - intros (x & Hx & Hy)%list_elem_of_In%in_flat_map. exists x. by rewrite !list_elem_of_In.
  - intros (x & Hx & Hy). apply list_elem_of_In, in_flat_map. exists x. by rewrite <- !list_elem_of_In.
Qed.

Section RoundRobin.
Context {A : Type}.

Definition max_len (ls : list (list A)) : nat := fold_right (fun l n => Nat.max (length l) n) O ls.

(** [for i in 0..max_len { for hosts in &lists { if let Some(a) = hosts.get(i) … } }] *)
Definition by_turns (ls : list (list A)) : list A :=
  flat_map (fun i => omap (fun l => l !! i) ls) (seq 0 (max_len ls)).

Lemma max_len_le ls l : l ∈ ls -> (length l <= max_len ls)%nat.
Proof.
  induction ls as [|k ls IH]; intros H; [by apply not_elem_of_nil in H|].
  apply elem_of_cons in H as [->|H]; cbn; [lia|]. specialize (IH H). unfold max_len in IH. lia.
Qed.

Lemma elem_of_by_turns ls x : x ∈ by_turns ls <-> exists l, l ∈ ls /\ x ∈ l.
Proof.
  unfold by_turns. rewrite elem_of_flat_map. split.
  - intros (i & _ & Hx). apply list_elem_of_omap in Hx as (l & Hl & Hi).
    exists l. split; [done|]. by eapply list_elem_of_lookup_2.
  - intros (l & Hl & Hx). apply list_elem_of_lookup_1 in Hx as [i Hi]. exists i. split.
    + apply elem_of_seq. apply lookup_lt_Some in Hi. pose proof (max_len_le ls l Hl). lia.
    + apply list_elem_of_omap. by exists l.
Qed.

End RoundRobin.

(** ** Stable sorting *)

Section StableSort.
Context {A : Type} (key : A -> Z).

Fixpoint insert_by (x : A) (l : list A) : list A :=
  match l with
  | [] => [x]
  | y :: l' => if key x <=? key y then x :: l else y :: insert_by x l'
  end.

Definition sort_by_key (l : list A) : list A := fold_right insert_by [] l.

Lemma insert_by_Permutation x l : insert_by x l ≡ₚ x :: l.
Proof. induction l as [|y l IH]; cbn; [done|]. dest_if; [done|]. rewrite IH. apply Permutation_swap. Qed.

Lemma sort_by_key_Permutation l : sort_by_key l ≡ₚ l.
Proof. induction l as [|x l IH]; cbn; [done|]. by rewrite insert_by_Permutation, IH. Qed.

Lemma insert_by_sorted x l :
  StronglySorted (fun a b => key a <= key b) l -> StronglySorted (fun a b => key a <= key b) (insert_by x l).
Proof.
  induction 1 as [|y l Hs IH Hf]; cbn; [by repeat constructor|]. destruct (Z.leb_spec (key x) (key y)).
  - constructor; [by constructor|]. constructor; [done|]. eapply List.Forall_impl; [|exact Hf]. cbn. lia.
  - constructor; [done|]. rewrite insert_by_Permutation. constructor; [lia|done].
Qed.

Lemma sort_by_key_sorted l : StronglySorted (fun a b => key a <= key b) (sort_by_key l).
Proof. induction l as [|x l IH]; cbn; [constructor|by apply insert_by_sorted]. Qed.

(** Equal keys keep their order. *)
Lemma sort_by_key_stable l k :
  List.filter (fun a => key a =? k) (sort_by_key l) = List.filter (fun a => key a =? k) l.
Proof.
  assert (Hi : forall x s, List.filter (fun a => key a =? k) (insert_by x s) = List.filter (fun a => key a =? k) (x :: s)).
  { intros x s. induction s as [|y s IH]; [done|]. cbn. destruct (Z.leb_spec (key x) (key y)) as [|Hlt]; [done|].
    cbn in *. rewrite IH. destruct (Z.eqb_spec (key y) k), (Z.eqb_spec (key x) k); done || lia. }
  induction l as [|x l IH]; [done|]. cbn [sort_by_key fold_right]. fold (sort_by_key l).
  rewrite Hi. cbn. by rewrite IH.
Qed.

End StableSort.
