(* ===== verification/Rand.v ===== *)
(** * Random numbers

    The engine draws from [rand::rng()], code outside the repository.  A
    generator is a state with one operation, [draw], and a draw is any
    integer: [random_range] and [fill_bytes] shape draws the way their
    documentation says, so that every sequence of random values is one of
    some generator, and no law is assumed of it. *)

From stdpp Require Import base list.
From Stdlib Require Import ZArith Lia.
From S2P Require Import Prelude.

(** [random_range(lo..=hi)] draws from a random word; it panics on an empty
    range. *)
Definition random_range {E} (word lo hi : Z) : outcome E Z :=
  if lo <=? hi then Done (lo + word `mod` (hi - lo + 1)) else Panic.

Lemma random_range_spec {E} word lo hi :
  lo <= hi -> wp (random_range (E := E) word lo hi) (fun n => lo <= n <= hi) (fun _ => False).
Proof.
  intros Hl. unfold random_range. rewrite (proj2 (Z.leb_le _ _)) by done. cbn.
  pose proof (Z.mod_pos_bound word (hi - lo + 1)). lia.
Qed.

Class Rng (R : Type) := { draw : R -> Z * R }.

Section Draws.
Context {R : Type} `{Rng R}.

Definition pick {E} (r : R) (lo hi : Z) : outcome E (Z * R) :=
  let '(w, r) := draw r in
  n ← random_range w lo hi;
  Done (n, r).

(** [n] values of [f] applied to as many draws. *)
Fixpoint draws (f : Z -> Z) (n : nat) (r : R) : list Z * R :=
  match n with
  | O => ([], r)
  | S n =>
      let '(w, r) := draw r in
      let '(l, r) := draws f n r in
      (f w :: l, r)
  end.

(** [fill_bytes] on a buffer of [n] bytes. *)
Definition fill_bytes (n : Z) (r : R) : list Z * R := draws u8 (Z.to_nat n) r.

Lemma draws_length f n r : length (draws f n r).1 = n.
Proof.
  revert r. induction n as [|n IH]; intros r; cbn; [done|].
  destruct (draw r) as [w r']. specialize (IH r'). destruct (draws f n r'). cbn in *. lia.
Qed.

Lemma draws_Forall f n r (P : Z -> Prop) : (forall w, P (f w)) -> Forall P (draws f n r).1.
Proof.
  intros Hf. revert r. induction n as [|n IH]; intros r; cbn; [constructor|].
  destruct (draw r) as [w r']. specialize (IH r'). destruct (draws f n r'). cbn in *.
  by constructor.
Qed.

Lemma fill_bytes_spec n r :
  0 <= n -> zlen (fill_bytes n r).1 = n /\ bytes_ok (fill_bytes n r).1.
Proof.
  intros Hn. split.
  - unfold zlen, fill_bytes. rewrite draws_length. lia.
  - apply draws_Forall. intros w. unfold byte_ok, u8. apply Z.mod_pos_bound. lia.
Qed.

Lemma wp_pick {E} r lo hi (Q : Z * R -> Prop) (F : E -> Prop) :
  lo <= hi -> (forall n r', lo <= n <= hi -> Q (n, r')) -> wp (pick r lo hi) Q F.
Proof.
  intros Hl HQ. unfold pick. destruct (draw r) as [w r']. apply wp_bind.
  eapply wp_mono; [by apply random_range_spec| |done]. cbn. auto.
Qed.

(** The values of the first [n] draws. *)
Definition drawn (f : Z -> Z) (n : nat) (r : R) : list Z := (draws f n r).1.

(** A search that draws: its result satisfies [Q], or the fuel ran out with
    [D]; it neither fails nor panics. *)
Definition drawing {A} (m : opt (A * R)) (Q : A -> Prop) (D : Prop) : Prop :=
  match m with
  | Done (a, _) => Q a
  | Diverge => D
  | _ => False
  end.

Lemma drawing_bind {A B} (m : opt (A * R)) (f : A * R -> opt (B * R)) (Q' : A -> Prop) Q D :
  drawing m Q' D -> (forall a r, Q' a -> drawing (f (a, r)) Q D) -> drawing (m ≫= f) Q D.
Proof. destruct m as [[a r]| | |]; cbn; auto. Qed.

Lemma drawing_mono {A} (m : opt (A * R)) (Q Q' : A -> Prop) (D D' : Prop) :
  drawing m Q D -> (forall a, Q a -> Q' a) -> (D -> D') -> drawing m Q' D'.
Proof. destruct m as [[a r]| | |]; cbn; auto. Qed.

Lemma wp_drawing {A} (m : opt (A * R)) (Q : A -> Prop) D :
  wp m (fun v => Q v.1) (fun _ => False) -> drawing m Q D.
Proof. by destruct m as [[a r]| | |]. Qed.

End Draws.

(** *** Drawing until enough values are new *)

(** The draws [ds] do not supply [count] new values other than [last]: however
    one picks distinct ones from them, some are missing. *)
Definition short_of (count last : Z) (seen ds : list Z) : Prop :=
  forall cs, NoDup cs -> cs ⊆ ds -> last ∉ cs -> (forall c, c ∈ cs -> c ∉ seen) -> zlen seen + zlen cs < count.

Lemma short_of_skip count last seen c ds :
  c = last \/ c ∈ seen -> short_of count last seen ds -> short_of count last seen (c :: ds).
Proof.
  intros Hc Hs cs Hd Hsub Hl Hn. apply Hs; [done| |done|done]. intros x Hx.
  destruct (proj1 (elem_of_cons _ _ _) (Hsub x Hx)) as [->|]; [|done].
  destruct Hc as [->|Hc]; [done|by destruct (Hn c)].
Qed.

Lemma short_of_take count last seen c ds :
  short_of count last (seen ++ [c]) ds -> short_of count last seen (c :: ds).
Proof.
  intros Hs cs Hd Hsub Hl Hn. set (cs' := filter (fun x => x <> c) cs).
  assert (length cs <= length (c :: cs'))%nat as Hlen.
  { apply submseteq_length, NoDup_submseteq; [done|]. intros x Hx. apply elem_of_cons.
    destruct (decide (x = c)); [by left|right]. by apply list_elem_of_filter. }
  enough (zlen (seen ++ [c]) + zlen cs' < count)
    by (unfold zlen in *; rewrite length_app in *; cbn [length] in *; lia).
  apply Hs; [by apply list.NoDup_filter| | |].
  - intros x [Hne Hx]%list_elem_of_filter. destruct (proj1 (elem_of_cons _ _ _) (Hsub x Hx)); done.
  - intros [_ ?]%list_elem_of_filter. done.
  - intros x [Hne Hx]%list_elem_of_filter. rewrite elem_of_app, list_elem_of_singleton.
    intros [?|?]; [by apply (Hn x)|done].
Qed.

(** A generator to evaluate the definitions with: the congruential one of the
    C standard's example. *)
#[global] Instance lcg : Rng Z := {
  draw s := let s := (s * 1103515245 + 12345) `mod` 2147483648 in (s / 65536, s)
}.
