(* ===== verification/RustStr.v ===== *)
(** * Rust strings

    A [str] is the list of its characters (Unicode scalar values, as [Z]);
    [utf8] gives its bytes.  The functions of [core::str] and [core::num] that
    the engine calls are written out here: trimming, splitting, searching,
    case folding, integer parsing, UTF-8 decoding ([from_utf8] and
    [from_utf8_lossy]).  Lower-casing a character that is not ASCII needs the
    Unicode tables, which are data outside the repository: they are the
    parameter [ucd_lower]. *)

From stdpp Require Import base list option.
From Stdlib Require Import ZArith Lia.
From Stdlib Require Ascii String.
Export String.StringSyntax.
From S2P Require Import Prelude.

Abbreviation str := (list Z).

(** A literal of the source. *)
Fixpoint lit (s : String.string) : str :=
  match s with
  | String.EmptyString => []
  | String.String c s => Z.of_nat (Ascii.nat_of_ascii c) :: lit s
  end.
Arguments lit _%_string_scope.

Definition str_eqb (a b : str) : bool := bool_decide (a = b).

(** ** Characters *)

(** [char::is_whitespace]: the Unicode White_Space property. *)
Definition is_whitespace (c : Z) : bool :=
  ((9 <=? c) && (c <=? 13)) || (c =? 32) || (c =? 133) || (c =? 160) ||
  (c =? 5760) || ((8192 <=? c) && (c <=? 8202)) || (c =? 8232) ||
  (c =? 8233) || (c =? 8239) || (c =? 8287) || (c =? 12288).

Definition is_ascii_digit (c : Z) : bool := (48 <=? c) && (c <=? 57).
Definition is_ascii_upper (c : Z) : bool := (65 <=? c) && (c <=? 90).
Definition is_ascii_lower (c : Z) : bool := (97 <=? c) && (c <=? 122).
Definition is_ascii_alphanumeric (c : Z) : bool :=
  is_ascii_digit c || is_ascii_upper c || is_ascii_lower c.

Definition ascii_lower (c : Z) : Z := if is_ascii_upper c then c + 32 else c.

Definition to_ascii_lowercase (s : str) : str := map ascii_lower s.

Definition ascii_upper (c : Z) : Z := if is_ascii_lower c then c - 32 else c.

Definition to_ascii_uppercase (s : str) : str := map ascii_upper s.

Definition is_ascii_alphabetic (c : Z) : bool := is_ascii_upper c || is_ascii_lower c.

Definition eq_ignore_ascii_case (a b : str) : bool :=
  str_eqb (to_ascii_lowercase a) (to_ascii_lowercase b).

(** The part of [str::to_lowercase] that reads the Unicode tables: what a
    non-ASCII character becomes, given the characters before and after it
    (the final sigma rule looks at both). *)
Class UnicodeData := { ucd_lower : str -> Z -> str -> str }.

Fixpoint lower_from `{UnicodeData} (before after : str) : str :=
  match after with
  | [] => []
  | c :: rest =>
      (if c <? 128 then [ascii_lower c] else ucd_lower before c rest) ++
      lower_from (before ++ [c]) rest
  end.

Definition to_lowercase `{UnicodeData} (s : str) : str := lower_from [] s.

(** ** Trimming *)

Fixpoint trim_start_by (p : Z -> bool) (s : str) : str :=
  match s with
  | [] => []
  | c :: r => if p c then trim_start_by p r else s
  end.

Definition trim_end_by (p : Z -> bool) (s : str) : str :=
  rev (trim_start_by p (rev s)).

Definition trim (s : str) : str := trim_end_by is_whitespace (trim_start_by is_whitespace s).
Definition trim_start_matches (c : Z) (s : str) : str := trim_start_by (Z.eqb c) s.
Definition trim_end_matches (c : Z) (s : str) : str := trim_end_by (Z.eqb c) s.

(** ** Searching and splitting *)

Fixpoint starts_with (s pat : str) : bool :=
  match pat, s with
  | [], _ => true
  | p :: pat, c :: s => (p =? c) && starts_with s pat
  | _ :: _, [] => false
  end.

Definition ends_with (s pat : str) : bool := starts_with (rev s) (rev pat).

Definition strip_prefix (s pat : str) : option str :=
  if starts_with s pat then Some (drop (length pat) s) else None.

Fixpoint contains (s pat : str) : bool :=
  starts_with s pat || match s with [] => false | _ :: r => contains r pat end.

Definition contains_char (s : str) (c : Z) : bool := existsb (Z.eqb c) s.

Fixpoint split_once_by (p : Z -> bool) (s : str) : option (str * str) :=
  match s with
  | [] => None
  | c :: r =>
      if p c then Some ([], r)
      else match split_once_by p r with
           | Some (a, b) => Some (c :: a, b)
           | None => None
           end
  end.

Definition split_once (c : Z) (s : str) : option (str * str) := split_once_by (Z.eqb c) s.

Definition rsplit_once (c : Z) (s : str) : option (str * str) :=
  match split_once c (rev s) with
  | Some (a, b) => Some (rev b, rev a)
  | None => None
  end.

(** [str::split_once] on a pattern of several characters. *)
Fixpoint split_once_str (pat s : str) : option (str * str) :=
  if starts_with s pat then Some ([], drop (length pat) s)
  else match s with
       | [] => None
       | c :: r =>
           match split_once_str pat r with
           | Some (a, b) => Some (c :: a, b)
           | None => None
           end
       end.

(** [str::split] on a set of characters: one more piece than separators. *)
Fixpoint split_by (p : Z -> bool) (s : str) : list str :=
  match s with
  | [] => [[]]
  | c :: r =>
      if p c then [] :: split_by p r
      else match split_by p r with
           | [] => [[c]]
           | x :: xs => (c :: x) :: xs
           end
  end.

Definition split (c : Z) (s : str) : list str := split_by (Z.eqb c) s.

Definition split_whitespace (s : str) : list str :=
  List.filter (fun w => negb (str_eqb w [])) (split_by is_whitespace s).

(** [str::split] on the two-character pattern carriage return, line feed. *)
Fixpoint split_crlf (s : str) : list str :=
  match s with
  | [] => [[]]
  | 13 :: ((10 :: r) as t) => [] :: split_crlf r
  | c :: r =>
      match split_crlf r with
      | [] => [[c]]
      | x :: xs => (c :: x) :: xs
      end
  end.

Definition strip_cr (s : str) : str :=
  match rev s with 13 :: r => rev r | _ => s end.

(** [str::lines]: only a line that was ended by a line feed loses a carriage
    return, and a trailing line feed starts no further line. *)
Definition lines (s : str) : list str :=
  match rev (split 10 s) with
  | [] => []
  | final :: ended =>
      map strip_cr (rev ended) ++ (if str_eqb final [] then [] else [final])
  end.

(** ** Integers *)

Definition digit_value (radix c : Z) : option Z :=
  let v :=
    if is_ascii_digit c then Some (c - 48)
    else if is_ascii_lower c then Some (c - 87)
    else if is_ascii_upper c then Some (c - 55)
    else None in
  match v with
  | Some d => if d <? radix then Some d else None
  | None => None
  end.

Fixpoint digits_value (radix : Z) (acc : Z) (s : str) : option Z :=
  match s with
  | [] => Some acc
  | c :: r =>
      match digit_value radix c with
      | Some d => digits_value radix (acc * radix + d) r
      | None => None
      end
  end.

(** [uN::from_str_radix]: one leading plus sign is accepted, an empty digit
    string and an overflow are errors. *)
Definition from_str_radix (radix max : Z) (s : str) : option Z :=
  let digits := match s with 43 :: r => r | _ => s end in
  match digits with
  | [] => None
  | _ =>
      match digits_value radix 0 digits with
      | Some v => if v <=? max then Some v else None
      | None => None
      end
  end.

Definition parse_uint (max : Z) (s : str) : option Z := from_str_radix 10 max s.

(** [Display] for unsigned integers. *)
Fixpoint decimal_digits (fuel : nat) (n : Z) : str :=
  match fuel with
  | O => []
  | S f => if n <? 10 then [48 + n] else decimal_digits f (n / 10) ++ [48 + n `mod` 10]
  end.

Definition show_uint (n : Z) : str := decimal_digits 40 n.

(** ** UTF-8 *)

Definition is_scalar (c : Z) : Prop := 0 <= c < 55296 \/ 57344 <= c < 1114112.

#[global] Instance is_scalar_dec c : Decision (is_scalar c).
Proof. unfold is_scalar. apply _. Defined.

Definition utf8_char (c : Z) : list Z :=
  if c <? 128 then [c]
  else if c <? 2048 then [192 + c / 64; 128 + c `mod` 64]
  else if c <? 65536 then [224 + c / 4096; 128 + (c / 64) `mod` 64; 128 + c `mod` 64]
  else [240 + c / 262144; 128 + (c / 4096) `mod` 64; 128 + (c / 64) `mod` 64; 128 + c `mod` 64].

(** [str::as_bytes]; [str::len] is [zlen (utf8 s)]. *)
Definition utf8 (s : str) : list Z := flat_map utf8_char s.

Definition between (lo x hi : Z) : bool := (lo <=? x) && (x <=? hi).
Definition is_cont (b : Z) : bool := between 128 b 191.

(** The second byte allowed after the lead byte of a 3- or 4-byte sequence. *)
Definition second3 (b x : Z) : bool :=
  if b =? 224 then between 160 x 191
  else if b =? 237 then between 128 x 159
  else is_cont x.
Definition second4 (b x : Z) : bool :=
  if b =? 240 then between 144 x 191
  else if b =? 244 then between 128 x 143
  else is_cont x.

(** One entry per character, [None] for each maximal invalid sequence, as
    [core::str::lossy::Utf8Chunks] cuts them. *)
Fixpoint utf8_decode (l : list Z) : list (option Z) :=
  match l with
  | [] => []
  | b :: r =>
      if b <? 128 then Some b :: utf8_decode r
      else if between 194 b 223 then
        match r with
        | x :: r1 =>
            if is_cont x then Some ((b - 192) * 64 + (x - 128)) :: utf8_decode r1
            else None :: utf8_decode r
        | [] => [None]
        end
      else if between 224 b 239 then
        match r with
        | x :: r1 =>
            if second3 b x then
              match r1 with
              | y :: r2 =>
                  if is_cont y
                  then Some ((b - 224) * 4096 + (x - 128) * 64 + (y - 128)) :: utf8_decode r2
                  else None :: utf8_decode r1
              | [] => [None]
              end
            else None :: utf8_decode r
        | [] => [None]
        end
      else if between 240 b 244 then
        match r with
        | x :: r1 =>
            if second4 b x then
              match r1 with
              | y :: r2 =>
                  if is_cont y then
                    match r2 with
                    | z :: r3 =>
                        if is_cont z
                        then Some ((b - 240) * 262144 + (x - 128) * 4096 +
                                   (y - 128) * 64 + (z - 128)) :: utf8_decode r3
                        else None :: utf8_decode r2
                    | [] => [None]
                    end
                  else None :: utf8_decode r1
              | [] => [None]
              end
            else None :: utf8_decode r
        | [] => [None]
        end
      else None :: utf8_decode r
  end.

(** [std::str::from_utf8] *)
Definition from_utf8 (l : list Z) : option str := mapM id (utf8_decode l).

(** [String::from_utf8_lossy] *)
Definition from_utf8_lossy (l : list Z) : str := default 65533 <$> utf8_decode l.

(** ** Facts *)

Lemma str_eqb_eq a b : str_eqb a b = true <-> a = b.
Proof. unfold str_eqb. apply bool_decide_eq_true. Qed.

Lemma str_eqb_refl a : str_eqb a a = true.
Proof. by apply str_eqb_eq. Qed.

Lemma utf8_app a b : utf8 (a ++ b) = utf8 a ++ utf8 b.
Proof. apply flat_map_app. Qed.

Lemma utf8_char_ok c : is_scalar c -> bytes_ok (utf8_char c).
Proof.
  unfold is_scalar, utf8_char, bytes_ok, byte_ok. intros Hc.
  repeat dest_if; repeat constructor; Z.div_mod_to_equations; lia.
Qed.

Lemma utf8_ok s : Forall is_scalar s -> bytes_ok (utf8 s).
Proof.
  induction 1; [constructor|]. apply bytes_ok_app. auto using utf8_char_ok.
Qed.

Lemma between_true lo x hi : between lo x hi = true <-> lo <= x <= hi.
Proof. unfold between. lia. Qed.

Lemma between_false lo x hi : between lo x hi = false <-> x < lo \/ hi < x.
Proof. unfold between. lia. Qed.

(** Rewrites the guard of the next [if] to the branch the arithmetic forces. *)
Ltac branch b tac :=
  lazymatch goal with
  | |- context [if ?g then _ else _] =>
      replace g with b by (symmetry; tac)
  end; cbv beta iota.

Ltac arith_guard :=
  rewrite ?between_true, ?between_false; unfold second3, second4, is_cont, between;
  repeat match goal with |- context [if ?g then _ else _] => destruct g eqn:? end;
  Z.div_mod_to_equations; lia.

Lemma utf8_decode_char c l :
  is_scalar c -> utf8_decode (utf8_char c ++ l) = Some c :: utf8_decode l.
Proof.
  unfold is_scalar, utf8_char. intros Hc.
  destruct (Z.ltb_spec c 128); [|destruct (Z.ltb_spec c 2048); [|destruct (Z.ltb_spec c 65536)]];
    cbn [app utf8_decode].
  - branch true arith_guard. done.
  - branch false arith_guard. branch true arith_guard. branch true arith_guard.
    do 2 f_equal. Z.div_mod_to_equations. lia.
  - branch false arith_guard. branch false arith_guard. branch true arith_guard.
    branch true arith_guard. branch true arith_guard.
    do 2 f_equal. Z.div_mod_to_equations. lia.
  - branch false arith_guard. branch false arith_guard. branch false arith_guard.
    branch true arith_guard. branch true arith_guard. branch true arith_guard.
    branch true arith_guard.
    do 2 f_equal. Z.div_mod_to_equations. lia.
Qed.

Lemma utf8_decode_encode s l :
  Forall is_scalar s -> utf8_decode (utf8 s ++ l) = map Some s ++ utf8_decode l.
Proof.
  induction 1 as [|c s Hc Hs IH]; [done|].
  unfold utf8. cbn [flat_map]. rewrite <- app_assoc, utf8_decode_char by done.
  fold (utf8 s). rewrite IH. done.
Qed.

Lemma from_utf8_lossy_utf8 s : Forall is_scalar s -> from_utf8_lossy (utf8 s) = s.
Proof.
  intros H. unfold from_utf8_lossy. rewrite <- (app_nil_r (utf8 s)).
  rewrite utf8_decode_encode by done. cbn. rewrite app_nil_r.
  clear H. induction s as [|c s IH]; [done|]. cbn. f_equal. exact IH.
Qed.

Lemma from_utf8_utf8 s : Forall is_scalar s -> from_utf8 (utf8 s) = Some s.
Proof.
  intros H. unfold from_utf8. rewrite <- (app_nil_r (utf8 s)).
  rewrite utf8_decode_encode by done. cbn. rewrite app_nil_r.
  clear H. induction s as [|c s IH]; [done|]. cbn. rewrite IH. done.
Qed.

Lemma utf8_ascii s : Forall (fun c => 0 <= c < 128) s -> utf8 s = s.
Proof.
  induction 1 as [|c s Hc Hs IH]; [done|]. unfold utf8. cbn [flat_map].
  fold (utf8 s). rewrite IH. unfold utf8_char.
  destruct (Z.ltb_spec c 128); [done|lia].
Qed.

Lemma lower_from_ascii `{UnicodeData} before s :
  Forall (fun c => 0 <= c < 128) s -> lower_from before s = to_ascii_lowercase s.
Proof.
  intros Hs. revert before. induction Hs as [|c s Hc Hs IH]; intros before; [done|].
  cbn. destruct (Z.ltb_spec c 128); [|lia]. cbn. by rewrite IH.
Qed.

Lemma to_lowercase_ascii `{UnicodeData} s :
  Forall (fun c => 0 <= c < 128) s -> to_lowercase s = to_ascii_lowercase s.
Proof. apply lower_from_ascii. Qed.

Lemma ascii_lower_idem c : ascii_lower (ascii_lower c) = ascii_lower c.
Proof.
  unfold ascii_lower, is_ascii_upper.
  repeat match goal with |- context [if ?g then _ else _] => destruct g eqn:? end; lia.
Qed.

Lemma to_ascii_lowercase_length s : length (to_ascii_lowercase s) = length s.
Proof. apply length_map. Qed.

Lemma digit_value_bound radix c d : digit_value radix c = Some d -> 0 <= d < radix.
Proof.
  unfold digit_value, is_ascii_digit, is_ascii_lower, is_ascii_upper.
  repeat (match goal with |- context [if ?g then _ else _] => destruct g eqn:? end; try done);
    intros [= <-]; lia.
Qed.

Lemma digits_value_nonneg radix s acc v :
  0 <= radix -> 0 <= acc -> digits_value radix acc s = Some v -> 0 <= v.
Proof.
  intros Hr. revert acc. induction s as [|c s IH]; cbn; intros acc Hacc; [by intros [= <-]|].
  destruct (digit_value radix c) as [d|] eqn:Ed; [|done].
  apply digit_value_bound in Ed. apply IH. nia.
Qed.

Lemma from_str_radix_range radix max s v :
  0 <= radix -> from_str_radix radix max s = Some v -> 0 <= v <= max.
Proof.
  intros Hr. unfold from_str_radix.
  set (d := match s with 43 :: r => r | _ => s end). clearbody d.
  destruct d as [|c d]; [done|].
  destruct (digits_value radix 0 (c :: d)) as [w|] eqn:E; [|done].
  destruct (Z.leb_spec w max); [|done]. intros [= <-].
  split; [|done]. eapply (digits_value_nonneg radix); [done| |exact E]. lia.
Qed.

Lemma digits_value_app radix acc a b :
  digits_value radix acc (a ++ b) =
  match digits_value radix acc a with Some v => digits_value radix v b | None => None end.
Proof.
  revert acc. induction a as [|c a IH]; intros acc; [done|]. cbn.
  destruct (digit_value radix c); [apply IH|done].
Qed.

Lemma digit_value_10 d : 0 <= d < 10 -> digit_value 10 (48 + d) = Some d.
Proof.
  intros. unfold digit_value, is_ascii_digit.
  destruct ((48 <=? 48 + d) && (48 + d <=? 57)) eqn:E; [|lia].
  replace (48 + d - 48) with d by lia. destruct (Z.ltb_spec d 10); [done|lia].
Qed.

Lemma decimal_digits_value fuel n :
  0 <= n < 10 ^ Z.of_nat fuel -> digits_value 10 0 (decimal_digits fuel n) = Some n.
Proof.
  revert n. induction fuel as [|f IH]; intros n Hn; [cbn in *; do 2 f_equal; lia|].
  rewrite Nat2Z.inj_succ, Z.pow_succ_r in Hn by lia.
  cbn [decimal_digits]. destruct (Z.ltb_spec n 10) as [|Hge].
  - cbn [digits_value]. rewrite digit_value_10 by lia. f_equal.
  - rewrite digits_value_app, IH by (Z.div_mod_to_equations; lia).
    cbn [digits_value]. rewrite digit_value_10 by (Z.div_mod_to_equations; lia).
    f_equal. Z.div_mod_to_equations. lia.
Qed.

Lemma decimal_digits_digit fuel n :
  0 <= n -> Forall (fun c => 48 <= c <= 57) (decimal_digits fuel n).
Proof.
  revert n. induction fuel as [|f IH]; intros n Hn; [constructor|].
  cbn. destruct (Z.ltb_spec n 10); [repeat constructor; lia|].
  apply Forall_app. split; [apply IH; Z.div_mod_to_equations; lia|].
  repeat constructor; Z.div_mod_to_equations; lia.
Qed.

Lemma decimal_digits_nonempty fuel n : decimal_digits (S fuel) n <> [].
Proof. cbn. destruct (n <? 10); [done|]. by destruct (decimal_digits fuel _). Qed.

(** Printing and reading an unsigned integer are inverse. *)
Lemma parse_show_uint max n :
  0 <= n <= max -> max < 10 ^ 40 -> parse_uint max (show_uint n) = Some n.
Proof.
  intros Hn Hm. unfold parse_uint, from_str_radix, show_uint.
  pose proof (decimal_digits_nonempty 39 n) as Hne.
  pose proof (decimal_digits_digit 40 n ltac:(lia)) as Hd.
  pose proof (decimal_digits_value 40 n ltac:(lia)) as Hv.
  destruct (decimal_digits 40 n) as [|c r] eqn:E; [done|].
  inversion Hd as [|? ? Hc Hr]; subst.
  assert (Hs : match c :: r with 43 :: r' => r' | _ => c :: r end = c :: r).
  { destruct c as [|p|p]; try done. do 6 (destruct p as [p|p|]; try done). }
  rewrite Hs, Hv. destruct (Z.leb_spec n max); [done|lia].
Qed.
