(* ===== verification/StrFacts.v ===== *)
(** * Facts about Rust strings

    Trimming, splitting and searching on the texts the components put
    together, shared by every parser of the development. *)

From stdpp Require Import base list.
From Stdlib Require Import ZArith Lia.
From S2P Require Import Prelude RustStr.

Lemma ends_with_spec s pat : ends_with s pat = true <-> exists p, s = p ++ pat.
Proof.
  assert (Hs : forall a b, starts_with a b = true <-> exists k, a = b ++ k).
  { intros a b. revert a. induction b as [|y b IH]; intros a; [split; [by exists a|by destruct a]|].
    destruct a as [|x a]; cbn [starts_with app]; [split; [done|intros [? ?]; done]|].
    rewrite andb_true_iff, Z.eqb_eq, IH. split.
    - intros [-> [k ->]]. by exists k.
    - intros [k [= -> ->]]. split; [done|by exists k]. }
  unfold ends_with. rewrite Hs. split; intros [k Hk].
  - exists (rev k). apply (f_equal (@rev Z)) in Hk. by rewrite rev_involutive, rev_app_distr, rev_involutive in Hk.
  - exists (rev k). by rewrite Hk, rev_app_distr.
Qed.

Lemma existsb_elem {A} (f : A -> bool) l : existsb f l = true <-> exists x, x ∈ l /\ f x = true.
Proof. rewrite existsb_exists. by setoid_rewrite list_elem_of_In. Qed.

Lemma trim_start_all p s : forallb p s = true -> trim_start_by p s = [].
Proof. induction s as [|c s IH]; [done|]. cbn. by intros [-> ?]%andb_prop; auto. Qed.

Lemma trim_start_nil p s : trim_start_by p s = [] -> forallb p s = true.
Proof. induction s as [|c s IH]; [done|]. cbn. destruct (p c); [auto|done]. Qed.

Lemma trim_nil s : trim s = [] <-> forallb is_whitespace s = true.
Proof.
  unfold trim, trim_end_by. split.
  - intros Ht. apply (f_equal (@rev Z)) in Ht. rewrite rev_involutive in Ht. cbn [rev] in Ht.
    apply trim_start_nil in Ht. apply forallb_forall. intros c Hc.
    destruct (trim_start_by is_whitespace s) as [|x r] eqn:E.
    + apply trim_start_nil in E. by rewrite forallb_forall in E; apply E.
    + exfalso. assert (Hx : is_whitespace x = false).
      { clear -E. induction s as [|c s IH]; [done|]. cbn in E. destruct (is_whitespace c) eqn:Ec; [auto|].
        by injection E as -> ->. }
      rewrite forallb_forall in Ht. rewrite (Ht x) in Hx; [done|]. apply in_rev. rewrite rev_involutive. by left.
  - intros Hs. rewrite (trim_start_all is_whitespace s) by done. done.
Qed.

Lemma trim_cons_space c s : is_whitespace c = true -> trim (c :: s) = trim s.
Proof. intros Hc. unfold trim. cbn. by rewrite Hc. Qed.

Lemma split_by_nonempty p s : split_by p s <> [].
Proof. destruct s as [|c s]; [done|]. cbn. destruct (p c); [done|]. by destruct (split_by p s). Qed.

Lemma split_by_sep p a c b : p c = true -> split_by p (a ++ c :: b) = split_by p a ++ split_by p b.
Proof.
  intros Hc. induction a as [|x a IH]; cbn [app split_by]; [by rewrite Hc|].
  rewrite IH. destruct (p x); [done|]. pose proof (split_by_nonempty p a). by destruct (split_by p a).
Qed.

Lemma trim_start_length p s : (length (trim_start_by p s) <= length s)%nat.
Proof. induction s as [|c s IH]; [done|]. cbn. destruct (p c); cbn; lia. Qed.

Lemma trimmed_strip_cr l : trim l = l -> strip_cr l = l.
Proof.
  intros Ht. unfold strip_cr. destruct (rev l) as [|c r] eqn:E; [done|].
  assert (Hc : c <> 13).
  { intros ->. unfold trim, trim_end_by in Ht.
    assert (Hs : trim_start_by is_whitespace l = l).
    { pose proof (trim_start_length is_whitespace l) as Hl.
      pose proof (trim_start_length is_whitespace (rev (trim_start_by is_whitespace l))) as Hl2.
      rewrite length_rev in Hl2. apply (f_equal (@length Z)) in Ht. rewrite length_rev in Ht.
      destruct l as [|x l]; [done|]. cbn in *. destruct (is_whitespace x); [|done].
      pose proof (trim_start_length is_whitespace l). lia. }
    rewrite Hs, E in Ht. cbn in Ht. apply (f_equal (@length Z)) in Ht. rewrite length_rev in Ht.
    pose proof (trim_start_length is_whitespace r). apply (f_equal (@length Z)) in E.
    rewrite length_rev in E. cbn in E. lia. }
  destruct c as [|p|p]; try done. do 4 (destruct p as [p|p|]; try done).
Qed.

Lemma split_none c s : c ∉ s -> split c s = [s].
Proof.
  intros Hs. unfold split. induction s as [|x s IH]; [done|]. apply not_elem_of_cons in Hs as [Hx Hs].
  cbn [split_by]. rewrite (proj2 (Z.eqb_neq c x)) by done. by rewrite IH.
Qed.

Lemma starts_with_one x c l : starts_with (c :: l) [x] = (x =? c).
Proof. cbn. by destruct l; rewrite andb_true_r. Qed.

Lemma trim_start_id p s : match s with c :: _ => p c = false | [] => True end -> trim_start_by p s = s.
Proof. destruct s as [|c s]; [done|]. cbn. by intros ->. Qed.

Lemma trim_end_id p s : match rev s with c :: _ => p c = false | [] => True end -> trim_end_by p s = s.
Proof. intros Hs. unfold trim_end_by. rewrite trim_start_id by done. apply rev_involutive. Qed.

Lemma split_once_none c s : c ∉ s -> split_once c s = None.
Proof.
  intros Hs. unfold split_once. induction s as [|x s IH]; [done|]. apply not_elem_of_cons in Hs as [Hx Hs].
  cbn. rewrite (proj2 (Z.eqb_neq c x)) by done. by rewrite IH.
Qed.

Lemma split_once_at c a b : c ∉ a -> split_once c (a ++ c :: b) = Some (a, b).
Proof.
  unfold split_once. induction a as [|x a IH]; intros Hc; cbn [app split_once_by].
  - by rewrite Z.eqb_refl.
  - apply not_elem_of_cons in Hc as [Hx Hc]. rewrite (proj2 (Z.eqb_neq _ _)) by done.
    by rewrite IH.
Qed.

Lemma rsplit_once_at c a b : c ∉ b -> rsplit_once c (a ++ c :: b) = Some (a, b).
Proof.
  intros Hc. unfold rsplit_once. rewrite rev_app_distr. cbn [rev]. rewrite <- app_assoc. cbn [app].
  rewrite split_once_at.
  - by rewrite !rev_involutive.
  - intros Hin%list_elem_of_In%in_rev. apply Hc. by apply list_elem_of_In.
Qed.

Lemma rsplit_once_none c s : c ∉ s -> rsplit_once c s = None.
Proof.
  intros Hc. unfold rsplit_once. rewrite split_once_none; [done|].
  intros Hin%list_elem_of_In%in_rev. apply Hc. by apply list_elem_of_In.
Qed.

Lemma split_once_str_at a b :
  58 ∉ a -> split_once_str (lit "://") (a ++ lit "://" ++ b) = Some (a, b).
Proof.
  induction a as [|x a IH]; intros Hc; [by destruct b|].
  apply not_elem_of_cons in Hc as [Hx Hc]. cbn [app split_once_str]. specialize (IH Hc). cbn [app] in IH. rewrite IH.
  cbn [lit starts_with]. by rewrite (proj2 (Z.eqb_neq _ _)) by done.
Qed.

Lemma show_uint_digits n : 0 <= n -> Forall (fun c => 48 <= c <= 57) (show_uint n).
Proof. apply decimal_digits_digit. Qed.

Lemma not_in_digits c n : 0 <= n -> ~ (48 <= c <= 57) -> c ∉ show_uint n.
Proof.
  intros Hn Hc Hin. apply Hc.
  exact (proj1 (List.Forall_forall _ _) (show_uint_digits n Hn) c (proj1 (list_elem_of_In _ _) Hin)).
Qed.

(** A text that ends in a printed number ends in a digit. *)
Lemma rev_show_uint n a :
  0 <= n -> exists c r, rev (a ++ show_uint n) = c :: r /\ 48 <= c <= 57.
Proof.
  intros Hn. rewrite rev_app_distr. pose proof (show_uint_digits n Hn) as Hd.
  pose proof (decimal_digits_nonempty 39 n) as Hne. fold (show_uint n) in Hne.
  destruct (rev (show_uint n)) as [|c r] eqn:Er; apply (f_equal (@rev Z)) in Er;
    rewrite rev_involutive in Er; [done|].
  exists c, (r ++ rev a). split; [done|]. rewrite Er in Hd. cbn [rev] in Hd.
  apply Forall_app in Hd as [_ Hd]. by apply Forall_cons_iff in Hd as [Hd _].
Qed.

Lemma ascii_scalars s : forallb (fun c => (0 <=? c) && (c <? 128)) s = true -> Forall is_scalar s.
Proof.
  rewrite forallb_forall. intros Hs. apply List.Forall_forall. intros c Hc%Hs. left. lia.
Qed.

Lemma contains_char_spec h c : contains_char h c = true <-> c ∈ h.
Proof.
  unfold contains_char. rewrite existsb_exists. split.
  - intros (x & Hx & He). apply Z.eqb_eq in He as ->. by apply list_elem_of_In.
  - intros Hc. exists c. split; [by apply list_elem_of_In | apply Z.eqb_refl].
Qed.

Lemma ends_in_number a n p :
  0 <= n -> (forall c, 48 <= c <= 57 -> p c = false) -> trim_end_by p (a ++ show_uint n) = a ++ show_uint n.
Proof.
  intros Hn Hp. apply trim_end_id. destruct (rev_show_uint n a Hn) as (c & r & -> & Hc). by apply Hp.
Qed.

Lemma digit_not_space c : 48 <= c <= 57 -> is_whitespace c = false.
Proof. intros. unfold is_whitespace. lia. Qed.

Lemma strip_prefix_one c s : strip_prefix (c :: s) [c] = Some s.
Proof.
  unfold strip_prefix. cbn [starts_with length drop]. rewrite Z.eqb_refl. by destruct s.
Qed.

(** A character that is not in a literal. *)
Ltac closed_notin :=
  match goal with |- ?c ∉ ?l => exact (bool_decide_unpack (c ∉ l) I) end.

Definition ascii_only : UnicodeData := {| ucd_lower := fun _ c _ => [c] |}.

(** Hexadecimal digits read in pairs: what [hex::decode] is documented to do. *)
Fixpoint hex_pairs (s : str) : option (list Z) :=
  match s with
  | [] => Some []
  | [_] => None
  | a :: b :: s =>
      x ← digit_value 16 a;
      y ← digit_value 16 b;
      l ← hex_pairs s;
      Some (16 * x + y :: l)
  end.
