(* ===== verification/Octets.v ===== *)
(** * The byte cursors of the [octets] crate

    [Octets] reads and [OctetsMut] writes at an offset of a buffer; the
    variable-length integer is the QUIC one.  A failed operation leaves the
    cursor where it was, as the macros of the crate return before they move
    the offset. *)

From stdpp Require Import base list option.
From Stdlib Require Import ZArith Lia.
From S2P Require Import Prelude.

Inductive BufferTooShortError := BufferTooShort.

#[global] Instance BufferTooShortError_eq_dec : EqDecision BufferTooShortError.
Proof. solve_decision. Defined.

Definition MAX_VAR_INT : Z := 4611686018427387903.

(** [varint_len]; [Panic] is its [unreachable!]. *)
Definition varint_len {E} (v : Z) : outcome E Z :=
  if v <=? 63 then Done 1
  else if v <=? 16383 then Done 2
  else if v <=? 1073741823 then Done 4
  else if v <=? MAX_VAR_INT then Done 8
  else Panic.

Definition varint_parse_len {E} (first : Z) : outcome E Z :=
  match Z.shiftr first 6 with
  | 0 => Done 1
  | 1 => Done 2
  | 2 => Done 4
  | 3 => Done 8
  | _ => Panic
  end.

Module Octets.
Record t := mk { buf : list Z; off : Z }.

Abbreviation result A := (outcome BufferTooShortError A).

Definition with_slice (b : list Z) : t := mk b 0.

Definition cap (o : t) : Z := zlen (buf o) - off o.

(** [as_ref]: the bytes from the offset on. *)
Definition rest (o : t) : list Z := zdrop (off o) (buf o).

(** The macro [peek_u!]. *)
Definition peek_u (len : Z) (o : t) : result Z :=
  let src := rest o in
  if zlen src <? len then Fail BufferTooShort else Done (be_value (ztake len src)).

(** The macro [get_u!]. *)
Definition get_u (len : Z) (o : t) : result (Z * t) :=
  v ← peek_u len o; Done (v, mk (buf o) (off o + len)).

Definition get_u8 := get_u 1.
Definition peek_u8 := peek_u 1.
Definition get_u16 := get_u 2.
Definition get_u24 := get_u 3.
Definition get_u32 := get_u 4.
Definition get_u64 := get_u 8.

Definition get_varint (o : t) : result (Z * t) :=
  first ← peek_u8 o;
  len ← varint_parse_len first;
  if len >? cap o then Fail BufferTooShort
  else match len with
       | 1 => get_u8 o
       | 2 => '(v, o') ← get_u16 o; Done (Z.land v 0x3fff, o')
       | 4 => '(v, o') ← get_u32 o; Done (Z.land v 0x3fffffff, o')
       | 8 => '(v, o') ← get_u64 o; Done (Z.land v 0x3fffffffffffffff, o')
       | _ => Panic
       end.

Definition get_bytes (len : Z) (o : t) : result (t * t) :=
  if cap o <? len then Fail BufferTooShort
  else s ← slice (buf o) (off o) (off o + len);
       Done (mk s 0, mk (buf o) (off o + len)).

Definition skip (n : Z) (o : t) : result t :=
  if n >? cap o then Fail BufferTooShort else Done (mk (buf o) (off o + n)).

Definition rewind (n : Z) (o : t) : result t :=
  if off o <? n then Fail BufferTooShort else Done (mk (buf o) (off o - n)).

Definition to_vec (o : t) : list Z := rest o.
End Octets.

Module OctetsMut.
Record t := mk { buf : list Z; off : Z }.

Abbreviation result A := (outcome BufferTooShortError A).

Definition with_slice (b : list Z) : t := mk b 0.
Definition cap (o : t) : Z := zlen (buf o) - off o.

(** [buf[at..at+v.len()].copy_from_slice(v)] *)
Definition store (b : list Z) (at_ : Z) (v : list Z) : list Z :=
  ztake at_ b ++ v ++ zdrop (at_ + zlen v) b.

(** The macro [put_u!]. *)
Definition put_u (len : nat) (v : Z) (o : t) : result t :=
  if zlen (buf o) <? off o + Z.of_nat len then Fail BufferTooShort
  else Done (mk (store (buf o) (off o) (be_bytes len v)) (off o + Z.of_nat len)).

Definition put_u8 := put_u 1.
Definition put_u16 := put_u 2.
Definition put_u32 := put_u 4.
Definition put_u64 := put_u 8.

(** [buf[0] |= mask] on the slice just written, which starts at [at]. *)
Definition or_at (at_ mask : Z) (o : t) : t :=
  mk (alter (fun b => Z.lor b mask) (Z.to_nat at_) (buf o)) (off o).

Definition put_varint_with_len (v len : Z) (o : t) : result t :=
  if cap o <? len then Fail BufferTooShort
  else match len with
       | 1 => put_u8 (u8 v) o
       | 2 => o' ← put_u16 (u16 v) o; Done (or_at (off o) 0x40 o')
       | 4 => o' ← put_u32 (u32 v) o; Done (or_at (off o) 0x80 o')
       | 8 => o' ← put_u64 v o; Done (or_at (off o) 0xc0 o')
       | _ => Panic
       end.

Definition put_varint (v : Z) (o : t) : result t :=
  len ← varint_len v; put_varint_with_len v len o.

Definition put_bytes (v : list Z) (o : t) : result t :=
  if cap o <? zlen v then Fail BufferTooShort
  else if zlen v =? 0 then Done o
  else Done (mk (store (buf o) (off o) v) (off o + zlen v)).
End OctetsMut.

(** ** The varint format *)

(** Reference encoding: the length in the two top bits of the first byte. *)
Definition varint_bytes (v : Z) : list Z :=
  if v <=? 63 then [v]
  else if v <=? 16383 then be_bytes 2 (v + 0x4000)
  else if v <=? 1073741823 then be_bytes 4 (v + 0x80000000)
  else be_bytes 8 (v + 0xc000000000000000).

Definition varint_ok (v : Z) : Prop := 0 <= v <= MAX_VAR_INT.

Lemma varint_len_bytes {E} v :
  varint_ok v -> @varint_len E v = Done (zlen (varint_bytes v)).
Proof.
  unfold varint_ok, varint_len, varint_bytes, MAX_VAR_INT. intros Hv.
  repeat (dest_if; [by rewrite ?zlen_be_bytes|]). lia.
Qed.

Lemma varint_bytes_nonempty v : 0 < zlen (varint_bytes v) <= 8.
Proof.
  unfold varint_bytes. repeat dest_if; rewrite ?zlen_be_bytes; unfold zlen; simpl; lia.
Qed.

Lemma varint_bytes_ok v : 0 <= v -> bytes_ok (varint_bytes v).
Proof.
  intros. unfold varint_bytes. repeat dest_if; auto with bytes.
  repeat constructor; lia.
Qed.

(** ** Reading *)

Module Reads.
Import Octets.

(** The cursor stands before the bytes [l]. *)
Definition at_bytes (o : t) (l : list Z) : Prop :=
  0 <= off o <= zlen (buf o) /\ rest o = l.

Definition advance (o : t) (n : Z) : t := mk (buf o) (off o + n).

Lemma at_bytes_start b : at_bytes (with_slice b) b.
Proof. split; [cbn; pose proof (zlen_nonneg b); lia|done]. Qed.

Lemma at_bytes_cap o l : at_bytes o l -> cap o = zlen l.
Proof. intros [Ho <-]. unfold cap, rest. rewrite zlen_zdrop by lia. done. Qed.

Lemma at_bytes_advance o l k :
  at_bytes o (l ++ k) -> at_bytes (advance o (zlen l)) k.
Proof.
  intros [Ho Hr]. unfold at_bytes, advance, rest in *; cbn.
  pose proof (zlen_nonneg l) as Hl. pose proof (zlen_nonneg k) as Hk.
  assert (zlen (zdrop (off o) (buf o)) = zlen l + zlen k) as Hz
    by (rewrite Hr; apply zlen_app).
  rewrite zlen_zdrop in Hz by lia. split; [lia|].
  rewrite Z.add_comm, <- zdrop_zdrop, Hr by lia. apply zdrop_app_eq.
Qed.

Lemma get_u_at len o l k :
  at_bytes o (l ++ k) -> len = zlen l ->
  get_u len o = Done (be_value l, advance o len).
Proof.
  intros [Ho Hr] ->. unfold get_u, peek_u. rewrite Hr, ztake_app_eq, zlen_app.
  pose proof (zlen_nonneg k). destruct (Z.ltb_spec (zlen l + zlen k) (zlen l)); [lia|done].
Qed.

Lemma get_u_short len o l :
  at_bytes o l -> zlen l < len -> get_u len o = Fail BufferTooShort.
Proof.
  intros [Ho Hr] Hl. unfold get_u, peek_u. rewrite Hr.
  destruct (Z.ltb_spec (zlen l) len); [done|lia].
Qed.

Lemma get_bytes_at o l k :
  at_bytes o (l ++ k) ->
  get_bytes (zlen l) o = Done (with_slice l, advance o (zlen l)).
Proof.
  intros Ha. pose proof (at_bytes_cap _ _ Ha) as Hc. destruct Ha as [Ho Hr].
  unfold get_bytes. rewrite Hc, zlen_app.
  pose proof (zlen_nonneg k). pose proof (zlen_nonneg l).
  destruct (Z.ltb_spec (zlen l + zlen k) (zlen l)); [lia|].
  unfold slice, cap in *. rewrite zlen_app in Hc.
  rewrite (proj2 (in_slice_true _ _ _)) by lia. cbn.
  unfold zsub. replace (off o + zlen l - off o) with (zlen l) by lia.
  unfold rest in Hr. rewrite Hr, ztake_app_eq. done.
Qed.

Lemma peek_u8_at o b l :
  at_bytes o (b :: l) -> peek_u8 o = Done b.
Proof.
  intros [Ho Hr]. unfold peek_u8, peek_u. rewrite Hr, zlen_cons.
  pose proof (zlen_nonneg l). destruct (Z.ltb_spec (1 + zlen l) 1); [lia|].
  unfold ztake. cbn. destruct l; done.
Qed.

(** The number of bytes announced by the first byte of a varint. *)
Definition varint_width (b : Z) : nat :=
  if b <? 64 then 1 else if b <? 128 then 2 else if b <? 192 then 4 else 8.

Lemma varint_parse_len_width {E} b :
  byte_ok b -> @varint_parse_len E b = Done (Z.of_nat (varint_width b)).
Proof.
  unfold byte_ok, varint_parse_len, varint_width. intros Hb.
  rewrite Z.shiftr_div_pow2 by lia. change (2 ^ 6) with 64.
  repeat dest_if.
  - by replace (b / 64) with 0 by (Z.div_mod_to_equations; lia).
  - by replace (b / 64) with 1 by (Z.div_mod_to_equations; lia).
  - by replace (b / 64) with 2 by (Z.div_mod_to_equations; lia).
  - by replace (b / 64) with 3 by (Z.div_mod_to_equations; lia).
Qed.

Lemma get_u_take n o l :
  at_bytes o l -> (n <= length l)%nat ->
  get_u (Z.of_nat n) o = Done (be_value (take n l), advance o (Z.of_nat n)).
Proof.
  intros Ha Hn. apply (get_u_at _ _ _ (drop n l)); [by rewrite take_drop|].
  unfold zlen. rewrite length_take. lia.
Qed.

(** One varint read, whatever bytes are ahead. *)
Lemma get_varint_at o b l :
  at_bytes o (b :: l) -> byte_ok b ->
  let n := varint_width b in
  get_varint o =
  if (length (b :: l) <? n)%nat then Fail BufferTooShort
  else Done (be_value (take n (b :: l)) `mod` 2 ^ (8 * Z.of_nat n - 2), advance o (Z.of_nat n)).
Proof.
  intros Ha Hb n. pose proof (at_bytes_cap _ _ Ha) as Hc. unfold get_varint.
  rewrite (peek_u8_at o b l) by done. cbn [mbind outcome_bind].
  rewrite varint_parse_len_width by done. cbn [mbind outcome_bind]. fold n.
  rewrite Hc. unfold zlen.
  replace (Z.of_nat n >? Z.of_nat (length (b :: l))) with (length (b :: l) <? n)%nat
    by (destruct (Nat.ltb_spec (length (b :: l)) n),
          (Z.gtb_spec (Z.of_nat n) (Z.of_nat (length (b :: l)))); done || lia).
  destruct (Nat.ltb_spec (length (b :: l)) n) as [Hs|Hs]; [done|].
  pose proof (get_u_take n o (b :: l) Ha Hs) as Hg.
  assert (Hn : n = 1%nat /\ b < 64 \/ n = 2%nat \/ n = 4%nat \/ n = 8%nat)
    by (unfold n, varint_width; repeat dest_if; lia).
  clearbody n. unfold get_u8, get_u16, get_u32, get_u64.
  destruct Hn as [[-> Hlt]|[->|[->| ->]]];
    change (Z.of_nat 1) with 1 in *; change (Z.of_nat 2) with 2 in *;
    change (Z.of_nat 4) with 4 in *; change (Z.of_nat 8) with 8 in *;
    cbv beta iota; rewrite Hg; cbn [mbind outcome_bind];
    [|rewrite <- Z.land_ones by lia; done..].
  do 2 f_equal. unfold be_value, byte_ok in *. cbn. rewrite take_0. cbn. rewrite Z.mod_small; lia.
Qed.

Lemma get_varint_nil o : at_bytes o [] -> get_varint o = Fail BufferTooShort.
Proof. intros [Ho Hr]. unfold get_varint, peek_u8, peek_u. by rewrite Hr. Qed.

(** A varint read either runs short or consumes a non-empty prefix. *)
Lemma get_varint_spec o l :
  at_bytes o l -> bytes_ok l ->
  get_varint o = Fail BufferTooShort \/
  exists v e k, l = e ++ k /\ 0 < zlen e /\ varint_ok v /\
    get_varint o = Done (v, advance o (zlen e)).
Proof.
  intros Ha Hl. destruct l as [|b l]; [left; by apply get_varint_nil|].
  inversion Hl as [|? ? Hb Hl']; subst.
  pose proof (get_varint_at o b l Ha Hb) as Hg. cbv zeta in Hg.
  set (n := varint_width b) in *.
  assert (Hn : (1 <= n <= 8)%nat) by (unfold n, varint_width; repeat dest_if; lia).
  destruct (Nat.ltb_spec (length (b :: l)) n); [by left|right].
  assert (Hz : zlen (take n (b :: l)) = Z.of_nat n) by (unfold zlen; rewrite length_take; lia).
  eexists _, (take n (b :: l)), (drop n (b :: l)). rewrite Hz.
  split; [by rewrite take_drop|]. split; [lia|]. split; [|exact Hg].
  pose proof (Z.mod_pos_bound (be_value (take n (b :: l))) (2 ^ (8 * Z.of_nat n - 2))
                ltac:(apply Z.pow_pos_nonneg; lia)).
  pose proof (Z.pow_le_mono_r 2 (8 * Z.of_nat n - 2) 62 ltac:(lia) ltac:(lia)).
  unfold varint_ok, MAX_VAR_INT. lia.
Qed.

Lemma varint_bytes_shape v :
  varint_ok v ->
  exists b r, varint_bytes v = b :: r /\ byte_ok b /\
    varint_width b = length (b :: r) /\
    be_value (b :: r) `mod` 2 ^ (8 * Z.of_nat (length (b :: r)) - 2) = v.
Proof.
  unfold varint_ok, MAX_VAR_INT. intros Hv.
  assert (Hbig : forall k x, varint_bytes v = be_bytes (S k) x ->
    varint_width ((x / 256 ^ Z.of_nat k) `mod` 256) = S k ->
    (x `mod` 256 ^ Z.of_nat (S k)) `mod` 2 ^ (8 * Z.of_nat (S k) - 2) = v ->
    exists b r, varint_bytes v = b :: r /\ byte_ok b /\
      varint_width b = length (b :: r) /\
      be_value (b :: r) `mod` 2 ^ (8 * Z.of_nat (length (b :: r)) - 2) = v).
  { intros k x Hx Hw Hval. eexists _, (be_bytes k x). split; [exact Hx|].
    split; [apply Z.mod_pos_bound; lia|]. cbn [length]. rewrite be_bytes_length.
    split; [exact Hw|].
    change (_ :: be_bytes k x) with (be_bytes (S k) x). by rewrite be_value_bytes. }
  unfold varint_bytes in *.
  destruct (Z.leb_spec v 63); [|destruct (Z.leb_spec v 16383); [|destruct (Z.leb_spec v 1073741823)]].
  - exists v, []. split; [done|]. split; [unfold byte_ok; lia|].
    unfold varint_width, be_value. cbn. destruct (Z.ltb_spec v 64); [|lia].
    split; [done|]. rewrite Z.mod_small; lia.
  - apply (Hbig 1%nat _ eq_refl); unfold varint_width; cbn; [repeat dest_if|];
      Z.div_mod_to_equations; lia.
  - apply (Hbig 3%nat _ eq_refl); unfold varint_width; cbn; [repeat dest_if|];
      Z.div_mod_to_equations; lia.
  - apply (Hbig 7%nat _ eq_refl); unfold varint_width; cbn; [repeat dest_if|];
      Z.div_mod_to_equations; lia.
Qed.

(** Reading back the reference encoding. *)
Lemma get_varint_bytes o v l :
  varint_ok v -> at_bytes o (varint_bytes v ++ l) ->
  get_varint o = Done (v, advance o (zlen (varint_bytes v))).
Proof.
  intros Hv. destruct (varint_bytes_shape v Hv) as (b & r & -> & Hb & Hw & Hval).
  intros Ha. change ((b :: r) ++ l) with (b :: (r ++ l)) in Ha.
  rewrite (get_varint_at o b (r ++ l) Ha Hb), Hw.
  change (b :: r ++ l) with ((b :: r) ++ l). rewrite take_app_length, Hval.
  destruct (Nat.ltb_spec (length ((b :: r) ++ l)) (length (b :: r))); [|done].
  rewrite length_app in *. lia.
Qed.
End Reads.

(** ** Writing *)

Module Writes.
Import OctetsMut.

(** The cursor of a buffer whose first bytes [l] are written and whose
    remaining [n] bytes are still to be filled. *)
Definition written (o : t) (l : list Z) (n : Z) : Prop :=
  exists tail, buf o = l ++ tail /\ zlen tail = n /\ off o = zlen l.

Lemma written_start n :
  0 <= n -> written (with_slice (replicate (Z.to_nat n) 0)) [] n.
Proof.
  intros. exists (replicate (Z.to_nat n) 0). split_and!; [done| |done].
  unfold zlen. rewrite length_replicate. lia.
Qed.

Lemma written_full o l : written o l 0 -> buf o = l.
Proof.
  intros (tail & Hb & Hn & _). apply zlen_zero_inv in Hn. subst. by rewrite app_nil_r in Hb.
Qed.

Lemma store_written o l v n :
  written o l n -> zlen v <= n ->
  written (mk (store (buf o) (off o) v) (off o + zlen v)) (l ++ v) (n - zlen v).
Proof.
  intros (tail & Hb & Hn & Ho) Hle. exists (zdrop (zlen v) tail).
  unfold store. rewrite Hb, Ho, ztake_app_eq. cbn.
  pose proof (zlen_nonneg v). pose proof (zlen_nonneg l).
  rewrite Z.add_comm, <- zdrop_zdrop, zdrop_app_eq by lia.
  split; [by rewrite <- app_assoc|]. rewrite zlen_zdrop, zlen_app by lia. lia.
Qed.

Lemma written_cap o l n : written o l n -> cap o = n.
Proof. intros (tail & Hb & Hn & Ho). unfold cap. rewrite Hb, zlen_app, Ho. lia. Qed.

Lemma put_u_written k v o l n :
  written o l n -> Z.of_nat k <= n ->
  exists o', put_u k v o = Done o' /\ written o' (l ++ be_bytes k v) (n - Z.of_nat k).
Proof.
  intros Hw Hk. pose proof (store_written o l (be_bytes k v) n Hw) as Hs.
  rewrite zlen_be_bytes in Hs. specialize (Hs Hk).
  destruct Hw as (tail & Hb & Hn & Ho). unfold put_u.
  destruct (Z.ltb_spec (zlen (buf o)) (off o + Z.of_nat k)) as [Hlt|]; [|eauto].
  rewrite Hb, zlen_app in Hlt. lia.
Qed.

Lemma put_bytes_written v o l n :
  written o l n -> zlen v <= n ->
  exists o', put_bytes v o = Done o' /\ written o' (l ++ v) (n - zlen v).
Proof.
  intros Hw Hv. unfold put_bytes. rewrite (written_cap o l n Hw).
  destruct (Z.ltb_spec n (zlen v)); [lia|].
  destruct (Z.eqb_spec (zlen v) 0) as [Hz|]; eexists; (split; [done|]).
  - apply zlen_zero_inv in Hz as ->. rewrite app_nil_r, zlen_nil, Z.sub_0_r. done.
  - by apply store_written.
Qed.

(** Setting the tag bits of the first byte just written. *)
Lemma or_at_written o l x r n mask :
  written o (l ++ x :: r) n ->
  written (or_at (zlen l) mask o) (l ++ Z.lor x mask :: r) n.
Proof.
  intros (tail & Hb & Hn & Ho). exists tail. cbn.
  split; [|split; [done|]].
  - rewrite Hb. unfold zlen. rewrite Nat2Z.id, <- !app_assoc, alter_app_r_alt by lia.
    by rewrite Nat.sub_diag.
  - rewrite Ho, !zlen_app, !zlen_cons. done.
Qed.

Lemma lor_tag x t : 0 <= x < 64 -> (t = 64 \/ t = 128 \/ t = 192) -> Z.lor x t = x + t.
Proof.
  intros Hx Ht. rewrite <- Z.lxor_lor, <- Z.add_nocarry_lxor; [lia| |];
    apply Z.bits_inj'; intros i Hi; rewrite Z.land_spec, Z.bits_0;
    (destruct (decide (i < 6));
     [rewrite andb_comm; replace (Z.testbit t i) with false; [done|]
     |rewrite (Z.bits_above_log2 x); [done|lia|];
      destruct (decide (x = 0)) as [->|]; [cbn; lia|];
      apply Z.log2_lt_pow2; [lia|]; apply (Z.lt_le_trans _ (2 ^ 6)); [lia|];
      apply Z.pow_le_mono_r; lia]).
  all: assert (i = 0 \/ i = 1 \/ i = 2 \/ i = 3 \/ i = 4 \/ i = 5) as Hc by lia;
    destruct Ht as [->|[->| ->]]; destruct Hc as [->|[->|[->|[->|[->| ->]]]]]; done.
Qed.

Lemma be_bytes_tag k v t :
  0 <= v < 64 * 256 ^ Z.of_nat k -> (t = 64 \/ t = 128 \/ t = 192) ->
  match be_bytes (S k) v with x :: r => Z.lor x t :: r | [] => [] end =
  be_bytes (S k) (v + t * 256 ^ Z.of_nat k).
Proof.
  intros Hv Ht. cbn [be_bytes]. set (m := 256 ^ Z.of_nat k) in *.
  assert (Hm : 0 < m) by (apply Z.pow_pos_nonneg; lia).
  assert (Hq : 0 <= v / m < 64) by (split; [apply Z.div_pos; lia|apply Z.div_lt_upper_bound; lia]).
  rewrite (Z.mod_small (v / m)) by lia. rewrite lor_tag, Z.div_add by lia.
  rewrite (Z.mod_small (v / m + t)) by lia. f_equal.
  assert (Hgen : forall j a b, (j <= k)%nat -> be_bytes j (a + b * m) = be_bytes j a).
  { clear -Hm. intros j a b. induction j as [|j IH]; intros Hj; [done|]. cbn [be_bytes].
    rewrite IH by lia. f_equal. subst m.
    replace (Z.of_nat k) with (Z.of_nat (k - S j) + 1 + Z.of_nat j) by lia.
    rewrite !Z.pow_add_r by lia.
    replace (a + b * (256 ^ Z.of_nat (k - S j) * 256 ^ 1 * 256 ^ Z.of_nat j))
      with (a + (b * 256 ^ Z.of_nat (k - S j) * 256) * 256 ^ Z.of_nat j) by lia.
    rewrite Z.div_add by (pose proof (Z.pow_pos_nonneg 256 (Z.of_nat j)); lia).
    by rewrite Z.mod_add by lia. }
  by rewrite Hgen.
Qed.

(** [put_varint] lays down the reference encoding. *)
Lemma put_varint_written v o l n :
  varint_ok v -> written o l n -> zlen (varint_bytes v) <= n ->
  exists o', put_varint v o = Done o' /\
    written o' (l ++ varint_bytes v) (n - zlen (varint_bytes v)).
Proof.
  intros Hv Hw Hn. unfold put_varint. rewrite varint_len_bytes by done. cbn [mbind outcome_bind].
  unfold put_varint_with_len. rewrite (written_cap o l n Hw).
  destruct (Z.ltb_spec n (zlen (varint_bytes v))); [lia|].
  assert (Hoff : off o = zlen l) by (destruct Hw as (? & ? & ? & ?); done).
  unfold varint_ok, MAX_VAR_INT in Hv.
  assert (Htag : forall k t x, (t = 64 \/ t = 128 \/ t = 192) ->
    0 <= v < 64 * 256 ^ Z.of_nat k -> x = v -> Z.of_nat (S k) <= n ->
    exists o', (o' ← put_u (S k) x o; Done (or_at (off o) t o')) = Done o' /\
      written o' (l ++ be_bytes (S k) (v + t * 256 ^ Z.of_nat k)) (n - Z.of_nat (S k))).
  { intros k t x Ht Hk -> Hle.
    destruct (put_u_written (S k) v o l n Hw Hle) as (o' & -> & Hw').
    eexists. split; [done|]. rewrite <- (be_bytes_tag k v t Hk Ht).
    rewrite Hoff. cbn [be_bytes] in *. by apply or_at_written. }
  unfold varint_bytes in *.
  destruct (Z.leb_spec v 63); [|destruct (Z.leb_spec v 16383); [|destruct (Z.leb_spec v 1073741823)]];
    rewrite ?zlen_be_bytes in *; cbn [Z.of_nat Pos.of_succ_nat Pos.succ] in *.
  - change (zlen [v]) with 1 in *. destruct (put_u_written 1 (u8 v) o l n Hw ltac:(lia)) as (o' & Hp & Hw').
    exists o'. split; [exact Hp|]. cbn [be_bytes] in Hw'.
    unfold u8 in Hw'. rewrite Z.div_1_r, !Z.mod_small in Hw' by (rewrite ?Z.mod_small; lia). done.
  - apply (Htag 1%nat 64 (u16 v)); [lia|cbn; lia|unfold u16; rewrite Z.mod_small; lia|lia].
  - apply (Htag 3%nat 128 (u32 v)); [lia|cbn; lia|unfold u32; rewrite Z.mod_small; lia|lia].
  - apply (Htag 7%nat 192 v); [lia|cbn; lia|lia|lia].
Qed.
End Writes.
