(* ===== verification/Error.v ===== *)
(** * Engine errors (src/native/aether/aether/src/error.rs)

    One constructor per variant of [AetherError]; the foreign errors an
    [AetherError] wraps are opaque codes, and [std::io::Error] is its kind. *)

From stdpp Require Import base list.
From S2P Require Import Prelude RustStr.

Inductive IoErrorKind :=
| NotFound | PermissionDenied | ConnectionRefused | ConnectionReset
| ConnectionAborted | AddrInUse | AddrNotAvailable | WouldBlock | InvalidData
| TimedOut | Interrupted | UnexpectedEof | HostUnreachable | NetworkUnreachable
| OtherIo (os_error : option Z).

Inductive AetherError :=
| Io (kind : IoErrorKind)
| Quic (code : Z)
| H3 (code : Z)
| Tls (msg : str)
| Ech (msg : str)
| Masque (msg : str)
| NoCleanEndpoint
| Capsule_ (msg : str)
| Api (msg : str)
| IdentityRefused (msg : str)
| Cancelled
| Other (msg : str).

#[global] Instance IoErrorKind_eq_dec : EqDecision IoErrorKind.
Proof. solve_decision. Defined.
#[global] Instance AetherError_eq_dec : EqDecision AetherError.
Proof. solve_decision. Defined.

(** [error::Result] *)
Abbreviation aresult A := (outcome AetherError A).

(** [Result::map_err] *)
Definition map_err {E F A} (f : E -> F) (m : outcome E A) : outcome F A :=
  match m with
  | Done a => Done a
  | Fail e => Fail (f e)
  | Panic => Panic
  | Diverge => Diverge
  end.

(** [let _ = ...] on an operation that moves a cursor: an error leaves the
    state as it was. *)
Definition ignore_err {E F S} (s : S) (m : outcome E S) : outcome F S :=
  match m with
  | Done s' => Done s'
  | Fail _ => Done s
  | Panic => Panic
  | Diverge => Diverge
  end.

(** [Option::ok_or] *)
Definition ok_or {E A} (e : E) (o : option A) : outcome E A :=
  match o with Some a => Done a | None => Fail e end.

Lemma wp_ok_or {E A} (e : E) (o : option A) (Q : A -> Prop) (R : E -> Prop) :
  (forall a, o = Some a -> Q a) -> R e -> wp (ok_or e o) Q R.
Proof. destruct o; simpl; eauto. Qed.

(** ** [Display] *)

(** The texts of the errors of other libraries. *)
Class ErrorTexts := {
  io_text : IoErrorKind -> str;
  quic_text : Z -> str;
  h3_text : Z -> str
}.

Definition error_display `{ErrorTexts} (e : AetherError) : str :=
  match e with
  | Io kind => lit "io: " ++ io_text kind
  | Quic code => lit "quic: " ++ quic_text code
  | H3 code => lit "h3: " ++ h3_text code
  | Tls msg => lit "tls: " ++ msg
  | Ech msg => lit "ech: " ++ msg
  | Masque msg => lit "masque: " ++ msg
  | NoCleanEndpoint => lit "prober: no clean endpoint found"
  | Capsule_ msg => lit "capsule: " ++ msg
  | Api msg => lit "api: " ++ msg
  | IdentityRefused msg => lit "identity refused: " ++ msg
  | Cancelled => lit "cancelled"
  | Other msg => lit "other: " ++ msg
  end.
