(* ===== verification/Channel.v ===== *)
(** * Bounded channels

    The engine's tasks talk through tokio [mpsc] channels, which are code
    outside the repository.  Each end is an interface: [try_send] and
    [try_recv] are parameters, and the laws say what their documentation
    does, through the ghost views [tx_log] (the values accepted so far) and
    [rx_queue] (the values still to be received).  Both interfaces have a
    list-based instance. *)

From stdpp Require Import base list.
From Stdlib Require Import ZArith Lia.
From S2P Require Import Prelude.

Inductive send_status := SendOk | SendFull | SendClosed.

#[global] Instance send_status_eq_dec : EqDecision send_status.
Proof. solve_decision. Defined.

Class Sender (T A : Type) := {
  try_send : T -> A -> send_status * T;
  tx_log : T -> list A;
}.

Class SenderLaws (T A : Type) `{Sender T A} := {
  try_send_ok t a t' : try_send t a = (SendOk, t') -> tx_log t' = tx_log t ++ [a];
  try_send_refused t a s t' :
    try_send t a = (s, t') -> s <> SendOk -> tx_log t' = tx_log t;
}.

Inductive recv_status (A : Type) := Received (a : A) | RecvEmpty | RecvDisconnected.
Arguments Received {A} a.
Arguments RecvEmpty {A}.
Arguments RecvDisconnected {A}.

Class Receiver (R A : Type) := {
  try_recv : R -> recv_status A * R;
  rx_queue : R -> list A;
}.

Class ReceiverLaws (R A : Type) `{Receiver R A} := {
  try_recv_got r a r' : try_recv r = (Received a, r') -> rx_queue r = a :: rx_queue r';
  try_recv_empty r r' : try_recv r = (RecvEmpty, r') -> rx_queue r = [] /\ rx_queue r' = [];
  try_recv_gone r r' : try_recv r = (RecvDisconnected, r') -> rx_queue r = [] /\ rx_queue r' = [];
}.

(** ** A list-based channel *)

Record chan (A : Type) := mk_chan {
  chan_cap : Z;
  chan_open : bool;
  chan_items : list A;
}.
Arguments mk_chan {A}.
Arguments chan_cap {A}.
Arguments chan_open {A}.
Arguments chan_items {A}.

#[global] Instance chan_sender A : Sender (chan A) A := {
  try_send c a :=
    if negb (chan_open c) then (SendClosed, c)
    else if chan_cap c <=? zlen (chan_items c) then (SendFull, c)
    else (SendOk, mk_chan (chan_cap c) true (chan_items c ++ [a]));
  tx_log := chan_items;
}.

#[global] Instance chan_receiver A : Receiver (chan A) A := {
  try_recv c :=
    match chan_items c with
    | a :: r => (Received a, mk_chan (chan_cap c) (chan_open c) r)
    | [] => (if chan_open c then RecvEmpty else RecvDisconnected, c)
    end;
  rx_queue := chan_items;
}.

#[global] Instance chan_sender_laws A : SenderLaws (chan A) A.
Proof.
  split; cbn; intros [cap open items] a.
  - intros t'. destruct open; cbn; [|done]. dest_if; [done|]. by intros [= <-].
  - intros s t'. destruct open; cbn; [|by intros [= <- <-]].
    dest_if; intros [= <- <-]; done.
Qed.

#[global] Instance chan_receiver_laws A : ReceiverLaws (chan A) A.
Proof.
  split; cbn; intros [cap open [|x items]]; cbn; try destruct open; try done.
  - intros a r' [= <- <-]. done.
  - intros a r' [= <- <-]. done.
  - by intros r' [= <-].
  - by intros r' [= <-].
Qed.
