(* ===== verification/Streams.v ===== *)
(** * TCP streams as the handshakes see them

    A stream is what the peer will send and what has been written to it, with
    the error a write meets and what comes after the last byte; the handshakes
    of [Upstream] and [Socks] run on it. *)

From stdpp Require Import base list option.
From Stdlib Require Import ZArith Lia.
From S2P Require Import Prelude RustStr Error.

(** [read_end] is what a read past [incoming] meets: the end of the stream or
    an error. *)
Record tcp := mkTcpStream {
  incoming : list Z;
  outgoing : list Z;
  write_error : option IoErrorKind;
  read_end : option IoErrorKind;
}.

Definition write_all (t : tcp) (data : list Z) : aresult tcp :=
  match write_error t with
  | Some e => Fail (Io e)
  | None => Done (mkTcpStream (incoming t) (outgoing t ++ data) None (read_end t))
  end.

Definition read_exact (t : tcp) (n : Z) : aresult (list Z * tcp) :=
  if n <=? zlen (incoming t) then
    Done (ztake n (incoming t),
          mkTcpStream (zdrop n (incoming t)) (outgoing t) (write_error t) (read_end t))
  else Fail (Io (default UnexpectedEof (read_end t))).

(** [read] into one byte; [None] is the end of the stream. *)
Definition read_byte (t : tcp) : aresult (option (Z * tcp)) :=
  match incoming t with
  | [] => match read_end t with Some e => Fail (Io e) | None => Done None end
  | b :: rest => Done (Some (b, mkTcpStream rest (outgoing t) (write_error t) (read_end t)))
  end.

(** ** Facts *)

(** Between [t] and [t'] the client heard [heard] and said [said]. *)
Definition exchanged (t t' : tcp) (heard said : list Z) : Prop :=
  incoming t = heard ++ incoming t' /\ outgoing t' = outgoing t ++ said.

Lemma exchanged_trans t1 t2 t3 h1 h2 s1 s2 :
  exchanged t1 t2 h1 s1 -> exchanged t2 t3 h2 s2 -> exchanged t1 t3 (h1 ++ h2) (s1 ++ s2).
Proof.
  intros [Hi Ho] [Hi' Ho']. split.
  - by rewrite Hi, Hi', app_assoc.
  - by rewrite Ho', Ho, app_assoc.
Qed.

Lemma exchanged_bytes_ok t t' h s : exchanged t t' h s -> bytes_ok (incoming t) -> bytes_ok h /\ bytes_ok (incoming t').
Proof. intros [Hi _]. rewrite Hi. apply bytes_ok_app. Qed.

Lemma wp_write_all t data (Q : tcp -> Prop) :
  (forall t', exchanged t t' [] data -> Q t') -> wp (write_all t data) Q (fun _ => True).
Proof. intros HQ. unfold write_all. destruct (write_error t); [done|]. simpl. by apply HQ. Qed.

Lemma wp_read_exact t n (Q : list Z * tcp -> Prop) :
  0 <= n -> (forall got t', zlen got = n -> exchanged t t' got [] -> Q (got, t')) ->
  wp (read_exact t n) Q (fun _ => True).
Proof.
  intros Hn HQ. unfold read_exact. dest_if; [|done]. simpl. apply HQ.
  - apply zlen_ztake. lia.
  - split; simpl; [by rewrite ztake_zdrop | by rewrite app_nil_r].
Qed.

Lemma read_exact_app a rest out we re n :
  n = zlen a -> read_exact (mkTcpStream (a ++ rest) out we re) n = Done (a, mkTcpStream rest out we re).
Proof.
  intros ->. unfold read_exact. simpl.
  rewrite (proj2 (Z.leb_le _ _)) by (autorewrite with bytes; pose proof (zlen_nonneg rest); lia).
  by rewrite ztake_app_eq, zdrop_app_eq.
Qed.
