(* ===== verification/Net.v ===== *)
(** * Internet addresses ([std::net])

    An address is its octets in network order.  The parser is the one of
    [core::net::parser]: a cursor over the characters, where an alternative
    that fails gives its input back ([read_atomically]). *)

From stdpp Require Import base list option countable.
From Stdlib Require Import ZArith Lia.
From S2P Require Import Prelude RustStr.

Inductive IpAddr :=
| V4 (octets : list Z)
| V6 (octets : list Z).

(** A socket address; an IPv6 one carries its flow information and scope. *)
Inductive SocketAddr :=
| SockV4 (octets : list Z) (port : Z)
| SockV6 (octets : list Z) (port flowinfo scope : Z).

#[global] Instance IpAddr_eq_dec : EqDecision IpAddr.
Proof. solve_decision. Defined.
#[global] Instance SocketAddr_eq_dec : EqDecision SocketAddr.
Proof. solve_decision. Defined.
#[global] Instance SocketAddr_countable : Countable SocketAddr.
Proof.
  refine (inj_countable'
    (fun a => match a with
              | SockV4 o p => inl (o, p)
              | SockV6 o p f s => inr (o, p, f, s)
              end)
    (fun x => match x with
              | inl (o, p) => SockV4 o p
              | inr (o, p, f, s) => SockV6 o p f s
              end) _).
  by intros [].
Defined.

Definition ip_octets (ip : IpAddr) : list Z := match ip with V4 o | V6 o => o end.

Definition ip_ok (ip : IpAddr) : Prop :=
  match ip with
  | V4 o => length o = 4%nat /\ bytes_ok o
  | V6 o => length o = 16%nat /\ bytes_ok o
  end.

(** [SocketAddr::new] *)
Definition sock (ip : IpAddr) (port : Z) : SocketAddr :=
  match ip with V4 o => SockV4 o port | V6 o => SockV6 o port 0 0 end.

Definition sock_ip (a : SocketAddr) : IpAddr :=
  match a with SockV4 o _ => V4 o | SockV6 o _ _ _ => V6 o end.

Definition sock_port (a : SocketAddr) : Z :=
  match a with SockV4 _ p | SockV6 _ p _ _ => p end.

Definition sock_ok (a : SocketAddr) : Prop :=
  ip_ok (sock_ip a) /\ 0 <= sock_port a <= u16_max.

Lemma sock_ip_sock ip p : sock_ip (sock ip p) = ip.
Proof. by destruct ip. Qed.
Lemma sock_port_sock ip p : sock_port (sock ip p) = p.
Proof. by destruct ip. Qed.

Definition UNSPECIFIED_V4 : IpAddr := V4 [0; 0; 0; 0].
Definition LOCALHOST_V4 : IpAddr := V4 [127; 0; 0; 1].
Definition LOCALHOST_V6 : IpAddr := V6 [0;0;0;0;0;0;0;0;0;0;0;0;0;0;0;1].

(** ** Predicates *)

Definition octet (o : list Z) (i : nat) : Z := nth i o 0.

Definition all_zero (o : list Z) : bool := forallb (Z.eqb 0) o.

Definition is_unspecified (ip : IpAddr) : bool := all_zero (ip_octets ip).

Definition is_loopback (ip : IpAddr) : bool :=
  match ip with
  | V4 o => octet o 0 =? 127
  | V6 o => all_zero (take 15 o) && (octet o 15 =? 1)
  end.

(** [Ipv6Addr::to_ipv4_mapped]: ::ffff:a.b.c.d *)
Definition to_ipv4_mapped (o : list Z) : option (list Z) :=
  if all_zero (take 10 o) && (octet o 10 =? 255) && (octet o 11 =? 255)
  then Some (drop 12 o) else None.

(** [Ipv4Addr::is_private], [is_link_local], [is_broadcast], [is_documentation] *)
Definition v4_is_private (o : list Z) : bool :=
  (octet o 0 =? 10) ||
  ((octet o 0 =? 172) && (16 <=? octet o 1) && (octet o 1 <=? 31)) ||
  ((octet o 0 =? 192) && (octet o 1 =? 168)).
Definition v4_is_link_local (o : list Z) : bool := (octet o 0 =? 169) && (octet o 1 =? 254).
Definition v4_is_broadcast (o : list Z) : bool := forallb (Z.eqb 255) o.
Definition v4_is_documentation (o : list Z) : bool :=
  ((octet o 0 =? 192) && (octet o 1 =? 0) && (octet o 2 =? 2)) ||
  ((octet o 0 =? 198) && (octet o 1 =? 51) && (octet o 2 =? 100)) ||
  ((octet o 0 =? 203) && (octet o 1 =? 0) && (octet o 2 =? 113)).

(** [Ipv6Addr::segments] *)
Definition segment (o : list Z) (i : nat) : Z := be_u16 (octet o (2 * i)) (octet o (2 * i + 1)).

(** ** Parsing *)

(** A parser step: the value read and the characters left. *)
Definition parser (A : Type) := str -> option (A * str).

Definition read_given_char (c : Z) : parser unit := fun s =>
  match s with
  | x :: r => if x =? c then Some (tt, r) else None
  | [] => None
  end.

(** The digits at the front of the input. *)
Fixpoint span_digits (radix : Z) (s : str) : str * str :=
  match s with
  | c :: r =>
      match digit_value radix c with
      | Some _ => let '(d, t) := span_digits radix r in (c :: d, t)
      | None => ([], s)
      end
  | [] => ([], [])
  end.

(** [read_number]; [max] bounds the integer type. *)
Definition read_number (radix : Z) (max_digits : option Z) (allow_zero_prefix : bool)
    (max : Z) : parser Z := fun s =>
  let '(d, rest) := span_digits radix s in
  let n := zlen d in
  let has_leading_zero := match s with 48 :: _ => true | _ => false end in
  if match max_digits with Some m => m <? n | None => false end then None
  else if n =? 0 then None
  else if negb allow_zero_prefix && has_leading_zero && (1 <? n) then None
  else match digits_value radix 0 d with
       | Some v => if v <=? max then Some (v, rest) else None
       | None => None
       end.

Definition read_separator {A} (sep : Z) (index : nat) (inner : parser A) : parser A := fun s =>
  match index with
  | O => inner s
  | S _ => '(_, r) ← read_given_char sep s; inner r
  end.

Definition read_octet (index : nat) : parser Z :=
  read_separator 46 index (read_number 10 (Some 3) false u8_max).

Definition read_ipv4_addr : parser (list Z) := fun s =>
  '(a, s) ← read_octet 0 s;
  '(b, s) ← read_octet 1 s;
  '(c, s) ← read_octet 2 s;
  '(d, s) ← read_octet 3 s;
  Some ([a; b; c; d], s).

(** [read_groups]: up to [limit] groups, the last two possibly written as an
    IPv4 address; returns the groups and whether they were. *)
Fixpoint read_groups (limit : nat) (i : nat) (s : str) : list Z * bool * str :=
  match limit with
  | O => ([], false, s)
  | S l =>
      match (if (1 <=? l)%nat then read_separator 58 i read_ipv4_addr s else None) with
      | Some (v4, r) =>
          ([be_u16 (octet v4 0) (octet v4 1); be_u16 (octet v4 2) (octet v4 3)], true, r)
      | None =>
          match read_separator 58 i (read_number 16 (Some 4) true u16_max) s with
          | Some (g, r) =>
              let '(gs, v4, rest) := read_groups l (S i) r in (g :: gs, v4, rest)
          | None => ([], false, s)
          end
      end
  end.

Definition groups_octets (g : list Z) : list Z := flat_map (be_bytes 2) g.

Definition read_ipv6_addr : parser (list Z) := fun s =>
  let '(head, head_v4, s1) := read_groups 8 0 s in
  if (length head =? 8)%nat then Some (groups_octets head, s1)
  else if head_v4 then None
  else
    '(_, s2) ← read_given_char 58 s1;
    '(_, s3) ← read_given_char 58 s2;
    let '(tail, _, s4) := read_groups (7 - length head) 0 s3 in
    Some (groups_octets (head ++ replicate (8 - length head - length tail) 0 ++ tail), s4).

Definition read_ip_addr : parser IpAddr := fun s =>
  match read_ipv4_addr s with
  | Some (o, r) => Some (V4 o, r)
  | None => '(o, r) ← read_ipv6_addr s; Some (V6 o, r)
  end.

Definition read_port : parser Z := fun s =>
  '(_, s) ← read_given_char 58 s; read_number 10 None true u16_max s.

Definition read_scope_id : parser Z := fun s =>
  '(_, s) ← read_given_char 37 s; read_number 10 None true u32_max s.

Definition read_socket_addr : parser SocketAddr := fun s =>
  match ('(o, r) ← read_ipv4_addr s; '(p, r) ← read_port r; Some (SockV4 o p, r)) with
  | Some x => Some x
  | None =>
      '(_, s) ← read_given_char 91 s;
      '(o, s) ← read_ipv6_addr s;
      let '(scope, s) := match read_scope_id s with Some (v, r) => (v, r) | None => (0, s) end in
      '(_, s) ← read_given_char 93 s;
      '(p, s) ← read_port s;
      Some (SockV6 o p 0 scope, s)
  end.

(** [parse_with]: the whole input must be read. *)
Definition parse_with {A} (p : parser A) (s : str) : option A :=
  match p s with Some (a, []) => Some a | _ => None end.

(** [Ipv4Addr::from_str] refuses anything longer than 255.255.255.255. *)
Definition parse_ipv4 (s : str) : option (list Z) :=
  if 15 <? zlen (utf8 s) then None else parse_with read_ipv4_addr s.
Definition parse_ipv6 (s : str) : option (list Z) := parse_with read_ipv6_addr s.
Definition parse_ip (s : str) : option IpAddr := parse_with read_ip_addr s.
Definition parse_socket_addr (s : str) : option SocketAddr := parse_with read_socket_addr s.

(** ** Display *)

Fixpoint intercalate (sep : str) (l : list str) : str :=
  match l with
  | [] => []
  | [x] => x
  | x :: l => x ++ sep ++ intercalate sep l
  end.

(** [{:x}] of a 16-bit segment *)
Definition hex_digit (d : Z) : Z := if d <? 10 then 48 + d else 87 + d.
Fixpoint hex_digits (fuel : nat) (n : Z) : str :=
  match fuel with
  | O => []
  | S f => if n <? 16 then [hex_digit n] else hex_digits f (n / 16) ++ [hex_digit (n `mod` 16)]
  end.
Definition show_hex (n : Z) : str := hex_digits 16 n.

Definition show_ipv4 (o : list Z) : str := intercalate (lit ".") (show_uint <$> o).

(** The first longest run of zero segments: where it starts, how long it is.
    [current] is the run that ends before segment [i]. *)
Fixpoint longest_zeroes (i : Z) (current longest : Z * Z) (segs : list Z) : Z * Z :=
  match segs with
  | [] => longest
  | seg :: segs =>
      if seg =? 0 then
        let current := (if current.2 =? 0 then i else current.1, current.2 + 1) in
        longest_zeroes (i + 1) current (if current.2 >? longest.2 then current else longest) segs
      else longest_zeroes (i + 1) (0, 0) longest segs
  end.

Definition show_ipv6 (o : list Z) : str :=
  match to_ipv4_mapped o with
  | Some v4 => lit "::ffff:" ++ show_ipv4 v4
  | None =>
      let segs := segment o <$> seq 0 8 in
      let fmt l := intercalate (lit ":") (show_hex <$> l) in
      let '(start, len) := longest_zeroes 0 (0, 0) (0, 0) segs in
      if len >? 1 then fmt (ztake start segs) ++ lit "::" ++ fmt (zdrop (start + len) segs)
      else fmt segs
  end.

Definition show_ip (ip : IpAddr) : str := match ip with V4 o => show_ipv4 o | V6 o => show_ipv6 o end.

Definition show_socket_addr (a : SocketAddr) : str :=
  match a with
  | SockV4 o p => show_ipv4 o ++ lit ":" ++ show_uint p
  | SockV6 o p _ scope =>
      lit "[" ++ show_ipv6 o ++ (if scope =? 0 then [] else lit "%" ++ show_uint scope) ++ lit "]:" ++
      show_uint p
  end.

(** ** Facts *)

Example show_examples :
  show_socket_addr (sock (V4 [10; 0; 0; 1]) 80) = lit "10.0.0.1:80" /\
  show_socket_addr (sock LOCALHOST_V6 53) = lit "[::1]:53" /\
  show_ip (V6 [0x26;6;0x47;0;0;0;0;0;0;0;0;0;0;0;0x11;0x11]) = lit "2606:4700::1111" /\
  show_ip (V6 [0;1;0;0;0;2;0;3;0;0;0;0;0;4;0;5]) = lit "1:0:2:3::4:5" /\
  show_ip (V6 [0;0;0;0;0;0;0;0;0;0;255;255;10;0;0;1]) = lit "::ffff:10.0.0.1".
Proof. vm_compute. done. Qed.

Example parse_ip_examples :
  parse_ip (lit "192.168.0.1") = Some (V4 [192; 168; 0; 1]) /\
  parse_ip (lit "192.168.00.1") = None /\
  parse_ip (lit "::1") = Some LOCALHOST_V6 /\
  parse_ip (lit "::ffff:10.0.0.1") = Some (V6 [0;0;0;0;0;0;0;0;0;0;255;255;10;0;0;1]) /\
  parse_ip (lit "1:2:3:4:5:6:7:8:9") = None /\
  parse_ip (lit "2606:4700::1111") = Some (V6 [38;6;71;0;0;0;0;0;0;0;0;0;0;0;17;17]) /\
  parse_socket_addr (lit "[::1]:53") = Some (sock LOCALHOST_V6 53) /\
  parse_socket_addr (lit "1.1.1.1:65536") = None.
Proof. vm_compute. done. Qed.

Lemma read_number_range radix md az max s v r :
  0 <= radix -> read_number radix md az max s = Some (v, r) -> 0 <= v <= max.
Proof.
  intros Hr. unfold read_number. destruct (span_digits radix s) as [d rest].
  cbv zeta. dest_if; [done|]. dest_if; [done|]. dest_if; [done|].
  destruct (digits_value radix 0 d) as [v'|] eqn:Ed; [|done].
  apply digits_value_nonneg in Ed; [|lia..].
  destruct (Z.leb_spec v' max); [|done]. intros [= <- <-]. lia.
Qed.

Lemma read_octet_range i s v r : read_octet i s = Some (v, r) -> byte_ok v.
Proof.
  unfold read_octet, read_separator. intros H.
  assert (0 <= v <= u8_max) as Hv.
  { destruct i; [by eapply read_number_range in H|].
    destruct (read_given_char 46 s) as [[? ?]|]; [|done]. cbn in H.
    by eapply read_number_range in H. }
  unfold byte_ok, u8_max in *. lia.
Qed.

Lemma read_ipv4_addr_ok s o r : read_ipv4_addr s = Some (o, r) -> ip_ok (V4 o).
Proof.
  unfold read_ipv4_addr. intros H.
  destruct (read_octet 0 s) as [[a s1]|] eqn:E1; [|done]. cbn [mbind option_bind] in H.
  destruct (read_octet 1 s1) as [[b s2]|] eqn:E2; [|done]. cbn [mbind option_bind] in H.
  destruct (read_octet 2 s2) as [[c s3]|] eqn:E3; [|done]. cbn [mbind option_bind] in H.
  destruct (read_octet 3 s3) as [[d s4]|] eqn:E4; [|done]. cbn [mbind option_bind] in H.
  apply read_octet_range in E1, E2, E3, E4.
  injection H as <- <-. split; [done|]. repeat constructor; done || apply E1 || apply E2 || apply E3 || apply E4.
Qed.

Lemma groups_octets_length g : length (groups_octets g) = (2 * length g)%nat.
Proof.
  induction g as [|a g IH]; [done|]. unfold groups_octets in *. cbn [flat_map].
  rewrite length_app, IH, be_bytes_length. cbn [length]. lia.
Qed.

Lemma groups_octets_ok g : bytes_ok (groups_octets g).
Proof.
  induction g; [constructor|]. unfold groups_octets in *. cbn [flat_map].
  apply bytes_ok_app. split; [apply be_bytes_ok|done].
Qed.

Lemma read_groups_length limit i s g v r :
  read_groups limit i s = (g, v, r) -> (length g <= limit)%nat.
Proof.
  revert i s g v r. induction limit as [|l IH]; intros i s g v r; cbn [read_groups].
  - intros [= <- _ _]. done.
  - destruct (Nat.leb_spec 1 l).
    + destruct (read_separator 58 i read_ipv4_addr s) as [[? ?]|].
      * intros [= <- _ _]. cbn. lia.
      * destruct (read_separator _ _ _ s) as [[? ?]|]; [|intros [= <- _ _]; cbn; lia].
        destruct (read_groups l (S i) _) as [[? ?] ?] eqn:E. apply IH in E.
        intros [= <- _ _]. cbn. lia.
    + destruct (read_separator _ _ _ s) as [[? ?]|]; [|intros [= <- _ _]; cbn; lia].
      destruct (read_groups l (S i) _) as [[? ?] ?] eqn:E. apply IH in E.
      intros [= <- _ _]. cbn. lia.
Qed.

Lemma read_ipv6_addr_ok s o r : read_ipv6_addr s = Some (o, r) -> ip_ok (V6 o).
Proof.
  unfold read_ipv6_addr. destruct (read_groups 8 0 s) as [[head hv4] s1] eqn:Eh.
  apply read_groups_length in Eh.
  destruct (Nat.eqb_spec (length head) 8) as [Hl|Hl].
  { intros [= <- _]. split; [rewrite groups_octets_length; lia|apply groups_octets_ok]. }
  destruct hv4; [done|].
  destruct (read_given_char 58 s1) as [[? s2]|]; [|done]. cbn.
  destruct (read_given_char 58 s2) as [[? s3]|]; [|done]. cbn.
  destruct (read_groups (7 - length head) 0 s3) as [[tail tv4] s4] eqn:Et.
  apply read_groups_length in Et. intros [= <- _].
  split; [|apply groups_octets_ok].
  rewrite groups_octets_length, !length_app, length_replicate. lia.
Qed.

(** Whatever the parser accepts is a well-formed address. *)
Lemma parse_ip_ok s ip : parse_ip s = Some ip -> ip_ok ip.
Proof.
  unfold parse_ip, parse_with, read_ip_addr.
  destruct (read_ipv4_addr s) as [[o r]|] eqn:E.
  - apply read_ipv4_addr_ok in E. by destruct r; intros [= <-].
  - destruct (read_ipv6_addr s) as [[o r]|] eqn:E6; [|done].
    apply read_ipv6_addr_ok in E6. cbn. by destruct r; intros [= <-].
Qed.

(** *** Reading what was printed *)

(** What follows a number does not go on with a digit. *)
Definition no_digit (radix : Z) (s : str) : Prop := match s with c :: _ => digit_value radix c = None | [] => True end.

Lemma span_digits_app radix d rest :
  Forall (fun c => digit_value radix c <> None) d -> no_digit radix rest -> span_digits radix (d ++ rest) = (d, rest).
Proof.
  intros Hd Hr. induction Hd as [|c d Hc Hd IH]; cbn [app span_digits].
  - destruct rest as [|c rest]; [done|]. cbn in Hr |- *. by rewrite Hr.
  - destruct (digit_value radix c); [|done]. by rewrite IH.
Qed.

Lemma show_uint_decimal n : 0 <= n -> Forall (fun c => digit_value 10 c <> None) (show_uint n).
Proof.
  intros Hn. pose proof (decimal_digits_digit 40 n Hn) as Hd. unfold show_uint. induction Hd as [|c d Hc Hd IH]; constructor; [|done].
  replace c with (48 + (c - 48)) by lia. rewrite digit_value_10 by lia. done.
Qed.

Lemma show_uint_value n : 0 <= n < 10 ^ 40 -> digits_value 10 0 (show_uint n) = Some n.
Proof. intros Hn. apply decimal_digits_value. exact Hn. Qed.

Lemma show_uint_some n : 0 < zlen (show_uint n).
Proof. pose proof (decimal_digits_nonempty 39 n). unfold show_uint. destruct (decimal_digits 40 n); [done|]. unfold zlen. cbn. lia. Qed.

(** At most three digits, and no leading zero but in zero itself. *)
Definition octet_text (s : str) : bool :=
  (zlen s <=? 3) && match s with 48 :: _ => zlen s =? 1 | _ => true end.

Lemma octet_text_show n : byte_ok n -> octet_text (show_uint n) = true.
Proof.
  intros Hn. assert (Hall : forallb (fun n => octet_text (show_uint (Z.of_nat n))) (seq 0 256) = true) by (vm_compute; reflexivity).
  rewrite forallb_forall in Hall. unfold byte_ok in Hn. specialize (Hall (Z.to_nat n)). rewrite Z2Nat.id in Hall by lia.
  apply Hall, in_seq. lia.
Qed.

Lemma read_octet_number n rest :
  byte_ok n -> no_digit 10 rest -> read_number 10 (Some 3) false u8_max (show_uint n ++ rest) = Some (n, rest).
Proof.
  intros Hn Hr. pose proof (octet_text_show n Hn) as Ht. unfold byte_ok in Hn. unfold octet_text in Ht.
  pose proof (show_uint_some n) as Hp. unfold read_number. rewrite span_digits_app by (done || (apply show_uint_decimal; lia)).
  apply andb_prop in Ht as [Hlen Hz]. apply Z.leb_le in Hlen. rewrite show_uint_value by lia.
  rewrite (proj2 (Z.ltb_ge 3 (zlen (show_uint n)))) by lia. rewrite (proj2 (Z.eqb_neq (zlen (show_uint n)) 0)) by lia.
  assert (Hlead : (negb false && match show_uint n ++ rest with 48 :: _ => true | _ => false end && (1 <? zlen (show_uint n))) = false).
  { destruct (show_uint n) as [|c r]; [by unfold zlen in Hp|]. cbn [app negb andb].
    destruct (Z.eqb_spec c 48) as [->|Hc]; [apply Z.eqb_eq in Hz; rewrite Hz; done|].
    destruct c as [|p|p]; try done. do 6 (destruct p as [p|p|]; try done). }
  rewrite Hlead. rewrite (proj2 (Z.leb_le n u8_max)) by (unfold u8_max; lia). done.
Qed.

Lemma read_port_number p : 0 <= p <= u16_max -> read_port (lit ":" ++ show_uint p) = Some (p, []).
Proof.
  intros Hp. unfold read_port. change (read_given_char 58 (lit ":" ++ show_uint p)) with (Some (tt, show_uint p)).
  cbn [mbind option_bind]. unfold read_number. rewrite <- (app_nil_r (show_uint p)) at 1.
  unfold u16_max in *. rewrite span_digits_app by (done || (apply show_uint_decimal; lia)). pose proof (show_uint_some p).
  rewrite (proj2 (Z.eqb_neq (zlen (show_uint p)) 0)) by lia. rewrite show_uint_value by lia.
  cbn [negb andb]. by rewrite (proj2 (Z.leb_le p 65535)) by lia.
Qed.

Lemma read_ipv4_show a b c d rest :
  bytes_ok [a; b; c; d] -> no_digit 10 rest -> read_ipv4_addr (show_ipv4 [a; b; c; d] ++ rest) = Some ([a; b; c; d], rest).
Proof.
  intros Ho Hr. unfold bytes_ok in Ho. rewrite !list.Forall_cons in Ho. destruct Ho as (Ha & Hb & Hc & Hd & _).
  change (show_ipv4 [a; b; c; d]) with (show_uint a ++ [46] ++ show_uint b ++ [46] ++ show_uint c ++ [46] ++ show_uint d).
  rewrite <- !app_assoc. unfold read_ipv4_addr, read_octet. cbn [read_separator].
  rewrite read_octet_number by done. cbn [mbind option_bind app read_given_char]. rewrite Z.eqb_refl. cbn [mbind option_bind].
  rewrite read_octet_number by done. cbn [mbind option_bind app read_given_char]. rewrite Z.eqb_refl. cbn [mbind option_bind].
  rewrite read_octet_number by done. cbn [mbind option_bind app read_given_char]. rewrite Z.eqb_refl. cbn [mbind option_bind].
  by rewrite read_octet_number.
Qed.

(** An IPv4 address and port are read back as they were printed. *)
Lemma parse_show_v4 o p :
  ip_ok (V4 o) -> 0 <= p <= u16_max -> parse_socket_addr (show_socket_addr (SockV4 o p)) = Some (SockV4 o p).
Proof.
  intros [Hl Ho] Hp. destruct o as [|a [|b [|c [|d [|]]]]]; try done.
  unfold parse_socket_addr, parse_with, read_socket_addr. cbn [show_socket_addr].
  rewrite read_ipv4_show by done. cbn [mbind option_bind]. by rewrite read_port_number.
Qed.
