(* ===== verification/Masque.v ===== *)
(** * CONNECT-IP framing (src/native/aether/aether/src/masque.rs)

    HTTP datagrams and capsules: the encoders write through [OctetsMut], the
    decoders and the incremental [CapsuleParser] read through [Octets].  A
    parser step returns its result and the buffer it leaves, because the
    bytes of a complete capsule are drained before its value is parsed. *)

From stdpp Require Import base list option.
From Stdlib Require Import ZArith Lia.
From S2P Require Import Prelude RustStr Octets Error Net.

Definition CAPSULE_DATAGRAM : Z := 0.
Definition CAPSULE_ADDRESS_ASSIGN : Z := 1.
Definition CAPSULE_ADDRESS_REQUEST : Z := 2.
Definition CAPSULE_ROUTE_ADVERTISEMENT : Z := 3.

Definition CONNECT_IP_CONTEXT_ID : Z := 0.

Record AssignedAddress := mkAssigned {
  request_id : Z;
  ip_version : Z;
  address : list Z;
  prefix_len : Z;
}.

Record RouteAdvertisement := mkRoute {
  route_version : Z;
  route_start : list Z;
  route_end : list Z;
  protocol : Z;
}.

Inductive Capsule :=
| AddressAssign (addrs : list AssignedAddress)
| AddressRequest
| Datagram (payload : list Z)
| RouteAdvertisement_ (routes : list RouteAdvertisement)
| Unknown (kind : Z) (payload : list Z).

#[global] Instance AssignedAddress_eq_dec : EqDecision AssignedAddress.
Proof. solve_decision. Defined.
#[global] Instance RouteAdvertisement_eq_dec : EqDecision RouteAdvertisement.
Proof. solve_decision. Defined.
#[global] Instance Capsule_eq_dec : EqDecision Capsule.
Proof. solve_decision. Defined.

(** [oct] *)
Definition oct (e : BufferTooShortError) : AetherError := Capsule_ (lit "BufferTooShortError").

(** The module's own [varint_len], which has no upper bound. *)
Definition varint_len (v : Z) : Z :=
  if v <? 64 then 1
  else if v <? 16384 then 2
  else if v <? 1073741824 then 4
  else 8.

(** [vec![0u8; n]] *)
Definition zeroed (n : Z) : list Z := replicate (Z.to_nat n) 0.

Definition quarter_stream_id (stream_id : Z) : Z := stream_id / 4.

Definition encode_ip_datagram (stream_id : Z) (ip_packet : list Z) : aresult (list Z) :=
  let qsid := quarter_stream_id stream_id in
  let ctx := CONNECT_IP_CONTEXT_ID in
  let cap := varint_len qsid + varint_len ctx + zlen ip_packet in
  let b := OctetsMut.with_slice (zeroed cap) in
  b ← map_err oct (OctetsMut.put_varint qsid b);
  b ← map_err oct (OctetsMut.put_varint ctx b);
  b ← map_err oct (OctetsMut.put_bytes ip_packet b);
  Done (OctetsMut.buf b).

Definition decode_ip_datagram (datagram : list Z) (expect_stream_id : Z)
    : aresult (option (list Z)) :=
  let b := Octets.with_slice datagram in
  '(qsid, b) ← map_err oct (Octets.get_varint b);
  if negb (qsid =? quarter_stream_id expect_stream_id) then Done None
  else
    '(ctx, b) ← map_err oct (Octets.get_varint b);
    if negb (ctx =? CONNECT_IP_CONTEXT_ID) then Done None
    else
      '(payload, _) ← map_err oct (Octets.get_bytes (Octets.cap b) b);
      Done (Some (Octets.to_vec payload)).

Definition capsule_len (kind : Z) (value : list Z) : Z :=
  varint_len kind + varint_len (zlen value) + zlen value.

(** The bytes written at the end of [out]; every error is dropped. *)
Definition append_capsule (out : list Z) (kind : Z) (value : list Z) : aresult (list Z) :=
  let b := OctetsMut.with_slice (zeroed (capsule_len kind value)) in
  b ← ignore_err b (OctetsMut.put_varint kind b);
  b ← ignore_err b (OctetsMut.put_varint (zlen value) b);
  b ← ignore_err b (OctetsMut.put_bytes value b);
  Done (out ++ OctetsMut.buf b).

Definition encode_capsule (kind : Z) (value : list Z) : aresult (list Z) :=
  append_capsule [] kind value.

Definition encode_address_request (request_id ip_version prefix_len : Z) : aresult (list Z) :=
  let value_len := varint_len request_id + 1 + 1 in
  let b := OctetsMut.with_slice (zeroed value_len) in
  b ← ignore_err b (OctetsMut.put_varint request_id b);
  b ← ignore_err b (OctetsMut.put_u8 ip_version b);
  b ← ignore_err b (OctetsMut.put_u8 prefix_len b);
  encode_capsule CAPSULE_ADDRESS_REQUEST (OctetsMut.buf b).

Definition encode_datagram_capsule (ip_packet : list Z) : aresult (list Z) :=
  encode_capsule CAPSULE_DATAGRAM ip_packet.

Definition append_datagram_capsule (out ip_packet : list Z) : aresult (list Z) :=
  append_capsule out CAPSULE_DATAGRAM ip_packet.

Definition looks_like_ip_packet (data : list Z) : bool :=
  match data with
  | first :: _ =>
      ((Z.shiftr first 4 =? 4) || (Z.shiftr first 4 =? 6)) && (20 <=? zlen data)
  | [] => false
  end.

(** The fall-through of both [if]s is the second test of the packet. *)
Definition strip_datagram_context (payload : list Z) : opt (list Z) :=
  let whole := if looks_like_ip_packet payload then Done payload else Fail tt in
  if zlen payload =? 0 then Fail tt
  else
    match Octets.get_varint (Octets.with_slice payload) with
    | Done (ctx, b) =>
        if ctx =? CONNECT_IP_CONTEXT_ID then
          let rest := Octets.cap b in
          let consumed := zlen payload - rest in
          inner ← slice payload consumed (zlen payload);
          if looks_like_ip_packet inner then Done inner else whole
        else whole
    | Fail _ => whole
    | Panic => Panic
    | Diverge => Diverge
    end.

(** [while b.cap() > 0]: every turn reads at least one byte, so the length of
    the value bounds the turns. *)
Fixpoint address_assign_loop (fuel : nat) (b : Octets.t) (out : list AssignedAddress)
    : aresult (list AssignedAddress) :=
  match fuel with
  | O => Diverge
  | S fuel =>
      if Octets.cap b >? 0 then
        '(request_id, b) ← map_err oct (Octets.get_varint b);
        '(ip_version, b) ← map_err oct (Octets.get_u8 b);
        addr_len ←
          (if ip_version =? 4 then Done 4
           else if ip_version =? 6 then Done 16
           else Fail (Capsule_ (lit "bad ip version " ++ show_uint ip_version)));
        '(address, b) ← map_err oct (Octets.get_bytes addr_len b);
        '(prefix_len, b) ← map_err oct (Octets.get_u8 b);
        address_assign_loop fuel b
          (out ++ [mkAssigned request_id ip_version (Octets.to_vec address) prefix_len])
      else Done out
  end.

Definition parse_address_assign (value : list Z) : aresult (list AssignedAddress) :=
  address_assign_loop (S (length value)) (Octets.with_slice value) [].

Fixpoint route_advertisement_loop (fuel : nat) (b : Octets.t) (out : list RouteAdvertisement)
    : aresult (list RouteAdvertisement) :=
  match fuel with
  | O => Diverge
  | S fuel =>
      if Octets.cap b >? 0 then
        '(ip_version, b) ← map_err oct (Octets.get_u8 b);
        addr_len ←
          (if ip_version =? 4 then Done 4
           else if ip_version =? 6 then Done 16
           else Fail (Capsule_ (lit "bad ip version " ++ show_uint ip_version)));
        '(start, b) ← map_err oct (Octets.get_bytes addr_len b);
        '(end_, b) ← map_err oct (Octets.get_bytes addr_len b);
        '(protocol, b) ← map_err oct (Octets.get_u8 b);
        route_advertisement_loop fuel b
          (out ++ [mkRoute ip_version (Octets.to_vec start) (Octets.to_vec end_) protocol])
      else Done out
  end.

Definition parse_route_advertisement (value : list Z) : aresult (list RouteAdvertisement) :=
  route_advertisement_loop (S (length value)) (Octets.with_slice value) [].

(** The [match kind] at the end of [CapsuleParser::next]. *)
Definition decode_capsule (kind : Z) (value : list Z) : aresult Capsule :=
  if kind =? CAPSULE_ADDRESS_ASSIGN then AddressAssign <$> parse_address_assign value
  else if kind =? CAPSULE_ADDRESS_REQUEST then Done AddressRequest
  else if kind =? CAPSULE_ROUTE_ADVERTISEMENT then
    RouteAdvertisement_ <$> parse_route_advertisement value
  else if kind =? CAPSULE_DATAGRAM then Done (Datagram value)
  else Done (Unknown kind value).

Module CapsuleParser.
Record t := mk { buf : list Z }.

Definition MAX_CAPSULE_BUF : Z := 256 * 1024.

Definition new : t := mk [].

Definition push (p : t) (data : list Z) : t :=
  if saturating_add (zlen (buf p)) (zlen data) >? MAX_CAPSULE_BUF then mk []
  else mk (buf p ++ data).

Definition next {arch : Arch} (p : t) : aresult (option Capsule) * t :=
  match Octets.get_varint (Octets.with_slice (buf p)) with
  | Done (kind, b) =>
      match Octets.get_varint b with
      | Done (len, b) =>
          let len := as_usize len in
          if Octets.cap b <? len then (Done None, p)
          else
            match map_err oct (Octets.get_bytes len b) with
            | Done (value, b) =>
                (Some <$> decode_capsule kind (Octets.to_vec value),
                 mk (zdrop (Octets.off b) (buf p)))
            | Fail e => (Fail e, p)
            | Panic => (Panic, p)
            | Diverge => (Diverge, p)
            end
      | Fail _ => (Done None, p)
      | Panic => (Panic, p)
      | Diverge => (Diverge, p)
      end
  | Fail _ => (Done None, p)
  | Panic => (Panic, p)
  | Diverge => (Diverge, p)
  end.
End CapsuleParser.

(** ** The data-plane probe *)

(** The words of [header], a trailing byte being the high half of one; [sum]
    is a [u32]. *)
Fixpoint checksum_words (sum : Z) (header : list Z) : Z :=
  match header with
  | a :: b :: rest => checksum_words (u32 (sum + be_u16 a b)) rest
  | [a] => u32 (sum + Z.shiftl a 8)
  | [] => sum
  end.

(** [while (sum >> 16) != 0]: two turns suffice for a [u32]. *)
Fixpoint fold_carry {E} (fuel : nat) (sum : Z) : outcome E Z :=
  match fuel with
  | O => Diverge
  | S fuel =>
      if negb (Z.shiftr sum 16 =? 0)
      then fold_carry fuel (u32 (Z.land sum 0xffff + Z.shiftr sum 16))
      else Done sum
  end.

Definition ipv4_header_checksum {E} (header : list Z) : outcome E Z :=
  sum ← fold_carry 3 (checksum_words 0 header);
  Done (u16 (Z.lnot (u16 sum))).

Definition dns_labels (labels : list str) : list Z :=
  flat_map (fun label => u8 (zlen (utf8 label)) :: utf8 label) labels.

(** [probe_dns_query]; [id] is the random query id. *)
Definition probe_dns_query (id : Z) : list Z :=
  be_bytes 2 id ++ [1; 0] ++ [0; 1] ++ [0; 0; 0; 0; 0; 0] ++
  dns_labels [lit "cloudflare"; lit "com"] ++ [0] ++ [0; 1] ++ [0; 1].

(** [build_dns_probe_packet]; [dns_id], [id] and [sport] are the random
    values it draws, in that order. *)
Definition build_dns_probe_packet (dns_id id sport : Z) (src : list Z) : opt (list Z) :=
  let dns := probe_dns_query dns_id in
  let udp_len := 8 + zlen dns in
  let total_len := 20 + udp_len in
  let pkt :=
    [0x45] ++ [0] ++ be_bytes 2 (u16 total_len) ++ be_bytes 2 id ++ [0; 0] ++
    [64] ++ [17] ++ [0; 0] ++ src ++ [8; 8; 8; 8] in
  header ← slice pkt 0 20;
  csum ← ipv4_header_checksum header;
  let pkt := OctetsMut.store pkt 10 (be_bytes 2 csum) in
  Done (pkt ++ be_bytes 2 sport ++ be_bytes 2 53 ++ be_bytes 2 (u16 udp_len) ++ [0; 0] ++ dns).

(** ** Encoding facts *)

Lemma varint_len_varint_bytes v : varint_ok v -> varint_len v = zlen (varint_bytes v).
Proof.
  unfold varint_ok, varint_len, varint_bytes, MAX_VAR_INT. intros Hv.
  destruct (Z.ltb_spec v 64), (Z.leb_spec v 63); try lia; [done|].
  destruct (Z.ltb_spec v 16384), (Z.leb_spec v 16383); try lia; [done|].
  destruct (Z.ltb_spec v 1073741824), (Z.leb_spec v 1073741823); try lia; done.
Qed.

Lemma varint_len_nonneg v : 0 < varint_len v.
Proof. unfold varint_len. repeat dest_if; lia. Qed.

(** The wire form of a capsule. *)
Definition frame (kind : Z) (value : list Z) : list Z :=
  varint_bytes kind ++ varint_bytes (zlen value) ++ value.

Lemma varint_ok_zlen {A} (l : list A) : zlen l <= MAX_VAR_INT -> varint_ok (zlen l).
Proof. intros. split; [apply zlen_nonneg|done]. Qed.
#[export] Hint Resolve varint_ok_zlen : aether.

Lemma append_capsule_frame out kind value :
  varint_ok kind -> zlen value <= MAX_VAR_INT ->
  append_capsule out kind value = Done (out ++ frame kind value).
Proof.
  intros Hk Hv. apply varint_ok_zlen in Hv. unfold append_capsule, capsule_len, zeroed.
  rewrite !varint_len_varint_bytes by done.
  pose proof (varint_bytes_nonempty kind). pose proof (varint_bytes_nonempty (zlen value)).
  pose proof (zlen_nonneg value).
  set (n := zlen (varint_bytes kind) + zlen (varint_bytes (zlen value)) + zlen value).
  pose proof (Writes.written_start n ltac:(lia)) as W0.
  destruct (Writes.put_varint_written kind _ _ _ Hk W0 ltac:(lia)) as (o1 & -> & W1).
  cbn [ignore_err mbind outcome_bind].
  destruct (Writes.put_varint_written _ _ _ _ Hv W1 ltac:(lia)) as (o2 & -> & W2).
  cbn [ignore_err mbind outcome_bind].
  destruct (Writes.put_bytes_written value _ _ _ W2 ltac:(lia)) as (o3 & -> & W3).
  cbn [ignore_err mbind outcome_bind].
  rewrite (Writes.written_full o3 (frame kind value)); [done|].
  unfold frame. rewrite app_assoc. cbn in W3.
  replace 0 with (n - zlen (varint_bytes kind) - zlen (varint_bytes (zlen value)) - zlen value)
    by lia. done.
Qed.

Lemma encode_ip_datagram_bytes sid pkt :
  0 <= sid <= MAX_VAR_INT ->
  encode_ip_datagram sid pkt = Done (varint_bytes (sid / 4) ++ [0] ++ pkt).
Proof.
  intros Hs. unfold encode_ip_datagram, quarter_stream_id, zeroed, CONNECT_IP_CONTEXT_ID.
  assert (Hq : varint_ok (sid / 4)) by (unfold varint_ok in *; Z.div_mod_to_equations; lia).
  assert (H0 : varint_ok 0) by done.
  rewrite !varint_len_varint_bytes by done. change (zlen (varint_bytes 0)) with 1.
  pose proof (varint_bytes_nonempty (sid / 4)). pose proof (zlen_nonneg pkt).
  set (n := zlen (varint_bytes (sid / 4)) + 1 + zlen pkt).
  pose proof (Writes.written_start n ltac:(lia)) as W0.
  destruct (Writes.put_varint_written _ _ _ _ Hq W0 ltac:(lia)) as (o1 & -> & W1).
  cbn [map_err mbind outcome_bind].
  destruct (Writes.put_varint_written _ _ _ _ H0 W1 ltac:(change (zlen (varint_bytes 0)) with 1; lia))
    as (o2 & -> & W2).
  cbn [map_err mbind outcome_bind]. change (zlen (varint_bytes 0)) with 1 in W2.
  destruct (Writes.put_bytes_written pkt _ _ _ W2 ltac:(lia)) as (o3 & -> & W3).
  cbn [map_err mbind outcome_bind].
  rewrite (Writes.written_full o3 (varint_bytes (sid / 4) ++ [0] ++ pkt)); [done|].
  rewrite app_assoc. cbn in W3.
  replace 0 with (n - zlen (varint_bytes (sid / 4)) - 1 - zlen pkt) at 2 by lia. done.
Qed.

(** ** Decoding varints on a byte list *)

Definition varint_decode (l : list Z) : option (Z * list Z) :=
  match l with
  | [] => None
  | b :: _ =>
      let n := Reads.varint_width b in
      if (length l <? n)%nat then None
      else Some (be_value (take n l) `mod` 2 ^ (8 * Z.of_nat n - 2), drop n l)
  end.

Lemma varint_decode_app l v k q :
  varint_decode l = Some (v, k) -> varint_decode (l ++ q) = Some (v, k ++ q).
Proof.
  destruct l as [|b l]; [done|]. cbn [varint_decode app]. cbv zeta.
  set (n := Reads.varint_width b). rewrite !app_comm_cons.
  destruct (Nat.ltb_spec (length (b :: l)) n); [done|]. intros [= <- <-].
  rewrite length_app. destruct (Nat.ltb_spec (length (b :: l) + length q) n); [lia|].
  rewrite take_app_le, drop_app_le by lia. done.
Qed.

Lemma varint_decode_bytes v l :
  varint_ok v -> varint_decode (varint_bytes v ++ l) = Some (v, l).
Proof.
  intros Hv. destruct (Reads.varint_bytes_shape v Hv) as (b & r & -> & Hb & Hw & Hval).
  cbn [app varint_decode]. cbv zeta. rewrite Hw, !app_comm_cons, length_app.
  destruct (Nat.ltb_spec (length (b :: r) + length l) (length (b :: r))); [lia|].
  by rewrite take_app_length, drop_app_length, Hval.
Qed.

Lemma varint_decode_shape l v k :
  bytes_ok l -> varint_decode l = Some (v, k) ->
  exists e, l = e ++ k /\ 0 < zlen e /\ varint_ok v.
Proof.
  destruct l as [|b l]; [done|]. intros Hl. unfold varint_decode. cbv zeta.
  destruct (Nat.ltb_spec (length (b :: l)) (Reads.varint_width b)) as [|Hn]; [done|].
  intros [= Hv Hk].
  exists (take (Reads.varint_width b) (b :: l)). rewrite <- Hk, take_drop.
  assert (1 <= Reads.varint_width b <= 8)%nat
    by (unfold Reads.varint_width; repeat dest_if; lia).
  split; [done|]. split; [unfold zlen; rewrite length_take; lia|].
  subst v. unfold varint_ok, MAX_VAR_INT.
  pose proof (Z.mod_pos_bound (be_value (take (Reads.varint_width b) (b :: l)))
    (2 ^ (8 * Z.of_nat (Reads.varint_width b) - 2)) ltac:(apply Z.pow_pos_nonneg; lia)).
  pose proof (Z.pow_le_mono_r 2 (8 * Z.of_nat (Reads.varint_width b) - 2) 62
    ltac:(lia) ltac:(lia)). lia.
Qed.

(** [get_varint] is [varint_decode] with the cursor moved over what it read. *)
Lemma get_varint_decode o l :
  Reads.at_bytes o l -> bytes_ok l ->
  match varint_decode l with
  | None => Octets.get_varint o = Fail BufferTooShort
  | Some (v, k) =>
      exists o', Octets.get_varint o = Done (v, o') /\ Reads.at_bytes o' k /\
        Octets.buf o' = Octets.buf o
  end.
Proof.
  intros Ha Hl. destruct l as [|b l]; [by apply Reads.get_varint_nil|].
  inversion Hl as [|? ? Hb _]; subst. unfold varint_decode. cbv zeta.
  rewrite (Reads.get_varint_at o b l Ha Hb). cbv zeta.
  set (n := Reads.varint_width b).
  destruct (Nat.ltb_spec (length (b :: l)) n) as [|Hn]; [done|].
  eexists. split; [done|]. split; [|done].
  assert (Hz : Z.of_nat n = zlen (take n (b :: l)))
    by (unfold zlen; rewrite length_take; lia).
  rewrite Hz. apply Reads.at_bytes_advance. by rewrite take_drop.
Qed.

(** ** Decoding one capsule *)

Section Decode.
Context {arch : Arch}.

Definition capsule_decode (l : list Z) : option (Z * list Z * list Z) :=
  '(kind, l) ← varint_decode l;
  '(len, l) ← varint_decode l;
  let len := as_usize len in
  if zlen l <? len then None else Some (kind, ztake len l, zdrop len l).

Lemma at_bytes_get_bytes o l n :
  Reads.at_bytes o l -> 0 <= n <= zlen l ->
  Octets.get_bytes n o = Done (Octets.with_slice (ztake n l), Reads.advance o n) /\
  Reads.at_bytes (Reads.advance o n) (zdrop n l).
Proof.
  intros Ha Hn. rewrite <- (ztake_zdrop n l) in Ha.
  pose proof (Reads.get_bytes_at _ _ _ Ha) as Hg.
  pose proof (Reads.at_bytes_advance _ _ _ Ha) as Hb.
  rewrite zlen_ztake in Hg, Hb by done. done.
Qed.

(** [next] refines [capsule_decode]: it answers nothing and keeps its buffer,
    or removes exactly one capsule and answers with that capsule's value. *)
Lemma next_capsule_decode p :
  bytes_ok (CapsuleParser.buf p) ->
  CapsuleParser.next p =
  match capsule_decode (CapsuleParser.buf p) with
  | None => (Done None, p)
  | Some (kind, value, rest) =>
      (Some <$> decode_capsule kind value, CapsuleParser.mk rest)
  end.
Proof.
  destruct p as [l]. cbn [CapsuleParser.buf]. intros Hl.
  unfold CapsuleParser.next, capsule_decode. cbn [CapsuleParser.buf].
  pose proof (get_varint_decode _ _ (Reads.at_bytes_start l) Hl) as H1.
  destruct (varint_decode l) as [[kind l1]|] eqn:E1; [|by rewrite H1].
  destruct H1 as (b1 & -> & A1 & B1). cbn [mbind option_bind].
  destruct (varint_decode_shape l kind l1 Hl E1) as (e1 & Hs1 & _).
  assert (Hl1 : bytes_ok l1) by (rewrite Hs1 in Hl; by apply bytes_ok_app in Hl as [_ ?]).
  pose proof (get_varint_decode _ _ A1 Hl1) as H2.
  destruct (varint_decode l1) as [[len l2]|] eqn:E2; [|by rewrite H2].
  destruct H2 as (b2 & -> & A2 & B2). cbn [mbind option_bind].
  destruct (varint_decode_shape l1 len l2 Hl1 E2) as (e2 & Hs2 & _ & Hlen).
  rewrite (Reads.at_bytes_cap _ _ A2).
  destruct (Z.ltb_spec (zlen l2) (as_usize len)); [done|].
  assert (Hb : 0 <= as_usize len <= zlen l2) by (pose proof (as_usize_nonneg len); lia).
  destruct (at_bytes_get_bytes b2 l2 (as_usize len) A2 Hb) as [-> A3].
  cbn [map_err]. destruct A3 as [_ A3]. unfold Octets.rest in A3.
  cbn [Reads.advance Octets.buf] in A3. rewrite B2, B1 in A3. by rewrite <- A3.
Qed.

Lemma capsule_decode_app l kind value rest q :
  capsule_decode l = Some (kind, value, rest) ->
  capsule_decode (l ++ q) = Some (kind, value, rest ++ q).
Proof.
  unfold capsule_decode.
  destruct (varint_decode l) as [[k l1]|] eqn:E1; [|done]. cbn [mbind option_bind].
  rewrite (varint_decode_app _ _ _ q E1). cbn [mbind option_bind].
  destruct (varint_decode l1) as [[len l2]|] eqn:E2; [|done]. cbn [mbind option_bind].
  rewrite (varint_decode_app _ _ _ q E2). cbn [mbind option_bind]. rewrite zlen_app.
  pose proof (zlen_nonneg q).
  destruct (Z.ltb_spec (zlen l2) (as_usize len)); [done|]. intros [= -> <- <-].
  destruct (Z.ltb_spec (zlen l2 + zlen q) (as_usize len)); [lia|].
  unfold ztake, zdrop, zlen in *. rewrite take_app_le, drop_app_le by lia. done.
Qed.

Lemma capsule_decode_frame kind value rest :
  varint_ok kind -> zlen value <= u32_max ->
  capsule_decode (frame kind value ++ rest) = Some (kind, value, rest).
Proof.
  intros Hk Hv. unfold capsule_decode, frame. rewrite <- !app_assoc.
  rewrite varint_decode_bytes by done. cbn [mbind option_bind].
  assert (zlen value <= MAX_VAR_INT) by (unfold u32_max, MAX_VAR_INT in *; lia).
  rewrite varint_decode_bytes by auto with aether. cbn [mbind option_bind].
  pose proof (zlen_nonneg value). rewrite as_usize_small by done.
  rewrite zlen_app. pose proof (zlen_nonneg rest).
  destruct (Z.ltb_spec (zlen value + zlen rest) (zlen value)); [lia|].
  by rewrite ztake_app_eq, zdrop_app_eq.
Qed.

(** A capsule is never cut short: a strict prefix of one decodes to nothing. *)
Lemma capsule_decode_prefix kind value p q :
  varint_ok kind -> zlen value <= u32_max ->
  frame kind value = p ++ q -> q <> [] -> capsule_decode p = None.
Proof.
  intros Hk Hv Hf Hq. destruct (capsule_decode p) as [[[k v] r]|] eqn:E; [|done].
  apply (capsule_decode_app _ _ _ _ q) in E. rewrite <- Hf in E.
  pose proof (capsule_decode_frame kind value [] Hk Hv) as Hd.
  rewrite app_nil_r in Hd. rewrite Hd in E. injection E as _ _ E.
  symmetry in E. by apply app_eq_nil in E as [_ ->].
Qed.

Lemma capsule_decode_shape l kind value rest :
  bytes_ok l -> capsule_decode l = Some (kind, value, rest) ->
  exists hdr, l = hdr ++ value ++ rest /\ 0 < zlen hdr /\ bytes_ok value /\ bytes_ok rest.
Proof.
  intros Hl. unfold capsule_decode.
  destruct (varint_decode l) as [[k l1]|] eqn:E1; [|done]. cbn [mbind option_bind].
  destruct (varint_decode_shape _ _ _ Hl E1) as (e1 & -> & He1 & _).
  apply bytes_ok_app in Hl as [_ Hl1].
  destruct (varint_decode l1) as [[len l2]|] eqn:E2; [|done]. cbn [mbind option_bind].
  destruct (varint_decode_shape _ _ _ Hl1 E2) as (e2 & -> & He2 & _).
  apply bytes_ok_app in Hl1 as [_ Hl2].
  destruct (zlen l2 <? as_usize len); [done|]. intros [= -> <- <-].
  exists (e1 ++ e2). rewrite ztake_zdrop, <- app_assoc, zlen_app.
  split_and!; auto with bytes. lia.
Qed.

End Decode.

(** ** Address and route lists *)

(** The wire form of an address, from RFC 9484. *)
Definition assigned_bytes (a : AssignedAddress) : list Z :=
  varint_bytes (request_id a) ++ [ip_version a] ++ address a ++ [prefix_len a].

Definition ip_family_ok (version : Z) (addr : list Z) : Prop :=
  (version = 4 /\ zlen addr = 4) \/ (version = 6 /\ zlen addr = 16).

Definition assigned_ok (a : AssignedAddress) : Prop :=
  varint_ok (request_id a) /\ ip_family_ok (ip_version a) (address a) /\
  bytes_ok (address a) /\ byte_ok (prefix_len a).

Lemma be_value_single b : be_value [b] = b.
Proof. unfold be_value. simpl. lia. Qed.

Lemma get_u8_at o b k :
  Reads.at_bytes o (b :: k) ->
  Octets.get_u8 o = Done (b, Reads.advance o 1) /\ Reads.at_bytes (Reads.advance o 1) k.
Proof.
  intros Ha. change (b :: k) with ([b] ++ k) in Ha. split.
  - unfold Octets.get_u8. rewrite (Reads.get_u_at 1 o [b] k Ha eq_refl). by rewrite be_value_single.
  - exact (Reads.at_bytes_advance _ _ _ Ha).
Qed.

Lemma get_varint_app o v k :
  varint_ok v -> Reads.at_bytes o (varint_bytes v ++ k) ->
  exists o', Octets.get_varint o = Done (v, o') /\ Reads.at_bytes o' k.
Proof.
  intros Hv Ha. rewrite (Reads.get_varint_bytes o v k Hv Ha). eexists. split; [done|].
  exact (Reads.at_bytes_advance _ _ _ Ha).
Qed.

Lemma get_bytes_app o l k n :
  Reads.at_bytes o (l ++ k) -> n = zlen l ->
  exists o', Octets.get_bytes n o = Done (Octets.with_slice l, o') /\ Reads.at_bytes o' k.
Proof.
  intros Ha ->. rewrite (Reads.get_bytes_at _ _ _ Ha). eexists. split; [done|].
  exact (Reads.at_bytes_advance _ _ _ Ha).
Qed.

Lemma address_assign_loop_bytes l : forall fuel o out,
  (length l < fuel)%nat -> Forall assigned_ok l ->
  Reads.at_bytes o (flat_map assigned_bytes l) ->
  address_assign_loop fuel o out = Done (out ++ l).
Proof.
  induction l as [|a l IH]; intros [|fuel] o out Hf Hl Ha; [cbn in Hf; lia| |cbn in Hf; lia|];
    cbn [address_assign_loop]; rewrite (Reads.at_bytes_cap _ _ Ha).
  { cbn. by rewrite app_nil_r. }
  inversion Hl as [|? ? Hok Hl']; subst. destruct Hok as (Hid & Hfam & _ & _).
  cbn [flat_map] in *. unfold assigned_bytes in Ha at 1. rewrite <- !app_assoc in Ha.
  destruct (Z.gtb_spec (zlen (assigned_bytes a ++ flat_map assigned_bytes l)) 0) as [_|Hz].
  2:{ exfalso. unfold assigned_bytes in Hz. rewrite !zlen_app in Hz.
      pose proof (varint_bytes_nonempty (request_id a)). pose proof (zlen_nonneg (address a)).
      pose proof (zlen_nonneg (flat_map assigned_bytes l)).
      change (zlen [ip_version a]) with 1 in Hz. change (zlen [prefix_len a]) with 1 in Hz.
      unfold assigned_bytes in *. lia. }
  destruct (get_varint_app _ _ _ Hid Ha) as (o1 & -> & A1). cbn [map_err mbind outcome_bind].
  destruct (get_u8_at _ _ _ A1) as [-> A2]. cbn [map_err mbind outcome_bind].
  set (n := zlen (address a)).
  assert (Hn : (if ip_version a =? 4 then Done 4 else if ip_version a =? 6 then Done 16
    else Fail (Capsule_ (lit "bad ip version " ++ show_uint (ip_version a)))) = Done n)
    by (unfold n; destruct Hfam as [[-> ->]|[-> ->]]; done).
  rewrite Hn. cbn [mbind outcome_bind].
  destruct (get_bytes_app _ _ _ n A2 eq_refl) as (o3 & -> & A3). cbn [map_err mbind outcome_bind].
  destruct (get_u8_at _ _ _ A3) as [-> A4]. cbn [map_err mbind outcome_bind].
  rewrite IH; [|cbn in Hf; lia|done|done]. rewrite <- app_assoc.
  unfold Octets.to_vec, Octets.rest. cbn. by destruct a.
Qed.

Lemma length_flat_map_ge {A B} (f : A -> list B) l :
  (forall a, 0 < zlen (f a)) -> (length l <= length (flat_map f l))%nat.
Proof.
  intros Hf. induction l as [|a l IH]; [done|]. cbn [flat_map length].
  rewrite length_app. specialize (Hf a). unfold zlen in Hf. lia.
Qed.

Lemma assigned_bytes_pos a : 0 < zlen (assigned_bytes a).
Proof.
  unfold assigned_bytes. rewrite zlen_app. pose proof (varint_bytes_nonempty (request_id a)).
  pose proof (zlen_nonneg ([ip_version a] ++ address a ++ [prefix_len a])). lia.
Qed.

(** Every read of a loop either ends it with an error or moves the cursor. *)
Lemma wp_get_varint o l (Q : Z * Octets.t -> Prop) (R : AetherError -> Prop) :
  Reads.at_bytes o l -> bytes_ok l -> (forall e, R e) ->
  (forall v o' e k, l = e ++ k -> 0 < zlen e -> varint_ok v ->
     Reads.at_bytes o' k -> bytes_ok k -> Q (v, o')) ->
  wp (map_err oct (Octets.get_varint o)) Q R.
Proof.
  intros Ha Hl HR HQ. destruct (Reads.get_varint_spec o l Ha Hl) as [->|(v & e & k & -> & He & Hv & ->)];
    [apply HR|]. apply bytes_ok_app in Hl as [_ Hk].
  eapply HQ; eauto using Reads.at_bytes_advance.
Qed.

Lemma wp_get_u8 o l (Q : Z * Octets.t -> Prop) (R : AetherError -> Prop) :
  Reads.at_bytes o l -> bytes_ok l -> (forall e, R e) ->
  (forall b o' k, l = b :: k -> Reads.at_bytes o' k -> bytes_ok k -> Q (b, o')) ->
  wp (map_err oct (Octets.get_u8 o)) Q R.
Proof.
  intros Ha Hl HR HQ. destruct l as [|b k].
  - unfold Octets.get_u8. rewrite (Reads.get_u_short 1 o [] Ha); [apply HR|done].
  - destruct (get_u8_at o b k Ha) as [-> A]. inversion Hl; subst. cbn. eauto.
Qed.

Lemma wp_get_bytes n o l (Q : Octets.t * Octets.t -> Prop) (R : AetherError -> Prop) :
  Reads.at_bytes o l -> 0 <= n -> bytes_ok l -> (forall e, R e) ->
  (forall o', n <= zlen l -> Reads.at_bytes o' (zdrop n l) -> bytes_ok (zdrop n l) ->
     Q (Octets.with_slice (ztake n l), o')) ->
  wp (map_err oct (Octets.get_bytes n o)) Q R.
Proof.
  intros Ha Hn Hl HR HQ. destruct (decide (n <= zlen l)) as [Hle|Hlt].
  - destruct (at_bytes_get_bytes o l n Ha ltac:(lia)) as [-> A]. cbn. eauto with bytes.
  - unfold Octets.get_bytes. rewrite (Reads.at_bytes_cap _ _ Ha).
    destruct (Z.ltb_spec (zlen l) n); [apply HR|lia].
Qed.

Lemma wp_addr_len {A} v (f : Z -> aresult A) Q (R : AetherError -> Prop) :
  (forall e, R e) -> (forall n, 0 <= n -> wp (f n) Q R) ->
  wp (n ← (if v =? 4 then Done 4 else if v =? 6 then Done 16
           else Fail (Capsule_ (lit "bad ip version " ++ show_uint v))); f n) Q R.
Proof. intros HR Hf. repeat dest_if; cbn; auto; apply Hf; lia. Qed.

Lemma address_assign_loop_terminates fuel o l out :
  Reads.at_bytes o l -> bytes_ok l -> (length l < fuel)%nat ->
  terminates (address_assign_loop fuel o out).
Proof.
  unfold terminates. revert o l out. induction fuel as [|fuel IH]; intros o l out Ha Hl Hf; [lia|].
  cbn [address_assign_loop]. dest_if; [|done].
  apply wp_bind, (wp_get_varint o l); [done..|]. intros v o1 e k -> He _ A1 Hk.
  apply wp_bind, (wp_get_u8 o1 k); [done..|]. intros ver o2 k2 -> A2 Hk2.
  apply wp_addr_len; [done|]. intros n Hn.
  apply wp_bind, (wp_get_bytes n o2 k2); [done..|]. intros o3 Hle A3 Hk3.
  apply wp_bind, (wp_get_u8 o3 (zdrop n k2)); [done..|]. intros pl o4 k4 E4 A4 Hk4.
  apply (IH _ k4); [done..|].
  apply (f_equal (@length Z)) in E4. unfold zdrop in E4. rewrite length_drop in E4.
  cbn [length] in *. rewrite length_app in Hf. cbn [length] in Hf. lia.
Qed.

Lemma route_advertisement_loop_terminates fuel o l out :
  Reads.at_bytes o l -> bytes_ok l -> (length l < fuel)%nat ->
  terminates (route_advertisement_loop fuel o out).
Proof.
  unfold terminates. revert o l out. induction fuel as [|fuel IH]; intros o l out Ha Hl Hf; [lia|].
  cbn [route_advertisement_loop]. dest_if; [|done].
  apply wp_bind, (wp_get_u8 o l); [done..|]. intros ver o2 k2 -> A2 Hk2.
  apply wp_addr_len; [done|]. intros n Hn.
  apply wp_bind, (wp_get_bytes n o2 k2); [done..|]. intros o3 Hle A3 Hk3.
  apply wp_bind, (wp_get_bytes n o3 (zdrop n k2)); [done..|]. intros o4 Hle4 A4 Hk4.
  apply wp_bind, (wp_get_u8 o4 (zdrop n (zdrop n k2))); [done..|]. intros pl o5 k5 E5 A5 Hk5.
  apply (IH _ k5); [done..|].
  apply (f_equal (@length Z)) in E5. unfold zdrop in E5. rewrite !length_drop in E5.
  cbn [length] in *. lia.
Qed.

Lemma decode_capsule_terminates kind value :
  bytes_ok value -> terminates (decode_capsule kind value).
Proof.
  intros Hv. unfold decode_capsule. repeat dest_if; try done.
  - pose proof (address_assign_loop_terminates (S (length value)) _ value []
      (Reads.at_bytes_start value) Hv ltac:(lia)) as H.
    unfold parse_address_assign. by destruct address_assign_loop.
  - pose proof (route_advertisement_loop_terminates (S (length value)) _ value []
      (Reads.at_bytes_start value) Hv ltac:(lia)) as H.
    unfold parse_route_advertisement. by destruct route_advertisement_loop.
Qed.

(** ** The checksum *)

Lemma fold_step s :
  0 <= s < 2 ^ 32 ->
  u32 (Z.land s 0xffff + Z.shiftr s 16) = s mod 65536 + s / 65536.
Proof.
  intros Hs. change 0xffff with (Z.ones 16). rewrite Z.land_ones, Z.shiftr_div_pow2 by lia.
  change (2 ^ 16) with 65536. unfold u32. apply Z.mod_small. Z.div_mod_to_equations. lia.
Qed.

(** The folded sum is the representative of [s] modulo 65535 in 1..65535, and
    0 only for 0. *)
Lemma fold_carry_spec {E} s :
  0 <= s < 2 ^ 32 ->
  @fold_carry E 3 s = Done (if s =? 0 then 0 else (s - 1) mod 65535 + 1).
Proof.
  intros Hs.
  assert (Hshift : forall x, 0 <= x -> (Z.shiftr x 16 =? 0) = (x <? 65536)).
  { intros x Hx. rewrite Z.shiftr_div_pow2 by lia. change (2 ^ 16) with 65536.
    destruct (Z.ltb_spec x 65536), (Z.eqb_spec (x / 65536) 0); try done;
      Z.div_mod_to_equations; lia. }
  assert (Hval : forall x, 0 < x -> x < 65536 -> x mod 65535 = s mod 65535 ->
                 0 < s -> x = (s - 1) mod 65535 + 1)
    by (intros; Z.div_mod_to_equations; lia).
  cbn [fold_carry]. rewrite (Hshift s) by lia.
  destruct (Z.eqb_spec s 0) as [->|Hnz]; [done|].
  destruct (Z.ltb_spec s 65536); cbn [negb]; [by rewrite <- (Hval s) by lia|].
  rewrite fold_step by lia. set (s1 := s mod 65536 + s / 65536).
  assert (Hs1 : 0 < s1 <= 131070 /\ s1 mod 65535 = s mod 65535)
    by (unfold s1; Z.div_mod_to_equations; lia).
  rewrite (Hshift s1) by lia.
  destruct (Z.ltb_spec s1 65536); cbn [negb]; [by rewrite <- (Hval s1) by lia|].
  rewrite fold_step by lia. set (s2 := s1 mod 65536 + s1 / 65536).
  assert (Hs2 : 0 < s2 < 65536 /\ s2 mod 65535 = s mod 65535)
    by (unfold s2; Z.div_mod_to_equations; lia).
  rewrite (Hshift s2) by lia.
  destruct (Z.ltb_spec s2 65536); cbn [negb]; [by rewrite <- (Hval s2) by lia|lia].
Qed.

(** The sum of the words with no wrap-around. *)
Fixpoint word_sum (header : list Z) : Z :=
  match header with
  | a :: b :: rest => be_u16 a b + word_sum rest
  | [a] => a * 256
  | [] => 0
  end.

Lemma word_sum_bound n header :
  (length header <= n)%nat -> bytes_ok header -> 0 <= word_sum header <= 65535 * zlen header.
Proof.
  revert header. induction n as [|n IH]; intros [|a [|b r]] Hn Hb; cbn [length] in Hn; try lia;
    unfold zlen in *; cbn [word_sum length]; try lia.
  - inversion Hb; subst. unfold byte_ok in *. lia.
  - inversion Hb as [|? ? Ha Hb']; subst. inversion Hb' as [|? ? Hbb Hr]; subst.
    pose proof (IH r ltac:(lia) Hr). unfold byte_ok, be_u16 in *. lia.
Qed.

Lemma checksum_words_sum n header acc :
  (length header <= n)%nat -> bytes_ok header -> 0 <= acc ->
  acc + word_sum header < 2 ^ 32 -> checksum_words acc header = acc + word_sum header.
Proof.
  revert header acc.
  induction n as [|n IH]; intros [|a [|b r]] acc Hn Hb Hacc Hs; cbn [length] in Hn; try lia;
    cbn [word_sum checksum_words] in *; try lia.
  - inversion Hb; subst. rewrite Z.shiftl_mul_pow2 by lia. change (2 ^ 8) with 256.
    unfold u32, byte_ok in *. apply Z.mod_small. lia.
  - inversion Hb as [|? ? Ha Hb']; subst. inversion Hb' as [|? ? Hbb Hr]; subst.
    pose proof (word_sum_bound (length r) r (le_n _) Hr) as Hw. pose proof (zlen_nonneg r).
    unfold byte_ok, be_u16 in *. unfold u32. rewrite Z.mod_small by lia.
    rewrite IH by (done || lia). unfold be_u16. lia.
Qed.

Lemma word_sum_app_even l k :
  Nat.Even (length l) -> word_sum (l ++ k) = word_sum l + word_sum k.
Proof.
  intros [m Hm]. revert l Hm. induction m as [|m IH]; intros l Hm; [by destruct l|].
  destruct l as [|a [|b r]]; cbn [length] in Hm; try lia. cbn [app word_sum].
  rewrite IH by lia. lia.
Qed.

Lemma lnot_u16 x : 0 <= x < 65536 -> u16 (Z.lnot (u16 x)) = 65535 - x.
Proof.
  intros Hx. unfold u16, Z.lnot. rewrite (Z.mod_small x) by lia.
  replace (Z.pred (- x)) with (65535 - x + (-1) * 65536) by lia.
  rewrite Z.mod_add by lia. apply Z.mod_small. lia.
Qed.

Lemma ipv4_header_checksum_value {E} header :
  bytes_ok header -> zlen header <= 60 ->
  @ipv4_header_checksum E header =
  Done (65535 - (if word_sum header =? 0 then 0 else (word_sum header - 1) mod 65535 + 1)).
Proof.
  intros Hb Hl. pose proof (word_sum_bound _ _ (le_n _) Hb) as Hw.
  unfold ipv4_header_checksum. rewrite (checksum_words_sum _ _ _ (le_n _)) by (done || lia).
  rewrite Z.add_0_l, fold_carry_spec by lia. cbn [mbind outcome_bind].
  f_equal. apply lnot_u16. destruct (word_sum header =? 0); [lia|].
  pose proof (Z.mod_pos_bound (word_sum header - 1) 65535). lia.
Qed.

Lemma checksum_range {E} header c :
  bytes_ok header -> zlen header <= 60 ->
  @ipv4_header_checksum E header = Done c -> 0 <= c <= 65535.
Proof.
  intros Hb Hl. rewrite ipv4_header_checksum_value by done. intros [= <-].
  destruct (word_sum header =? 0); [lia|].
  pose proof (Z.mod_pos_bound (word_sum header - 1) 65535). lia.
Qed.

(** A header whose checksum field holds the checksum computed over the same
    header with that field zeroed sums to zero: the receiver's test. *)
Lemma checksum_verifies {E} pre post c :
  Nat.Even (length pre) -> bytes_ok pre -> bytes_ok post ->
  zlen pre + 2 + zlen post <= 60 -> 0 < word_sum pre ->
  @ipv4_header_checksum E (pre ++ [0; 0] ++ post) = Done c ->
  @ipv4_header_checksum E (pre ++ be_bytes 2 c ++ post) = Done 0.
Proof.
  intros He Hp Hq Hl Hpos Hc.
  assert (Hz : bytes_ok (pre ++ [0; 0] ++ post))
    by (apply bytes_ok_app; split; [done|]; repeat constructor; done).
  assert (Hlz : zlen (pre ++ [0; 0] ++ post) <= 60)
    by (rewrite !zlen_app; change (zlen [0; 0]) with 2; lia).
  pose proof (checksum_range _ _ Hz Hlz Hc) as Hr.
  assert (Hs : bytes_ok (pre ++ be_bytes 2 c ++ post))
    by (rewrite !bytes_ok_app; auto with bytes).
  assert (Hls : zlen (pre ++ be_bytes 2 c ++ post) <= 60)
    by (rewrite !zlen_app, zlen_be_bytes; lia).
  rewrite ipv4_header_checksum_value in Hc by done.
  rewrite ipv4_header_checksum_value by done.
  rewrite word_sum_app_even in Hc by done. rewrite word_sum_app_even by done.
  pose proof (word_sum_bound _ _ (le_n _) Hq).
  rewrite be_bytes_2. cbn [app word_sum] in *. rewrite be_u16_bytes by lia.
  unfold be_u16 in Hc. injection Hc as Hc. f_equal.
  destruct (Z.eqb_spec (word_sum pre + (0 * 256 + 0 + word_sum post)) 0); [lia|].
  destruct (Z.eqb_spec (word_sum pre + (c + word_sum post)) 0); [lia|].
  Z.div_mod_to_equations. lia.
Qed.

(** ** Properties *)

Lemma decode_encoded sid sid' pkt :
  0 <= sid <= MAX_VAR_INT ->
  decode_ip_datagram (varint_bytes (sid / 4) ++ [0] ++ pkt) sid' =
  Done (if quarter_stream_id sid =? quarter_stream_id sid' then Some pkt else None).
Proof.
  intros Hs.
  assert (Hq : varint_ok (sid / 4)) by (unfold varint_ok; Z.div_mod_to_equations; lia).
  unfold decode_ip_datagram.
  destruct (get_varint_app _ _ ([0] ++ pkt) Hq (Reads.at_bytes_start _)) as (o1 & -> & A1).
  cbn [map_err mbind outcome_bind]. fold (quarter_stream_id sid).
  destruct (Z.eqb_spec (quarter_stream_id sid) (quarter_stream_id sid')); [|done]. cbn [negb].
  destruct (get_varint_app o1 0 pkt ltac:(done) A1) as (o2 & -> & A2).
  cbn [map_err mbind outcome_bind negb Z.eqb CONNECT_IP_CONTEXT_ID].
  rewrite (Reads.at_bytes_cap _ _ A2). rewrite <- (app_nil_r pkt) in A2.
  destruct (get_bytes_app o2 pkt [] _ A2 eq_refl) as (o3 & -> & _). done.
Qed.

(** A packet encoded for a request stream is decoded byte for byte on
    that stream, and on a stream with another quarter id it is answered with
    "not mine" and never handed over. *)
Lemma datagram_roundtrip sid sid' pkt :
  0 <= sid <= MAX_VAR_INT ->
  exists d, encode_ip_datagram sid pkt = Done d /\
    decode_ip_datagram d sid' =
    Done (if quarter_stream_id sid =? quarter_stream_id sid' then Some pkt else None).
Proof.
  intros Hs. rewrite encode_ip_datagram_bytes by done. eexists. split; [done|].
  by apply decode_encoded.
Qed.

(** The states a parser reaches from [new]. *)
Inductive parser_reaches {arch : Arch} : CapsuleParser.t -> Prop :=
| reaches_new : parser_reaches CapsuleParser.new
| reaches_push p data :
    parser_reaches p -> bytes_ok data -> parser_reaches (CapsuleParser.push p data)
| reaches_next p : parser_reaches p -> parser_reaches (CapsuleParser.next p).2.

Lemma parser_inv {arch : Arch} p :
  parser_reaches p ->
  bytes_ok (CapsuleParser.buf p) /\ zlen (CapsuleParser.buf p) <= CapsuleParser.MAX_CAPSULE_BUF.
Proof.
  induction 1 as [|p data Hr [Hok Hlen] Hd|p Hr [Hok Hlen]].
  - split; [constructor|done].
  - unfold CapsuleParser.push, saturating_add. dest_if; cbn; [split; [constructor|done]|].
    rewrite zlen_app. split; [by apply bytes_ok_app|].
    pose proof (zlen_nonneg (CapsuleParser.buf p)). pose proof (zlen_nonneg data).
    unfold CapsuleParser.MAX_CAPSULE_BUF, u64_max in *. lia.
  - rewrite next_capsule_decode by done.
    destruct (capsule_decode (CapsuleParser.buf p)) as [[[k v] r]|] eqn:E; [|done].
    destruct (capsule_decode_shape _ _ _ _ Hok E) as (hdr & Heq & Hh & Hv & Hr').
    cbn. split; [done|]. rewrite Heq, !zlen_app in Hlen.
    pose proof (zlen_nonneg v). lia.
Qed.

(** C17: on 32-bit and on 64-bit targets, whatever the edge sends and however it
    is cut, the capsule parser never panics and never loops, holds at most
    256 KiB, and a step either leaves the buffer alone and answers nothing or
    strictly shortens it.  A buffer that starts with a whole capsule gives that
    capsule and keeps exactly what follows it; one that is a part of a capsule
    gives nothing. *)
Theorem capsule_parser_total {arch : Arch} p :
  parser_reaches p ->
  zlen (CapsuleParser.buf p) <= CapsuleParser.MAX_CAPSULE_BUF /\
  (let '(r, p') := CapsuleParser.next p in
   terminates r /\
   (r = Done None /\ p' = p \/
    r <> Done None /\ zlen (CapsuleParser.buf p') < zlen (CapsuleParser.buf p))) /\
  (forall kind value rest, varint_ok kind -> CapsuleParser.buf p = frame kind value ++ rest ->
   CapsuleParser.next p = (Some <$> decode_capsule kind value, CapsuleParser.mk rest)) /\
  (forall kind value q, varint_ok kind -> zlen value <= u32_max ->
   frame kind value = CapsuleParser.buf p ++ q -> q <> [] -> CapsuleParser.next p = (Done None, p)).
Proof.
  intros Hp. destruct (parser_inv p Hp) as [Hok Hlen]. split; [done|].
  rewrite next_capsule_decode by done. split_and!.
  2: { intros kind value rest Hk Hb. rewrite Hb in *. unfold frame in Hlen. rewrite !zlen_app in Hlen.
       pose proof (zlen_nonneg (varint_bytes kind)). pose proof (zlen_nonneg (varint_bytes (zlen value))).
       pose proof (zlen_nonneg rest). rewrite capsule_decode_frame; [done|done|].
       unfold CapsuleParser.MAX_CAPSULE_BUF, u32_max in *. lia. }
  2: { intros kind value q Hk Hv Hf Hq. by rewrite (capsule_decode_prefix kind value _ q). }
  destruct (capsule_decode (CapsuleParser.buf p)) as [[[k v] r]|] eqn:E; [|split; [done|by left]].
  destruct (capsule_decode_shape _ _ _ _ Hok E) as (hdr & Heq & Hh & Hv & Hr).
  pose proof (decode_capsule_terminates k v Hv) as Ht.
  destruct (decode_capsule k v); try done; (split; [done|right]); split; try done;
    cbn [CapsuleParser.buf]; rewrite Heq, !zlen_app; pose proof (zlen_nonneg v); lia.
Qed.

Lemma capsule_parser_total_witness :
  let target := armv7 in
  let p := CapsuleParser.push CapsuleParser.new [0; 3; 0; 9; 7; 5] in
  zlen (CapsuleParser.buf p) <= CapsuleParser.MAX_CAPSULE_BUF /\
  CapsuleParser.next p = (Done (Some (Datagram [0; 9; 7])), CapsuleParser.mk [5]).
Proof.
  cbv zeta.
  destruct (capsule_parser_total (arch := armv7) (CapsuleParser.push CapsuleParser.new [0; 3; 0; 9; 7; 5]))
    as (Hl & _ & Hw & _).
  - apply reaches_push; [constructor|]. repeat constructor; lia.
  - split; [done|]. apply (Hw 0 [0; 9; 7] [5]); [split; vm_compute; done|reflexivity].
Defined.

(** On a 32-bit target the length is cut to 32 bits before it is compared: a
    capsule of [2^32] bytes is taken for an empty one, and its first bytes for
    the next capsule. *)
Example long_capsule_cut :
  let p := CapsuleParser.mk [0; 192; 0; 0; 1; 0; 0; 0; 0; 7; 7] in
  CapsuleParser.next (arch := arm64) p = (Done None, p) /\
  CapsuleParser.next (arch := armv7) p = (Done (Some (Datagram [])), CapsuleParser.mk [7; 7]).
Proof. vm_compute. done. Qed.

(** An ADDRESS_ASSIGN capsule carrying any list of well-formed addresses
    parses to exactly that list, in order. *)
Lemma address_assign_roundtrip l :
  Forall assigned_ok l ->
  decode_capsule CAPSULE_ADDRESS_ASSIGN (flat_map assigned_bytes l) = Done (AddressAssign l).
Proof.
  intros Hl. unfold decode_capsule. cbn [Z.eqb CAPSULE_ADDRESS_ASSIGN Pos.eqb].
  unfold parse_address_assign.
  rewrite (address_assign_loop_bytes l); [done| |done|apply Reads.at_bytes_start].
  pose proof (length_flat_map_ge assigned_bytes l assigned_bytes_pos). lia.
Qed.

Lemma address_assign_roundtrip_witness :
  decode_capsule 1 [0; 4; 172; 16; 0; 2; 32] =
  Done (AddressAssign [mkAssigned 0 4 [172; 16; 0; 2] 32]).
Proof.
  apply (address_assign_roundtrip [mkAssigned 0 4 [172; 16; 0; 2] 32]).
  repeat constructor; cbn; try done.
Defined.

(** The data-plane probe is an IPv4/UDP packet whose header checksum
    verifies, whatever the random ids and ports drawn: its length field is its
    length, it comes from the given source and goes to 8.8.8.8:53. *)
Lemma probe_packet_wellformed dns_id id sport src :
  length src = 4%nat -> bytes_ok src ->
  exists header payload,
    build_dns_probe_packet dns_id id sport src = Done (header ++ payload) /\
    zlen header = 20 /\ looks_like_ip_packet (header ++ payload) = true /\
    @ipv4_header_checksum unit header = Done 0 /\
    zsub header 2 4 = be_bytes 2 (zlen (header ++ payload)) /\
    zsub header 12 16 = src /\ zsub header 16 20 = [8; 8; 8; 8] /\
    zsub payload 2 4 = be_bytes 2 53 /\ zdrop 8 payload = probe_dns_query dns_id.
Proof.
  intros Hl Hb. destruct src as [|s0 [|s1 [|s2 [|s3 [|]]]]]; try done. clear Hl.
  set (pre := [0x45; 0; 0; 60] ++ be_bytes 2 id ++ [0; 0; 64; 17]).
  set (post := [s0; s1; s2; s3] ++ [8; 8; 8; 8]).
  assert (Hq : bytes_ok post) by (apply bytes_ok_app; split; [done|]; repeat constructor; done).
  assert (Hp : bytes_ok pre)
    by (unfold pre; rewrite !bytes_ok_app; split_and!; auto with bytes; repeat constructor; done).
  assert (Hpre : length pre = 10%nat) by done.
  assert (Hpos : 0 < word_sum pre).
  { change pre with ([0x45; 0] ++ ([0; 60] ++ be_bytes 2 id ++ [0; 0; 64; 17])).
    rewrite word_sum_app_even by (exists 1%nat; done). change (word_sum [0x45; 0]) with 17664.
    change ([0x45; 0] ++ ([0; 60] ++ be_bytes 2 id ++ [0; 0; 64; 17])) with pre in Hp.
    pose proof (word_sum_bound _ ([0; 60] ++ be_bytes 2 id ++ [0; 0; 64; 17]) (le_n _)).
    assert (bytes_ok ([0; 60] ++ be_bytes 2 id ++ [0; 0; 64; 17]))
      by (rewrite !bytes_ok_app; split_and!; auto with bytes; repeat constructor; done).
    intuition lia. }
  assert (Hsum : bytes_ok (pre ++ [0; 0] ++ post))
    by (rewrite !bytes_ok_app; split_and!; auto; repeat constructor; done).
  destruct (@ipv4_header_checksum unit (pre ++ [0; 0] ++ post)) as [c| | |] eqn:Ec;
    try (by rewrite ipv4_header_checksum_value in Ec).
  exists (pre ++ be_bytes 2 c ++ post),
    (be_bytes 2 sport ++ be_bytes 2 53 ++ be_bytes 2 40 ++ [0; 0] ++ probe_dns_query dns_id).
  split.
  { change (build_dns_probe_packet dns_id id sport [s0; s1; s2; s3]) with
      (csum ← @ipv4_header_checksum unit (pre ++ [0; 0] ++ post);
       Done (OctetsMut.store (pre ++ [0; 0] ++ post) 10 (be_bytes 2 csum) ++
             be_bytes 2 sport ++ be_bytes 2 53 ++ be_bytes 2 40 ++ [0; 0] ++ probe_dns_query dns_id)).
    rewrite Ec. cbn [mbind outcome_bind]. f_equal. }
  split; [done|]. split; [done|].
  split; [apply (checksum_verifies pre post c); try done; exists 5%nat; done|].
  split_and!; done.
Qed.
