(* ===== verification/MasqueH2.v ===== *)
(** * The HTTP/2 tunnel (src/native/aether/aether/src/masque_h2.rs) and the
    capsule and datagram pumps it shares with src/native/aether/aether/src/quic.rs

    The send task gathers packets into batches of capsules; the session loop
    feeds the chunks of the response body to the capsule parser and the
    packets it finds to the inbound queue, and decides when the tunnel is
    validated.  The queues are the interfaces of [Channel]; the h2 stream is a
    parameter, and an iteration of the session loop is a step on the event
    that [select!] picked. *)

From stdpp Require Import base list option.
From Stdlib Require Import ZArith Lia.
From S2P Require Import Prelude RustStr Octets Error Channel Net Masque.

Definition H2_SEND_BATCH_BYTES : Z := 32 * 1024.
Definition H2_MAX_FRAME_SIZE : Z := 64 * 1024.
Definition DATA_PROBE_REQUIRED_SUCCESSES : Z := 2.

Record AssignedAddr := mkAssignedAddr { assigned_ip : IpAddr; assigned_prefix : Z }.

Inductive SenderMsg := CapsuleMsg (framed : list Z) | Finish.

Inductive Control := Close | Migrate.

Definition bytes_to_ip (version : Z) (bytes : list Z) : option IpAddr :=
  if (version =? 4) && (zlen bytes =? 4) then Some (V4 bytes)
  else if (version =? 6) && (zlen bytes =? 16) then Some (V6 bytes)
  else None.

(** ** Receiving *)

Section receive.
Context {arch : Arch}.
Context {T TA : Type} `{Sender T (list Z), Sender TA AssignedAddr}.

(** The loop over the addresses of an ADDRESS_ASSIGN capsule. *)
Definition send_addrs (addr_tx : option TA) (addrs : list AssignedAddress) : option TA :=
  fold_left (fun addr_tx a =>
    match bytes_to_ip (ip_version a) (address a) with
    | Some ip =>
        match addr_tx with
        | Some tx => Some (try_send tx (mkAssignedAddr ip (prefix_len a))).2
        | None => None
        end
    | None => addr_tx
    end) addrs addr_tx.

(** [drain_capsules] of the HTTP/2 tunnel; [Panic] and [Diverge] are those
    of the parser. *)
Fixpoint drain_capsules (fuel : nat) (delivered : bool) (capsules : CapsuleParser.t)
    (inbound_tx : T) (addr_tx : option TA)
    : outcome False (bool * CapsuleParser.t * T * option TA) :=
  match fuel with
  | O => Diverge
  | S fuel =>
      match CapsuleParser.next capsules with
      | (Done (Some (Datagram payload)), capsules) =>
          match strip_datagram_context payload with
          | Done pkt =>
              match try_send inbound_tx pkt with
              | (SendClosed, inbound_tx) => Done (true, capsules, inbound_tx, addr_tx)
              | (_, inbound_tx) => drain_capsules fuel true capsules inbound_tx addr_tx
              end
          | Fail _ => drain_capsules fuel delivered capsules inbound_tx addr_tx
          | Panic => Panic
          | Diverge => Diverge
          end
      | (Done (Some (AddressAssign addrs)), capsules) =>
          drain_capsules fuel delivered capsules inbound_tx (send_addrs addr_tx addrs)
      | (Done (Some _), capsules) => drain_capsules fuel delivered capsules inbound_tx addr_tx
      | (Done None, capsules) => Done (delivered, capsules, inbound_tx, addr_tx)
      | (Fail _, capsules) => Done (delivered, capsules, inbound_tx, addr_tx)
      | (Panic, _) => Panic
      | (Diverge, _) => Diverge
      end
  end.

Definition drain (capsules : CapsuleParser.t) (inbound_tx : T) (addr_tx : option TA) :=
  drain_capsules (S (length (CapsuleParser.buf capsules))) false capsules inbound_tx addr_tx.

(** [quic::drain_capsules]: on the QUIC tunnel only addresses come as
    capsules. *)
Fixpoint quic_drain_capsules (fuel : nat) (capsules : CapsuleParser.t) (addr_tx : option TA)
    : outcome False (CapsuleParser.t * option TA) :=
  match fuel with
  | O => Diverge
  | S fuel =>
      match CapsuleParser.next capsules with
      | (Done (Some (AddressAssign addrs)), capsules) =>
          quic_drain_capsules fuel capsules (send_addrs addr_tx addrs)
      | (Done (Some _), capsules) => quic_drain_capsules fuel capsules addr_tx
      | (Done None, capsules) => Done (capsules, addr_tx)
      | (Fail _, capsules) => Done (capsules, addr_tx)
      | (Panic, _) => Panic
      | (Diverge, _) => Diverge
      end
  end.

(** [quic::drain_datagrams]: the datagrams [dgram_recv] yields until it
    reports [Done] or an error. *)
Fixpoint drain_datagrams (sid : Z) (delivered : bool) (dgrams : list (list Z)) (inbound_tx : T)
    : outcome False (bool * T) :=
  match dgrams with
  | [] => Done (delivered, inbound_tx)
  | d :: dgrams =>
      match decode_ip_datagram d sid with
      | Done (Some ip_packet) =>
          match try_send inbound_tx ip_packet with
          | (SendClosed, inbound_tx) => Done (true, inbound_tx)
          | (_, inbound_tx) => drain_datagrams sid true dgrams inbound_tx
          end
      | Done None => drain_datagrams sid delivered dgrams inbound_tx
      | Fail _ => drain_datagrams sid delivered dgrams inbound_tx
      | Panic => Panic
      | Diverge => Diverge
      end
  end.

Definition quic_drain_datagrams (req_stream : option Z) (dgrams : list (list Z)) (inbound_tx : T) :=
  match req_stream with
  | Some sid => drain_datagrams sid false dgrams inbound_tx
  | None => Done (false, inbound_tx)
  end.
End receive.

(** ** Sending *)

(** The send half of the request stream, which the h2 crate implements:
    [poll_capacity] is [None] when the stream is gone, and [inl] the capacity
    it reports. *)
Class H2Stream (W : Type) := {
  reserve_capacity : W -> Z -> W;
  capacity : W -> Z;
  poll_capacity : W -> option (Z + str) * W;
  send_data : W -> list Z -> bool -> option str * W;
}.

(** h2 documents that [poll_capacity] is ready once more capacity is assigned
    to the stream; reserving takes none away. *)
Class H2StreamLaws (W : Type) `{H2Stream W} : Prop := {
  capacity_nonneg : forall w, 0 <= capacity w;
  poll_capacity_grows : forall w n w',
    poll_capacity w = (Some (inl n), w') -> capacity w < capacity w';
}.

Section send.
Context {R W : Type} `{Receiver R (list Z)} `{H2Stream W}.

(** The wait for capacity in [send_capsule]; [fuel] bounds how often the
    stream may report new capacity. *)
Fixpoint await_capacity (fuel : nat) (len : Z) (w : W) : aresult W :=
  match fuel with
  | O => Diverge
  | S fuel =>
      if capacity w <? len then
        match poll_capacity w with
        | (Some (inl _), w) => await_capacity fuel len w
        | (Some (inr e), _) => Fail (Masque (lit "h2 capacity: " ++ e))
        | (None, _) => Fail (Masque (lit "h2 stream closed"))
        end
      else Done w
  end.

Definition send_capsule (fuel : nat) (w : W) (data : list Z) : aresult W :=
  let len := zlen data in
  if len =? 0 then Done w
  else
    w ← await_capacity fuel len (reserve_capacity w len);
    match send_data w data false with
    | (None, w) => Done w
    | (Some e, _) => Fail (Masque (lit "h2 send_data: " ++ e))
    end.

(** Packets already queued ride along until the batch is full; every one
    adds at least two bytes. *)
Fixpoint gather (fuel : nat) (batch : list Z) (outbound_rx : R) : aresult (list Z * R) :=
  match fuel with
  | O => Diverge
  | S fuel =>
      if zlen batch <? H2_SEND_BATCH_BYTES then
        match try_recv outbound_rx with
        | (Received next, outbound_rx) =>
            batch ← append_datagram_capsule batch next;
            gather fuel batch outbound_rx
        | (_, outbound_rx) => Done (batch, outbound_rx)
        end
      else Done (batch, outbound_rx)
  end.

Inductive pump_event :=
| ControlMsg (msg : option SenderMsg)
| Packet (packet : option (list Z)).

(** One turn of [pump_outbound]: [true] when it goes on. *)
Definition pump_outbound (fuel : nat) (ev : pump_event) (outbound_rx : R) (w : W)
    : aresult (bool * R * W) :=
  match ev with
  | ControlMsg (Some (CapsuleMsg framed)) =>
      w ← send_capsule fuel w framed; Done (true, outbound_rx, w)
  | ControlMsg (Some Finish) | ControlMsg None => Done (false, outbound_rx, (send_data w [] true).2)
  | Packet None => Done (false, outbound_rx, (send_data w [] true).2)
  | Packet (Some packet) =>
      batch ← append_datagram_capsule [] packet;
      '(batch, outbound_rx) ←
        gather (S (Z.to_nat H2_SEND_BATCH_BYTES)) batch outbound_rx;
      w ← send_capsule fuel w batch;
      Done (true, outbound_rx, w)
  end.
End send.

(** ** The session loop *)

Section session.
Context {arch : Arch}.
Context {T TA TS : Type}
  `{Sender T (list Z), Sender TA AssignedAddr, Sender TS SenderMsg}.

(** [Sender::send(..).await], and the timeouts the engine is configured with. *)
Context (send_wait : TS -> SenderMsg -> bool * TS).
Context (data_check : bool) (probe_packet : list Z) (keepalive_timeout : Z).

Record session := mkSession {
  capsules : CapsuleParser.t;
  inbound_tx : T;
  addr_tx : option TA;
  sender_tx : TS;
  validate_successes : Z;
  ready_fired : bool;
  validate_deadline : option Z;
  ready_tx : bool;          (* the oneshot is still held *)
  ready_signals : nat;      (* values sent on it *)
  awaiting_pong : bool;
  pong_deadline : option Z;
}.

Inductive session_event :=
| KeepaliveTick (now : Z) (ping_sent : bool)
| PongReceived (err : option str)
| ProbeTick
| DeadlineSleep
| Ctrl (ctrl : option Control)
| SenderOutcome (outcome : option (aresult unit))
| Data (data : option (list Z + str)).

Inductive turn := Continue (s : session) | Return (r : aresult unit) (s : session) | Broken.

Definition masque_err (m : str) : AetherError := Masque m.

(** [close_sender]; how long it then waits does not change the state. *)
Definition close_sender (s : session) : session :=
  mkSession (capsules s) (inbound_tx s) (addr_tx s) (send_wait (sender_tx s) Finish).2
    (validate_successes s) (ready_fired s) (validate_deadline s) (ready_tx s)
    (ready_signals s) (awaiting_pong s) (pong_deadline s).

Definition set_sender (s : session) (tx : TS) : session :=
  mkSession (capsules s) (inbound_tx s) (addr_tx s) tx
    (validate_successes s) (ready_fired s) (validate_deadline s) (ready_tx s)
    (ready_signals s) (awaiting_pong s) (pong_deadline s).

Definition set_ping (s : session) (awaiting : bool) (deadline : option Z) : session :=
  mkSession (capsules s) (inbound_tx s) (addr_tx s) (sender_tx s)
    (validate_successes s) (ready_fired s) (validate_deadline s) (ready_tx s)
    (ready_signals s) awaiting deadline.

(** [ready_fired = true], and [ready_tx.take()] signalled once. *)
Definition fire_ready (s : session) (deadline : option Z) : session :=
  mkSession (capsules s) (inbound_tx s) (addr_tx s) (sender_tx s)
    (validate_successes s) true deadline false
    (if ready_tx s then S (ready_signals s) else ready_signals s)
    (awaiting_pong s) (pong_deadline s).

(** The data-plane probe, framed and offered to the send task. *)
Definition try_probe (s : session) : option session :=
  match encode_datagram_capsule probe_packet with
  | Done framed => Some (set_sender s (try_send (sender_tx s) (CapsuleMsg framed)).2)
  | _ => None
  end.

(** What happens before the loop once the edge has answered. *)
Definition session_start (now validation_timeout : Z) (s : session) : option session :=
  if data_check then
    match encode_datagram_capsule probe_packet with
    | Done framed =>
        let s := set_sender s (send_wait (sender_tx s) (CapsuleMsg framed)).2 in
        Some (mkSession (capsules s) (inbound_tx s) (addr_tx s) (sender_tx s)
                (validate_successes s) (ready_fired s) (Some (now + validation_timeout))
                (ready_tx s) (ready_signals s) (awaiting_pong s) (pong_deadline s))
    | _ => None
    end
  else if negb (ready_fired s) then Some (fire_ready s (validate_deadline s))
  else Some s.

(** The checks at the head of the loop, at [now]. *)
Definition deadline_expired (now : Z) (dl : option Z) : bool :=
  match dl with Some dl => dl <=? now | None => false end.

Definition check_deadlines (now_validate now_pong : Z) (s : session) : turn :=
  if data_check && negb (ready_fired s) && deadline_expired now_validate (validate_deadline s) then
    Return (Fail (masque_err
      (lit "h2 data-plane validation timeout (handshake ok, no traffic)"))) (close_sender s)
  else if deadline_expired now_pong (pong_deadline s) then
    Return (Fail (masque_err (lit "h2 keepalive timeout"))) (close_sender s)
  else Continue s.

(** The guards of the branches of [select!]. *)
Definition enabled (ev : session_event) (s : session) : bool :=
  match ev with
  | KeepaliveTick _ _ => ready_fired s && negb (awaiting_pong s)
  | PongReceived _ => awaiting_pong s
  | ProbeTick => data_check && negb (ready_fired s)
  | _ => true
  end.

(** A chunk of the response body. *)
Definition on_data (chunk : list Z) (s : session) : turn :=
  match drain (CapsuleParser.push (capsules s) chunk) (inbound_tx s) (addr_tx s) with
  | Done (got_data, caps, tx, atx) =>
      let s := mkSession caps tx atx (sender_tx s) (validate_successes s) (ready_fired s)
                 (validate_deadline s) (ready_tx s) (ready_signals s)
                 (awaiting_pong s) (pong_deadline s) in
      if got_data && negb (ready_fired s) then
        let s := mkSession (capsules s) (inbound_tx s) (addr_tx s) (sender_tx s)
                   (validate_successes s + 1) (ready_fired s) (validate_deadline s) (ready_tx s)
                   (ready_signals s) (awaiting_pong s) (pong_deadline s) in
        if DATA_PROBE_REQUIRED_SUCCESSES <=? validate_successes s then Continue (fire_ready s None)
        else match try_probe s with Some s => Continue s | None => Broken end
      else Continue s
  | _ => Broken
  end.

Definition on_event (ev : session_event) (s : session) : turn :=
  match ev with
  | KeepaliveTick now ping_sent =>
      Continue (if ping_sent then set_ping s true (Some (now + keepalive_timeout)) else s)
  | PongReceived None => Continue (set_ping s false None)
  | PongReceived (Some e) =>
      Return (Fail (masque_err (lit "h2 keepalive: " ++ e))) (close_sender s)
  | ProbeTick => match try_probe s with Some s => Continue s | None => Broken end
  | DeadlineSleep => Continue s
  | Ctrl (Some Close) | Ctrl None => Return (Done tt) (close_sender s)
  | Ctrl (Some Migrate) => Continue s
  | SenderOutcome (Some r) => Return r s
  | SenderOutcome None => Return (Fail (masque_err (lit "h2 send task stopped"))) s
  | Data (Some (inl chunk)) => on_data chunk s
  | Data (Some (inr e)) => Return (Fail (masque_err (lit "h2 body: " ++ e))) s
  | Data None => Return (Done tt) s
  end.

(** One iteration: the checks, then the event [select!] picked. *)
Definition session_turn (now_validate now_pong : Z) (ev : session_event) (s : session) : turn :=
  match check_deadlines now_validate now_pong s with
  | Continue s => on_event ev s
  | t => t
  end.
End session.

(** ** Facts *)

(** An IP packet as the tunnel carries them: a version 4 header of at least
    five words or a version 6 one, and at least 20 bytes. *)
Definition ip_packet (pkt : list Z) : Prop :=
  bytes_ok pkt /\ 20 <= zlen pkt <= u16_max /\
  match pkt with
  | b :: _ => 69 <= b < 80 \/ 96 <= b < 112
  | [] => False
  end.

#[global] Instance ip_packet_dec pkt : Decision (ip_packet pkt).
Proof. unfold ip_packet. destruct pkt; apply _. Defined.

Lemma ip_packet_looks pkt : ip_packet pkt -> looks_like_ip_packet pkt = true.
Proof.
  destruct pkt as [|b r]; [by intros (? & ? & [])|]. intros (_ & Hl & Hb).
  unfold looks_like_ip_packet. rewrite Z.shiftr_div_pow2 by lia. change (2 ^ 4) with 16.
  apply andb_true_intro. split; [|lia]. apply orb_true_intro.
  destruct Hb; [left|right]; apply Z.eqb_eq; Z.div_mod_to_equations; lia.
Qed.

(** An IP packet is never mistaken for one behind a context id. *)
Lemma strip_ip_packet pkt : ip_packet pkt -> strip_datagram_context pkt = Done pkt.
Proof.
  intros Hp. pose proof (ip_packet_looks pkt Hp) as Hlook.
  destruct pkt as [|b [|c r]]; [by destruct Hp as (? & ? & [])| |].
  { destruct Hp as (_ & Hl & _). change (zlen [b]) with 1 in Hl. lia. }
  destruct Hp as (Hok & Hl & Hb). unfold strip_datagram_context.
  rewrite Hlook. cbv zeta. destruct (Z.eqb_spec (zlen (b :: c :: r)) 0); [lia|].
  inversion Hok as [|? ? Hb' Hok']; subst. inversion Hok' as [|? ? Hc Hr]; subst.
  rewrite (Reads.get_varint_at _ b (c :: r) (Reads.at_bytes_start _) Hb'). cbv zeta.
  assert (Reads.varint_width b = 2%nat) as ->
    by (unfold Reads.varint_width; repeat dest_if; lia).
  destruct (Nat.ltb_spec (length (b :: c :: r)) 2); [done|].
  cbn [take]. rewrite take_0. unfold be_value. cbn [fold_left].
  change (2 ^ (8 * Z.of_nat 2 - 2)) with 16384.
  destruct (Z.eqb_spec (((0 * 256 + b) * 256 + c) `mod` 16384) CONNECT_IP_CONTEXT_ID) as [Hz|]; [|done].
  exfalso. unfold CONNECT_IP_CONTEXT_ID, byte_ok in *. Z.div_mod_to_equations. lia.
Qed.

Definition wire (pkts : list (list Z)) : list Z := flat_map (frame CAPSULE_DATAGRAM) pkts.

Lemma ip_packet_len pkt : ip_packet pkt -> zlen pkt <= MAX_VAR_INT.
Proof. intros (_ & H & _). unfold u16_max, MAX_VAR_INT in *. lia. Qed.

Lemma ip_packet_len32 pkt : ip_packet pkt -> zlen pkt <= u32_max.
Proof. intros (_ & H & _). unfold u16_max, u32_max in *. lia. Qed.

Lemma varint_ok_0 : varint_ok CAPSULE_DATAGRAM.
Proof. unfold varint_ok, CAPSULE_DATAGRAM, MAX_VAR_INT. lia. Qed.
#[export] Hint Resolve ip_packet_len ip_packet_len32 varint_ok_0 : aether.

Lemma frame_len pkt : ip_packet pkt -> zlen (frame CAPSULE_DATAGRAM pkt) <= 5 + u16_max.
Proof.
  intros (_ & Hl & _). unfold frame. rewrite !zlen_app.
  change (zlen (varint_bytes CAPSULE_DATAGRAM)) with 1.
  assert (zlen (varint_bytes (zlen pkt)) <= 4).
  { unfold varint_bytes, u16_max in *. repeat dest_if; rewrite ?zlen_be_bytes; try lia.
    change (zlen [zlen pkt]) with 1. lia. }
  lia.
Qed.

Lemma frame_ok pkt : ip_packet pkt -> bytes_ok (frame CAPSULE_DATAGRAM pkt).
Proof.
  intros (Hok & Hl & _). unfold frame. rewrite !bytes_ok_app. split_and!; [|apply varint_bytes_ok|done].
  - repeat constructor; done.
  - lia.
Qed.

Lemma wire_ok pkts : Forall ip_packet pkts -> bytes_ok (wire pkts).
Proof.
  induction 1 as [|p ps Hp Hps IH]; [constructor|]. unfold wire. cbn [flat_map].
  apply bytes_ok_app. auto using frame_ok.
Qed.

(** A cut of a capsule stream falls inside one capsule: what precedes the cut
    is whole capsules and a strict prefix of the next one. *)
Lemma wire_split pkts x y :
  Forall ip_packet pkts -> wire pkts = x ++ y ->
  exists ps qs part, pkts = ps ++ qs /\ x = wire ps ++ part /\
    wire qs = part ++ y /\
    (part = [] \/ exists q qs' tl, qs = q :: qs' /\ tl <> [] /\ frame CAPSULE_DATAGRAM q = part ++ tl).
Proof.
  intros Hp. revert x. induction Hp as [|p pkts Hp Hps IH]; intros x Hx.
  - apply eq_sym, app_eq_nil in Hx as [-> ->]. exists [], [], []. auto.
  - unfold wire in Hx. cbn [flat_map] in Hx. fold (wire pkts) in Hx.
    apply app_eq_app in Hx as (l & [[Hf Hy]|[Hx Hw]]).
    + destruct l as [|b l].
      * rewrite app_nil_r in Hf. cbn in Hy. subst. exists [p], pkts, [].
        unfold wire. cbn. rewrite !app_nil_r. auto.
      * exists [], (p :: pkts), x. split; [done|]. split; [done|].
        split; [unfold wire; cbn [flat_map]; fold (wire pkts); rewrite Hf, <- app_assoc, Hy; done|].
        right. exists p, pkts, (b :: l). auto.
    + destruct (IH l Hw) as (ps & qs & part & -> & -> & Hq & Hpart).
      exists (p :: ps), qs, part. split; [done|]. split; [|done].
      rewrite Hx. unfold wire. cbn [flat_map]. by rewrite app_assoc.
Qed.

Lemma capsule_decode_part {arch : Arch} q part tl :
  ip_packet q -> frame CAPSULE_DATAGRAM q = part ++ tl -> tl <> [] -> capsule_decode part = None.
Proof. intros. eapply capsule_decode_prefix; eauto with aether. Qed.

Lemma next_wire {arch : Arch} p ps part :
  Forall ip_packet (p :: ps) -> bytes_ok part ->
  CapsuleParser.next (CapsuleParser.mk (wire (p :: ps) ++ part)) =
  (Done (Some (Datagram p)), CapsuleParser.mk (wire ps ++ part)).
Proof.
  intros Hps Hpart. inversion Hps as [|? ? Hp Hps']; subst.
  rewrite next_capsule_decode by (apply bytes_ok_app; auto using wire_ok).
  cbn [CapsuleParser.buf]. unfold wire. cbn [flat_map]. rewrite <- app_assoc.
  rewrite capsule_decode_frame by auto with aether. done.
Qed.

Section delivery.
Context {arch : Arch}.
Context {T TA : Type} `{Sender T (list Z), Sender TA AssignedAddr}.

(** A queue whose receiver stays alive. *)
Variable Open : T -> Prop.
Definition stays_open : Prop :=
  forall t pkt, Open t -> (try_send t pkt).1 <> SendClosed /\ Open (try_send t pkt).2.

(** Every packet offered to the inbound queue once, in order. *)
Definition offer_all (tx : T) (pkts : list (list Z)) : T :=
  fold_left (fun tx p => (try_send tx p).2) pkts tx.

Lemma offer_all_open tx pkts : stays_open -> Open tx -> Open (offer_all tx pkts).
Proof.
  intros HO. revert tx. induction pkts as [|p ps IH]; intros tx Ht; [done|].
  apply IH. by apply (HO tx p).
Qed.

Lemma drain_capsules_wire ps part fuel d tx atx :
  stays_open -> Open tx -> Forall ip_packet ps -> bytes_ok part ->
  capsule_decode part = None -> (length ps < fuel)%nat ->
  drain_capsules (TA := TA) fuel d (CapsuleParser.mk (wire ps ++ part)) tx atx =
  Done (d || negb (bool_decide (ps = [])), CapsuleParser.mk part, offer_all tx ps, atx).
Proof.
  intros HO. revert fuel d tx.
  induction ps as [|p ps IH]; intros [|fuel] d tx Ht Hps Hpart Hnone Hf;
    cbn [length] in Hf; try lia; cbn [drain_capsules].
  - rewrite next_capsule_decode by done. cbn [wire flat_map app CapsuleParser.buf].
    rewrite Hnone. cbn. by rewrite orb_false_r.
  - rewrite next_wire by done. inversion Hps as [|? ? Hp Hps']; subst.
    rewrite strip_ip_packet by done.
    destruct (HO tx p Ht) as [Hne Ho].
    destruct (try_send tx p) as [st tx'] eqn:Es. cbn in Hne, Ho.
    rewrite bool_decide_false by done.
    destruct st; [|..|done];
      (rewrite IH by (done || lia); cbn [offer_all fold_left]; rewrite Es, orb_true_r; done).
Qed.

(** The receive path: each chunk is pushed and the parser drained. *)
Definition receive_chunk (chunk : list Z) (st : CapsuleParser.t * T * option TA)
    : outcome False (CapsuleParser.t * T * option TA) :=
  let '(caps, tx, atx) := st in
  '(_, caps, tx, atx) ← drain (CapsuleParser.push caps chunk) tx atx;
  Done (caps, tx, atx).

Fixpoint receive (chunks : list (list Z)) (st : CapsuleParser.t * T * option TA)
    : outcome False (CapsuleParser.t * T * option TA) :=
  match chunks with
  | [] => Done st
  | c :: chunks => st ← receive_chunk c st; receive chunks st
  end.

Lemma wire_length ps : Forall ip_packet ps -> (length ps <= length (wire ps))%nat.
Proof.
  induction 1 as [|p ps Hp Hps IH]; [done|]. unfold wire. cbn [flat_map]. fold (wire ps).
  rewrite length_app. cbn [length frame app].
  assert (1 <= length (frame CAPSULE_DATAGRAM p))%nat by (unfold frame; cbn; lia). lia.
Qed.

Lemma receive_wire chunks pkts part tx atx :
  stays_open -> Open tx -> Forall ip_packet pkts ->
  Forall (fun c => zlen c <= H2_MAX_FRAME_SIZE) chunks ->
  zlen part <= 5 + u16_max ->
  part ++ concat chunks = wire pkts ->
  receive chunks (CapsuleParser.mk part, tx, atx) =
    Done (CapsuleParser.new, offer_all tx pkts, atx) \/
  chunks = [] /\ part <> [].
Proof.
  intros HO. revert pkts part tx.
  induction chunks as [|c chunks IH]; intros pkts part tx Ht Hp Hc Hlen Heq.
  - destruct part as [|b part]; [left|right; done]. cbn in Heq.
    destruct pkts as [|p pkts]; [done|]. by apply (f_equal length) in Heq.
  - left. inversion Hc as [|? ? Hc1 Hc']; subst. cbn [concat] in Heq.
    rewrite app_assoc in Heq.
    destruct (wire_split pkts _ _ Hp (eq_sym Heq)) as (ps & qs & rest & -> & Hx & Hq & Hrest).
    apply Forall_app in Hp as [Hps Hqs].
    assert (Hrok : bytes_ok rest).
    { pose proof (wire_ok qs Hqs) as Hw. rewrite Hq in Hw. by apply bytes_ok_app in Hw as [? _]. }
    assert (Hnone : capsule_decode rest = None /\ zlen rest <= 5 + u16_max).
    { destruct Hrest as [->|(q & qs' & tl & -> & Htl & Hf)]; [done|].
      inversion Hqs as [|? ? Hq1 ?]; subst. split; [by eapply capsule_decode_part|].
      pose proof (frame_len q Hq1) as Hl. rewrite Hf, zlen_app in Hl.
      pose proof (zlen_nonneg tl). lia. }
    destruct Hnone as [Hnone Hrl].
    cbn [receive receive_chunk]. unfold CapsuleParser.push. cbn [CapsuleParser.buf].
    unfold saturating_add.
    destruct (Z.gtb_spec (Z.min (zlen part + zlen c) u64_max) CapsuleParser.MAX_CAPSULE_BUF) as [Hbig|_].
    { unfold CapsuleParser.MAX_CAPSULE_BUF, H2_MAX_FRAME_SIZE, u16_max in *. lia. }
    unfold drain. cbn [CapsuleParser.buf]. rewrite Hx.
    rewrite drain_capsules_wire; [|done..|].
    2:{ rewrite length_app. pose proof (wire_length ps Hps). lia. }
    cbn [mbind outcome_bind].
    destruct (IH qs rest (offer_all tx ps)) as [Hr|[-> Hne]]; try done.
    + by apply offer_all_open.
    + rewrite Hr. unfold offer_all. by rewrite fold_left_app.
    + exfalso. rewrite app_nil_r in Hq.
      destruct Hrest as [->|(q & qs' & tl & -> & Htl & Hf)]; [done|].
      unfold wire in Hq. cbn [flat_map] in Hq. rewrite Hf, <- app_assoc in Hq.
      apply (f_equal length) in Hq. rewrite !length_app in Hq.
      destruct tl; [done|]. cbn in Hq. lia.
Qed.
End delivery.

(** Stripping the context id never panics, and what it returns is the payload
    or its tail after the context id, and looks like an IP packet. *)
Lemma strip_datagram_context_spec payload :
  bytes_ok payload ->
  wp (strip_datagram_context payload)
    (fun pkt => looks_like_ip_packet pkt = true /\ exists ctx, payload = ctx ++ pkt)
    (fun _ => True).
Proof.
  intros Hp. unfold strip_datagram_context.
  destruct (Z.eqb_spec (zlen payload) 0); [done|].
  assert (Hw : wp (if looks_like_ip_packet payload then Done payload else Fail tt)
    (fun pkt => looks_like_ip_packet pkt = true /\ exists ctx, payload = ctx ++ pkt)
    (fun _ => True)).
  { destruct (looks_like_ip_packet payload) eqn:E; cbn; [|done]. split; [done|]. by exists []. }
  destruct (Reads.get_varint_spec _ payload (Reads.at_bytes_start payload) Hp)
    as [->|(v & e & k & -> & He & _ & ->)]; [done|].
  dest_if; [|done].
  pose proof (Reads.at_bytes_advance _ _ _ (Reads.at_bytes_start (e ++ k))) as Ha.
  rewrite (Reads.at_bytes_cap _ _ Ha), zlen_app. pose proof (zlen_nonneg k).
  apply wp_bind, wp_slice; [lia|rewrite zlen_app; lia|].
  replace (zlen e + zlen k - zlen k) with (zlen e) by lia.
  assert (Hs : zsub (e ++ k) (zlen e) (zlen e + zlen k) = k)
    by (rewrite <- (app_nil_r k) at 1; by apply zsub_app_mid).
  rewrite Hs. destruct (looks_like_ip_packet k) eqn:El; [|done]. cbn. eauto.
Qed.

Section totality.
Context {arch : Arch}.
Context {T TA : Type} `{Sender T (list Z), Sender TA AssignedAddr}.

Lemma drain_capsules_total fuel d p (tx : T) (atx : option TA) :
  bytes_ok (CapsuleParser.buf p) -> (length (CapsuleParser.buf p) < fuel)%nat ->
  wp (drain_capsules fuel d p tx atx)
    (fun r => bytes_ok (CapsuleParser.buf r.1.1.2) /\
              zlen (CapsuleParser.buf r.1.1.2) <= zlen (CapsuleParser.buf p)) (fun _ => True).
Proof.
  revert d p tx atx. induction fuel as [|fuel IH]; intros d p tx atx Hok Hf; [lia|].
  cbn [drain_capsules]. rewrite next_capsule_decode by done.
  destruct (capsule_decode (CapsuleParser.buf p)) as [[[k v] r]|] eqn:E; [|done].
  destruct (capsule_decode_shape _ _ _ _ Hok E) as (hdr & Heq & Hh & Hv & Hr).
  assert (Hlr : (length r < fuel)%nat /\ zlen r <= zlen (CapsuleParser.buf p)).
  { rewrite Heq. rewrite Heq in Hf. rewrite !length_app in Hf. rewrite !zlen_app.
    unfold zlen in *. lia. }
  destruct Hlr as [Hlr Hle].
  assert (IH' : forall d tx atx, wp (drain_capsules fuel d (CapsuleParser.mk r) tx atx)
    (fun x => bytes_ok (CapsuleParser.buf x.1.1.2) /\
              zlen (CapsuleParser.buf x.1.1.2) <= zlen (CapsuleParser.buf p)) (fun _ => True)).
  { intros. eapply wp_mono; [by apply IH|cbn; intros ? [? ?]; split; [done|lia]|done]. }
  clear IH. pose proof (decode_capsule_terminates k v Hv) as Ht.
  destruct (decode_capsule k v) as [[addrs| |payload|routes|k' pl]| | |] eqn:Ed;
    cbn [fmap outcome_fmap]; try done; try apply IH'.
  assert (Hpay : bytes_ok payload).
  { revert Ed. unfold decode_capsule.
    destruct (parse_address_assign v), (parse_route_advertisement v);
      repeat dest_if; try done; by intros [= <-]. }
  pose proof (strip_datagram_context_spec payload Hpay) as Hst.
  destruct (strip_datagram_context payload); try done.
  destruct (try_send tx a) as [[] tx']; try apply IH'. cbn. done.
Qed.

Lemma drain_total p (tx : T) (atx : option TA) :
  bytes_ok (CapsuleParser.buf p) ->
  exists d p' tx' atx', drain p tx atx = Done (d, p', tx', atx') /\
    bytes_ok (CapsuleParser.buf p').
Proof.
  intros Hok. pose proof (drain_capsules_total (S (length (CapsuleParser.buf p))) false p tx atx
    Hok ltac:(lia)) as Hw.
  unfold drain. destruct drain_capsules as [[[[d p'] tx'] atx']|[]| |]; try done.
  destruct Hw as [Hb _]. eauto 8.
Qed.
End totality.

Lemma push_ok p chunk :
  bytes_ok (CapsuleParser.buf p) -> bytes_ok chunk ->
  bytes_ok (CapsuleParser.buf (CapsuleParser.push p chunk)).
Proof.
  intros. unfold CapsuleParser.push. dest_if; cbn; [constructor|by apply bytes_ok_app].
Qed.

(** ** Properties *)

(** The bytes that sending a list of packets puts on the stream. *)
Definition send_all (pkts : list (list Z)) : aresult (list Z) :=
  fold_left (fun out p => out ≫= fun out => append_datagram_capsule out p) pkts (Done []).

Lemma send_all_wire_from pkts out :
  Forall (fun p => zlen p <= MAX_VAR_INT) pkts ->
  fold_left (fun out p => out ≫= fun out => append_datagram_capsule out p) pkts (Done out)
  = Done (out ++ wire pkts).
Proof.
  intros H. revert out. induction H as [|p ps Hp Hps IH]; intros out; [by rewrite app_nil_r|].
  cbn [fold_left mbind outcome_bind]. unfold append_datagram_capsule at 2.
  rewrite append_capsule_frame by auto with aether. rewrite IH. unfold wire. cbn [flat_map].
  by rewrite app_assoc.
Qed.

(** C21: the HTTP/2 tunnel carries packets end to end: the capsules one side
    writes, cut into body chunks in any way HTTP/2 allows, make the other side
    offer exactly the same packets to its inbound queue, each once and in
    order, and leave no byte behind in its parser. *)
Theorem h2_tunnel_delivers {arch : Arch} {T TA : Type} `{Sender T (list Z), Sender TA AssignedAddr}
    (Open : T -> Prop) pkts chunks (tx : T) (atx : option TA) :
  stays_open Open -> Open tx -> Forall ip_packet pkts ->
  Forall (fun c => zlen c <= H2_MAX_FRAME_SIZE) chunks ->
  send_all pkts = Done (concat chunks) ->
  receive chunks (CapsuleParser.new, tx, atx) =
  Done (CapsuleParser.new, offer_all tx pkts, atx).
Proof.
  intros HO Ht Hp Hc Hs. unfold send_all in Hs.
  rewrite send_all_wire_from in Hs by (eapply List.Forall_impl; [apply ip_packet_len|exact Hp]).
  injection Hs as Hs. cbn in Hs.
  destruct (receive_wire Open chunks pkts [] tx atx) as [Hr|[_ Hr]]; try done.
Qed.

Definition sample_packet : list Z := 69 :: replicate 19 7.

Lemma h2_tunnel_delivers_witness :
  let target := armv7 in
  receive (TA := chan AssignedAddr)
    [[0]; 20 :: take 11 sample_packet; drop 11 sample_packet ++ [0; 20; 69]; replicate 19 7]
    (CapsuleParser.new, mk_chan 1 true [], None) =
  Done (CapsuleParser.new, mk_chan 1 true [sample_packet], None).
Proof.
  cbv zeta. etransitivity; [apply (h2_tunnel_delivers (arch := armv7) (TA := chan AssignedAddr) (fun c => chan_open c = true) [sample_packet; sample_packet]
    [[0]; 20 :: take 11 sample_packet; drop 11 sample_packet ++ [0; 20; 69]; replicate 19 7]
    (mk_chan 1 true []) None)|].
  - intros [c o i] pkt Ho. cbn in *. subst. cbn. destruct (c <=? zlen i); done.
  - done.
  - repeat constructor; apply (bool_decide_unpack _); vm_compute; done.
  - repeat constructor; vm_compute; done.
  - vm_compute. done.
  - vm_compute. done.
Defined.

Section pump.
Context {R W : Type} `{ReceiverLaws R (list Z)} `{H2StreamLaws W}.

Lemma frame_pos k v : 0 < zlen (frame k v).
Proof.
  unfold frame. rewrite zlen_app. pose proof (varint_bytes_nonempty k).
  pose proof (zlen_nonneg (varint_bytes (zlen v) ++ v)). lia.
Qed.

Lemma wire_snoc ps p : wire (ps ++ [p]) = wire ps ++ frame CAPSULE_DATAGRAM p.
Proof. unfold wire. rewrite flat_map_app. cbn [flat_map]. by rewrite app_nil_r. Qed.

(** Gathering takes a prefix of the queue, stops at the batch size and never
    earlier than the end of the queue. *)
Lemma gather_spec fuel ps (rx : R) :
  Forall ip_packet (rx_queue rx) ->
  zlen (wire ps) < H2_SEND_BATCH_BYTES + 5 + u16_max ->
  H2_SEND_BATCH_BYTES - zlen (wire ps) < Z.of_nat fuel ->
  (0 < fuel)%nat ->
  exists taken rx',
    gather fuel (wire ps) rx = Done (wire (ps ++ taken), rx') /\
    rx_queue rx = taken ++ rx_queue rx' /\
    zlen (wire (ps ++ taken)) < H2_SEND_BATCH_BYTES + 5 + u16_max /\
    (rx_queue rx' = [] \/ H2_SEND_BATCH_BYTES <= zlen (wire (ps ++ taken))).
Proof.
  revert ps rx. induction fuel as [|fuel IH]; intros ps rx Hq Hb Hf Hpos; [lia|].
  cbn [gather]. destruct (Z.ltb_spec (zlen (wire ps)) H2_SEND_BATCH_BYTES) as [Hlt|Hge].
  2:{ exists [], rx. rewrite app_nil_r. auto. }
  destruct (try_recv rx) as [[p| |] rx'] eqn:E.
  - apply try_recv_got in E. rewrite E in Hq. inversion Hq as [|? ? Hp Hq']; subst.
    unfold append_datagram_capsule. rewrite append_capsule_frame by auto with aether.
    cbn [mbind outcome_bind]. rewrite <- wire_snoc.
    pose proof (frame_pos CAPSULE_DATAGRAM p). pose proof (frame_len p Hp).
    destruct (IH (ps ++ [p]) rx') as (taken & rx'' & Hg & Hr & Hrest); try done;
      try (rewrite wire_snoc, zlen_app; lia).
    { lia. }
    exists (p :: taken), rx''. rewrite <- app_assoc in Hg, Hrest.
    rewrite E, Hr. auto.
  - apply try_recv_empty in E as [E1 E2]. exists [], rx'. rewrite app_nil_r, E1, E2. auto.
  - apply try_recv_gone in E as [E1 E2]. exists [], rx'. rewrite app_nil_r, E1, E2. auto.
Qed.

(** The wait ends once every report has granted something. *)
Lemma await_capacity_spec fuel len (w : W) :
  (0 < fuel)%nat -> len - capacity w < Z.of_nat fuel ->
  (exists w', await_capacity fuel len w = Done w' /\ len <= capacity w') \/
  (exists e, await_capacity fuel len w = Fail e).
Proof.
  revert w. induction fuel as [|fuel IH]; intros w Hp Hf; [lia|]. cbn [await_capacity].
  destruct (Z.ltb_spec (capacity w) len) as [Hlt|Hge]; [|eauto].
  destruct (poll_capacity w) as [[[n|e]|] w'] eqn:E; eauto.
  apply poll_capacity_grows in E. apply IH; lia.
Qed.

(** A capsule goes out in one write, and only with the capacity for it. *)
Lemma send_capsule_spec fuel data (w : W) :
  0 < zlen data < Z.of_nat fuel ->
  (exists w0 w', zlen data <= capacity w0 /\ send_data w0 data false = (None, w') /\
     send_capsule fuel w data = Done w') \/
  (exists e, send_capsule fuel w data = Fail e).
Proof.
  intros Hd. unfold send_capsule.
  destruct (Z.eqb_spec (zlen data) 0) as [Hz|_]; [lia|].
  pose proof (capacity_nonneg (reserve_capacity w (zlen data))).
  destruct (await_capacity_spec fuel (zlen data) (reserve_capacity w (zlen data)))
    as [(w0 & -> & Hc)|(e & ->)]; [lia..| |right; by eexists].
  cbn [mbind outcome_bind]. destruct (send_data w0 data false) as [[e|] w'] eqn:E; eauto 10.
Qed.
End pump.

(** A turn of the send task that picks up a packet frames that packet and a
    prefix of the packets queued behind it, in order, into one batch of whole
    capsules; it stops only at an empty queue or a full batch, and a batch is
    at most the limit and one capsule long.  The turn always comes to an end:
    either the batch went out in a single write for which the stream had the
    capacity, or the stream's error ends the task. *)
Lemma pump_sends_batch {R W : Type} `{ReceiverLaws R (list Z)} `{H2StreamLaws W}
    packet (rx : R) (w : W) fuel :
  ip_packet packet -> Forall ip_packet (rx_queue rx) ->
  H2_SEND_BATCH_BYTES + 5 + u16_max <= Z.of_nat fuel ->
  exists taken rx',
    let batch := wire (packet :: taken) in
    rx_queue rx = taken ++ rx_queue rx' /\
    zlen batch < H2_SEND_BATCH_BYTES + 5 + u16_max /\
    (rx_queue rx' = [] \/ H2_SEND_BATCH_BYTES <= zlen batch) /\
    ((exists w0 w', zlen batch <= capacity w0 /\ send_data w0 batch false = (None, w') /\
        pump_outbound fuel (Packet (Some packet)) rx w = Done (true, rx', w')) \/
     (exists e, pump_outbound fuel (Packet (Some packet)) rx w = Fail e)).
Proof.
  intros Hp Hq Hfuel. pose proof (frame_len packet Hp) as Hl.
  assert (Hw : wire [packet] = frame CAPSULE_DATAGRAM packet)
    by (unfold wire; cbn [flat_map]; apply app_nil_r).
  pose proof (zlen_nonneg (frame CAPSULE_DATAGRAM packet)).
  destruct (gather_spec (S (Z.to_nat H2_SEND_BATCH_BYTES)) [packet] rx Hq)
    as (taken & rx' & Hg & Hr & Hb & Hrest).
  1-3: rewrite ?Hw; unfold H2_SEND_BATCH_BYTES, u16_max in *; lia.
  exists taken, rx'. cbv zeta. split; [done|]. split; [done|]. split; [done|].
  assert (0 < zlen (wire (packet :: taken))).
  { unfold wire. cbn [flat_map]. rewrite zlen_app.
    pose proof (frame_pos CAPSULE_DATAGRAM packet).
    pose proof (zlen_nonneg (flat_map (frame CAPSULE_DATAGRAM) taken)). lia. }
  unfold pump_outbound, append_datagram_capsule.
  rewrite append_capsule_frame by auto with aether.
  cbn [mbind outcome_bind app]. rewrite <- Hw, Hg. cbn [mbind outcome_bind app].
  cbn [app] in Hb.
  destruct (send_capsule_spec fuel (wire (packet :: taken)) w) as [(w0 & w' & Hc & Hs & ->)|(e & ->)];
    [lia|left; exists w0, w'; auto|right; by eexists].
Qed.

(** A stream that grants a thousand bytes per report. *)
#[global] Instance counting_stream : H2Stream (Z * list Z) := {
  reserve_capacity w _ := w;
  capacity w := Z.max 0 w.1;
  poll_capacity w := (Some (inl 1000), (Z.max 0 w.1 + 1000, w.2));
  send_data w d _ := (None, (w.1 - zlen d, w.2 ++ d));
}.
#[global] Instance counting_stream_laws : H2StreamLaws (Z * list Z).
Proof. split; [intros; cbn; lia|]. intros [c o] n w' E. cbn in *. injection E as ? <-. cbn. lia. Qed.

Lemma pump_sends_batch_witness :
  exists taken rx',
    let batch := wire (sample_packet :: taken) in
    rx_queue (mk_chan 4 true [sample_packet]) = taken ++ rx_queue rx' /\
    zlen batch < H2_SEND_BATCH_BYTES + 5 + u16_max /\
    (rx_queue rx' = [] \/ H2_SEND_BATCH_BYTES <= zlen batch) /\
    ((exists w0 w' : Z * list Z, zlen batch <= capacity w0 /\ send_data w0 batch false = (None, w') /\
        pump_outbound (Z.to_nat 98308) (Packet (Some sample_packet)) (mk_chan 4 true [sample_packet])
          (0, []) = Done (true, rx', w')) \/
     (exists e, pump_outbound (Z.to_nat 98308) (Packet (Some sample_packet))
          (mk_chan 4 true [sample_packet]) (0, []) = Fail e)).
Proof.
  apply (pump_sends_batch sample_packet (mk_chan 4 true [sample_packet]) (0, []) (Z.to_nat 98308)).
  - apply (bool_decide_unpack _). vm_compute. done.
  - repeat constructor; apply (bool_decide_unpack _); vm_compute; done.
  - rewrite Z2Nat.id by lia. unfold H2_SEND_BATCH_BYTES, u16_max. lia.
Defined.

(** On the QUIC tunnel, datagrams encoded for the request stream and
    datagrams of other streams arriving in any interleaving are sorted out
    exactly: the inbound queue is offered the stream's own packets, in order,
    and nothing else. *)
Lemma quic_datagrams_delivered {T : Type} `{Sender T (list Z)} (Open : T -> Prop)
    sid (sent : list (Z * list Z)) dgrams (tx : T) :
  stays_open Open -> Open tx ->
  Forall (fun s => 0 <= s.1 <= MAX_VAR_INT) sent ->
  Forall2 (fun s d => encode_ip_datagram s.1 s.2 = Done d) sent dgrams ->
  let mine := filter (fun s => quarter_stream_id s.1 = quarter_stream_id sid) sent in
  quic_drain_datagrams (Some sid) dgrams tx =
  Done (negb (bool_decide (mine = [])), offer_all tx (snd <$> mine)).
Proof.
  intros HO Ht Hs Hd. cbv zeta. unfold quic_drain_datagrams.
  assert (Hgen : forall d0, drain_datagrams sid d0 dgrams tx =
    Done (d0 || negb (bool_decide (filter (fun s => quarter_stream_id s.1 = quarter_stream_id sid) sent = [])),
          offer_all tx (snd <$> filter (fun s => quarter_stream_id s.1 = quarter_stream_id sid) sent))).
  2:{ by rewrite Hgen. }
  revert tx Ht Hs. induction Hd as [|[s p] d sent dgrams He Hd IH]; intros tx Ht Hs d0.
  { cbn. by rewrite orb_false_r. }
  inversion Hs as [|? ? Hsr Hs']; subst. cbn [fst snd] in *. cbn [drain_datagrams].
  rewrite encode_ip_datagram_bytes in He by done.
  assert (d = varint_bytes (s / 4) ++ [0] ++ p) as -> by congruence. clear He.
  rewrite decode_encoded by done. rewrite filter_cons. cbn [fst].
  destruct (Z.eqb_spec (quarter_stream_id s) (quarter_stream_id sid)) as [Hq|Hq].
  - rewrite decide_True by done. destruct (HO tx p Ht) as [Hne Ho].
    destruct (try_send tx p) as [st tx'] eqn:Es. cbn in Hne, Ho.
    rewrite bool_decide_false by done. rewrite orb_true_r.
    destruct st; [|..|done]; rewrite (IH tx' Ho Hs' true); cbn; rewrite Es; done.
  - rewrite decide_False by done. apply IH; done.
Qed.

Lemma quic_datagrams_delivered_witness :
  quic_drain_datagrams (Some 4) [[1; 0; 9; 9]; [2; 0; 8]; [1; 0; 7]] (mk_chan 5 true []) =
  Done (true, mk_chan 5 true [[9; 9]; [7]]).
Proof.
  etransitivity;
    [apply (quic_datagrams_delivered (fun c => chan_open c = true) 4 [(4, [9; 9]); (8, [8]); (4, [7])])|].
  - intros [c o i] pkt Ho. cbn in *. subst. cbn. destruct (c <=? zlen i); done.
  - done.
  - repeat constructor; cbn; unfold MAX_VAR_INT; lia.
  - repeat constructor.
  - vm_compute. done.
Defined.

Section session_facts.
Context {arch : Arch}.
Context {T TA TS : Type}
  `{Sender T (list Z), Sender TA AssignedAddr, Sender TS SenderMsg}.
Context (send_wait : TS -> SenderMsg -> bool * TS).
Context (probe_packet : list Z) (keepalive_timeout : Z).

Let session := (@session T TA TS).

(** The state right after the edge accepted the request. *)
Definition session_initial (s : session) : Prop :=
  capsules s = CapsuleParser.new /\ validate_successes s = 0 /\ ready_fired s = false /\
  ready_tx s = true /\ ready_signals s = 0%nat /\ awaiting_pong s = false /\ pong_deadline s = None.

(** Before the tunnel is ready the oneshot is unused and fewer than the
    required round trips were seen; after, it was used once. *)
Definition session_inv (s : session) : Prop :=
  bytes_ok (CapsuleParser.buf (capsules s)) /\
  (if ready_fired s
   then ready_tx s = false /\ ready_signals s = 1%nat /\
        DATA_PROBE_REQUIRED_SUCCESSES <= validate_successes s
   else ready_tx s = true /\ ready_signals s = 0%nat /\
        0 <= validate_successes s < DATA_PROBE_REQUIRED_SUCCESSES) /\
  (awaiting_pong s = true <-> is_Some (pong_deadline s)).

Definition event_ok (ev : session_event) : Prop :=
  match ev with Data (Some (inl chunk)) => bytes_ok chunk | _ => True end.

Lemma try_probe_ok (s : session) :
  zlen probe_packet <= MAX_VAR_INT ->
  exists tx, try_probe probe_packet s = Some (set_sender s tx).
Proof.
  intros Hp. unfold try_probe, encode_datagram_capsule, encode_capsule.
  rewrite append_capsule_frame by auto with aether. eauto.
Qed.

Lemma on_data_inv (s : session) chunk :
  zlen probe_packet <= MAX_VAR_INT -> session_inv s -> bytes_ok chunk ->
  exists s', on_data probe_packet chunk s = Continue s' /\ session_inv s'.
Proof.
  intros Hpp (Hb & Hr & Ha) Hc. unfold on_data.
  destruct (drain_total (CapsuleParser.push (capsules s) chunk) (inbound_tx s) (addr_tx s))
    as (got & caps & tx & atx & -> & Hcaps); [by apply push_ok|].
  destruct s as [c itx at_ stx vs rf vd rt rs ap pd]; cbn in *.
  destruct got, rf; cbn; try (eexists; split; [reflexivity|]; split_and!; cbn; tauto).
  unfold DATA_PROBE_REQUIRED_SUCCESSES in *.
  destruct Hr as (-> & -> & Hv). destruct (Z.leb_spec 2 (vs + 1)).
  - eexists. split; [reflexivity|]. split_and!; cbn; try done; try tauto; lia.
  - edestruct try_probe_ok as [stx' Hs]; [done|]. rewrite Hs. eexists. split; [reflexivity|].
    split_and!; cbn; try done; try tauto; unfold DATA_PROBE_REQUIRED_SUCCESSES; lia.
Qed.

Lemma on_event_inv data_check (s : session) ev :
  zlen probe_packet <= MAX_VAR_INT -> session_inv s -> event_ok ev ->
  enabled data_check ev s = true ->
  match on_event send_wait probe_packet keepalive_timeout ev s with
  | Continue s' => session_inv s'
  | Return _ _ => True
  | Broken => False
  end.
Proof.
  intros Hpp Hinv Hev Hen.
  assert (Hping : forall b d, (b = true <-> is_Some d) -> session_inv (set_ping s b d)).
  { intros b d Hd. destruct Hinv as (Hb & Hr & _). by destruct s; split_and!; cbn in *. }
  destruct ev as [now sent|err| | |ctrl|out|data]; cbn [on_event].
  - destruct sent; [|done]. apply Hping. split; [eauto|done].
  - destruct err; [done|]. apply Hping. split; [done|]. by intros [? ?].
  - destruct (try_probe_ok s Hpp) as [tx ->]. destruct Hinv as (Hb & Hr & Ha).
    by destruct s; split_and!; cbn in *.
  - done.
  - by destruct ctrl as [[]|].
  - by destruct out.
  - destruct data as [[chunk|e]|]; [|done..].
    by destruct (on_data_inv s chunk Hpp Hinv Hev) as (s' & -> & Hs').
Qed.

(** States of a session that validates its data plane. *)
Inductive session_reaches : session -> Prop :=
| reaches_start now timeout s s' :
    session_initial s -> session_start send_wait true probe_packet now timeout s = Some s' ->
    session_reaches s'
| reaches_turn now_v now_p ev s s' :
    session_reaches s -> event_ok ev -> enabled true ev s = true ->
    session_turn send_wait true probe_packet keepalive_timeout now_v now_p ev s = Continue s' ->
    session_reaches s'.

Lemma session_reaches_inv s :
  zlen probe_packet <= MAX_VAR_INT -> session_reaches s -> session_inv s.
Proof.
  intros Hpp. induction 1 as [now tmo s s' Hi Hs|now_v now_p ev s s' Hr IH Hev Hen Ht].
  - unfold session_start in Hs. destruct (encode_datagram_capsule probe_packet); [|done..].
    injection Hs as <-. destruct Hi as (Hc & Hv & Hf & Ht & Hn & Ha & Hp).
    split_and!; cbn; rewrite ?Hc, ?Hv, ?Hf, ?Ha, ?Hp; [constructor|..].
    + split_and!; try done; unfold DATA_PROBE_REQUIRED_SUCCESSES; lia.
    + split; [done|]. by intros [? ?].
  - unfold session_turn in Ht. pose proof (on_event_inv true s ev Hpp IH Hev Hen) as He.
    destruct (check_deadlines _ _ _ _ s) as [s0|r s0|] eqn:Ec; [|done..].
    assert (s0 = s) as -> by (revert Ec; unfold check_deadlines; repeat dest_if; congruence).
    rewrite Ht in He. done.
Qed.
End session_facts.

(** A tunnel that validates its data plane is announced ready at most
    once, and only after two chunks that carried packets came back; whatever
    the edge sends, the loop goes on or returns and never gets stuck, and it
    waits for a pong exactly while a pong deadline is armed. *)
Lemma session_ready_once {arch : Arch} {T TA TS : Type}
    `{Sender T (list Z), Sender TA AssignedAddr, Sender TS SenderMsg}
    (send_wait : TS -> SenderMsg -> bool * TS) probe_packet keepalive_timeout (s : @session T TA TS)
    now_v now_p ev :
  zlen probe_packet <= MAX_VAR_INT ->
  session_reaches send_wait probe_packet keepalive_timeout s ->
  event_ok ev -> enabled true ev s = true ->
  (ready_signals s <= 1)%nat /\
  (ready_fired s = true <-> DATA_PROBE_REQUIRED_SUCCESSES <= validate_successes s) /\
  (ready_fired s = true <-> ready_signals s = 1%nat) /\
  (awaiting_pong s = true <-> is_Some (pong_deadline s)) /\
  session_turn send_wait true probe_packet keepalive_timeout now_v now_p ev s <> Broken.
Proof.
  intros Hpp Hr Hev Hen. pose proof (session_reaches_inv _ _ _ s Hpp Hr) as Hinv.
  pose proof (on_event_inv send_wait probe_packet keepalive_timeout true s ev Hpp Hinv Hev Hen) as He.
  destruct Hinv as (_ & Hf & Ha).
  assert (Hturn : session_turn send_wait true probe_packet keepalive_timeout now_v now_p ev s <> Broken).
  { unfold session_turn, check_deadlines. repeat dest_if; try done. intros Hb. by rewrite Hb in He. }
  split_and!; try done; destruct (ready_fired s); try (split; done || lia); intuition lia.
Qed.

#[local] Existing Instance armv7.

Definition sample_session : @session (chan (list Z)) (chan AssignedAddr) (chan SenderMsg) :=
  mkSession CapsuleParser.new (mk_chan 8 true []) None (mk_chan 16 true []) 0 false None true 0
    false None.

Definition chan_send_wait (c : chan SenderMsg) (m : SenderMsg) : bool * chan SenderMsg :=
  (chan_open c, mk_chan (chan_cap c) (chan_open c) (chan_items c ++ [m])).

Definition run_session (evs : list session_event)
    : option (@session (chan (list Z)) (chan AssignedAddr) (chan SenderMsg)) :=
  s ← session_start chan_send_wait true sample_packet 0 100 sample_session;
  foldr (fun ev k s => match session_turn chan_send_wait true sample_packet 30 1 1 ev s with
                       | Continue s' => k s' | _ => None end) Some evs s.

Lemma session_ready_once_witness :
  exists s, run_session [Data (Some (inl (0 :: 20 :: sample_packet)));
                         Data (Some (inl (0 :: 20 :: sample_packet)))] = Some s /\
    (ready_signals s <= 1)%nat /\
    (ready_fired s = true <-> DATA_PROBE_REQUIRED_SUCCESSES <= validate_successes s) /\
    (ready_fired s = true <-> ready_signals s = 1%nat) /\
    (awaiting_pong s = true <-> is_Some (pong_deadline s)) /\
    session_turn chan_send_wait true sample_packet 30 1 1 DeadlineSleep s <> Broken.
Proof.
  eexists. split; [vm_compute; reflexivity|].
  apply (session_ready_once chan_send_wait sample_packet 30 _ 1 1 DeadlineSleep).
  - vm_compute. done.
  - eapply (reaches_turn _ _ _ 1 1 (Data (Some (inl (0 :: 20 :: sample_packet)))));
      [eapply (reaches_turn _ _ _ 1 1 (Data (Some (inl (0 :: 20 :: sample_packet)))));
       [apply (reaches_start _ _ _ 0 100 sample_session)|..]|..];
      try (vm_compute; reflexivity); try (repeat constructor; lia).
  - done.
  - done.
Defined.
