(* ===== verification/Sysprofile.v ===== *)
(** * Performance profile (src/native/aether/aether/src/sysprofile.rs)

    The sizes every other component is built from.  The machine (number of
    cpus, the text of /proc/meminfo) and the environment are arguments. *)

From stdpp Require Import base list option.
From Stdlib Require Import ZArith Lia.
From S2P Require Import Prelude RustStr.

Inductive Tier := Low | Medium | High.

#[global] Instance Tier_eq_dec : EqDecision Tier.
Proof. solve_decision. Defined.

Record Tuning := mkTuning {
  tier : Tier;
  cpus : Z;
  mem_mb : option Z;
  scan_concurrency_cap : Z;
  udp_socket_rcv_buf : Z;
  udp_socket_snd_buf : Z;
  netstack_tcp_tx_buf : Z;
  netstack_tcp_rx_buf : Z;
  netstack_udp_buf : Z;
  channel_capacity : Z;
  h2_stream_window : Z;
  h2_connection_window : Z;
}.

(** [std::env::var]: [None] when the variable is unset or not Unicode. *)
Definition environment := str -> option str.

(** [total_mem_mb] on Linux and Android: the first MemTotal line decides. *)
Fixpoint mem_total_line (ls : list str) : option Z :=
  match ls with
  | [] => None
  | line :: ls =>
      match strip_prefix line (lit "MemTotal:") with
      | Some rest =>
          (* [trim_end_matches] on the two-character pattern kB *)
          let fix strip_kb (fuel : nat) (s : str) : str :=
            match fuel with
            | O => s
            | S fuel => if ends_with s (lit "kB") then strip_kb fuel (take (length s - 2) s) else s
            end in
          let rest := trim rest in
          kb ← parse_uint u64_max (trim (strip_kb (length rest) rest));
          Some (kb / 1024)
      | None => mem_total_line ls
      end
  end.

Definition total_mem_mb (meminfo : option str) : option Z :=
  data ← meminfo; mem_total_line (lines data).

Definition detect_tier `{UnicodeData} (env : environment) (cpus : Z) (mem_mb : option Z) : Tier :=
  let by_machine :=
    let mem_low := match mem_mb with Some m => m <=? 384 | None => false end in
    let mem_medium := match mem_mb with Some m => m <=? 1536 | None => false end in
    if (cpus <=? 2) || mem_low then Low
    else if (cpus <=? 4) || mem_medium then Medium
    else High in
  match env (lit "AETHER_PERF_PROFILE") with
  | Some v =>
      let v := to_lowercase (trim v) in
      if str_eqb v (lit "low") then Low
      else if str_eqb v (lit "medium") || str_eqb v (lit "mid") then Medium
      else if str_eqb v (lit "high") then High
      else by_machine
  | None => by_machine
  end.

Definition buffer_override (env : environment) (key : str) (fallback : Z) : Z :=
  match (v ← env key; parse_uint u64_max (trim v)) with
  | Some bytes =>
      if (16 * 1024 <=? bytes) && (bytes <=? 64 * 1024 * 1024) then bytes else fallback
  | None => fallback
  end.

Definition build_tuning `{UnicodeData} (env : environment) (detected_cpus : Z)
    (meminfo : option str) : Tuning :=
  let cpus := detected_cpus in
  let mem_mb := total_mem_mb meminfo in
  let tier := detect_tier env cpus mem_mb in
  let '(scan_cap, rcv, snd, tx, rx, udp, chan) :=
    match tier with
    | Low => (4, 256 * 1024, 48 * 1024, 64 * 1024, 64 * 1024, 32 * 1024, 128)
    | Medium => (10, 2 * 1024 * 1024, 96 * 1024, 96 * 1024, 128 * 1024, 64 * 1024, 512)
    | High => (u64_max, 7 * 1024 * 1024, 128 * 1024, 128 * 1024, 192 * 1024, 128 * 1024, 1024)
    end in
  let rx := buffer_override env (lit "AETHER_NETSTACK_TCP_RX") rx in
  let tx := buffer_override env (lit "AETHER_NETSTACK_TCP_TX") tx in
  let '(h2s, h2c) :=
    match tier with
    | Low => (2 * 1024 * 1024, 4 * 1024 * 1024)
    | Medium => (8 * 1024 * 1024, 16 * 1024 * 1024)
    | High => (16 * 1024 * 1024, 32 * 1024 * 1024)
    end in
  mkTuning tier cpus mem_mb scan_cap rcv snd tx rx udp chan h2s h2c.

Definition cap_concurrency (t : Tuning) (requested : Z) : Z :=
  Z.min requested (scan_concurrency_cap t).

(** ** What the netstack relies on *)

Definition tuning_ok (t : Tuning) : Prop :=
  16 * 1024 <= netstack_tcp_tx_buf t <= 64 * 1024 * 1024 /\
  16 * 1024 <= netstack_tcp_rx_buf t <= 64 * 1024 * 1024 /\
  0 < netstack_udp_buf t /\ 0 < channel_capacity t.

Lemma buffer_override_range env key fallback :
  16 * 1024 <= fallback <= 64 * 1024 * 1024 ->
  16 * 1024 <= buffer_override env key fallback <= 64 * 1024 * 1024.
Proof.
  intros Hf. unfold buffer_override.
  destruct (v ← env key; parse_uint u64_max (trim v)) as [b|]; [|done].
  destruct (_ && _) eqn:E; [|done]. bool_lia.
Qed.

(** Whatever the machine reports and the environment overrides, the sizes
    stay usable: the TCP buffers within 16 KiB..64 MiB, no queue empty, the
    datagram send buffer at most 128 KiB (the latency budget of the uplink)
    and never above the receive buffer. *)
Lemma build_tuning_ok `{UnicodeData} env ncpus meminfo :
  let t := build_tuning env ncpus meminfo in
  tuning_ok t /\
  0 < udp_socket_snd_buf t <= 128 * 1024 /\ udp_socket_snd_buf t <= udp_socket_rcv_buf t /\
  h2_stream_window t <= h2_connection_window t <= u32_max /\
  tier t = detect_tier env ncpus (mem_mb t).
Proof.
  cbv zeta. unfold build_tuning, tuning_ok, u32_max.
  set (tr := detect_tier env ncpus (total_mem_mb meminfo)).
  destruct tr eqn:E; cbn -[Z.mul]; fold tr;
    (split_and!; [apply buffer_override_range; lia..| | | | | | | |done]); lia.
Qed.

Example detect_tier_examples (U : UnicodeData) :
  let env v : environment :=
    fun k => if str_eqb k (lit "AETHER_PERF_PROFILE") then v else None in
  detect_tier (env None) 8 (Some 4096) = High /\ detect_tier (env None) 8 (Some 384) = Low /\
  detect_tier (env None) 3 None = Medium /\
  detect_tier (env (Some (lit " MID "))) 64 None = Medium /\
  total_mem_mb (Some (lit "MemTotal:        3900000 kB")) = Some 3808.
Proof. cbv. done. Qed.
