(* ===== verification/Backlog.v ===== *)
(** * The per-flow backlog (src/native/aether/aether/src/netstack.rs)

    App-to-network data a flow could not take yet.  The queue is global and
    ordered per flow.  The backlog is proved against [FlowSink], what it needs
    of the stack below; [Netstack] discharges it. *)

From stdpp Require Import base list option gmap.
From Stdlib Require Import ZArith Lia.
From S2P Require Import Prelude Net Channel.

Inductive DataIn :=
| Tcp (id : Z) (data : list Z)
| TcpClose (id : Z)
| Udp (id : Z) (dst : SocketAddr) (data : list Z)
| UdpClose (id : Z).

#[global] Instance DataIn_eq_dec : EqDecision DataIn.
Proof. solve_decision. Defined.

Definition data_in_id (d : DataIn) : Z :=
  match d with Tcp id _ | TcpClose id | Udp id _ _ | UdpClose id => id end.

Definition data_in_bytes (d : DataIn) : Z :=
  match d with Tcp _ data => zlen data | Udp _ _ data => zlen data | _ => 0 end.

Definition MAX_BACKLOG_BYTES : Z := 512 * 1024.

Module Backlog.
Record t := mk { queue : list DataIn; blocked : gset Z; bytes : Z }.

Definition default : t := mk [] ∅ 0.

Definition is_empty (b : t) : bool := match queue b with [] => true | _ => false end.

Definition holds (b : t) (id : Z) : bool := bool_decide (id ∈ blocked b).

Definition push (b : t) (d : DataIn) : t :=
  mk (queue b ++ [d]) ({[data_in_id d]} ∪ blocked b)
    (saturating_add (bytes b) (data_in_bytes d)).

(** [iter().sum()] *)
Definition sum_bytes (q : list DataIn) : Z :=
  fold_left (fun acc d => acc + data_in_bytes d) q 0.

Definition purge (b : t) (id : Z) : t :=
  let q := filter (fun d => data_in_id d <> id) (queue b) in
  mk q (blocked b ∖ {[id]}) (sum_bytes q).
End Backlog.

(** ** What the backlog needs of the stack

    [try_handle_data] places a message or gives back what did not fit.
    [taken] is the ghost view of a TCP flow: every byte it took so far, in
    order, and [None] when there is no such flow; [room] is how many more
    bytes it has place for. *)
Class FlowSink (S : Type) := {
  try_handle_data : S -> DataIn -> outcome False (option DataIn * S);
  taken : S -> Z -> option (list Z);
  room : S -> Z -> Z;
  sink_ok : S -> Prop;
}.

(** The bytes a placed message adds to the flow [id]. *)
Definition msg_bytes (id : Z) (d : DataIn) : list Z :=
  match d with Tcp i data => if i =? id then data else [] | _ => [] end.

Definition queued_bytes (id : Z) (q : list DataIn) : list Z := flat_map (msg_bytes id) q.

Class FlowSinkLaws (S : Type) `{FlowSink S} := {
  (** A message is taken, or a part of it is given back under the same id;
      what was taken of it is appended to its flow and to no other. *)
  handle_spec s d :
    sink_ok s -> exists back s',
      try_handle_data s d = Done (back, s') /\ sink_ok s' /\
      (forall b, back = Some b -> data_in_id b = data_in_id d /\ data_in_bytes b <= data_in_bytes d /\
                                 exists i data, b = Tcp i data) /\
      forall id,
        match taken s id with
        | Some l => exists k, taken s' id = Some (l ++ k) /\
            msg_bytes id d = k ++ match back with Some b => msg_bytes id b | None => [] end /\
            room s' id = room s id - zlen k /\
            (data_in_id d = id -> zlen (msg_bytes id d) < room s id -> back = None)
        | None => taken s' id = None
        end;
}.

Section backlog.
Context {S : Type} `{FlowSink S}.

Definition ingest (s : S) (b : Backlog.t) (d : DataIn) : outcome False (S * Backlog.t) :=
  if Backlog.holds b (data_in_id d) then Done (s, Backlog.push b d)
  else
    '(back, s) ← try_handle_data s d;
    match back with
    | Some back => Done (s, Backlog.push b back)
    | None => Done (s, b)
    end.

(** The loop of [drain_backlog]: the queue, and the three accumulators. *)
Fixpoint drain_loop (s : S) (queue kept : list DataIn) (blocked : gset Z) (bytes : Z)
    : outcome False (S * Backlog.t) :=
  match queue with
  | [] => Done (s, Backlog.mk kept blocked bytes)
  | d :: queue =>
      let id := data_in_id d in
      if bool_decide (id ∈ blocked) then
        drain_loop s queue (kept ++ [d]) blocked (saturating_add bytes (data_in_bytes d))
      else
        '(back, s) ← try_handle_data s d;
        match back with
        | Some back =>
            drain_loop s queue (kept ++ [back]) ({[id]} ∪ blocked)
              (saturating_add bytes (data_in_bytes back))
        | None => drain_loop s queue kept blocked bytes
        end
  end.

Definition drain_backlog (s : S) (b : Backlog.t) : outcome False (S * Backlog.t) :=
  if Backlog.is_empty b then Done (s, b) else drain_loop s (Backlog.queue b) [] ∅ 0.

(** [drain_app_data]: [moved] counts the messages read this pass. *)
Fixpoint drain_app_data {R} `{Receiver R DataIn} (budget : nat) (moved : Z)
    (s : S) (b : Backlog.t) (rx : R) : outcome False (Z * bool * S * Backlog.t * R) :=
  match budget with
  | O => Done (moved, false, s, b, rx)
  | Datatypes.S budget =>
      if Backlog.bytes b <? MAX_BACKLOG_BYTES then
        match try_recv rx with
        | (Received d, rx) =>
            '(s, b) ← ingest s b d;
            drain_app_data budget (moved + 1) s b rx
        | (RecvEmpty, rx) => Done (moved, false, s, b, rx)
        | (RecvDisconnected, rx) => Done (moved, true, s, b, rx)
        end
      else Done (moved, false, s, b, rx)
  end.
End backlog.

(** ** The invariant of the backlog *)

Definition backlog_inv (b : Backlog.t) : Prop :=
  (forall id, id ∈ Backlog.blocked b <-> exists d, d ∈ Backlog.queue b /\ data_in_id d = id) /\
  Backlog.bytes b = Z.min (Backlog.sum_bytes (Backlog.queue b)) u64_max.

Lemma sum_bytes_from q acc :
  fold_left (fun acc d => acc + data_in_bytes d) q acc = acc + Backlog.sum_bytes q.
Proof.
  unfold Backlog.sum_bytes. revert acc. induction q as [|d q IH]; intros acc; [cbn; lia|].
  cbn [fold_left]. rewrite IH, (IH (0 + _)). lia.
Qed.

Lemma sum_bytes_app q r : Backlog.sum_bytes (q ++ r) = Backlog.sum_bytes q + Backlog.sum_bytes r.
Proof. unfold Backlog.sum_bytes at 1. rewrite fold_left_app. apply sum_bytes_from. Qed.

Lemma sum_bytes_cons d q : Backlog.sum_bytes (d :: q) = data_in_bytes d + Backlog.sum_bytes q.
Proof. unfold Backlog.sum_bytes at 1. cbn [fold_left]. rewrite sum_bytes_from. lia. Qed.

Lemma data_in_bytes_nonneg d : 0 <= data_in_bytes d.
Proof. destruct d; cbn; auto with bytes; lia. Qed.

Lemma sum_bytes_nonneg q : 0 <= Backlog.sum_bytes q.
Proof.
  induction q as [|d q IH]; [done|]. rewrite sum_bytes_cons.
  pose proof (data_in_bytes_nonneg d). lia.
Qed.

Lemma sum_bytes_snoc q d : Backlog.sum_bytes (q ++ [d]) = Backlog.sum_bytes q + data_in_bytes d.
Proof. rewrite sum_bytes_app. unfold Backlog.sum_bytes at 2. cbn. lia. Qed.

Lemma backlog_default_inv : backlog_inv Backlog.default.
Proof. split; [|done]. intros id. cbn. split; [set_solver|]. intros (d & Hd & _). set_solver. Qed.

Lemma blocked_snoc blocked q d :
  (forall id, id ∈ blocked <-> exists x, x ∈ q /\ data_in_id x = id) ->
  forall id, id ∈ ({[data_in_id d]} ∪ blocked : gset Z) <->
             exists x, x ∈ q ++ [d] /\ data_in_id x = id.
Proof.
  intros Hb id. rewrite elem_of_union, elem_of_singleton, Hb. split.
  - intros [->|(x & Hx & Hi)]; [exists d|exists x]; (split; [set_solver|done]).
  - intros (x & Hx & <-). apply elem_of_app in Hx as [Hx|Hx]; [eauto|].
    apply list_elem_of_singleton in Hx as ->. auto.
Qed.

Lemma bytes_snoc bytes q d :
  bytes = Z.min (Backlog.sum_bytes q) u64_max ->
  saturating_add bytes (data_in_bytes d) = Z.min (Backlog.sum_bytes (q ++ [d])) u64_max.
Proof.
  intros ->. rewrite sum_bytes_snoc. unfold saturating_add.
  pose proof (data_in_bytes_nonneg d). lia.
Qed.

Lemma push_inv b d : backlog_inv b -> backlog_inv (Backlog.push b d).
Proof. intros [Hb Hs]. split; [by apply blocked_snoc|by apply bytes_snoc]. Qed.

Lemma purge_sum b id :
  Backlog.sum_bytes (Backlog.queue (Backlog.purge b id)) <= Backlog.sum_bytes (Backlog.queue b).
Proof.
  cbn [Backlog.queue Backlog.purge].
  induction (Backlog.queue b) as [|d q IH]; [done|]. rewrite filter_cons.
  pose proof (data_in_bytes_nonneg d).
  destruct (decide (data_in_id d <> id)); rewrite !sum_bytes_cons; lia.
Qed.

Lemma purge_inv b id : backlog_inv b -> Backlog.sum_bytes (Backlog.queue b) <= u64_max ->
  backlog_inv (Backlog.purge b id).
Proof.
  intros [Hb Hs] Hmax. pose proof (purge_sum b id) as Hp. revert Hp.
  unfold backlog_inv, Backlog.purge. cbn [Backlog.queue Backlog.blocked Backlog.bytes].
  intros Hp. split; [|lia].
  intros i. rewrite elem_of_difference, elem_of_singleton, Hb. split.
  - intros [(d & Hd & <-) Hne]. exists d. split; [|done]. by apply list_elem_of_filter.
  - intros (d & Hd & <-). apply list_elem_of_filter in Hd as [Hne Hd]. split; [eauto|done].
Qed.

(** ** No byte is lost or reordered *)

Lemma queued_bytes_app id q r : queued_bytes id (q ++ r) = queued_bytes id q ++ queued_bytes id r.
Proof. apply flat_map_app. Qed.

Lemma queued_bytes_snoc id q d : queued_bytes id (q ++ [d]) = queued_bytes id q ++ msg_bytes id d.
Proof. rewrite queued_bytes_app. unfold queued_bytes at 2. cbn [flat_map]. by rewrite app_nil_r. Qed.

Lemma queued_bytes_cons id q d : queued_bytes id (d :: q) = msg_bytes id d ++ queued_bytes id q.
Proof. done. Qed.

Lemma msg_bytes_other id d : data_in_id d <> id -> msg_bytes id d = [].
Proof. destruct d; cbn; [|done..]. intros. by destruct (Z.eqb_spec id0 id). Qed.

Lemma queued_bytes_other id q :
  (forall d, d ∈ q -> data_in_id d <> id) -> queued_bytes id q = [].
Proof.
  induction q as [|d q IH]; intros Hq; [done|]. unfold queued_bytes. cbn [flat_map].
  rewrite msg_bytes_other by (apply Hq; set_solver). apply IH. intros x Hx. apply Hq. set_solver.
Qed.

(** What a flow was given: the bytes it took and those queued for it. *)
Definition flow_view {S} `{FlowSink S} (s : S) (b : Backlog.t) (id : Z) : option (list Z) :=
  l ← taken s id; Some (l ++ queued_bytes id (Backlog.queue b)).

Section stream.
Context {S : Type} `{FlowSinkLaws S}.
Implicit Types (s : S) (b : Backlog.t).

Lemma handle_taken s d back s' id l :
  sink_ok s -> try_handle_data s d = Done (back, s') -> taken s id = Some l ->
  exists k, taken s' id = Some (l ++ k) /\
    msg_bytes id d = k ++ match back with Some b => msg_bytes id b | None => [] end /\
    room s' id = room s id - zlen k /\
    (data_in_id d = id -> zlen (msg_bytes id d) < room s id -> back = None).
Proof.
  intros Hs Ht Hl. destruct (handle_spec s d Hs) as (back' & s'' & Ht' & _ & _ & Hk).
  rewrite Ht in Ht'. injection Ht' as <- <-. specialize (Hk id). by rewrite Hl in Hk.
Qed.

Lemma ingest_spec s b d :
  sink_ok s -> backlog_inv b ->
  exists s' b', ingest s b d = Done (s', b') /\ sink_ok s' /\ backlog_inv b' /\
    forall id l, taken s id = Some l -> exists k,
      taken s' id = Some (l ++ k) /\
      k ++ queued_bytes id (Backlog.queue b') =
      queued_bytes id (Backlog.queue b) ++ msg_bytes id d.
Proof.
  intros Hs Hb. unfold ingest, Backlog.holds. case_bool_decide as Hh.
  { exists s, (Backlog.push b d). split_and!; [done..|by apply push_inv|].
    intros id l Hl. exists []. rewrite app_nil_r. split; [done|].
    apply queued_bytes_snoc. }
  destruct (handle_spec s d Hs) as (back & s' & Ht & Hs' & Hback & _).
  rewrite Ht. cbn [mbind outcome_bind].
  assert (Hempty : forall id, data_in_id d = id -> queued_bytes id (Backlog.queue b) = []).
  { intros id <-. apply queued_bytes_other. intros x Hx Heq. apply Hh, Hb. eauto. }
  destruct back as [back|].
  - exists s', (Backlog.push b back). split_and!; [done..|by apply push_inv|].
    intros id l Hl. destruct (handle_taken _ _ _ _ _ _ Hs Ht Hl) as (k & Hk & Hm & _).
    exists k. split; [done|]. cbn [Backlog.queue Backlog.push].
    rewrite queued_bytes_snoc, Hm.
    destruct (decide (data_in_id d = id)) as [He|Hne]; [by rewrite Hempty|].
    rewrite msg_bytes_other in Hm by done. symmetry in Hm.
    apply app_eq_nil in Hm as [-> ->]. by rewrite !app_nil_r.
  - exists s', b. split_and!; [done..|].
    intros id l Hl. destruct (handle_taken _ _ _ _ _ _ Hs Ht Hl) as (k & Hk & Hm & _).
    exists k. split; [done|]. rewrite Hm, app_nil_r.
    destruct (decide (data_in_id d = id)) as [He|Hne]; [by rewrite Hempty, app_nil_r|].
    rewrite msg_bytes_other in Hm by done. symmetry in Hm.
    apply app_eq_nil in Hm as [-> _]. by rewrite app_nil_r.
Qed.

(** Invariant of the loop: [kept] and its accumulators form a backlog. *)
Lemma drain_loop_spec q : forall s kept blocked bytes,
  sink_ok s -> backlog_inv (Backlog.mk kept blocked bytes) ->
  exists s' b', drain_loop s q kept blocked bytes = Done (s', b') /\ sink_ok s' /\ backlog_inv b' /\
    forall id l, taken s id = Some l -> exists k,
      taken s' id = Some (l ++ k) /\
      k ++ queued_bytes id (Backlog.queue b') = queued_bytes id kept ++ queued_bytes id q.
Proof.
  induction q as [|d q IH]; intros s kept blocked bytes Hs Hb; cbn [drain_loop].
  { exists s, (Backlog.mk kept blocked bytes). split_and!; [done..|].
    intros id l Hl. exists []. rewrite !app_nil_r. done. }
  case_bool_decide as Hh.
  { destruct (IH s (kept ++ [d]) blocked (saturating_add bytes (data_in_bytes d)) Hs)
      as (s' & b' & -> & Hs' & Hb' & Hf).
    { destruct Hb as [Hbl Hby]. split; [|by apply bytes_snoc].
      intros id. rewrite <- (blocked_snoc _ _ d Hbl id). cbn in *. set_solver. }
    exists s', b'. split_and!; [done..|]. intros id l Hl.
    destruct (Hf id l Hl) as (k & Hk & He). exists k. split; [done|].
    by rewrite He, queued_bytes_snoc, <- app_assoc. }
  destruct (handle_spec s d Hs) as (back & s1 & Ht & Hs1 & Hback & _).
  rewrite Ht. cbn [mbind outcome_bind].
  assert (Hempty : forall id, data_in_id d = id -> queued_bytes id kept = []).
  { intros id <-. apply queued_bytes_other. intros x Hx Heq. apply Hh, Hb. cbn. eauto. }
  assert (Hcomm : forall id k, msg_bytes id d = k ++ match back with Some b => msg_bytes id b | None => [] end ->
    k ++ queued_bytes id kept ++ match back with Some b => msg_bytes id b | None => [] end =
    queued_bytes id kept ++ msg_bytes id d).
  { intros id k Hm. destruct (decide (data_in_id d = id)) as [He|Hne]; [by rewrite Hempty|].
    rewrite msg_bytes_other in * by done. symmetry in Hm.
    apply app_eq_nil in Hm as [-> ->]. by rewrite app_nil_r. }
  destruct back as [back|].
  - destruct (Hback back eq_refl) as (Hid & _ & _).
    destruct (IH s1 (kept ++ [back]) ({[data_in_id d]} ∪ blocked)
      (saturating_add bytes (data_in_bytes back)) Hs1) as (s' & b' & -> & Hs' & Hb' & Hf).
    { destruct Hb as [Hbl Hby]. rewrite <- Hid. split; [by apply blocked_snoc|by apply bytes_snoc]. }
    exists s', b'. split_and!; [done..|]. intros id l Hl.
    destruct (handle_taken _ _ _ _ _ _ Hs Ht Hl) as (k & Hk & Hm & _).
    destruct (Hf id _ Hk) as (k2 & Hk2 & He). exists (k ++ k2). rewrite app_assoc. split; [done|].
    rewrite <- app_assoc, He, queued_bytes_snoc, queued_bytes_cons, !app_assoc. f_equal.
    rewrite <- app_assoc. by apply Hcomm.
  - destruct (IH s1 kept blocked bytes Hs1 Hb) as (s' & b' & -> & Hs' & Hb' & Hf).
    exists s', b'. split_and!; [done..|]. intros id l Hl.
    destruct (handle_taken _ _ _ _ _ _ Hs Ht Hl) as (k & Hk & Hm & _).
    destruct (Hf id _ Hk) as (k2 & Hk2 & He). exists (k ++ k2). rewrite app_assoc. split; [done|].
    rewrite <- app_assoc, He, queued_bytes_cons, !app_assoc. f_equal.
    rewrite <- (Hcomm id k Hm). by rewrite app_nil_r.
Qed.

Lemma drain_backlog_spec s b :
  sink_ok s -> backlog_inv b ->
  exists s' b', drain_backlog s b = Done (s', b') /\ sink_ok s' /\ backlog_inv b' /\
    forall id l, taken s id = Some l -> exists k,
      taken s' id = Some (l ++ k) /\
      k ++ queued_bytes id (Backlog.queue b') = queued_bytes id (Backlog.queue b).
Proof.
  intros Hs Hb. unfold drain_backlog, Backlog.is_empty.
  destruct (Backlog.queue b) as [|d q] eqn:E.
  - exists s, b. split_and!; [done..|]. intros id l Hl. exists [].
    rewrite app_nil_r, E. done.
  - exact (drain_loop_spec (d :: q) s [] ∅ 0 Hs backlog_default_inv).
Qed.

(** A flow with place for what is queued for it leaves the backlog in one
    pass, whatever the other flows do. *)
Lemma drain_loop_unblocks q id : forall s kept blocked bytes l,
  sink_ok s -> taken s id = Some l -> id ∉ blocked ->
  zlen (queued_bytes id q) < room s id ->
  wp (drain_loop s q kept blocked bytes) (fun r => id ∉ Backlog.blocked r.2) (fun _ => True).
Proof.
  induction q as [|d q IH]; intros s kept blocked bytes l Hs Hl Hb Hr; cbn [drain_loop]; [done|].
  rewrite queued_bytes_cons, zlen_app in Hr.
  pose proof (zlen_nonneg (queued_bytes id q)). pose proof (zlen_nonneg (msg_bytes id d)).
  case_bool_decide as Hh.
  { apply (IH _ _ _ _ l); [done..|]. lia. }
  destruct (handle_spec s d Hs) as (back & s1 & Ht & Hs1 & Hback & _). rewrite Ht. cbn [mbind outcome_bind].
  destruct (handle_taken _ _ _ _ _ _ Hs Ht Hl) as (k & Hk & Hm & Hroom & Hno).
  assert (Hlk : zlen k <= zlen (msg_bytes id d)).
  { rewrite Hm, zlen_app. pose proof (zlen_nonneg (match back with Some b => msg_bytes id b | None => [] end)). lia. }
  destruct back as [back|].
  - apply (IH _ _ _ _ _ Hs1 Hk); [|lia].
    assert (data_in_id d <> id) by (intros He; by discriminate (Hno He ltac:(lia))). set_solver.
  - apply (IH _ _ _ _ _ Hs1 Hk); [done|lia].
Qed.

(** A drain of the app queue took a prefix of it, within its budget, and
    stopped early only at an empty queue or the memory bound. *)
Definition app_drained {R} `{Receiver R DataIn} (budget : nat) (moved : Z) s b (rx : R)
    (r : outcome False (Z * bool * S * Backlog.t * R)) : Prop :=
  exists n closed s' b' rx' msgs,
    r = Done (n, closed, s', b', rx') /\ sink_ok s' /\ backlog_inv b' /\
    rx_queue rx = msgs ++ rx_queue rx' /\ n = moved + zlen msgs /\ (length msgs <= budget)%nat /\
    (closed = true -> rx_queue rx' = []) /\
    (n < moved + Z.of_nat budget -> Backlog.bytes b' < MAX_BACKLOG_BYTES -> rx_queue rx' = []) /\
    forall id l, taken s id = Some l -> exists k,
      taken s' id = Some (l ++ k) /\
      k ++ queued_bytes id (Backlog.queue b') =
      queued_bytes id (Backlog.queue b) ++ queued_bytes id msgs.

Lemma app_drained_stop {R} `{Receiver R DataIn} budget moved s b (rx rx' : R) closed :
  sink_ok s -> backlog_inv b -> rx_queue rx = rx_queue rx' ->
  (closed = true -> rx_queue rx' = []) ->
  (0 < Z.of_nat budget -> Backlog.bytes b < MAX_BACKLOG_BYTES -> rx_queue rx' = []) ->
  app_drained budget moved s b rx (Done (moved, closed, s, b, rx')).
Proof.
  intros Hs Hb Hq Hc He. exists moved, closed, s, b, rx', [].
  split_and!; try done; try (unfold zlen; cbn [length]; lia).
  - intros. apply He; [lia|done].
  - intros id l Hl. exists []. by rewrite !app_nil_r.
Qed.

Lemma drain_app_data_spec {R} `{ReceiverLaws R DataIn} budget : forall moved s b (rx : R),
  sink_ok s -> backlog_inv b ->
  app_drained budget moved s b rx (drain_app_data budget moved s b rx).
Proof.
  induction budget as [|budget IH]; intros moved s b rx Hs Hb; cbn [drain_app_data].
  { apply app_drained_stop; try done. }
  destruct (Z.ltb_spec (Backlog.bytes b) MAX_BACKLOG_BYTES) as [Hlt|Hge];
    [|apply app_drained_stop; try done; lia].
  destruct (try_recv rx) as [[d| |] rx1] eqn:E.
  2:{ apply try_recv_empty in E as [E1 E2]. apply app_drained_stop; congruence. }
  2:{ apply try_recv_gone in E as [E1 E2]. apply app_drained_stop; congruence. }
  apply try_recv_got in E. destruct (ingest_spec s b d Hs Hb) as (s1 & b1 & Hi & Hs1 & Hb1 & Hf1).
  rewrite Hi. cbn [mbind outcome_bind].
  destruct (IH (moved + 1) s1 b1 rx1 Hs1 Hb1)
    as (n & closed & s' & b' & rx' & msgs & -> & Hs' & Hb' & Hq & Hn & Hl & Hc & He & Hf).
  exists n, closed, s', b', rx', (d :: msgs). rewrite zlen_cons.
  split_and!; try done; try (cbn [length]; lia); [by rewrite E, Hq|intros; apply He; [lia|done]|].
  intros id l Hl0. destruct (Hf1 id l Hl0) as (k1 & Hk1 & He1).
  destruct (Hf id _ Hk1) as (k2 & Hk2 & He2). exists (k1 ++ k2). rewrite app_assoc. split; [done|].
  rewrite <- app_assoc, He2, queued_bytes_cons, !app_assoc. by rewrite He1.
Qed.

(** What placing a message preserves, the drains preserve. *)
Section preserved.
Variable P : S -> Prop.
Hypothesis HP : forall s d back s', P s -> try_handle_data s d = Done (back, s') -> P s'.

Lemma ingest_preserves s b d s' b' : P s -> ingest s b d = Done (s', b') -> P s'.
Proof.
  intros Hs. unfold ingest. destruct (Backlog.holds _ _); [by intros [= <- _]|].
  destruct (try_handle_data s d) as [[back s1]| | |] eqn:E; cbn [mbind outcome_bind]; try done.
  apply HP in E; [|done]. destruct back; by intros [= <- _].
Qed.

Lemma drain_loop_preserves q : forall s kept blocked bytes s' b',
  P s -> drain_loop s q kept blocked bytes = Done (s', b') -> P s'.
Proof.
  induction q as [|d q IH]; intros s kept blocked bytes s' b' Hs; cbn [drain_loop];
    [by intros [= <- _]|].
  case_bool_decide; [by apply IH|].
  destruct (try_handle_data s d) as [[back s1]| | |] eqn:E; cbn [mbind outcome_bind]; try done.
  apply HP in E; [|done]. destruct back; by apply IH.
Qed.

Lemma drain_backlog_preserves s b s' b' : P s -> drain_backlog s b = Done (s', b') -> P s'.
Proof.
  intros Hs. unfold drain_backlog. destruct (Backlog.is_empty b); [by intros [= <- _]|].
  by apply drain_loop_preserves.
Qed.

Lemma drain_app_data_preserves {R} `{Receiver R DataIn} budget : forall moved s b (rx : R) n c s' b' rx',
  P s -> drain_app_data budget moved s b rx = Done (n, c, s', b', rx') -> P s'.
Proof.
  induction budget as [|budget IH]; intros moved s b rx n c s' b' rx' Hs; cbn [drain_app_data];
    [by intros [= _ _ <- _ _]|].
  destruct (_ <? _); [|by intros [= _ _ <- _ _]].
  destruct (try_recv rx) as [[d| |] rx1]; [|by intros [= _ _ <- _ _]..].
  destruct (ingest s b d) as [[s1 b1]| | |] eqn:E; cbn [mbind outcome_bind]; try done.
  apply ingest_preserves in E; [|done]. by apply IH.
Qed.
End preserved.

(** A pass over the backlog adds no bytes to it. *)
Lemma drain_loop_sum q : forall s kept blocked bytes s' b',
  sink_ok s -> drain_loop s q kept blocked bytes = Done (s', b') ->
  Backlog.sum_bytes (Backlog.queue b') <= Backlog.sum_bytes kept + Backlog.sum_bytes q.
Proof.
  induction q as [|d q IH]; intros s kept blocked bytes s' b' Hs; cbn [drain_loop].
  { intros [= _ <-]. cbn [Backlog.queue]. change (Backlog.sum_bytes []) with 0. lia. }
  rewrite sum_bytes_cons. case_bool_decide.
  { intros Hd. apply IH in Hd; [|done]. rewrite sum_bytes_snoc in Hd. lia. }
  destruct (handle_spec s d Hs) as (back & s1 & -> & Hs1 & Hb & _). cbn [mbind outcome_bind].
  pose proof (data_in_bytes_nonneg d).
  destruct back as [back|]; intros Hd; apply IH in Hd; try done; rewrite ?sum_bytes_snoc in Hd; [|lia].
  destruct (Hb back eq_refl) as (_ & Hle & _). lia.
Qed.

Lemma drain_backlog_sum s b s' b' :
  sink_ok s -> drain_backlog s b = Done (s', b') ->
  Backlog.sum_bytes (Backlog.queue b') <= Backlog.sum_bytes (Backlog.queue b).
Proof.
  intros Hs. unfold drain_backlog. destruct (Backlog.is_empty b); [by intros [= _ <-]|].
  intros Hd. apply drain_loop_sum in Hd; [|done]. exact Hd.
Qed.
End stream.

(** Purging other flows does not touch a flow's queued bytes. *)
Lemma queued_bytes_filter id (ids : list Z) q :
  id ∉ ids -> queued_bytes id (filter (fun d => data_in_id d ∉ ids) q) = queued_bytes id q.
Proof.
  intros Hid. induction q as [|d q IH]; [done|]. rewrite filter_cons, (queued_bytes_cons id q d).
  destruct (decide (data_in_id d ∉ ids)) as [Hd|Hd]; [by rewrite queued_bytes_cons, IH|].
  rewrite IH, msg_bytes_other; [done|]. intros <-. tauto.
Qed.
