(* ===== verification/FlowCredit.v ===== *)
(** * Per-flow uplink admission (src/native/aether/aether/src/netstack.rs, FlowCredit)

    [sent] is written by the app side and the other fields by the netstack
    task; the two sides interleave, which is the step relation below.  Times
    are nanoseconds. *)

From stdpp Require Import base list.
From Stdlib Require Import ZArith Lia.
From S2P Require Import Prelude.

Definition ms : Z := 1000000.
Definition secs (n : Z) : Z := n * 1000000000.

Definition UPLINK_QUEUE_BUDGET : Z := 500 * ms.
Definition MIN_FLOW_QUEUE_BYTES : Z := 48 * 1024.
Definition CREDIT_WAIT_STEP : Z := 2 * ms.
Definition CREDIT_WAIT_MAX : Z := secs 20.

Module FlowCredit.
Record t := mk { sent : Z; acked : Z; cap : Z; closed : bool }.

Definition new : t := mk 0 0 MIN_FLOW_QUEUE_BYTES false.

Definition outstanding (c : t) : Z := saturating_sub (sent c) (acked c).

Definition budget (c : t) : Z := cap c.

Definition publish (c : t) (a cap : Z) : t :=
  mk (sent c) (if a >? acked c then a else acked c) (Z.max cap MIN_FLOW_QUEUE_BYTES) (closed c).

Definition close (c : t) : t := mk (sent c) (acked c) (cap c) true.

(** The test of [reserve] on the flow's own traffic. *)
Definition gate (c : t) (len : Z) : bool :=
  let out := outstanding c in
  (out =? 0) || (saturating_add out len <=? budget c).

(** One turn of the loop of [reserve]: whether it leaves the loop. *)
Definition admits (c : t) (len now deadline : Z) : bool :=
  closed c || gate c len || (deadline <=? now).

(** [sent.fetch_add(len)], after the loop. *)
Definition grant (c : t) (len : Z) : t := mk (u64 (sent c + len)) (acked c) (cap c) (closed c).

(** The loop of [reserve]: turn [i] sees the credit [view i] and the clock
    [now i]; the answer is the turn that leaves. *)
Fixpoint reserve (fuel : nat) (view : nat -> t) (now : nat -> Z) (deadline len : Z) (i : nat)
    : outcome False nat :=
  match fuel with
  | O => Diverge
  | S fuel =>
      if admits (view i) len (now i) deadline then Done i
      else reserve fuel view now deadline len (S i)
  end.
End FlowCredit.

Import FlowCredit.

(** ** The two sides interleaved

    [forced] counts the bytes admitted by the timeout or on a closed flow. *)
Record shared := mkShared { credit : t; forced : Z }.

Inductive credit_step (max_budget max_chunk : Z) : shared -> shared -> Prop :=
| step_admit c f len :
    0 <= len <= max_chunk -> sent c + len <= u64_max -> gate c len = true ->
    credit_step max_budget max_chunk (mkShared c f) (mkShared (grant c len) f)
| step_force c f len now deadline :
    0 <= len <= max_chunk -> sent c + len <= u64_max ->
    admits c len now deadline = true -> gate c len = false ->
    credit_step max_budget max_chunk (mkShared c f) (mkShared (grant c len) (f + len))
| step_publish c f a cap :
    a <= sent c -> cap <= max_budget ->
    credit_step max_budget max_chunk (mkShared c f) (mkShared (publish c a cap) f)
| step_close c f : credit_step max_budget max_chunk (mkShared c f) (mkShared (close c) f).

Inductive credit_reaches (max_budget max_chunk : Z) : shared -> Prop :=
| credit_start : credit_reaches max_budget max_chunk (mkShared new 0)
| credit_next s s' :
    credit_reaches max_budget max_chunk s -> credit_step max_budget max_chunk s s' ->
    credit_reaches max_budget max_chunk s'.

(** The netstack acknowledges no more than was sent, and what is outstanding
    beyond the budget was forced. *)
Definition credit_inv (max_budget max_chunk : Z) (s : shared) : Prop :=
  0 <= acked (credit s) <= sent (credit s) /\ sent (credit s) <= u64_max /\
  MIN_FLOW_QUEUE_BYTES <= cap (credit s) <= Z.max max_budget MIN_FLOW_QUEUE_BYTES /\
  0 <= forced s /\
  sent (credit s) - acked (credit s) <=
    Z.max (Z.max max_budget MIN_FLOW_QUEUE_BYTES) max_chunk + forced s.

Lemma admit_sent c len : 0 <= sent c + len <= u64_max -> sent (grant c len) = sent c + len.
Proof. intros H. cbn. unfold u64. apply Z.mod_small. unfold u64_max in H. lia. Qed.

Lemma credit_step_inv B M s s' :
  0 <= M -> credit_inv B M s -> credit_step B M s s' -> credit_inv B M s'.
Proof.
  intros HM (Ha & Hs & Hc & Hf & Ho) Hstep.
  destruct Hstep as [c f len Hl Hw Hg|c f len now dl Hl Hw Had Hg|c f a cap' Hle Hcap|c f];
    unfold credit_inv in *; cbn [credit forced] in *.
  - rewrite admit_sent by lia. cbn [acked cap].
    unfold gate, outstanding, budget, saturating_add, saturating_sub, grant in *. cbn in *.
    apply orb_true_iff in Hg. unfold MIN_FLOW_QUEUE_BYTES, u64_max in *. lia.
  - rewrite admit_sent by lia. cbn [acked cap grant]. lia.
  - unfold publish. cbn. unfold MIN_FLOW_QUEUE_BYTES in *.
    destruct (Z.gtb_spec a (acked c)); lia.
  - cbn. lia.
Qed.

Lemma reserve_reaches view now deadline len n : forall fuel i,
  deadline <= now (i + n)%nat -> (n < fuel)%nat ->
  exists k, reserve fuel view now deadline len i = Done k /\ (i <= k <= i + n)%nat /\
    admits (view k) len (now k) deadline = true.
Proof.
  induction n as [|n IH]; intros [|fuel] i Hn Hf; try lia; cbn [reserve].
  - rewrite Nat.add_0_r in Hn.
    assert (Ha : admits (view i) len (now i) deadline = true)
      by (unfold admits; rewrite !orb_true_iff; right; lia).
    rewrite Ha. exists i. split_and!; done || lia.
  - destruct (admits (view i) len (now i) deadline) eqn:Ha; [exists i; split_and!; done || lia|].
    destruct (IH fuel (S i)) as (k & -> & Hk & Had).
    + by replace (S i + n)%nat with (i + S n)%nat by lia.
    + lia.
    + exists k. split_and!; done || lia.
Qed.

(** One test at once and one per 2 ms of the 20 s wait. *)
Definition RESERVE_TURNS : nat := S (Z.to_nat (CREDIT_WAIT_MAX / CREDIT_WAIT_STEP)).

(** A writer always gets through: however the netstack treats the flow, a
    reservation that sleeps at least 2 ms between its tests leaves the loop
    within 10,001 turns, and it does so on a closed flow, an open gate or an
    expired deadline. *)
Lemma reserve_terminates view now len :
  (forall i, now i + CREDIT_WAIT_STEP <= now (S i)) ->
  exists k, reserve RESERVE_TURNS view now (now 0%nat + CREDIT_WAIT_MAX) len 0 = Done k /\
    admits (view k) len (now k) (now 0%nat + CREDIT_WAIT_MAX) = true.
Proof.
  intros Hstep.
  assert (Hn : forall n, now 0%nat + Z.of_nat n * CREDIT_WAIT_STEP <= now n).
  { induction n as [|n IH]; [lia|]. specialize (Hstep n). lia. }
  unfold RESERVE_TURNS. set (n := Z.to_nat (CREDIT_WAIT_MAX / CREDIT_WAIT_STEP)).
  destruct (reserve_reaches view now (now 0%nat + CREDIT_WAIT_MAX) len n (S n) 0)
    as (k & Hk & _ & Ha); [|lia|eauto].
  specialize (Hn n). cbn [Nat.add]. unfold n in *. rewrite Z2Nat.id in Hn by done.
  change (CREDIT_WAIT_MAX / CREDIT_WAIT_STEP * CREDIT_WAIT_STEP) with CREDIT_WAIT_MAX in Hn. lia.
Qed.

Example reserve_without_acks :
  exists k, reserve RESERVE_TURNS (fun _ => mk 60000 0 49152 false) (fun i => Z.of_nat i * CREDIT_WAIT_STEP)
      (Z.of_nat 0 * CREDIT_WAIT_STEP + CREDIT_WAIT_MAX) 1000 0 = Done k /\
    admits (mk 60000 0 49152 false) 1000 (Z.of_nat k * CREDIT_WAIT_STEP)
      (Z.of_nat 0 * CREDIT_WAIT_STEP + CREDIT_WAIT_MAX) = true.
Proof.
  apply (reserve_terminates (fun _ => mk 60000 0 49152 false)
           (fun i => Z.of_nat i * CREDIT_WAIT_STEP) 1000).
  intros i. unfold CREDIT_WAIT_STEP, ms. lia.
Qed.

(** Admission bounds the upload queue: in every interleaving of the writer
    and the netstack, the bytes of a flow that are inside the process and not
    acknowledged exceed neither the largest published budget nor one write,
    except by what was let through after the 20 s wait or on a closed flow;
    acknowledged never passes sent.  And the writer always gets through: a
    reservation that sleeps at least 2 ms between its tests returns within
    10,001 turns. *)
Lemma credit_bounds_queue max_budget max_chunk s :
  0 <= max_chunk -> credit_reaches max_budget max_chunk s ->
  acked (credit s) <= sent (credit s) /\
  outstanding (credit s) <=
    Z.max (Z.max max_budget MIN_FLOW_QUEUE_BYTES) max_chunk + forced s /\
  forall view now len,
    (forall i, now i + CREDIT_WAIT_STEP <= now (S i)) ->
    exists k, reserve RESERVE_TURNS view now (now 0%nat + CREDIT_WAIT_MAX) len 0 = Done k /\
      admits (view k) len (now k) (now 0%nat + CREDIT_WAIT_MAX) = true.
Proof.
  intros HM Hr. assert (Hinv : credit_inv max_budget max_chunk s).
  { induction Hr as [|s s' Hr IH Hstep]; [|by eapply credit_step_inv].
    unfold credit_inv. cbn [credit forced new sent acked cap].
    unfold MIN_FLOW_QUEUE_BYTES, u64_max. lia. }
  destruct Hinv as (Ha & _ & _ & Hf & Ho).
  split; [lia|]. split; [unfold outstanding, saturating_sub; lia|]. apply reserve_terminates.
Qed.

Lemma credit_bounds_queue_witness :
  acked (mk 16384 8192 49152 false) <= sent (mk 16384 8192 49152 false) /\
  outstanding (mk 16384 8192 49152 false) <= Z.max (Z.max 131072 MIN_FLOW_QUEUE_BYTES) 16384 + 0.
Proof.
  destruct (credit_bounds_queue 131072 16384 (mkShared (mk 16384 8192 49152 false) 0)) as (Ha & Ho & _);
    [lia| |by split].
  eapply credit_next; [eapply credit_next; [apply credit_start|]|].
  - apply (step_admit _ _ new 0 16384); [lia|vm_compute; done|vm_compute; done].
  - apply (step_publish _ _ (mk 16384 0 49152 false) 0 8192 1000); cbn; lia.
Defined.
