(* ===== verification/Device.v ===== *)
(** * The virtual link of the netstack (src/native/aether/aether/src/netstack.rs, StackDevice)

    Two packet queues between smoltcp and the tunnel.  Transmission is
    refused at [MAX_DEVICE_TX], reception never is, and what the tunnel's
    writer cannot take is kept, up to a hard ceiling. *)

From stdpp Require Import base list.
From Stdlib Require Import ZArith Lia.
From S2P Require Import Prelude Channel.

Definition MAX_TX_RETAINED : Z := 256.
Definition MAX_DEVICE_TX : Z := 64.
Definition MAX_DEVICE_TX_HARD : Z := MAX_TX_RETAINED.

Module StackDevice.
Record t := mk {
  rx : list (list Z);
  tx : list (list Z);
  mtu : Z;
  tx_stalls : Z;
  tx_shed : Z;
  tx_peak : Z;
}.

Definition new (mtu : Z) : t := mk [] [] mtu 0 0 0.

(** [receive]: the packet of the rx token; the tx token is always given. *)
Definition receive (d : t) : option (list Z * t) :=
  match rx d with
  | [] => None
  | pkt :: rx => Some (pkt, mk rx (tx d) (mtu d) (tx_stalls d) (tx_shed d) (tx_peak d))
  end.

(** [transmit]: whether a token is given. *)
Definition transmit (d : t) : bool * t :=
  if MAX_DEVICE_TX <=? zlen (tx d)
  then (false, mk (rx d) (tx d) (mtu d) (saturating_add (tx_stalls d) 1) (tx_shed d) (tx_peak d))
  else (true, d).

(** [StackTxToken::consume]: the packet written through a token. *)
Definition consume (d : t) (pkt : list Z) : t :=
  mk (rx d) (tx d ++ [pkt]) (mtu d) (tx_stalls d) (tx_shed d) (tx_peak d).

Definition push_rx (d : t) (pkt : list Z) : t :=
  mk (rx d ++ [pkt]) (tx d) (mtu d) (tx_stalls d) (tx_shed d) (tx_peak d).

Definition set_tx (d : t) (q : list (list Z)) : t :=
  mk (rx d) q (mtu d) (tx_stalls d) (tx_shed d) (tx_peak d).
End StackDevice.

Import StackDevice.

Section flush.
Context {T : Type} `{Sender T (list Z)}.

(** The [while let] of [flush_tx]: the queue left, how the loop ended and
    the packet a closed channel swallowed. *)
Fixpoint flush_loop (q : list (list Z)) (out : T) : list (list Z) * send_status * T :=
  match q with
  | [] => ([], SendOk, out)
  | pkt :: q =>
      match try_send out pkt with
      | (SendOk, out) => flush_loop q out
      | (SendFull, out) => (pkt :: q, SendFull, out)
      | (SendClosed, out) => (q, SendClosed, out)
      end
  end.

Definition flush_tx (d : t) (out : T) : Z * bool * t * T :=
  let d := if zlen (tx d) >? tx_peak d
           then mk (rx d) (tx d) (mtu d) (tx_stalls d) (tx_shed d) (zlen (tx d)) else d in
  let '(q, status, out) := flush_loop (tx d) out in
  match status with
  | SendFull =>
      if zlen q >? MAX_DEVICE_TX_HARD then
        let excess := zlen q - MAX_DEVICE_TX_HARD in
        (excess, true,
         mk (rx d) (zdrop excess q) (mtu d) (tx_stalls d)
           (saturating_add (tx_shed d) excess) (tx_peak d), out)
      else (0, true, set_tx d q, out)
  | _ => (0, false, set_tx d q, out)
  end.

(** [drain_inbound]: packets of the tunnel, at most [budget] of them. *)
Fixpoint drain_inbound {R} `{Receiver R (list Z)} (budget : nat) (moved : Z) (d : t) (r : R)
    : Z * bool * t * R :=
  match budget with
  | O => (moved, false, d, r)
  | S budget =>
      match try_recv r with
      | (Received pkt, r) => drain_inbound budget (moved + 1) (push_rx d pkt) r
      | (RecvEmpty, r) => (moved, false, d, r)
      | (RecvDisconnected, r) => (moved, true, d, r)
      end
  end.
End flush.

(** ** Facts *)

Section flush_facts.
Context {T : Type} `{SenderLaws T (list Z)}.

Lemma flush_loop_spec q : forall (out : T),
  let '(q', st, out') := flush_loop q out in
  exists sent lost, q = sent ++ lost ++ q' /\ tx_log out' = tx_log out ++ sent /\
    match st with
    | SendOk => q' = [] /\ lost = []
    | SendFull => lost = [] /\ q' <> []
    | SendClosed => length lost = 1%nat
    end.
Proof.
  induction q as [|pkt q IH]; intros out; cbn [flush_loop].
  { exists [], []. split_and!; by rewrite ?app_nil_r. }
  destruct (try_send out pkt) as [[] out'] eqn:E.
  - specialize (IH out'). destruct (flush_loop q out') as [[q' st] out''].
    destruct IH as (sent & lost & -> & Hlog & Hst).
    exists (pkt :: sent), lost. split; [done|]. split; [|done].
    apply try_send_ok in E. rewrite Hlog, E. by rewrite <- app_assoc.
  - apply try_send_refused in E; [|done]. exists [], []. split_and!; by rewrite ?app_nil_r, ?E.
  - apply try_send_refused in E; [|done]. exists [], [pkt]. split_and!; by rewrite ?app_nil_r, ?E.
Qed.
End flush_facts.

(** Flushing the device hands packets to the tunnel in order and exactly
    once; what is left is a suffix of the queue of at most 256 packets, only
    the oldest packets beyond that ceiling are shed, each counted, and while
    the tunnel's channel is open a queue within the ceiling loses nothing. *)
Lemma flush_tx_fifo {T : Type} `{SenderLaws T (list Z)} (d : StackDevice.t) (out : T) :
  let '(dropped, retained, d', out') := flush_tx d out in
  exists sent lost,
    tx d = sent ++ lost ++ tx d' /\ tx_log out' = tx_log out ++ sent /\
    rx d' = rx d /\ zlen (tx d) <= tx_peak d' /\
    (retained = true -> zlen lost = dropped /\ zlen (tx d') <= MAX_DEVICE_TX_HARD /\
       (lost <> [] -> zlen (tx d') = MAX_DEVICE_TX_HARD) /\
       tx_shed d' = (if dropped >? 0 then saturating_add (tx_shed d) dropped else tx_shed d)) /\
    (retained = false -> dropped = 0 /\ (lost = [] /\ tx d' = [] \/ length lost = 1%nat)).
Proof.
  unfold flush_tx.
  set (d1 := if zlen (tx d) >? tx_peak d then _ else d).
  assert (Hd1 : rx d1 = rx d /\ tx d1 = tx d /\ tx_shed d1 = tx_shed d /\ zlen (tx d) <= tx_peak d1)
    by (unfold d1; destruct (Z.gtb_spec (zlen (tx d)) (tx_peak d)); split_and!; done || (cbn; lia)).
  clearbody d1. destruct Hd1 as (Hrx & Htx & Hshed & Hpeak).
  pose proof (flush_loop_spec (tx d1) out) as Hl. rewrite Htx in Hl |- *.
  destruct (flush_loop (tx d) out) as [[q st] out'].
  destruct Hl as (sent & lost & Hq & Hlog & Hst). destruct st.
  - destruct Hst as [-> ->]. exists sent, []. split_and!; try done. intros _. auto.
  - destruct Hst as [-> Hne]. cbn [app] in Hq.
    destruct (Z.gtb_spec (zlen q) MAX_DEVICE_TX_HARD) as [Hbig|Hsmall].
    + set (e := zlen q - MAX_DEVICE_TX_HARD). assert (0 <= e <= zlen q) by (unfold e, MAX_DEVICE_TX_HARD, MAX_TX_RETAINED in *; lia).
      exists sent, (ztake e q). cbn [tx rx tx_shed tx_peak]. rewrite ztake_zdrop.
      rewrite zlen_ztake, zlen_zdrop by lia.
      split_and!; try done; intros _; split_and!; try done; try lia.
      destruct (Z.gtb_spec e 0); [by rewrite Hshed|lia].
    + exists sent, []. split_and!; try done; intros _; split_and!; done.
  - exists sent, lost. split_and!; try done. intros _. auto.
Qed.

Lemma flush_tx_fifo_witness :
  let '(dropped, retained, d', out') :=
    flush_tx (StackDevice.mk [] (replicate 300 [1]) 1280 0 0 0) (mk_chan 2 true []) in
  exists sent lost,
    replicate 300 [1] = sent ++ lost ++ tx d' /\ tx_log out' = tx_log (mk_chan 2 true []) ++ sent /\
    rx d' = [] /\ 300 <= tx_peak d' /\
    (retained = true -> zlen lost = dropped /\ zlen (tx d') <= MAX_DEVICE_TX_HARD /\
       (lost <> [] -> zlen (tx d') = MAX_DEVICE_TX_HARD) /\
       tx_shed d' = (if dropped >? 0 then saturating_add 0 dropped else 0)) /\
    (retained = false -> dropped = 0 /\ (lost = [] /\ tx d' = [] \/ length lost = 1%nat)).
Proof.
  apply (flush_tx_fifo (StackDevice.mk [] (replicate 300 [1]) 1280 0 0 0) (mk_chan 2 true [])).
Defined.
