(* ===== verification/F64.v ===== *)
(** * The 64-bit floats of Rust

    IEEE-754 binary64 as computed by [SpecFloat], with the casts the engine
    uses: to a float from an unsigned integer, and to [usize], which
    truncates, saturates and sends NaN to zero (at 64 bits: where [usize] has
    32 the bound is lower, which its one use, clamped to a buffer size, does not
    see). *)

From Stdlib Require Import ZArith Lia SpecFloat.
From S2P Require Import Prelude.

Definition f64 := spec_float.

Definition f64_of_Z (z : Z) : f64 := binary_normalize 53 1024 z 0 false.
Definition f64_add : f64 -> f64 -> f64 := SFadd 53 1024.
Definition f64_mul : f64 -> f64 -> f64 := SFmul 53 1024.
Definition f64_div : f64 -> f64 -> f64 := SFdiv 53 1024.
Definition f64_zero : f64 := S754_zero false.
Definition f64_half : f64 := f64_div (f64_of_Z 1) (f64_of_Z 2).

(** [a <= b] and [a > b] on floats: false when one is NaN. *)
Definition f64_le (a b : f64) : bool := SFleb a b.
Definition f64_gt (a b : f64) : bool := SFltb b a.

(** [x as usize] *)
Definition f64_to_usize (x : f64) : Z :=
  match x with
  | S754_zero _ | S754_nan => 0
  | S754_infinity s => if s then 0 else u64_max
  | S754_finite true _ _ => 0
  | S754_finite false m e =>
      Z.min u64_max (if 0 <=? e then Z.pos m * 2 ^ e else Z.pos m / 2 ^ (- e))
  end.

(** [Duration::as_secs_f64], of a duration in nanoseconds *)
Definition as_secs_f64 (nanos : Z) : f64 :=
  f64_add (f64_of_Z (nanos / 1000000000))
    (f64_div (f64_of_Z (nanos mod 1000000000)) (f64_of_Z 1000000000)).

Lemma f64_to_usize_range x : (0 <= f64_to_usize x <= u64_max)%Z.
Proof.
  unfold u64_max. destruct x as [s|s| |s m e]; cbn [f64_to_usize]; unfold u64_max.
  - lia.
  - destruct s; lia.
  - lia.
  - destruct s; [lia|]. destruct (Z.leb_spec 0 e).
    + pose proof (Z.pow_nonneg 2 e). nia.
    + assert (0 < 2 ^ (- e))%Z by (apply Z.pow_pos_nonneg; lia).
      pose proof (Z.div_pos (Z.pos m) (2 ^ (- e))). lia.
Qed.
