(* ===== verification/Netstack.v ===== *)
(** * The userspace TCP/IP stack (src/native/aether/aether/src/netstack.rs)

    The task that owns the smoltcp interface: it opens flows on command,
    takes the app's data through the backlog, services every socket, and
    moves packets between the tunnel and the device.

    smoltcp is code outside the repository: its sockets are the interface
    [Smoltcp] and its socket set a finite map from handles, whose [get_mut]
    and [remove] panic on a handle that is not there.  A HashMap is a finite
    map; the order its keys are visited in is an argument.  The credits, which
    the app side shares through an [Arc], are a store of their own.  Clock
    readings are arguments, one per place the source reads the clock. *)

From stdpp Require Import base list option gmap.
From Stdlib Require Import ZArith Lia.
From S2P Require Import Prelude RustStr Net Error Channel F64 Sysprofile Backlog FlowCredit Device.

(** ** smoltcp *)

Inductive tcp_state :=
| Closed | Listen | SynSent | SynReceived | Established | FinWait1 | FinWait2
| CloseWait | Closing | LastAck | TimeWait.

#[global] Instance tcp_state_eq_dec : EqDecision tcp_state.
Proof. solve_decision. Defined.

Record Interface := mkInterface {
  ip_addrs : list (IpAddr * Z);
  default_v4 : option (list Z);
  default_v6 : option (list Z);
}.

(** [K] and [U] are TCP and UDP sockets.  [accepted] is the ghost view of a
    TCP socket: the bytes it accepted for sending. *)
Class Smoltcp (K U : Type) := {
  tcp_new (rx_buf tx_buf keep_alive timeout : Z) : K;
  tcp_connect : Interface -> SocketAddr -> Z -> K -> option str * K;
  state : K -> tcp_state;
  can_send : K -> bool;
  can_recv : K -> bool;
  send_slice : K -> list Z -> option Z * K;
  send_queue : K -> Z;
  tcp_recv : K -> option (list Z) * K;
  abort : K -> K;
  close : K -> K;
  udp_new (meta buf : Z) : U;
  udp_bind : U -> Z -> option str * U;
  udp_can_recv : U -> bool;
  udp_recv : U -> option (list Z * SocketAddr) * U;
  udp_send_slice : U -> list Z -> SocketAddr -> U;
  fresh_handle : gmap Z (K + U) -> Z;
  accepted : K -> list Z;
}.

Class SmoltcpLaws (K U : Type) `{Smoltcp K U} := {
  send_slice_some k data n k' :
    send_slice k data = (Some n, k') ->
    0 <= n <= zlen data /\ accepted k' = accepted k ++ ztake n data;
  send_slice_none k data k' : send_slice k data = (None, k') -> accepted k' = accepted k;
  send_queue_nonneg k : 0 <= send_queue k;
  tcp_recv_accepted k : accepted (tcp_recv k).2 = accepted k;
  abort_accepted k : accepted (abort k) = accepted k;
  close_accepted k : accepted (close k) = accepted k;
  tcp_new_accepted rx tx ka tmo : accepted (tcp_new rx tx ka tmo) = [];
  tcp_connect_accepted i dst p k : accepted (tcp_connect i dst p k).2 = accepted k;
  fresh_handle_free ss : ss !! fresh_handle ss = None;
}.

(** The app's end of a flow, with reservation: a permit is a free slot. *)
Class AppQueue (Q A : Type) := {
  new_queue : Z -> Q;
  try_reserve : Q -> send_status;
  permit_send : Q -> A -> Q;
}.

(** ** Constants and sizes *)

Definition MAX_INGEST_PER_TICK : nat := 512.
Definition MAX_RECV_CHUNKS : nat := 128.
Definition MAX_APP_INGEST_PER_TICK : nat := 512.
Definition MAX_CMD_PER_TICK : nat := 64.
Definition TCP_WEDGE_TIMEOUT : Z := secs 30.
Definition TCP_DRAIN_STALL_TIMEOUT : Z := secs 8.
Definition TCP_DRAIN_STALL_WARN : Z := secs 3.
Definition RATE_SAMPLE_WINDOW : Z := 500 * ms.
Definition STALL_FLAP_WINDOW : Z := secs 60.
Definition STALL_FLAP_LIMIT : Z := 2.
Definition BACKPRESSURE_RETRY : Z := 2 * ms.
Definition MAX_IDLE_TICK : Z := 250 * ms.
Definition DROP_REPORT_STEP : Z := 512.
Definition TCP_KEEPALIVE_SECS : Z := 15.
Definition ORPHAN_LINGER : Z := secs 10.

Definition tcp_tx_buf (t : Tuning) : Z := netstack_tcp_tx_buf t.
Definition tcp_rx_buf (t : Tuning) : Z := netstack_tcp_rx_buf t.
Definition tcp_buf (t : Tuning) : Z := tcp_tx_buf t.
Definition udp_buf (t : Tuning) : Z := netstack_udp_buf t.
Definition udp_meta (t : Tuning) : Z :=
  match tier t with Low => 32 | Medium => 64 | High => 128 end.
Definition app_queue (t : Tuning) : Z := channel_capacity t.
Definition max_tcp_pending (t : Tuning) : Z :=
  Z.max (saturating_mul (tcp_buf t) 2) (64 * 1024).

(** [env_secs]: seconds of a day at most, zero and garbage ignored. *)
Definition env_secs (env : environment) (name : str) (default : Z) : Z :=
  secs (match (v ← env name; parse_uint u64_max (trim v)) with
        | Some v => if 0 <? v then Z.min v 86400 else default
        | None => default
        end).

Record TcpLimits := mkLimits {
  limit_connect : Z;
  limit_keepalive : Z;
  limit_dead_peer : Z;
  limit_orphan_linger : Z;
}.

Definition tcp_keepalive (env : environment) : Z :=
  env_secs env (lit "AETHER_TCP_KEEPALIVE_SECS") TCP_KEEPALIVE_SECS.
Definition tcp_dead_peer_timeout (env : environment) : Z := tcp_keepalive env * 6.
Definition tcp_connect_timeout (env : environment) : Z :=
  env_secs env (lit "AETHER_TCP_CONNECT_SECS") 30.

(** [TcpLimits::from_env] *)
Definition limits_from_env (env : environment) : TcpLimits :=
  mkLimits (tcp_connect_timeout env) (tcp_keepalive env) (tcp_dead_peer_timeout env) ORPHAN_LINGER.

(** [smol_duration]: milliseconds, in nanoseconds here. *)
Definition smol_duration (d : Z) : Z := Z.min (d / ms) u64_max * ms.

(** ** State *)

Section stack.
Context {K U Q V : Type} `{Smoltcp K U} `{AppQueue Q (list Z)} `{AppQueue V (SocketAddr * list Z)}.

(** The fields of [TcpState], grouped by the patch that owns them.  The
    response channel is its number, and whether the receiving half is still
    here is a bool. *)
Record Drain := mkDrain {
  send_queue_high : Z;
  accepted_total : Z;
  acked_high : Z;
  last_drain : Z;
  drain_warned : bool;
}.
Record Uplink := mkUplink {
  rate_mark : Z;
  rate_base : Z;
  drain_rate : f64;
  uplink_budget : Z;
  outstanding_peak : Z;
  pending_peak : Z;
  send_queue_peak : Z;
  stall_count : Z;
  stall_mark : Z;
}.
Record TcpState := mkTcp {
  handle : Z;
  to_app : Q;
  from_stack_rx : bool;
  connect_resp : option Z;
  pending : list Z;
  established : bool;
  half_closed : bool;
  connect_deadline : Z;
  orphaned_at : option Z;
  aborted : bool;
  last_progress : Z;
  drain : Drain;
  uplink : Uplink;
}.

Record UdpState := mkUdp { udp_handle : Z; udp_to_app : V }.

(** What is sent on the response channels. *)
Inductive response :=
| OpenedTcp (id : Z)
| OpenedUdp (id : Z)
| OpenFailed (msg : str).

Record NetStack := mkStack {
  iface : Interface;
  device : StackDevice.t;
  sockets : gmap Z (K + U);
  tcp_conns : gmap Z TcpState;
  udp_conns : gmap Z UdpState;
  next_id : Z;
  next_port : Z;
  tcp_limits : TcpLimits;
  credits : gmap Z FlowCredit.t;
  responses : list (Z * response);
}.

Definition set_pending (st : TcpState) (p : list Z) : TcpState :=
  mkTcp (handle st) (to_app st) (from_stack_rx st) (connect_resp st) p (established st)
    (half_closed st) (connect_deadline st) (orphaned_at st) (aborted st) (last_progress st)
    (drain st) (uplink st).
Definition set_half_closed (st : TcpState) : TcpState :=
  mkTcp (handle st) (to_app st) (from_stack_rx st) (connect_resp st) (pending st)
    (established st) true (connect_deadline st) (orphaned_at st) (aborted st)
    (last_progress st) (drain st) (uplink st).
Definition set_progress (st : TcpState) (t : Z) : TcpState :=
  mkTcp (handle st) (to_app st) (from_stack_rx st) (connect_resp st) (pending st)
    (established st) (half_closed st) (connect_deadline st) (orphaned_at st) (aborted st) t
    (drain st) (uplink st).
Definition set_drain (st : TcpState) (d : Drain) (u : Uplink) : TcpState :=
  mkTcp (handle st) (to_app st) (from_stack_rx st) (connect_resp st) (pending st)
    (established st) (half_closed st) (connect_deadline st) (orphaned_at st) (aborted st)
    (last_progress st) d u.
Definition set_to_app (st : TcpState) (q : Q) : TcpState :=
  mkTcp (handle st) q (from_stack_rx st) (connect_resp st) (pending st)
    (established st) (half_closed st) (connect_deadline st) (orphaned_at st) (aborted st)
    (last_progress st) (drain st) (uplink st).
Definition set_orphan (st : TcpState) (o : option Z) (a : bool) : TcpState :=
  mkTcp (handle st) (to_app st) (from_stack_rx st) (connect_resp st) (pending st)
    (established st) (half_closed st) (connect_deadline st) o a
    (last_progress st) (drain st) (uplink st).
Definition set_established (st : TcpState) : TcpState :=
  mkTcp (handle st) (to_app st) false None (pending st) true (half_closed st)
    (connect_deadline st) (orphaned_at st) (aborted st) (last_progress st) (drain st) (uplink st).

Definition with_flows (s : NetStack) (socks : gmap Z (K + U)) (tcp : gmap Z TcpState)
    (udp : gmap Z UdpState) (creds : gmap Z FlowCredit.t) (resps : list (Z * response)) : NetStack :=
  mkStack (iface s) (device s) socks tcp udp (next_id s) (next_port s) (tcp_limits s) creds resps.

Definition with_device (s : NetStack) (d : StackDevice.t) : NetStack :=
  mkStack (iface s) d (sockets s) (tcp_conns s) (udp_conns s) (next_id s) (next_port s)
    (tcp_limits s) (credits s) (responses s).

Definition with_iface (s : NetStack) (i : Interface) : NetStack :=
  mkStack i (device s) (sockets s) (tcp_conns s) (udp_conns s) (next_id s) (next_port s)
    (tcp_limits s) (credits s) (responses s).

(** [sockets.get_mut::<tcp::Socket>(handle)] *)
Definition get_tcp (ss : gmap Z (K + U)) (h : Z) : outcome False K :=
  match ss !! h with Some (inl k) => Done k | _ => Panic end.
Definition get_udp (ss : gmap Z (K + U)) (h : Z) : outcome False U :=
  match ss !! h with Some (inr u) => Done u | _ => Panic end.
(** [sockets.remove(handle)] *)
Definition remove_socket (ss : gmap Z (K + U)) (h : Z) : outcome False (gmap Z (K + U)) :=
  match ss !! h with Some _ => Done (delete h ss) | None => Panic end.

(** ** Addresses *)

Definition routable_prefix_v4 (p : Z) : Z := if 31 <=? p then 24 else p.
Definition routable_prefix_v6 (p : Z) : Z := if 127 <=? p then 64 else p.

Definition strip_cidr (s : str) : str :=
  match split_once 47 s with Some (ip, _) => ip | None => s end.
Definition cidr_prefix (s : str) : option Z :=
  '(_, p) ← split_once 47 s; parse_uint u8_max p.

Definition parse_v4 (s : str) : aresult (option (list Z * Z)) :=
  match s with
  | [] => Done None
  | _ => match parse_ipv4 (strip_cidr s) with
         | Some ip => Done (Some (ip, default 32 (cidr_prefix s)))
         | None => Fail (Other (lit "bad ipv4 " ++ s))
         end
  end.
Definition parse_v6 (s : str) : aresult (option (list Z * Z)) :=
  match s with
  | [] => Done None
  | _ => match parse_ipv6 (strip_cidr s) with
         | Some ip => Done (Some (ip, default 128 (cidr_prefix s)))
         | None => Fail (Other (lit "bad ipv6 " ++ s))
         end
  end.

(** The default route goes to the .1 of the network, or .2 from .1. *)
Definition gateway_of (o : list Z) : list Z :=
  let last := (length o - 1)%nat in
  <[last := (if octet o last =? 1 then 2 else 1)]> o.

Definition apply_addrs (i : Interface) (v4 v6 : option (list Z * Z)) : Interface :=
  mkInterface
    (match v4 with Some (ip, p) => [(V4 ip, routable_prefix_v4 p)] | None => [] end ++
     match v6 with Some (ip, p) => [(V6 ip, routable_prefix_v6 p)] | None => [] end)
    (match v4 with Some (ip, _) => Some (gateway_of ip) | None => default_v4 i end)
    (match v6 with Some (ip, _) => Some (gateway_of ip) | None => default_v6 i end).

Definition current_addrs (i : Interface) : option (list Z * Z) * option (list Z * Z) :=
  fold_left (fun '(v4, v6) '(a, p) =>
    match a with V4 o => (Some (o, p), v6) | V6 o => (v4, Some (o, p)) end)
    (ip_addrs i) (None, None).

Definition alloc_port (p : Z) : Z * Z := (p, if 65000 <=? p then 49152 else u16 (p + 1)).

(** ** Commands *)

Inductive Cmd :=
| OpenTcp (dst : SocketAddr) (resp : Z)
| OpenUdp (resp : Z)
| SetAddrs (v4 v6 : option (list Z * Z)).

(** [clk i] is the clock at the i-th reading of the handler. *)
Definition open_tcp (t : Tuning) (clk : nat -> Z) (s : NetStack) (dst : SocketAddr) (resp : Z) : NetStack :=
  let socket := tcp_new (tcp_rx_buf t) (tcp_tx_buf t)
    (smol_duration (limit_keepalive (tcp_limits s))) (smol_duration (limit_dead_peer (tcp_limits s))) in
  let '(local_port, next_port) := alloc_port (next_port s) in
  match tcp_connect (iface s) dst local_port socket with
  | (Some e, _) =>
      mkStack (iface s) (device s) (sockets s) (tcp_conns s) (udp_conns s) (next_id s) next_port
        (tcp_limits s) (credits s) (responses s ++ [(resp, OpenFailed (lit "connect: " ++ e))])
  | (None, socket) =>
      let h := fresh_handle (sockets s) in
      let id := next_id s in
      let st := mkTcp h (new_queue (app_queue t)) true (Some resp) [] false false
        (clk 0%nat + limit_connect (tcp_limits s)) None false (clk 1%nat)
        (mkDrain 0 0 0 (clk 2%nat) false)
        (mkUplink (clk 3%nat) 0 f64_zero MIN_FLOW_QUEUE_BYTES 0 0 0 0 (clk 4%nat)) in
      mkStack (iface s) (device s) (<[h := inl socket]> (sockets s)) (<[id := st]> (tcp_conns s))
        (udp_conns s) (next_id s + 1) next_port (tcp_limits s)
        (<[id := FlowCredit.new]> (credits s)) (responses s)
  end.

Definition open_udp (t : Tuning) (s : NetStack) (resp : Z) : NetStack :=
  let socket := udp_new (udp_meta t) (udp_buf t) in
  let '(local_port, next_port) := alloc_port (next_port s) in
  match udp_bind socket local_port with
  | (Some e, _) =>
      mkStack (iface s) (device s) (sockets s) (tcp_conns s) (udp_conns s) (next_id s) next_port
        (tcp_limits s) (credits s) (responses s ++ [(resp, OpenFailed (lit "bind: " ++ e))])
  | (None, socket) =>
      let h := fresh_handle (sockets s) in
      let id := next_id s in
      mkStack (iface s) (device s) (<[h := inr socket]> (sockets s)) (tcp_conns s)
        (<[id := mkUdp h (new_queue (app_queue t))]> (udp_conns s)) (next_id s + 1) next_port
        (tcp_limits s) (credits s) (responses s ++ [(resp, OpenedUdp id)])
  end.

Definition handle_cmd (t : Tuning) (clk : nat -> Z) (s : NetStack) (cmd : Cmd) : NetStack :=
  match cmd with
  | OpenTcp dst resp => open_tcp t clk s dst resp
  | OpenUdp resp => open_udp t s resp
  | SetAddrs v4 v6 =>
      let '(current_v4, current_v6) := current_addrs (iface s) in
      let or_else (a b : option (list Z * Z)) := match a with Some _ => a | None => b end in
      with_iface s (apply_addrs (iface s) (or_else v4 current_v4) (or_else v6 current_v6))
  end.

(** ** App data *)

Definition try_handle (t : Tuning) (s : NetStack) (d : DataIn)
    : outcome False (option DataIn * NetStack) :=
  match d with
  | Tcp id data =>
      match tcp_conns s !! id with
      | Some st =>
          let max := max_tcp_pending t in
          if max <=? zlen (pending st) then Done (Some (Tcp id data), s)
          else
            let space := max - zlen (pending st) in
            let put p := with_flows s (sockets s) (<[id := set_pending st p]> (tcp_conns s))
                           (udp_conns s) (credits s) (responses s) in
            if zlen data <=? space then Done (None, put (pending st ++ data))
            else
              head ← slice data 0 space;
              tail ← slice data space (zlen data);
              Done (Some (Tcp id tail), put (pending st ++ head))
      | None => Done (None, s)
      end
  | TcpClose id =>
      match tcp_conns s !! id with
      | Some st =>
          Done (None, with_flows s (sockets s) (<[id := set_half_closed st]> (tcp_conns s))
                        (udp_conns s) (credits s) (responses s))
      | None => Done (None, s)
      end
  | Udp id dst data =>
      match udp_conns s !! id with
      | Some st =>
          u ← get_udp (sockets s) (udp_handle st);
          Done (None, with_flows s (<[udp_handle st := inr (udp_send_slice u data dst)]> (sockets s))
                        (tcp_conns s) (udp_conns s) (credits s) (responses s))
      | None => Done (None, s)
      end
  | UdpClose id =>
      match udp_conns s !! id with
      | Some st =>
          ss ← remove_socket (sockets s) (udp_handle st);
          Done (None, with_flows s ss (tcp_conns s) (delete id (udp_conns s)) (credits s) (responses s))
      | None => Done (None, s)
      end
  end.
End stack.
