(* ===== verification/Service.v ===== *)
(** * Servicing the sockets (src/native/aether/aether/src/netstack.rs: service_tcp,
    service_udp, reap_wedged, run)

    One pass over the flows of the stack.  What a pass does to a flow touches
    its state, its socket and its credit only, so it is written on those three
    and put back; [clk] holds the clock readings of the pass, numbered in the
    order of the source, and [now] is the reading at its start. *)

From stdpp Require Import base list option gmap.
From Stdlib Require Import ZArith Lia.
From S2P Require Import Prelude RustStr Net Error Channel F64 Sysprofile Backlog FlowCredit Device Netstack.

(** [Instant::elapsed], and [duration_since], which saturate. *)
Definition elapsed (now mark : Z) : Z := saturating_sub now mark.

Section service.
Context {K U Q V : Type} `{Smoltcp K U} `{AppQueue Q (list Z)} `{AppQueue V (SocketAddr * list Z)}.

Abbreviation stack := (@NetStack K U Q V).
Abbreviation tcpst := (@TcpState Q).

(** *** One established flow *)

(** Pending bytes into the socket. *)
Definition push_pending (clk : nat -> Z) (st : tcpst) (k : K) : outcome False (tcpst * K) :=
  match pending st with
  | [] => Done (set_progress st (clk 0%nat), k)
  | _ =>
      if can_send k then
        let '(r, k) := send_slice k (pending st) in
        let sent := default 0 r in
        if 0 <? sent then
          let d := drain st in
          let st := set_progress st (clk 0%nat) in
          let st := set_drain st
            (mkDrain (send_queue_high d) (saturating_add (accepted_total d) sent) (acked_high d)
               (last_drain d) (drain_warned d)) (uplink st) in
          rest ← slice (pending st) sent (zlen (pending st));
          Done (set_pending st rest, k)
        else Done (st, k)
      else Done (st, k)
  end.

(** Whether the peer acknowledged something since the last pass, and the
    flap counter; [true] asks for a reset. *)
Definition check_drain (clk : nat -> Z) (queued acked : Z) (d : Drain) (u : Uplink)
    : Drain * Uplink * bool :=
  if (queued =? 0) || (acked >? acked_high d) then
    (mkDrain (send_queue_high d) (accepted_total d) acked (clk 1%nat) false, u, false)
  else if negb (drain_warned d) && (TCP_DRAIN_STALL_WARN <=? elapsed (clk 2%nat) (last_drain d)) then
    let count := if STALL_FLAP_WINDOW <=? elapsed (clk 3%nat) (stall_mark u) then 0 else stall_count u in
    let count := Z.min (count + 1) u32_max in
    (mkDrain (send_queue_high d) (accepted_total d) (acked_high d) (last_drain d) true,
     mkUplink (rate_mark u) (rate_base u) (drain_rate u) (uplink_budget u) (outstanding_peak u)
       (pending_peak u) (send_queue_peak u) count (clk 4%nat),
     STALL_FLAP_LIMIT <=? count)
  else (d, u, false).

(** The drain rate, sampled every half second. *)
Definition sample_rate (now acked : Z) (u : Uplink) : Uplink :=
  let sample_for := elapsed now (rate_mark u) in
  if RATE_SAMPLE_WINDOW <=? sample_for then
    let s := as_secs_f64 sample_for in
    let rate :=
      if f64_gt s f64_zero then
        let moved := f64_of_Z (saturating_sub acked (rate_base u)) in
        let sample := f64_div moved s in
        if f64_le (drain_rate u) f64_zero then sample
        else f64_add (f64_mul (drain_rate u) f64_half) (f64_mul sample f64_half)
      else drain_rate u in
    mkUplink now acked rate (uplink_budget u) (outstanding_peak u) (pending_peak u)
      (send_queue_peak u) (stall_count u) (stall_mark u)
  else u.

(** [clamp], which panics when its bounds are out of order. *)
Definition clamp (x lo hi : Z) : outcome False Z :=
  if lo <=? hi then Done (Z.max lo (Z.min x hi)) else Panic.

Definition flow_budget (t : Tuning) (rate : f64) : outcome False Z :=
  let ceiling := Z.max (tcp_tx_buf t) MIN_FLOW_QUEUE_BYTES in
  clamp (f64_to_usize (f64_mul rate (as_secs_f64 UPLINK_QUEUE_BUDGET))) MIN_FLOW_QUEUE_BYTES ceiling.

(** The whole block that measures the flow: state, credit, reset asked. *)
Definition measure (t : Tuning) (clk : nat -> Z) (st : tcpst) (k : K) (c : FlowCredit.t)
    : outcome False (tcpst * FlowCredit.t * bool) :=
  let queued := send_queue k in
  let acked := saturating_sub (accepted_total (drain st)) queued in
  let '(d, u, flap) := check_drain clk queued acked (drain st) (uplink st) in
  let d := mkDrain queued (accepted_total d) (acked_high d) (last_drain d) (drain_warned d) in
  let u := sample_rate (clk 5%nat) acked u in
  budget ← flow_budget t (drain_rate u);
  let c := FlowCredit.publish c acked budget in
  let outstanding := Z.min (FlowCredit.outstanding c) u64_max in
  let u := mkUplink (rate_mark u) (rate_base u) (drain_rate u) budget
    (if outstanding >? outstanding_peak u then outstanding else outstanding_peak u)
    (if zlen (pending st) >? pending_peak u then zlen (pending st) else pending_peak u)
    (if queued >? send_queue_peak u then queued else send_queue_peak u)
    (stall_count u) (stall_mark u) in
  Done (set_drain st d u, c, flap).

(** A flow that keeps stalling is reset. *)
Definition flap_reset (st : tcpst) (k : K) (c : FlowCredit.t) : tcpst * K * FlowCredit.t :=
  let d := drain st in let u := uplink st in
  (set_drain (set_pending st [])
     (mkDrain (send_queue_high d) (accepted_total d) (acked_high d) (last_drain d) false)
     (mkUplink (rate_mark u) (rate_base u) (drain_rate u) (uplink_budget u) (outstanding_peak u)
        (pending_peak u) (send_queue_peak u) 0 (stall_mark u)),
   abort k, FlowCredit.close c).

(** Received bytes to the app: [app_gone], [backpressured]. *)
Fixpoint deliver (budget : nat) (q : Q) (k : K) : Q * K * bool * bool :=
  match budget with
  | O => (q, k, false, false)
  | S budget =>
      match try_reserve q with
      | SendFull => (q, k, false, true)
      | SendClosed => (q, k, true, false)
      | SendOk =>
          if can_recv k then
            match tcp_recv k with
            | (Some ((_ :: _) as chunk), k) => deliver budget (permit_send q chunk) k
            | (_, k) => (q, k, false, false)
            end
          else (q, k, false, false)
      end
  end.

(** What becomes of a flow at the end of its turn. *)
Inductive verdict :=
| Keep (st : tcpst) (k : K) (c : FlowCredit.t)
| Reap (c : FlowCredit.t).

(** The app is gone: the socket is closed, or reset when it still delivers
    data or lingered too long; [true] ends the turn. *)
Definition orphan (limits : TcpLimits) (now : Z) (st : tcpst) (k : K) : tcpst * K * bool :=
  let at_ := default now (orphaned_at st) in
  let st := set_orphan st (Some at_) (aborted st) in
  if can_recv k || (limit_orphan_linger limits <=? elapsed now at_) then
    (set_orphan st (Some at_) true,
     (if bool_decide (state k = Closed) then k else abort k), true)
  else (st, close k, false).

Definition finish_turn (st : tcpst) (k : K) (c : FlowCredit.t) : verdict :=
  let st_state := state k in
  let k := if bool_decide (st_state = CloseWait) then close k else k in
  let st := if bool_decide (st_state = TimeWait) then set_pending st [] else st in
  if (bool_decide (st_state = Closed) || bool_decide (st_state = TimeWait)) && established st
  then Reap (FlowCredit.close c)
  else Keep st k c.

Definition service_established (t : Tuning) (limits : TcpLimits) (now : Z) (clk : nat -> Z)
    (st : tcpst) (k : K) (c : FlowCredit.t) : outcome False (verdict * bool) :=
  '(st, k) ← push_pending clk st k;
  '(st, c, flap) ← measure t clk st k c;
  let '(st, k, c) := if flap : bool then flap_reset st k c else (st, k, c) in
  let k := if half_closed st && bool_decide (pending st = []) then close k else k in
  let '(q, k, app_gone, backpressured) := deliver MAX_RECV_CHUNKS (to_app st) k in
  let st := set_to_app st q in
  if app_gone : bool then
    let '(st, k, done_) := orphan limits now st k in
    if done_ : bool then Done (Keep st k c, backpressured) else Done (finish_turn st k c, backpressured)
  else Done (finish_turn st k c, backpressured).

(** *** One flow of the map *)

(** [resp_closed r]: the caller waiting on response [r] gave up. *)
Definition service_flow (t : Tuning) (resp_closed : Z -> bool) (now : Z) (clk : nat -> Z)
    (s : stack) (id : Z) : outcome False (stack * bool) :=
  match tcp_conns s !! id with
  | None => Done (s, false)
  | Some st =>
      let h := handle st in
      let c := default FlowCredit.new (credits s !! id) in
      let reap resps :=
        ss ← remove_socket (sockets s) h;
        Done (with_flows s ss (delete id (tcp_conns s)) (udp_conns s)
                (<[id := FlowCredit.close c]> (credits s)) (responses s ++ resps), false) in
      if aborted st then reap []
      else
        k ← get_tcp (sockets s) h;
        let connected := bool_decide (state k = Established) || bool_decide (state k = CloseWait) in
        let '(st, resps) :=
          if negb (established st) && connected then
            (set_established st,
             match connect_resp st, from_stack_rx st with
             | Some r, true => [(r, OpenedTcp id)]
             | _, _ => []
             end)
          else (st, []) in
        if negb (established st) &&
           (bool_decide (state k = Closed) || bool_decide (state k = TimeWait)) then
          reap (match connect_resp st with
                | Some r => [(r, OpenFailed (lit "connection refused"))]
                | None => []
                end)
        else if negb (established st) then
          let abandoned := match connect_resp st with Some r => resp_closed r | None => true end in
          if abandoned || (connect_deadline st <=? now) then
            reap (match connect_resp st with
                  | Some r => [(r, OpenFailed (lit "connection timed out"))]
                  | None => []
                  end)
          else Done (s, false)
        else
          '(v, backpressured) ← service_established t (tcp_limits s) now clk st k c;
          match v with
          | Keep st k c =>
              Done (with_flows s (<[h := inl k]> (sockets s)) (<[id := st]> (tcp_conns s))
                      (udp_conns s) (<[id := c]> (credits s)) (responses s ++ resps), backpressured)
          | Reap c =>
              ss ← remove_socket (sockets s) h;
              Done (with_flows s ss (delete id (tcp_conns s)) (udp_conns s)
                      (<[id := c]> (credits s)) (responses s ++ resps), backpressured)
          end
  end.

(** The loop over the ids collected at the start of the pass. *)
Fixpoint service_tcp (t : Tuning) (resp_closed : Z -> bool) (now : Z) (clk : Z -> nat -> Z)
    (ids : list Z) (s : stack) : outcome False (stack * bool) :=
  match ids with
  | [] => Done (s, false)
  | id :: ids =>
      '(s, b1) ← service_flow t resp_closed now (clk id) s id;
      '(s, b2) ← service_tcp t resp_closed now clk ids s;
      Done (s, b1 || b2)
  end.

(** *** UDP *)

Fixpoint deliver_udp (budget : nat) (q : V) (u : U) : V * U * bool * bool :=
  match budget with
  | O => (q, u, false, false)
  | S budget =>
      match try_reserve q with
      | SendFull => (q, u, false, true)
      | SendClosed => (q, u, true, false)
      | SendOk =>
          if udp_can_recv u then
            match udp_recv u with
            | (Some (data, from), u) => deliver_udp budget (permit_send q (from, data)) u
            | (None, u) => (q, u, false, false)
            end
          else (q, u, false, false)
      end
  end.

Definition service_udp_flow (s : stack) (id : Z) : outcome False (stack * bool) :=
  match udp_conns s !! id with
  | None => Done (s, false)
  | Some st =>
      match try_reserve (udp_to_app st) with
      | SendFull => Done (s, true)
      | SendClosed =>
          ss ← remove_socket (sockets s) (udp_handle st);
          Done (with_flows s ss (tcp_conns s) (delete id (udp_conns s)) (credits s) (responses s), false)
      | SendOk =>
          u ← get_udp (sockets s) (udp_handle st);
          let '(q, u, app_gone, backpressured) := deliver_udp MAX_RECV_CHUNKS (udp_to_app st) u in
          if app_gone : bool then
            ss ← remove_socket (sockets s) (udp_handle st);
            Done (with_flows s ss (tcp_conns s) (delete id (udp_conns s)) (credits s) (responses s),
                  backpressured)
          else
            Done (with_flows s (<[udp_handle st := inr u]> (sockets s)) (tcp_conns s)
                    (<[id := mkUdp (udp_handle st) q]> (udp_conns s)) (credits s) (responses s),
                  backpressured)
      end
  end.

Fixpoint service_udp (ids : list Z) (s : stack) : outcome False (stack * bool) :=
  match ids with
  | [] => Done (s, false)
  | id :: ids =>
      '(s, b1) ← service_udp_flow s id;
      '(s, b2) ← service_udp ids s;
      Done (s, b1 || b2)
  end.

(** *** Dead flows *)

Definition abort_flow (s : stack) (id : Z) : outcome False stack :=
  match tcp_conns s !! id with
  | Some st =>
      k ← get_tcp (sockets s) (handle st);
      Done (with_flows s (<[handle st := inl (abort k)]> (sockets s))
              (<[id := set_pending st []]> (tcp_conns s)) (udp_conns s)
              (<[id := FlowCredit.close (default FlowCredit.new (credits s !! id))]> (credits s))
              (responses s))
  | None => Done s
  end.

Fixpoint abort_flows (ids : list Z) (s : stack) (b : Backlog.t) : outcome False (stack * Backlog.t) :=
  match ids with
  | [] => Done (s, b)
  | id :: ids =>
      s ← abort_flow s id;
      abort_flows ids s (Backlog.purge b id)
  end.

Definition is_stalled (now : Z) (st : tcpst) : bool :=
  (0 <? send_queue_high (drain st)) &&
  (TCP_DRAIN_STALL_TIMEOUT <=? elapsed now (last_drain (drain st))).

Definition is_wedged (now : Z) (s : stack) (id : Z) : bool :=
  match tcp_conns s !! id with
  | Some st => TCP_WEDGE_TIMEOUT <=? elapsed now (last_progress st)
  | None => true
  end.

(** [ids] lists the flows and [blocked] the blocked flows, in the order
    their hash tables are iterated; the clocks are read at each test. *)
Definition reap_wedged (now_drain now_wedge : Z -> Z) (ids blocked : list Z) (s : stack) (b : Backlog.t)
    : outcome False (stack * Backlog.t) :=
  let stalled := List.filter (fun id =>
    match tcp_conns s !! id with Some st => is_stalled (now_drain id) st | None => false end) ids in
  '(s, b) ← abort_flows stalled s b;
  if bool_decide (Backlog.blocked b = ∅) then Done (s, b)
  else
    let wedged := List.filter (fun id => bool_decide (id ∈ Backlog.blocked b) && is_wedged (now_wedge id) s id) blocked in
    abort_flows wedged s b.
End service.
