(* ===== verification/Sink.v ===== *)
(** * The stack behind the backlog

    The invariant of the stack's tables (every flow owns a live socket of its
    kind, no two flows share one) and the instance of [FlowSink] that lets the
    backlog's theorems speak about the stack. *)

From stdpp Require Import base list option gmap.
From Stdlib Require Import ZArith Lia.
From S2P Require Import Prelude Net Channel Sysprofile Backlog FlowCredit Device Netstack.

Section sink.
Context {K U Q V : Type} `{SmoltcpLaws K U} `{AppQueue Q (list Z)} `{AppQueue V (SocketAddr * list Z)}.
Context (t : Tuning).

Abbreviation stack := (@NetStack K U Q V).
Implicit Types (s : stack).

Record stack_ok (s : stack) : Prop := {
  tcp_live id st : tcp_conns s !! id = Some st -> exists k, sockets s !! handle st = Some (inl k);
  udp_live id st : udp_conns s !! id = Some st -> exists u, sockets s !! udp_handle st = Some (inr u);
  tcp_inj i j st st' : tcp_conns s !! i = Some st -> tcp_conns s !! j = Some st' ->
    handle st = handle st' -> i = j;
  udp_inj i j st st' : udp_conns s !! i = Some st -> udp_conns s !! j = Some st' ->
    udp_handle st = udp_handle st' -> i = j;
  tcp_ids id st : tcp_conns s !! id = Some st -> id < next_id s;
  udp_ids id st : udp_conns s !! id = Some st -> id < next_id s;
}.

(** The bytes a TCP flow took: those its socket accepted, then its pending. *)
Definition flow_taken (s : stack) (id : Z) : option (list Z) :=
  match tcp_conns s !! id with
  | Some st =>
      match sockets s !! handle st with
      | Some (inl k) => Some (accepted k ++ pending st)
      | _ => None
      end
  | None => None
  end.

Definition flow_room (s : stack) (id : Z) : Z :=
  match tcp_conns s !! id with
  | Some st => max_tcp_pending t - zlen (pending st)
  | None => 0
  end.

#[global] Instance stack_sink : FlowSink stack := {
  try_handle_data := try_handle t;
  taken := flow_taken;
  room := flow_room;
  sink_ok := stack_ok;
}.

Lemma stack_ok_tcp_update s id st st' creds resps :
  stack_ok s -> tcp_conns s !! id = Some st -> handle st' = handle st ->
  stack_ok (with_flows s (sockets s) (<[id := st']> (tcp_conns s)) (udp_conns s) creds resps).
Proof.
  intros [Htl Hul Hti Hui Hid Hud] Hst Hh. split; cbn; try done.
  - intros i sti Hi. apply lookup_insert_Some in Hi as [[<- <-]|[_ Hi]]; [rewrite Hh|]; eauto.
  - intros i j sti stj Hi Hj Heq.
    apply lookup_insert_Some in Hi as [[Ei <-]|[Ni Hi]];
    apply lookup_insert_Some in Hj as [[Ej <-]|[Nj Hj]]; try congruence;
      subst; rewrite ?Hh in Heq; eauto.
  - intros i sti Hi. apply lookup_insert_Some in Hi as [[<- <-]|[_ Hi]]; eauto.
Qed.

(** A socket replaced by one of its kind keeps the tables sound. *)
Lemma stack_ok_socket_update s h x y creds resps :
  stack_ok s -> sockets s !! h = Some x ->
  match x, y with inl _, inl _ | inr _, inr _ => True | _, _ => False end ->
  stack_ok (with_flows s (<[h := y]> (sockets s)) (tcp_conns s) (udp_conns s) creds resps).
Proof.
  intros [Htl Hul Hti Hui Hid Hud] Hx Hk. split; cbn; try done.
  - intros i st Hi. destruct (Htl i st Hi) as [k Hs].
    destruct (decide (handle st = h)) as [<-|]; [|rewrite lookup_insert_ne by done; eauto].
    rewrite lookup_insert_eq. rewrite Hs in Hx. injection Hx as <-. destruct y; [eauto|done].
  - intros i st Hi. destruct (Hul i st Hi) as [u Hs].
    destruct (decide (udp_handle st = h)) as [<-|]; [|rewrite lookup_insert_ne by done; eauto].
    rewrite lookup_insert_eq. rewrite Hs in Hx. injection Hx as <-. destruct y; [done|eauto].
Qed.

(** Removing a TCP flow with its socket. *)
Lemma stack_ok_tcp_remove s id st creds resps :
  stack_ok s -> tcp_conns s !! id = Some st ->
  stack_ok (with_flows s (delete (handle st) (sockets s)) (delete id (tcp_conns s))
              (udp_conns s) creds resps).
Proof.
  intros [Htl Hul Hti Hui Hid Hud] Hst. split; cbn; try done.
  - intros i sti Hi. apply lookup_delete_Some in Hi as [Hne Hi].
    rewrite lookup_delete_ne; [eauto|]. intros Heq. apply Hne. eauto.
  - intros i u Hi. destruct (Hul i u Hi) as [x Hx]. destruct (Htl id st Hst) as [k Hk].
    rewrite lookup_delete_ne; [eauto|]. congruence.
  - intros i j sti stj Hi Hj. apply lookup_delete_Some in Hi as [_ Hi], Hj as [_ Hj]. eauto.
  - intros i sti Hi. apply lookup_delete_Some in Hi as [_ Hi]. eauto.
Qed.

Lemma stack_ok_udp_remove s id st creds resps :
  stack_ok s -> udp_conns s !! id = Some st ->
  stack_ok (with_flows s (delete (udp_handle st) (sockets s)) (tcp_conns s)
              (delete id (udp_conns s)) creds resps).
Proof.
  intros [Htl Hul Hti Hui Hid Hud] Hst. split; cbn; try done.
  - intros i sti Hi. destruct (Htl i sti Hi) as [x Hx]. destruct (Hul id st Hst) as [k Hk].
    rewrite lookup_delete_ne; [eauto|]. congruence.
  - intros i sti Hi. apply lookup_delete_Some in Hi as [Hne Hi].
    rewrite lookup_delete_ne; [eauto|]. intros Heq. apply Hne. eauto.
  - intros i j sti stj Hi Hj. apply lookup_delete_Some in Hi as [_ Hi], Hj as [_ Hj]. eauto.
  - intros i sti Hi. apply lookup_delete_Some in Hi as [_ Hi]. eauto.
Qed.

Lemma flow_taken_tcp_update s id st st' creds resps i :
  tcp_conns s !! id = Some st -> handle st' = handle st ->
  flow_taken (with_flows s (sockets s) (<[id := st']> (tcp_conns s)) (udp_conns s) creds resps) i =
  if decide (i = id) then
    match sockets s !! handle st with Some (inl k) => Some (accepted k ++ pending st') | _ => None end
  else flow_taken s i.
Proof.
  intros Hst Hh. unfold flow_taken. cbn. destruct (decide (i = id)) as [->|Hne].
  - by rewrite lookup_insert_eq, Hh.
  - by rewrite lookup_insert_ne by done.
Qed.

Lemma flow_taken_udp_socket s h u u' creds resps i (udp : gmap Z UdpState) :
  stack_ok s -> sockets s !! h = Some (inr u) ->
  flow_taken (with_flows s (<[h := inr u']> (sockets s)) (tcp_conns s) udp creds resps) i =
  flow_taken s i.
Proof.
  intros Hok Hh. unfold flow_taken. cbn. destruct (tcp_conns s !! i) as [st|] eqn:E; [|done].
  destruct (tcp_live s Hok i st E) as [k Hk]. rewrite lookup_insert_ne; [done|]. congruence.
Qed.

Lemma flow_taken_udp_delete s h u creds resps i (udp : gmap Z UdpState) :
  stack_ok s -> sockets s !! h = Some (inr u) ->
  flow_taken (with_flows s (delete h (sockets s)) (tcp_conns s) udp creds resps) i =
  flow_taken s i.
Proof.
  intros Hok Hh. unfold flow_taken. cbn. destruct (tcp_conns s !! i) as [st|] eqn:E; [|done].
  destruct (tcp_live s Hok i st E) as [k Hk]. rewrite lookup_delete_ne; [done|]. congruence.
Qed.

(** What [handle_spec] asks of a message that took nothing of any flow. *)
Lemma handle_nothing s s' (d : DataIn) :
  (forall id, flow_taken s' id = flow_taken s id) -> (forall id, flow_room s' id = flow_room s id) ->
  (forall id, flow_taken s id <> None -> msg_bytes id d = []) ->
  forall id,
    match flow_taken s id with
    | Some l => exists k, flow_taken s' id = Some (l ++ k) /\ msg_bytes id d = k ++ [] /\
        flow_room s' id = flow_room s id - zlen k /\
        (data_in_id d = id -> zlen (msg_bytes id d) < flow_room s id -> @None DataIn = None)
    | None => flow_taken s' id = None
    end.
Proof.
  intros Ht Hr Hd id. rewrite Ht, Hr. destruct (flow_taken s id) as [l|] eqn:E; [|done].
  exists []. rewrite app_nil_r, Hd by (by rewrite E). split_and!; try done. rewrite zlen_nil. lia.
Qed.

(** Bytes appended to the pending of one flow. *)
Lemma pending_taken s id st k0 p back d :
  stack_ok s -> tcp_conns s !! id = Some st -> sockets s !! handle st = Some (inl k0) ->
  data_in_id d = id ->
  msg_bytes id d = p ++ match back with Some b => msg_bytes id b | None => [] end ->
  (forall b, back = Some b -> data_in_id b = id) ->
  (zlen (msg_bytes id d) < flow_room s id -> back = None) ->
  let s' := with_flows s (sockets s) (<[id := set_pending st (pending st ++ p)]> (tcp_conns s))
              (udp_conns s) (credits s) (responses s) in
  forall i,
    match flow_taken s i with
    | Some l => exists k, flow_taken s' i = Some (l ++ k) /\
        msg_bytes i d = k ++ match back with Some b => msg_bytes i b | None => [] end /\
        flow_room s' i = flow_room s i - zlen k /\
        (data_in_id d = i -> zlen (msg_bytes i d) < flow_room s i -> back = None)
    | None => flow_taken s' i = None
    end.
Proof.
  intros Hok Hst Hk Hid Hm Hb Hr s' i. unfold s'.
  rewrite (flow_taken_tcp_update s id st _ _ _ i Hst) by done.
  destruct (decide (i = id)) as [->|Hne].
  - unfold flow_taken. rewrite Hst, Hk. exists p. cbn. rewrite app_assoc.
    unfold flow_room. cbn. rewrite Hst, lookup_insert_eq. cbn. rewrite zlen_app.
    split_and!; try done; [lia|]. intros _. unfold flow_room in Hr. by rewrite Hst in Hr.
  - destruct (flow_taken s i) as [l|]; [|done]. exists []. rewrite app_nil_r.
    unfold flow_room. cbn. rewrite lookup_insert_ne by done.
    rewrite !msg_bytes_other by congruence. split_and!; try done; [|unfold zlen; cbn [length]; lia|congruence].
    destruct back as [b|]; [|done]. rewrite msg_bytes_other; [done|]. rewrite (Hb b eq_refl). congruence.
Qed.

Lemma set_pending_same s id st :
  tcp_conns s !! id = Some st ->
  with_flows s (sockets s) (<[id := set_pending st (pending st ++ [])]> (tcp_conns s))
    (udp_conns s) (credits s) (responses s) = s.
Proof.
  intros Hst. rewrite app_nil_r. unfold with_flows.
  rewrite insert_id; [by destruct s|]. by destruct st.
Qed.

Lemma try_handle_tcp s id data :
  stack_ok s -> exists back s',
    try_handle t s (Tcp id data) = Done (back, s') /\ stack_ok s' /\
    (forall b, back = Some b -> data_in_id b = id /\ data_in_bytes b <= zlen data /\
                               exists i data, b = Tcp i data) /\
    forall i,
      match flow_taken s i with
      | Some l => exists k, flow_taken s' i = Some (l ++ k) /\
          msg_bytes i (Tcp id data) = k ++ match back with Some b => msg_bytes i b | None => [] end /\
          flow_room s' i = flow_room s i - zlen k /\
          (id = i -> zlen (msg_bytes i (Tcp id data)) < flow_room s i -> back = None)
      | None => flow_taken s' i = None
      end.
Proof.
  intros Hok. cbn [try_handle]. pose proof (zlen_nonneg data) as Hd.
  assert (Hmsg : forall x, msg_bytes id (Tcp id x) = x) by (intros; cbn; by rewrite Z.eqb_refl).
  destruct (tcp_conns s !! id) as [st|] eqn:Hst.
  2:{ exists None, s. split_and!; try done. intros i.
      apply (handle_nothing s s (Tcp id data)); [done..|]. intros j Hj. cbn.
      destruct (Z.eqb_spec id j) as [<-|]; [|done]. unfold flow_taken in Hj. by rewrite Hst in Hj. }
  destruct (tcp_live s Hok id st Hst) as [k Hk].
  assert (Hroom : flow_room s id = max_tcp_pending t - zlen (pending st))
    by (unfold flow_room; by rewrite Hst).
  assert (Hupd : forall p, stack_ok (with_flows s (sockets s)
    (<[id := set_pending st p]> (tcp_conns s)) (udp_conns s) (credits s) (responses s)))
    by (intros p; by apply (stack_ok_tcp_update s id st)).
  destruct (Z.leb_spec (max_tcp_pending t) (zlen (pending st))) as [Hfull|Hfree].
  { exists (Some (Tcp id data)), s. split_and!; try done.
    - intros b [= <-]. cbn. eauto with lia.
    - intros i. pose proof (pending_taken s id st k [] (Some (Tcp id data)) (Tcp id data)) as Hp.
      cbv zeta in Hp. rewrite (set_pending_same s id st Hst) in Hp.
      apply Hp; try done; [by intros b [= <-]|]. rewrite Hmsg. lia. }
  set (space := max_tcp_pending t - zlen (pending st)) in *.
  destruct (Z.leb_spec (zlen data) space) as [Hfits|Hlong].
  { eexists None, _. split; [done|]. split; [done|]. split; [done|].
    apply (pending_taken s id st k data None (Tcp id data)); try done.
    by rewrite Hmsg, app_nil_r. }
  unfold slice. rewrite !(proj2 (in_slice_true _ _ _)) by lia. cbn [mbind outcome_bind].
  assert (Hsplit : data = zsub data 0 space ++ zsub data space (zlen data)).
  { unfold zsub. rewrite zdrop_0, Z.sub_0_r, (ztake_all (zlen data - space)).
    - by rewrite ztake_zdrop.
    - rewrite zlen_zdrop; lia. }
  eexists (Some _), _. split; [done|]. split; [done|]. split.
  - intros b [= <-]. cbn. split; [done|]. split; [|eauto]. rewrite zlen_zsub by lia. lia.
  - apply (pending_taken s id st k _ (Some (Tcp id (zsub data space (zlen data)))) (Tcp id data)); try done.
    + by rewrite !Hmsg.
    + by intros b [= <-].
    + rewrite Hmsg. lia.
Qed.

#[global] Instance stack_sink_laws : FlowSinkLaws stack.
Proof.
  split. intros s d Hok. cbn [try_handle_data taken room sink_ok stack_sink] in *.
  destruct d as [id data|id|id dst data|id].
  - destruct (try_handle_tcp s id data Hok) as (back & s' & Ht & Hok' & Hb & Hk).
    exists back, s'. auto.
  - cbn [try_handle]. destruct (tcp_conns s !! id) as [st|] eqn:Hst.
    + eexists None, _. split; [done|]. split; [by apply (stack_ok_tcp_update s id st)|]. split; [done|].
      apply handle_nothing; [| |done]; intros i.
      * rewrite (flow_taken_tcp_update s id st) by done. destruct (decide (i = id)) as [->|]; [|done].
        unfold flow_taken. by rewrite Hst.
      * unfold flow_room. cbn. destruct (decide (i = id)) as [->|Hne];
          [by rewrite lookup_insert_eq, Hst|by rewrite lookup_insert_ne by done].
    + exists None, s. split_and!; try done. by apply handle_nothing.
  - cbn [try_handle]. destruct (udp_conns s !! id) as [st|] eqn:Hst.
    + destruct (udp_live s Hok id st Hst) as [u Hu]. unfold get_udp. rewrite Hu. cbn [mbind outcome_bind].
      eexists None, _. split; [done|].
      split; [by apply (stack_ok_socket_update s (udp_handle st) (inr u))|]. split; [done|].
      apply handle_nothing; [|done..]. intros i. by apply (flow_taken_udp_socket s _ u).
    + exists None, s. split_and!; try done. by apply handle_nothing.
  - cbn [try_handle]. destruct (udp_conns s !! id) as [st|] eqn:Hst.
    + destruct (udp_live s Hok id st Hst) as [u Hu]. unfold remove_socket. rewrite Hu. cbn [mbind outcome_bind].
      eexists None, _. split; [done|]. split; [by apply stack_ok_udp_remove|]. split; [done|].
      apply handle_nothing; [|done..]. intros i. by apply (flow_taken_udp_delete s _ u).
    + exists None, s. split_and!; try done. by apply handle_nothing.
Qed.
End sink.
