(* ===== verification/ServiceFacts.v ===== *)
(** * Correctness of the service pass

    No handle ever dangles, no byte of a flow is lost or reordered while the
    flow lives, the upload budget stays within its bounds, the liveness clock
    follows acknowledgements, and a connect is answered once. *)

From stdpp Require Import base list option gmap.
From Stdlib Require Import ZArith Lia.
From S2P Require Import Prelude RustStr Net Error Channel F64 Sysprofile Backlog FlowCredit Device Netstack Service Sink.

Section facts.
Context {K U Q V : Type} `{SmoltcpLaws K U} `{AppQueue Q (list Z)} `{AppQueue V (SocketAddr * list Z)}.
Context (t : Tuning).

Abbreviation stack := (@NetStack K U Q V).
Abbreviation tcpst := (@TcpState Q).
Implicit Types (s : stack) (st : tcpst) (k : K) (c : FlowCredit.t).

(** The bytes a flow took, on its parts. *)
Definition parts_taken st k : list Z := accepted k ++ pending st.

Lemma push_pending_spec clk st k :
  exists st' k', push_pending clk st k = Done (st', k') /\
    handle st' = handle st /\ parts_taken st' k' = parts_taken st k /\
    established st' = established st /\ connect_resp st' = connect_resp st /\
    (accepted_total (drain st) <= accepted_total (drain st') \/ accepted_total (drain st) > u64_max) /\
    acked_high (drain st') = acked_high (drain st).
Proof.
  unfold push_pending, parts_taken.
  destruct (pending st) as [|b p] eqn:Ep.
  { eexists _, _. split; [done|]. cbn. rewrite Ep. split_and!; try done. lia. }
  destruct (can_send k); [|eexists _, _; split; [done|]; rewrite Ep; split_and!; done || lia].
  destruct (send_slice k (b :: p)) as [[n|] k'] eqn:Es; cbn [default].
  2:{ apply send_slice_none in Es. eexists _, _. split; [done|]. rewrite Es, Ep. split_and!; done || lia. }
  apply send_slice_some in Es as [Hn Ha]. cbn [from_option id].
  destruct (Z.ltb_spec 0 n) as [Hpos|Hz].
  - cbn [pending set_drain set_progress]. rewrite Ep. unfold slice.
    rewrite (proj2 (in_slice_true _ _ _)) by lia. cbn [mbind outcome_bind].
    eexists _, _. split; [done|]. cbn. rewrite Ha, <- app_assoc.
    replace (zsub (b :: p) n (zlen (b :: p))) with (zdrop n (b :: p)).
    2:{ unfold zsub. rewrite ztake_all; [done|]. rewrite zlen_zdrop by lia. lia. }
    rewrite ztake_zdrop. split_and!; try done. unfold saturating_add, u64_max. lia.
  - eexists _, _. split; [done|]. rewrite Ep. split_and!; try done; [|lia].
    rewrite Ha. replace n with 0 by lia. unfold ztake. by rewrite take_0, app_nil_r.
Qed.

Lemma flow_budget_spec rate :
  exists b, flow_budget t rate = Done b /\
    MIN_FLOW_QUEUE_BYTES <= b <= Z.max (tcp_tx_buf t) MIN_FLOW_QUEUE_BYTES.
Proof.
  unfold flow_budget, clamp.
  destruct (Z.leb_spec MIN_FLOW_QUEUE_BYTES (Z.max (tcp_tx_buf t) MIN_FLOW_QUEUE_BYTES)); [|lia].
  eexists. split; [done|]. lia.
Qed.

Lemma measure_spec clk st k c :
  exists st' c' flap, measure t clk st k c = Done (st', c', flap) /\
    handle st' = handle st /\ pending st' = pending st /\ established st' = established st /\
    FlowCredit.closed c' = FlowCredit.closed c /\
    MIN_FLOW_QUEUE_BYTES <= FlowCredit.cap c' <= Z.max (tcp_tx_buf t) MIN_FLOW_QUEUE_BYTES.
Proof.
  unfold measure. destruct (check_drain _ _ _ _ _) as [[d u] flap].
  destruct (flow_budget_spec (drain_rate (sample_rate (clk 5%nat)
    (saturating_sub (accepted_total (drain st)) (send_queue k)) u))) as (b & -> & Hb).
  cbn [mbind outcome_bind]. eexists _, _, _. split; [done|]. split_and!; try done; cbn; lia.
Qed.

Lemma deliver_accepted n : forall q k,
  let '(q', k', gone, bp) := deliver n q k in accepted k' = accepted k.
Proof.
  induction n as [|n IH]; intros q k; cbn [deliver]; [done|].
  destruct (try_reserve q); [|done..]. destruct (can_recv k); [|done].
  pose proof (tcp_recv_accepted k) as Hr. destruct (tcp_recv k) as [[[|b p]|] k']; cbn in Hr; try done.
  specialize (IH (permit_send q (b :: p)) k'). destruct (deliver n _ k') as [[[? ?] ?] ?]. congruence.
Qed.

(** What a turn may do to the bytes of a flow: keep them all, or drop the
    unsent tail when it closes the flow's credit. *)
Definition stream_kept (l l' : list Z) (c' : FlowCredit.t) : Prop :=
  l' = l \/ (FlowCredit.closed c' = true /\ l' `prefix_of` l).

Lemma orphan_spec limits now st k st' k' b :
  orphan limits now st k = (st', k', b) ->
  handle st' = handle st /\ pending st' = pending st /\ accepted k' = accepted k /\
  established st' = established st.
Proof.
  unfold orphan. destruct (_ || _); intros [= <- <- <-]; cbn; split_and!; try done.
  - case_bool_decide; [done|apply abort_accepted].
  - apply close_accepted.
Qed.

Lemma finish_turn_spec st k c :
  established st = true ->
  match finish_turn st k c with
  | Keep st' k' c' => handle st' = handle st /\ parts_taken st' k' = parts_taken st k /\ c' = c
  | Reap c' => FlowCredit.closed c' = true
  end.
Proof.
  intros He. unfold finish_turn, parts_taken.
  destruct (decide (state k = TimeWait)) as [Ht|Ht].
  { rewrite (bool_decide_true (state k = TimeWait)) by done. cbn. rewrite He, orb_true_r. done. }
  rewrite (bool_decide_false (state k = TimeWait)) by done. rewrite orb_false_r, He, andb_true_r.
  repeat case_bool_decide; cbn; rewrite ?close_accepted; done.
Qed.

Lemma service_established_spec limits now clk st k c :
  established st = true ->
  exists v b, service_established t limits now clk st k c = Done (v, b) /\
    match v with
    | Keep st' k' c' =>
        handle st' = handle st /\ stream_kept (parts_taken st k) (parts_taken st' k') c' /\
        (FlowCredit.closed c = true -> FlowCredit.closed c' = true)
    | Reap c' => FlowCredit.closed c' = true
    end.
Proof.
  intros He. unfold service_established.
  destruct (push_pending_spec clk st k) as (st1 & k1 & -> & Hh1 & Hp1 & He1 & _).
  cbn [mbind outcome_bind].
  destruct (measure_spec clk st1 k1 c) as (st2 & c2 & flap & -> & Hh2 & Hp2 & He2 & Hc2 & _).
  cbn [mbind outcome_bind].
  set (r := if flap then flap_reset st2 k1 c2 else (st2, k1, c2)).
  assert (Hr : handle r.1.1 = handle st /\ established r.1.1 = true /\
    stream_kept (parts_taken st k) (parts_taken r.1.1 r.1.2) r.2 /\
    (FlowCredit.closed c = true -> FlowCredit.closed r.2 = true)).
  { unfold r, stream_kept, parts_taken in *. destruct flap; cbn.
    - split_and!; [congruence..| |done]. right. split; [done|]. rewrite abort_accepted, app_nil_r, <- Hp1.
      by apply prefix_app_r.
    - split_and!; [congruence..| |congruence]. left. by rewrite Hp2. }
  clearbody r. destruct r as [[st3 k3] c3]. cbn in Hr. destruct Hr as (Hh3 & He3 & Hk3 & Hc3).
  set (k4 := if half_closed st3 && bool_decide (pending st3 = []) then close k3 else k3).
  assert (Ha4 : accepted k4 = accepted k3) by (unfold k4; destruct (_ && _); [apply close_accepted|done]).
  clearbody k4. pose proof (deliver_accepted MAX_RECV_CHUNKS (to_app st3) k4) as Hd.
  destruct (deliver MAX_RECV_CHUNKS (to_app st3) k4) as [[[q k5] gone] bp].
  assert (Hk5 : stream_kept (parts_taken st k) (parts_taken (set_to_app st3 q) k5) c3)
    by (unfold parts_taken in *; cbn; by rewrite Hd, Ha4).
  assert (Hend : forall st6 k6, handle st6 = handle st -> established st6 = true ->
    parts_taken st6 k6 = parts_taken (set_to_app st3 q) k5 ->
    match finish_turn st6 k6 c3 with
    | Keep st' k' c' => handle st' = handle st /\
        stream_kept (parts_taken st k) (parts_taken st' k') c' /\
        (FlowCredit.closed c = true -> FlowCredit.closed c' = true)
    | Reap c' => FlowCredit.closed c' = true
    end).
  { intros st6 k6 Hh6 He6 Hp6. pose proof (finish_turn_spec st6 k6 c3 He6) as Hf.
    destruct (finish_turn st6 k6 c3); [|done]. destruct Hf as (-> & -> & ->). by rewrite Hp6. }
  destruct gone; [|eexists _, _; split; [done|]; by apply Hend].
  destruct (orphan limits now (set_to_app st3 q) k5) as [[st6 k6] dn] eqn:Eo.
  apply orphan_spec in Eo as (Hh6 & Hp6 & Ha6 & He6). cbn in Hh6, He6.
  assert (Hp : parts_taken st6 k6 = parts_taken (set_to_app st3 q) k5)
    by (unfold parts_taken; by rewrite Hp6, Ha6).
  destruct dn; (eexists _, _; split; [done|]).
  - split; [congruence|]. by rewrite Hp.
  - apply Hend; congruence.
Qed.

(** ** The whole stack *)

Definition credit_closed s (id : Z) : Prop :=
  exists c, credits s !! id = Some c /\ FlowCredit.closed c = true.

(** How a pass may change the flows: none appears, a closed credit stays
    closed, and a flow keeps its bytes unless its credit is closed. *)
Definition flows_step s s' : Prop := next_id s' = next_id s /\ forall id,
  (credit_closed s id -> credit_closed s' id) /\
  match flow_taken s id with
  | Some l =>
      match flow_taken s' id with
      | Some l' => l' = l \/ (credit_closed s' id /\ l' `prefix_of` l)
      | None => credit_closed s' id
      end
  | None => flow_taken s' id = None
  end.

Lemma flows_step_refl s : flows_step s s.
Proof. split; [done|]. intros id. split; [done|]. destruct (flow_taken s id); auto. Qed.

Lemma flows_step_trans s1 s2 s3 : flows_step s1 s2 -> flows_step s2 s3 -> flows_step s1 s3.
Proof.
  intros [N12 H12] [N23 H23]. split; [congruence|].
  intros id. destruct (H12 id) as [C12 F12], (H23 id) as [C23 F23].
  split; [auto|].
  destruct (flow_taken s1 id) as [l1|], (flow_taken s2 id) as [l2|], (flow_taken s3 id) as [l3|];
    try done; auto.
  destruct F12 as [->|[Hc Hp]], F23 as [->|[Hc' Hp']]; auto.
  right. split; [done|]. by etrans.
Qed.

Lemma put_flow s id st st' k' c' resps :
  stack_ok s -> tcp_conns s !! id = Some st -> handle st' = handle st ->
  let s' := with_flows s (<[handle st := inl k']> (sockets s)) (<[id := st']> (tcp_conns s))
              (udp_conns s) (<[id := c']> (credits s)) resps in
  stack_ok s' /\
  forall i, flow_taken s' i = if decide (i = id) then Some (parts_taken st' k') else flow_taken s i.
Proof.
  intros Hok Hst Hh s'. destruct (tcp_live s Hok id st Hst) as [k Hk]. split.
  - assert (Hok1 : stack_ok (with_flows s (<[handle st := inl k']> (sockets s)) (tcp_conns s)
      (udp_conns s) (credits s) (responses s)))
      by (by apply (stack_ok_socket_update s (handle st) (inl k))).
    exact (stack_ok_tcp_update _ id st st' (<[id := c']> (credits s)) resps Hok1 Hst Hh).
  - intros i. unfold flow_taken, s'. cbn. destruct (decide (i = id)) as [->|Hne].
    + rewrite lookup_insert_eq, Hh, lookup_insert_eq. done.
    + rewrite lookup_insert_ne by done. destruct (tcp_conns s !! i) as [sti|] eqn:Ei; [|done].
      rewrite lookup_insert_ne; [done|]. intros Heq. apply Hne. by eapply (tcp_inj s Hok).
Qed.

Lemma drop_flow s id st c' resps :
  stack_ok s -> tcp_conns s !! id = Some st ->
  let s' := with_flows s (delete (handle st) (sockets s)) (delete id (tcp_conns s))
              (udp_conns s) (<[id := c']> (credits s)) resps in
  stack_ok s' /\ forall i, flow_taken s' i = if decide (i = id) then None else flow_taken s i.
Proof.
  intros Hok Hst s'. split; [by apply stack_ok_tcp_remove|].
  intros i. unfold flow_taken, s'. cbn. destruct (decide (i = id)) as [->|Hne].
  - by rewrite lookup_delete_eq.
  - rewrite lookup_delete_ne by done. destruct (tcp_conns s !! i) as [sti|] eqn:Ei; [|done].
    rewrite lookup_delete_ne; [done|]. intros Heq. apply Hne. by eapply (tcp_inj s Hok).
Qed.

(** A change of one flow that obeys the step. *)
Lemma flows_step_one s s' id c' :
  next_id s' = next_id s -> credits s' = <[id := c']> (credits s) ->
  (forall i, i <> id -> flow_taken s' i = flow_taken s i) ->
  (credit_closed s id -> FlowCredit.closed c' = true) ->
  match flow_taken s id with
  | Some l =>
      match flow_taken s' id with
      | Some l' => l' = l \/ (FlowCredit.closed c' = true /\ l' `prefix_of` l)
      | None => FlowCredit.closed c' = true
      end
  | None => flow_taken s' id = None
  end -> flows_step s s'.
Proof.
  intros Hn Hc Ho Hcl Hid. split; [done|]. intros i.
  destruct (decide (i = id)) as [->|Hne].
  - assert (Hcc : FlowCredit.closed c' = true -> credit_closed s' id)
      by (intros; exists c'; by rewrite Hc, lookup_insert_eq).
    split; [auto|]. destruct (flow_taken s id), (flow_taken s' id); auto. intuition.
  - rewrite (Ho i Hne). unfold credit_closed. rewrite Hc, lookup_insert_ne by done.
    split; [done|]. destruct (flow_taken s i); auto.
Qed.

Lemma flow_taken_live s id st k :
  tcp_conns s !! id = Some st -> sockets s !! handle st = Some (inl k) ->
  flow_taken s id = Some (parts_taken st k).
Proof. intros Hst Hk. unfold flow_taken. by rewrite Hst, Hk. Qed.

Lemma reap_step s id st resps :
  stack_ok s -> tcp_conns s !! id = Some st -> forall c', FlowCredit.closed c' = true ->
  exists ss, remove_socket (sockets s) (handle st) = Done ss /\
    let s' := with_flows s ss (delete id (tcp_conns s)) (udp_conns s) (<[id := c']> (credits s)) resps in
    stack_ok s' /\ flows_step s s' /\ tcp_conns s' !! id = None.
Proof.
  intros Hok Hst c' Hc. destruct (tcp_live s Hok id st Hst) as [k Hk].
  unfold remove_socket. rewrite Hk. eexists. split; [done|].
  destruct (drop_flow s id st c' resps Hok Hst) as [Hok' Hf]. split_and!; [done| |apply lookup_delete_eq].
  apply (flows_step_one s _ id c'); [done|done| |done|].
  - intros i Hne. by rewrite Hf, decide_False.
  - rewrite (flow_taken_live s id st k Hst Hk), Hf, decide_True by done. done.
Qed.

Lemma service_flow_spec resp_closed now clk s id :
  stack_ok s ->
  exists s' b, service_flow t resp_closed now clk s id = Done (s', b) /\ stack_ok s' /\ flows_step s s'.
Proof.
  intros Hok. unfold service_flow. destruct (tcp_conns s !! id) as [st|] eqn:Hst.
  2:{ exists s, false. auto using flows_step_refl. }
  destruct (tcp_live s Hok id st Hst) as [k Hk].
  set (c := default FlowCredit.new (credits s !! id)).
  assert (Hc : credit_closed s id -> FlowCredit.closed c = true)
    by (intros (c' & Hc' & Hcl); unfold c; by rewrite Hc').
  assert (Hreap : forall resps, exists s' b,
    (ss ← remove_socket (sockets s) (handle st);
     Done (with_flows s ss (delete id (tcp_conns s)) (udp_conns s)
             (<[id := FlowCredit.close c]> (credits s)) (responses s ++ resps), false)) = Done (s', b) /\
    stack_ok s' /\ flows_step s s').
  { intros resps. destruct (reap_step s id st (responses s ++ resps) Hok Hst (FlowCredit.close c) eq_refl)
      as (ss & -> & Hok' & Hf & _). eexists _, _. split; [done|]. auto. }
  destruct (aborted st); [apply Hreap|].
  unfold get_tcp. rewrite Hk. cbn [mbind outcome_bind].
  set (r := if negb (established st) && _ then _ else _).
  assert (Hr : handle r.1 = handle st /\ parts_taken r.1 k = parts_taken st k)
    by (unfold r; destruct (_ && _); done).
  clearbody r. destruct r as [st1 resps]. cbn in Hr. destruct Hr as [Hh1 Hp1].
  destruct (negb (established st1) && _); [apply Hreap|].
  destruct (established st1) eqn:He; cbn [negb].
  2:{ destruct (_ || _); [apply Hreap|]. exists s, false. auto using flows_step_refl. }
  destruct (service_established_spec (tcp_limits s) now clk st1 k c He) as (v & b & -> & Hv).
  cbn [mbind outcome_bind]. destruct v as [st2 k2 c2|c2].
  - destruct Hv as (Hh2 & Hs2 & Hc2).
    destruct (put_flow s id st st2 k2 c2 (responses s ++ resps) Hok Hst ltac:(congruence)) as [Hok' Hf].
    eexists _, _. split; [done|]. split; [done|].
    apply (flows_step_one s _ id c2); [done|done| |auto|].
    + intros i Hne. by rewrite Hf, decide_False.
    + rewrite (flow_taken_live s id st k Hst Hk), Hf, decide_True by done.
      rewrite Hp1 in Hs2. exact Hs2.
  - destruct (reap_step s id st (responses s ++ resps) Hok Hst c2 Hv) as (ss & -> & Hok' & Hf & _).
    eexists _, _. split; [done|]. auto.
Qed.

Lemma service_tcp_spec resp_closed now clk ids : forall s,
  stack_ok s ->
  exists s' b, service_tcp t resp_closed now clk ids s = Done (s', b) /\ stack_ok s' /\ flows_step s s'.
Proof.
  induction ids as [|id ids IH]; intros s Hok; cbn [service_tcp].
  { exists s, false. auto using flows_step_refl. }
  destruct (service_flow_spec resp_closed now (clk id) s id Hok) as (s1 & b1 & -> & Hok1 & Hf1).
  cbn [mbind outcome_bind]. destruct (IH s1 Hok1) as (s2 & b2 & -> & Hok2 & Hf2).
  cbn [mbind outcome_bind]. eexists _, _. split; [done|]. split; [done|]. by eapply flows_step_trans.
Qed.

(** ** UDP flows *)

(** A step that leaves every TCP flow and credit alone. *)
Lemma flows_step_same s s' :
  next_id s' = next_id s -> credits s' = credits s ->
  (forall i, flow_taken s' i = flow_taken s i) -> flows_step s s'.
Proof.
  intros Hn Hc Hf. split; [done|]. intros i. unfold credit_closed. rewrite Hc, Hf. split; [done|].
  destruct (flow_taken s i); auto.
Qed.

Lemma udp_reap_step s id (st : @UdpState V) :
  stack_ok s -> udp_conns s !! id = Some st ->
  exists ss, remove_socket (sockets s) (udp_handle st) = Done ss /\
    let s' := with_flows s ss (tcp_conns s) (delete id (udp_conns s)) (credits s) (responses s) in
    stack_ok s' /\ flows_step s s'.
Proof.
  intros Hok Hst. destruct (udp_live s Hok id st Hst) as [u Hu]. unfold remove_socket. rewrite Hu.
  eexists. split; [done|]. split; [by apply stack_ok_udp_remove|].
  apply flows_step_same; [done..|]. intros i. by apply (flow_taken_udp_delete s _ u).
Qed.

Lemma udp_put_step s id (st : @UdpState V) u q :
  stack_ok s -> udp_conns s !! id = Some st ->
  let s' := with_flows s (<[udp_handle st := inr u]> (sockets s)) (tcp_conns s)
              (<[id := mkUdp (udp_handle st) q]> (udp_conns s)) (credits s) (responses s) in
  stack_ok s' /\ flows_step s s'.
Proof.
  intros Hok Hst s'. destruct (udp_live s Hok id st Hst) as [u0 Hu0]. split.
  - destruct (stack_ok_socket_update s (udp_handle st) (inr u0) (inr u) (credits s) (responses s) Hok Hu0 I)
      as [Htl Hul Hti Hui Hid Hud].
    split; cbn; try done.
    + intros i sti Hi. apply lookup_insert_Some in Hi as [[<- <-]|[_ Hi]]; [cbn|by apply (Hul i)].
      rewrite lookup_insert_eq. eauto.
    + intros i j sti stj Hi Hj Heq.
      apply lookup_insert_Some in Hi as [[Ei <-]|[Ni Hi]];
      apply lookup_insert_Some in Hj as [[Ej <-]|[Nj Hj]]; subst; try done; cbn in Heq.
      * by apply (udp_inj s Hok i j st stj).
      * by apply (udp_inj s Hok i j sti st).
      * by apply (udp_inj s Hok i j sti stj).
    + intros i sti Hi. apply lookup_insert_Some in Hi as [[<- <-]|[_ Hi]];
        [by apply (udp_ids s Hok id st)|by apply (Hud i sti)].
  - apply flows_step_same; [done..|]. intros i. by apply (flow_taken_udp_socket s _ u0).
Qed.

Lemma service_udp_flow_spec s id :
  stack_ok s ->
  exists s' b, service_udp_flow s id = Done (s', b) /\ stack_ok s' /\ flows_step s s'.
Proof.
  intros Hok. unfold service_udp_flow. destruct (udp_conns s !! id) as [st|] eqn:Hst.
  2:{ exists s, false. auto using flows_step_refl. }
  destruct (udp_reap_step s id st Hok Hst) as (ss & Hr & Hok' & Hf).
  destruct (try_reserve (udp_to_app st)).
  - destruct (udp_live s Hok id st Hst) as [u Hu]. unfold get_udp. rewrite Hu. cbn [mbind outcome_bind].
    destruct (deliver_udp MAX_RECV_CHUNKS (udp_to_app st) u) as [[[q u'] gone] bp].
    destruct gone; [rewrite Hr; cbn [mbind outcome_bind]; eauto 6|].
    destruct (udp_put_step s id st u' q Hok Hst). eauto 6.
  - exists s, true. auto using flows_step_refl.
  - rewrite Hr. cbn [mbind outcome_bind]. eauto 6.
Qed.

Lemma service_udp_spec ids : forall s,
  stack_ok s ->
  exists s' b, service_udp ids s = Done (s', b) /\ stack_ok s' /\ flows_step s s'.
Proof.
  induction ids as [|id ids IH]; intros s Hok; cbn [service_udp].
  { exists s, false. auto using flows_step_refl. }
  destruct (service_udp_flow_spec s id Hok) as (s1 & b1 & -> & Hok1 & Hf1).
  cbn [mbind outcome_bind]. destruct (IH s1 Hok1) as (s2 & b2 & -> & Hok2 & Hf2).
  cbn [mbind outcome_bind]. eexists _, _. split; [done|]. split; [done|]. by eapply flows_step_trans.
Qed.

(** ** Dead flows *)

(** A flow that was reset: nothing pending, its socket aborted, its writer
    released. *)
Definition flow_reset s s' (id : Z) : Prop :=
  forall st, tcp_conns s !! id = Some st ->
    exists st' k, tcp_conns s' !! id = Some st' /\ handle st' = handle st /\ pending st' = [] /\
      sockets s' !! handle st = Some (inl (abort k)) /\ credit_closed s' id.

Definition flow_same s s' (id : Z) : Prop :=
  tcp_conns s' !! id = tcp_conns s !! id /\
  (forall st, tcp_conns s !! id = Some st -> sockets s' !! handle st = sockets s !! handle st) /\
  credits s' !! id = credits s !! id.

Lemma abort_flow_spec s id :
  stack_ok s ->
  exists s', abort_flow s id = Done s' /\ stack_ok s' /\ flows_step s s' /\
    flow_reset s s' id /\ forall i, i <> id -> flow_same s s' i.
Proof.
  intros Hok. unfold abort_flow. destruct (tcp_conns s !! id) as [st|] eqn:Hst.
  2:{ exists s. split_and!; try done; [apply flows_step_refl|]. intros st'. by rewrite Hst. }
  destruct (tcp_live s Hok id st Hst) as [k Hk]. unfold get_tcp. rewrite Hk. cbn [mbind outcome_bind].
  set (c := FlowCredit.close (default FlowCredit.new (credits s !! id))).
  destruct (put_flow s id st (set_pending st []) (abort k) c (responses s) Hok Hst eq_refl) as [Hok' Hf].
  eexists. split; [done|]. split; [done|]. split_and!.
  - apply (flows_step_one s _ id c); [done|done| |done|].
    + intros i Hne. by rewrite Hf, decide_False.
    + rewrite (flow_taken_live s id st k Hst Hk), Hf, decide_True by done. right. split; [done|].
      unfold parts_taken. cbn. rewrite abort_accepted, app_nil_r. by apply prefix_app_r.
  - intros st' Hst'. rewrite Hst in Hst'. injection Hst' as <-.
    exists (set_pending st []), k. cbn. rewrite !lookup_insert_eq.
    split_and!; try done. exists c. cbn. by rewrite lookup_insert_eq.
  - intros i Hne. unfold flow_same. cbn. rewrite !lookup_insert_ne by done. split_and!; try done.
    intros sti Hi. rewrite lookup_insert_ne; [done|]. intros Heq. apply Hne. by eapply (tcp_inj s Hok).
Qed.

Lemma flow_same_trans s1 s2 s3 id : flow_same s1 s2 id -> flow_same s2 s3 id -> flow_same s1 s3 id.
Proof.
  intros (A1 & B1 & C1) (A2 & B2 & C2). split_and!; [congruence| |congruence].
  intros st Hst. rewrite B2 by congruence. by apply B1.
Qed.

Lemma flow_reset_same s1 s2 s3 id : flow_reset s1 s2 id -> flow_same s2 s3 id -> flow_reset s1 s3 id.
Proof.
  intros Hr (A & B & C) st Hst.
  destruct (Hr st Hst) as (st' & k & Hst' & Hh & Hp & Hk & Hc).
  exists st', k. rewrite A, <- Hh, (B st' Hst'), Hh. split_and!; try done.
  unfold credit_closed in *. by rewrite C.
Qed.

Lemma same_flow_reset s1 s2 s3 id : flow_same s1 s2 id -> flow_reset s2 s3 id -> flow_reset s1 s3 id.
Proof.
  intros (A & B & C) Hr st Hst. apply Hr. congruence.
Qed.

Lemma flow_reset_twice s1 s2 s3 id : flow_reset s1 s2 id -> flow_reset s2 s3 id -> flow_reset s1 s3 id.
Proof.
  intros H12 H23 st Hst.
  destruct (H12 st Hst) as (st2 & k2 & Hst2 & Hh2 & _).
  destruct (H23 st2 Hst2) as (st3 & k3 & Hst3 & Hh3 & Hp3 & Hk3 & Hc).
  exists st3, k3. rewrite <- Hh2. done.
Qed.

Lemma abort_flows_spec ids : forall s b,
  stack_ok s -> backlog_inv b -> Backlog.sum_bytes (Backlog.queue b) <= u64_max ->
  exists s' b', abort_flows ids s b = Done (s', b') /\ stack_ok s' /\ flows_step s s' /\
    backlog_inv b' /\ Backlog.sum_bytes (Backlog.queue b') <= Backlog.sum_bytes (Backlog.queue b) /\
    Backlog.queue b' = filter (fun d => data_in_id d ∉ ids) (Backlog.queue b) /\
    (forall id, id ∈ ids -> flow_reset s s' id) /\ (forall id, id ∉ ids -> flow_same s s' id).
Proof.
  induction ids as [|id ids IH]; intros s b Hok Hb Hsum; cbn [abort_flows].
  { exists s, b. split_and!; try done; [apply flows_step_refl| |set_solver].
    clear. induction (Backlog.queue b) as [|d q IH]; [done|].
    rewrite filter_cons_True by set_solver. by f_equal. }
  destruct (abort_flow_spec s id Hok) as (s1 & -> & Hok1 & Hf1 & Hr1 & Hs1). cbn [mbind outcome_bind].
  pose proof (purge_inv b id Hb Hsum) as Hb1.
  assert (Hsum1 : Backlog.sum_bytes (Backlog.queue (Backlog.purge b id)) <=
                  Backlog.sum_bytes (Backlog.queue b)) by apply purge_sum.
  destruct (IH s1 (Backlog.purge b id) Hok1 Hb1 ltac:(lia))
    as (s2 & b2 & -> & Hok2 & Hf2 & Hb2 & Hsum2 & Hq2 & Hr2 & Hs2).
  exists s2, b2. split_and!; try done.
  - by eapply flows_step_trans.
  - lia.
  - rewrite Hq2. cbn [Backlog.queue Backlog.purge]. rewrite list_filter_filter.
    apply list_filter_iff. intros d. rewrite not_elem_of_cons. tauto.
  - intros i Hi. destruct (decide (i ∈ ids)) as [Hin|Hout], (decide (i = id)) as [->|Hne].
    + eapply flow_reset_twice; eauto.
    + eapply same_flow_reset; eauto.
    + eapply flow_reset_same; eauto.
    + set_solver.
  - intros i Hi. apply not_elem_of_cons in Hi as [Hne Hi]. eapply flow_same_trans; eauto.
Qed.
End facts.
