(* ===== verification/Run.v ===== *)
(** * The netstack task (src/native/aether/aether/src/netstack.rs, run)

    One pass of the loop: poll the interface, service every flow, flush the
    device, retry the backlog, reset dead flows, then drain the three queues
    with a budget each.  The task's own counters are [run_state]; logging is
    left out.  [poll] is smoltcp's. *)

From stdpp Require Import base list option gmap.
From Stdlib Require Import ZArith Lia.
From S2P Require Import Prelude RustStr Net Error Channel F64 Sysprofile Backlog FlowCredit Device Netstack Service Sink ServiceFacts.

Definition STARVATION_REPORT_AFTER : Z := secs 2.
Definition STARVATION_REPORT_GAP : Z := secs 10.
Definition STARVATION_MIN_INBOUND : Z := 32.
Definition TELEMETRY_INTERVAL : Z := secs 15.

Section run.
Context {K U Q V : Type} `{Smoltcp K U} `{AppQueue Q (list Z)} `{AppQueue V (SocketAddr * list Z)}.
Context {RC RD RI TO : Type} `{Receiver RC Cmd} `{Receiver RD DataIn} `{Receiver RI (list Z)}
  `{Sender TO (list Z)}.
Abbreviation stack := (@NetStack K U Q V).
Context (t : Tuning).

(** [iface.poll], and whether it panicked; [iface.poll_delay]. *)
Context (poll : stack -> bool * stack) (poll_delay : stack -> option Z).

(** What a pass reads of its surroundings: the clock, the order hash tables
    are iterated in, and which callers gave up. *)
Record pass_env := mkEnv {
  svc_now : Z;
  svc_clk : Z -> nat -> Z;
  resp_closed : Z -> bool;
  tcp_order : list Z;
  udp_order : list Z;
  stall_order : list Z;
  blocked_order : list Z;
  drain_clk : Z -> Z;
  wedge_clk : Z -> Z;
  cmd_clk : nat -> nat -> Z;
  app_clk : nat -> Z;
}.

Record run_state := mkRun {
  net : stack;
  backlog : Backlog.t;
  prefer_app_data : bool;
  tx_dropped : Z;
  next_drop_report : Z;
  last_app_progress : Z;
  last_starvation_report : Z;
  last_telemetry : Z;
  win_in : Z;
  win_app : Z;
  win_dropped : Z;
}.

Record queues := mkQueues { cmd_rx : RC; data_in_rx : RD; inbound_rx : RI; outbound_tx : TO }.

(** A panic inside [poll] is caught and the device's queues are emptied. *)
Definition poll_iface (s : stack) : stack :=
  let '(panicked, s) := poll s in
  if panicked : bool then
    let d := device s in
    with_device s (StackDevice.mk [] [] (StackDevice.mtu d) (StackDevice.tx_stalls d)
                     (StackDevice.tx_shed d) (StackDevice.tx_peak d))
  else s.

(** [drain_cmds]: the n-th command of the pass reads the clocks [clk n]. *)
Fixpoint drain_cmds (budget : nat) (moved : nat) (clk : nat -> nat -> Z) (s : stack) (rx : RC)
    : Z * bool * stack * RC :=
  match budget with
  | O => (Z.of_nat moved, false, s, rx)
  | S budget =>
      match try_recv rx with
      | (Received cmd, rx) => drain_cmds budget (S moved) clk (handle_cmd t (clk moved) s cmd) rx
      | (RecvEmpty, rx) => (Z.of_nat moved, false, s, rx)
      | (RecvDisconnected, rx) => (Z.of_nat moved, true, s, rx)
      end
  end.

Definition drain_net (s : stack) (rx : RI) : Z * bool * stack * RI :=
  let '(n, done_, d, rx) := drain_inbound MAX_INGEST_PER_TICK 0 (device s) rx in
  (n, done_, with_device s d, rx).

(** The [for pass in 0..2]: which direction comes first alternates. *)
Definition drain_both (prefer : bool) (s : stack) (b : Backlog.t) (in_rx : RI) (data_rx : RD)
    : outcome False (Z * Z * bool * stack * Backlog.t * RI * RD) :=
  if negb prefer then
    '(na, ca, s, b, data_rx) ← drain_app_data (H := stack_sink t) MAX_APP_INGEST_PER_TICK 0 s b data_rx;
    let '(ni, ci, s, in_rx) := drain_net s in_rx in
    Done (ni, na, ca || ci, s, b, in_rx, data_rx)
  else
    let '(ni, ci, s, in_rx) := drain_net s in_rx in
    '(na, ca, s, b, data_rx) ← drain_app_data (H := stack_sink t) MAX_APP_INGEST_PER_TICK 0 s b data_rx;
    Done (ni, na, ci || ca, s, b, in_rx, data_rx).

(** The telemetry block: the window maxima are reported and start over. *)
Definition reset_peaks (st : @TcpState Q) : @TcpState Q :=
  let u := uplink st in
  set_drain st (drain st)
    (mkUplink (rate_mark u) (rate_base u) (drain_rate u) (uplink_budget u) 0 0 0
       (stall_count u) (stall_mark u)).

Definition telemetry (now : Z) (rs : run_state) : run_state :=
  let s := net rs in
  let d := device s in
  let s := with_flows s (sockets s) (reset_peaks <$> tcp_conns s) (udp_conns s) (credits s) (responses s) in
  let s := with_device s (StackDevice.mk (StackDevice.rx d) (StackDevice.tx d) (StackDevice.mtu d) 0
                            (StackDevice.tx_shed d) (zlen (StackDevice.tx d))) in
  mkRun s (backlog rs) (prefer_app_data rs) (tx_dropped rs) (next_drop_report rs)
    (last_app_progress rs) (last_starvation_report rs) now 0 0 0.

Definition telemetry_if_due (e : pass_env) (rs : run_state) : run_state :=
  if TELEMETRY_INTERVAL <=? elapsed (app_clk e 3) (last_telemetry rs)
  then telemetry (app_clk e 4) rs else rs.

(** When the app direction last moved, and when its starvation was last
    reported. *)
Definition starvation_clocks (e : pass_env) (rs : run_state) (moved_in moved_app : Z) (b : Backlog.t)
    : Z * Z :=
  if 0 <? moved_app then (app_clk e 0, last_starvation_report rs)
  else if (STARVATION_MIN_INBOUND <=? moved_in) && negb (Backlog.is_empty b) &&
          (STARVATION_REPORT_AFTER <=? elapsed (app_clk e 0) (last_app_progress rs)) &&
          (STARVATION_REPORT_GAP <=? elapsed (app_clk e 1) (last_starvation_report rs))
       then (last_app_progress rs, app_clk e 2)
       else (last_app_progress rs, last_starvation_report rs).

Inductive pass_result :=
| Returned
| Yield (rs : run_state) (qs : queues)
| Park (rs : run_state) (qs : queues) (delay : option Z).

Definition park_delay (busy : bool) (s : stack) : option Z :=
  if busy then Some BACKPRESSURE_RETRY
  else if bool_decide (tcp_conns s = ∅) && bool_decide (udp_conns s = ∅) then poll_delay s
  else Some (match poll_delay s with Some d => Z.min d MAX_IDLE_TICK | None => MAX_IDLE_TICK end).

Definition run_pass (e : pass_env) (rs : run_state) (qs : queues) : outcome False pass_result :=
  let s := poll_iface (net rs) in
  '(s, tcp_busy) ← service_tcp t (resp_closed e) (svc_now e) (svc_clk e) (tcp_order e) s;
  '(s, udp_busy) ← service_udp (udp_order e) s;
  let '(dropped, tx_busy, d, out_tx) := flush_tx (device s) (outbound_tx qs) in
  let s := with_device s d in
  let tx_dropped := if 0 <? dropped then saturating_add (tx_dropped rs) dropped else tx_dropped rs in
  let next_drop_report :=
    if (0 <? dropped) && (next_drop_report rs <=? tx_dropped)
    then tx_dropped + DROP_REPORT_STEP else next_drop_report rs in
  '(s, b) ← drain_backlog (H := stack_sink t) s (backlog rs);
  '(s, b) ← reap_wedged (drain_clk e) (wedge_clk e) (stall_order e) (blocked_order e) s b;
  '(moved_in, moved_app, closed1, s, b, in_rx, data_rx) ←
    drain_both (prefer_app_data rs) s b (inbound_rx qs) (data_in_rx qs);
  let '(moved_cmd, closed2, s, crx) := drain_cmds MAX_CMD_PER_TICK 0 (cmd_clk e) s (cmd_rx qs) in
  if closed1 || closed2 then Done Returned
  else
    let '(progress, starvation) := starvation_clocks e rs moved_in moved_app b in
    let rs' := mkRun s b (negb (prefer_app_data rs)) tx_dropped next_drop_report progress starvation
                 (last_telemetry rs) (saturating_add (win_in rs) moved_in)
                 (saturating_add (win_app rs) moved_app) (saturating_add (win_dropped rs) dropped) in
    let rs' := telemetry_if_due e rs' in
    let qs' := mkQueues crx data_rx in_rx out_tx in
    let busy := tcp_busy || udp_busy || tx_busy || negb (Backlog.is_empty b) in
    if (0 <? moved_in) || (0 <? moved_app) || (0 <? moved_cmd) then Done (Yield rs' qs')
    else Done (Park rs' qs' (park_delay busy (net rs'))).

(** The arms of the [select!] a parked task waits in. *)
Definition wake_inbound (rs : run_state) (pkt : list Z) : run_state :=
  mkRun (with_device (net rs) (StackDevice.push_rx (device (net rs)) pkt)) (backlog rs)
    (prefer_app_data rs) (tx_dropped rs) (next_drop_report rs) (last_app_progress rs)
    (last_starvation_report rs) (last_telemetry rs) (win_in rs) (win_app rs) (win_dropped rs).
Definition wake_cmd (clk : nat -> Z) (rs : run_state) (cmd : Cmd) : run_state :=
  mkRun (handle_cmd t clk (net rs) cmd) (backlog rs)
    (prefer_app_data rs) (tx_dropped rs) (next_drop_report rs) (last_app_progress rs)
    (last_starvation_report rs) (last_telemetry rs) (win_in rs) (win_app rs) (win_dropped rs).
(** The arm is off, [None], while the backlog is full. *)
Definition wake_data (now : Z) (rs : run_state) (d : DataIn) : option (outcome False run_state) :=
  if Backlog.bytes (backlog rs) <? MAX_BACKLOG_BYTES then Some (
  '(s, b) ← ingest (H := stack_sink t) (net rs) (backlog rs) d;
  Done (mkRun s b (prefer_app_data rs) (tx_dropped rs) (next_drop_report rs) now
          (last_starvation_report rs) (last_telemetry rs) (win_in rs) (win_app rs) (win_dropped rs)))
  else None.
End run.
