(* ===== verification/RunFacts.v ===== *)
(** * Correctness of the netstack task

    A whole pass keeps the stack sound, never loses or reorders a byte of a
    flow that lives, and serves every queue. *)

From stdpp Require Import base list option gmap.
From Stdlib Require Import ZArith Lia.
From S2P Require Import Prelude RustStr Net Error Channel F64 Sysprofile Backlog FlowCredit Device Netstack Service Sink ServiceFacts Run.

(** What the task relies on of [poll]: it neither adds nor removes sockets
    nor takes app bytes, and the engine's own tables are not its business. *)
Class PollLaws {K U Q V} `{Smoltcp K U} (poll : @NetStack K U Q V -> bool * @NetStack K U Q V) := {
  poll_tables s :
    let s' := (poll s).2 in
    tcp_conns s' = tcp_conns s /\ udp_conns s' = udp_conns s /\ next_id s' = next_id s /\
    credits s' = credits s;
  poll_sockets s h :
    match sockets s !! h, sockets (poll s).2 !! h with
    | Some (inl k), Some (inl k') => accepted k' = accepted k
    | Some (inr _), Some (inr _) => True
    | None, None => True
    | _, _ => False
    end;
}.

Section facts.
Context {K U Q V : Type} `{SmoltcpLaws K U} `{AppQueue Q (list Z)} `{AppQueue V (SocketAddr * list Z)}.
Context (t : Tuning).
Abbreviation stack := (@NetStack K U Q V).
Implicit Types (s : stack).

(** A change that leaves tables, sockets and credits alone. *)
Lemma same_tables s s' :
  tcp_conns s' = tcp_conns s -> udp_conns s' = udp_conns s -> sockets s' = sockets s ->
  next_id s' = next_id s -> credits s' = credits s -> stack_ok s ->
  stack_ok s' /\ flows_step s s'.
Proof.
  intros Ht Hu Hs Hn Hc Hok. split.
  - destruct Hok. split; rewrite ?Ht, ?Hu, ?Hs, ?Hn; auto.
  - apply flows_step_same; try done. intros i. unfold flow_taken. by rewrite Ht, Hs.
Qed.

Lemma poll_step poll `{!PollLaws poll} s :
  stack_ok s -> stack_ok (poll_iface poll s) /\ flows_step s (poll_iface poll s).
Proof.
  intros Hok. pose proof (poll_tables s) as (Ht & Hu & Hn & Hc). pose proof (poll_sockets s) as Hs.
  unfold poll_iface. destruct (poll s) as [panicked s']. cbn in *.
  assert (Hp : stack_ok s' /\ flows_step s s').
  { split.
    - split; rewrite ?Ht, ?Hu, ?Hn; try apply Hok; intros id st Hst; specialize (Hs (handle st)) || idtac.
      + destruct (tcp_live s Hok id st Hst) as [k Hk]. rewrite Hk in Hs.
        destruct (sockets s' !! handle st) as [[k'|]|]; try done. eauto.
      + destruct (udp_live s Hok id st Hst) as [u Hu0]. specialize (Hs (udp_handle st)).
        rewrite Hu0 in Hs. destruct (sockets s' !! udp_handle st) as [[|u']|]; try done. eauto.
    - apply flows_step_same; try done. intros i. unfold flow_taken. rewrite Ht.
      destruct (tcp_conns s !! i) as [st|]; [|done]. specialize (Hs (handle st)).
      destruct (sockets s !! handle st) as [[k|]|], (sockets s' !! handle st) as [[k'|]|]; try done.
      by rewrite Hs. }
  destruct panicked; [|done]. destruct Hp as [Hok' Hf].
  destruct (same_tables s' (with_device s' (StackDevice.mk [] [] (StackDevice.mtu (device s'))
    (StackDevice.tx_stalls (device s')) (StackDevice.tx_shed (device s'))
    (StackDevice.tx_peak (device s')))) eq_refl eq_refl eq_refl eq_refl eq_refl Hok') as [Hok2 Hf2].
  split; [done|]. by eapply flows_step_trans.
Qed.

Lemma try_handle_credits s d back s' :
  try_handle t s d = Done (back, s') -> credits s' = credits s /\ next_id s' = next_id s.
Proof.
  destruct d; cbn [try_handle]; [destruct (tcp_conns s !! id)|destruct (tcp_conns s !! id)
    |destruct (udp_conns s !! id) as [u|]|destruct (udp_conns s !! id) as [u|]];
    try (by intros [= _ <-]).
  - destruct (_ <=? _); [by intros [= _ <-]|]. destruct (_ <=? _); [by intros [= _ <-]|].
    destruct (slice data 0 _); try done. cbn [mbind outcome_bind].
    destruct (slice data _ _); try done. by intros [= _ <-].
  - destruct (get_udp _ _); try done. by intros [= _ <-].
  - destruct (remove_socket _ _); try done. by intros [= _ <-].
Qed.

(** New flows are numbered above all others, so a command leaves the flows
    there are, and every credit below, as they were. *)
Definition cmd_step s s' : Prop :=
  next_id s <= next_id s' /\
  forall i, i < next_id s -> flow_taken s' i = flow_taken s i /\ credits s' !! i = credits s !! i.

Lemma cmd_step_refl s : cmd_step s s.
Proof. split; [lia|done]. Qed.

Lemma cmd_step_trans s1 s2 s3 : cmd_step s1 s2 -> cmd_step s2 s3 -> cmd_step s1 s3.
Proof.
  intros [N1 F1] [N2 F2]. split; [lia|]. intros i Hi. destruct (F1 i Hi) as [A1 B1].
  destruct (F2 i ltac:(lia)) as [A2 B2]. split; congruence.
Qed.

Lemma open_tcp_spec clk s dst resp :
  stack_ok s -> stack_ok (open_tcp t clk s dst resp) /\ cmd_step s (open_tcp t clk s dst resp).
Proof.
  intros Hok. unfold open_tcp. cbn [alloc_port].
  destruct (tcp_connect _ _ _ _) as [[e|] k].
  { split; [by destruct Hok|]. split; [cbn; lia|done]. }
  pose proof (fresh_handle_free (sockets s)) as Hfree. set (h := fresh_handle (sockets s)) in *.
  assert (Hh : forall i st, tcp_conns s !! i = Some st -> handle st <> h)
    by (intros i st Hi <-; destruct (tcp_live s Hok i st Hi); congruence).
  assert (Hu : forall i st, udp_conns s !! i = Some st -> udp_handle st <> h)
    by (intros i st Hi <-; destruct (udp_live s Hok i st Hi); congruence).
  split.
  - split; cbn.
    + intros i st Hi. apply lookup_insert_Some in Hi as [[_ <-]|[_ Hi]]; cbn.
      * rewrite lookup_insert_eq. eauto.
      * rewrite lookup_insert_ne; [by apply (tcp_live s Hok i)|]. by apply not_eq_sym, (Hh i).
    + intros i st Hi. rewrite lookup_insert_ne; [by apply (udp_live s Hok i)|]. by apply not_eq_sym, (Hu i).
    + intros i j sti stj Hi Hj Heq.
      apply lookup_insert_Some in Hi as [[Ei <-]|[Ni Hi]];
      apply lookup_insert_Some in Hj as [[Ej <-]|[Nj Hj]]; try congruence; cbn in Heq.
      * by destruct (Hh j stj).
      * by destruct (Hh i sti).
      * by eapply (tcp_inj s Hok).
    + apply (udp_inj s Hok).
    + intros i st Hi. apply lookup_insert_Some in Hi as [[<- _]|[_ Hi]]; [lia|].
      pose proof (tcp_ids s Hok i st Hi). lia.
    + intros i st Hi. pose proof (udp_ids s Hok i st Hi). lia.
  - split; cbn; [lia|]. intros i Hi. rewrite !lookup_insert_ne by lia. split; [|done].
    unfold flow_taken. cbn. rewrite lookup_insert_ne by lia.
    destruct (tcp_conns s !! i) as [st|] eqn:E; [|done].
    rewrite lookup_insert_ne; [done|]. by apply not_eq_sym, (Hh i).
Qed.

Lemma open_udp_spec s resp :
  stack_ok s -> stack_ok (open_udp t s resp) /\ cmd_step s (open_udp t s resp).
Proof.
  intros Hok. unfold open_udp. cbn [alloc_port].
  destruct (udp_bind _ _) as [[e|] u].
  { split; [by destruct Hok|]. split; [cbn; lia|done]. }
  pose proof (fresh_handle_free (sockets s)) as Hfree. set (h := fresh_handle (sockets s)) in *.
  assert (Hh : forall i st, tcp_conns s !! i = Some st -> handle st <> h)
    by (intros i st Hi <-; destruct (tcp_live s Hok i st Hi); congruence).
  assert (Hu : forall i st, udp_conns s !! i = Some st -> udp_handle st <> h)
    by (intros i st Hi <-; destruct (udp_live s Hok i st Hi); congruence).
  split.
  - split; cbn.
    + intros i st Hi. rewrite lookup_insert_ne; [by apply (tcp_live s Hok i)|]. by apply not_eq_sym, (Hh i).
    + intros i st Hi. apply lookup_insert_Some in Hi as [[_ <-]|[_ Hi]]; cbn.
      * rewrite lookup_insert_eq. eauto.
      * rewrite lookup_insert_ne; [by apply (udp_live s Hok i)|]. by apply not_eq_sym, (Hu i).
    + apply (tcp_inj s Hok).
    + intros i j sti stj Hi Hj Heq.
      apply lookup_insert_Some in Hi as [[Ei <-]|[Ni Hi]];
      apply lookup_insert_Some in Hj as [[Ej <-]|[Nj Hj]]; try congruence; cbn in Heq.
      * by destruct (Hu j stj).
      * by destruct (Hu i sti).
      * by eapply (udp_inj s Hok).
    + intros i st Hi. pose proof (tcp_ids s Hok i st Hi). lia.
    + intros i st Hi. apply lookup_insert_Some in Hi as [[<- _]|[_ Hi]]; [lia|].
      pose proof (udp_ids s Hok i st Hi). lia.
  - split; cbn; [lia|]. intros i Hi. split; [|done].
    unfold flow_taken. cbn. destruct (tcp_conns s !! i) as [st|] eqn:E; [|done].
    rewrite lookup_insert_ne; [done|]. by apply not_eq_sym, (Hh i).
Qed.

Lemma handle_cmd_spec clk s cmd :
  stack_ok s -> stack_ok (handle_cmd t clk s cmd) /\ cmd_step s (handle_cmd t clk s cmd).
Proof.
  intros Hok. destruct cmd as [dst resp|resp|v4 v6]; cbn [handle_cmd].
  - by apply open_tcp_spec.
  - by apply open_udp_spec.
  - destruct (current_addrs (iface s)) as [c4 c6]. split; [by destruct Hok|].
    split; cbn; [lia|]. done.
Qed.

Lemma drain_cmds_spec {RC} `{ReceiverLaws RC Cmd} budget : forall moved clk s (rx : RC),
  stack_ok s ->
  let '(n, c, s', rx') := drain_cmds t budget moved clk s rx in
  stack_ok s' /\ cmd_step s s' /\ rx_queue rx' = drop budget (rx_queue rx) /\
  n = Z.of_nat (moved + Nat.min budget (length (rx_queue rx))).
Proof.
  induction budget as [|budget IH]; intros moved clk s rx Hok; cbn [drain_cmds].
  { rewrite Nat.min_0_l, Nat.add_0_r. split_and!; auto using cmd_step_refl. }
  destruct (try_recv rx) as [[cmd| |] rx1] eqn:E.
  2:{ apply try_recv_empty in E as [E1 E2]. rewrite E1, E2. cbn.
      rewrite Nat.add_0_r. split_and!; auto using cmd_step_refl. }
  2:{ apply try_recv_gone in E as [E1 E2]. rewrite E1, E2. cbn.
      rewrite Nat.add_0_r. split_and!; auto using cmd_step_refl. }
  apply try_recv_got in E. destruct (handle_cmd_spec (clk moved) s cmd Hok) as [Hok1 Hc1].
  specialize (IH (S moved) clk (handle_cmd t (clk moved) s cmd) rx1 Hok1).
  destruct (drain_cmds t budget (S moved) clk _ rx1) as [[[n c] s'] rx'].
  destruct IH as (Hok' & Hc & Hq & Hn). split_and!; [done|by eapply cmd_step_trans| |].
  - by rewrite Hq, E.
  - rewrite Hn, E. cbn [length]. f_equal. lia.
Qed.

Lemma drain_inbound_spec {RI} `{ReceiverLaws RI (list Z)} budget : forall moved d (rx : RI),
  let '(n, c, d', rx') := drain_inbound budget moved d rx in
  rx_queue rx' = drop budget (rx_queue rx) /\
  StackDevice.rx d' = StackDevice.rx d ++ take budget (rx_queue rx) /\
  n = moved + Z.of_nat (Nat.min budget (length (rx_queue rx))).
Proof.
  induction budget as [|budget IH]; intros moved d rx; cbn [drain_inbound].
  { rewrite take_0, app_nil_r. cbn. split_and!; done || lia. }
  destruct (try_recv rx) as [[pkt| |] rx1] eqn:E.
  2:{ apply try_recv_empty in E as [E1 E2]. rewrite E1, E2. cbn. rewrite app_nil_r. split_and!; done || lia. }
  2:{ apply try_recv_gone in E as [E1 E2]. rewrite E1, E2. cbn. rewrite app_nil_r. split_and!; done || lia. }
  apply try_recv_got in E. specialize (IH (moved + 1) (StackDevice.push_rx d pkt) rx1).
  destruct (drain_inbound budget (moved + 1) _ rx1) as [[[n c] d'] rx'].
  destruct IH as (Hq & Hr & Hn). rewrite E. cbn [drop take length]. split_and!; [done| |].
  - rewrite Hr. cbn. by rewrite <- app_assoc.
  - rewrite Hn. lia.
Qed.

(** *** Reaping *)

Lemma flow_taken_conn s id l : flow_taken s id = Some l -> exists st, tcp_conns s !! id = Some st.
Proof. unfold flow_taken. destruct (tcp_conns s !! id); eauto. done. Qed.

Lemma abort_flows_stream ids s b :
  stack_ok s -> backlog_inv b -> Backlog.sum_bytes (Backlog.queue b) <= u64_max ->
  exists s' b', abort_flows ids s b = Done (s', b') /\ stack_ok s' /\ flows_step s s' /\
    backlog_inv b' /\ Backlog.sum_bytes (Backlog.queue b') <= u64_max /\
    forall id l, flow_taken s id = Some l ->
      credit_closed s' id \/
      (flow_taken s' id = Some l /\ queued_bytes id (Backlog.queue b') = queued_bytes id (Backlog.queue b)).
Proof.
  intros Hok Hb Hsum.
  destruct (abort_flows_spec ids s b Hok Hb Hsum)
    as (s' & b' & Hr & Hok' & Hf & Hb' & Hsum' & Hq & Hin & Hout).
  exists s', b'. split_and!; try done; [lia|]. intros id l Hl.
  destruct (flow_taken_conn s id l Hl) as [st Hst].
  destruct (decide (id ∈ ids)) as [Hi|Hi].
  - left. destruct (Hin id Hi st Hst) as (st' & k & _ & _ & _ & _ & Hc). done.
  - right. rewrite Hq, queued_bytes_filter by done. split; [|done].
    destruct (Hout id Hi) as (A & B & _). unfold flow_taken in *. rewrite A, Hst in *. by rewrite B.
Qed.

Lemma reap_wedged_stream nd nw ids blocked s b :
  stack_ok s -> backlog_inv b -> Backlog.sum_bytes (Backlog.queue b) <= u64_max ->
  exists s' b', reap_wedged nd nw ids blocked s b = Done (s', b') /\ stack_ok s' /\ flows_step s s' /\
    backlog_inv b' /\
    forall id l, flow_taken s id = Some l ->
      credit_closed s' id \/
      (flow_taken s' id = Some l /\ queued_bytes id (Backlog.queue b') = queued_bytes id (Backlog.queue b)).
Proof.
  intros Hok Hb Hsum. unfold reap_wedged. cbv zeta.
  set (stalled := List.filter _ ids).
  destruct (abort_flows_stream stalled s b Hok Hb Hsum) as (s1 & b1 & -> & Hok1 & Hf1 & Hb1 & Hs1 & Hq1).
  cbn [mbind outcome_bind]. case_bool_decide; [eauto 10|].
  set (wedged := List.filter _ blocked).
  destruct (abort_flows_stream wedged s1 b1 Hok1 Hb1 Hs1) as (s2 & b2 & -> & Hok2 & Hf2 & Hb2 & Hs2 & Hq2).
  exists s2, b2. split_and!; try done; [by eapply flows_step_trans|]. intros id l Hl.
  destruct (Hq1 id l Hl) as [Hc|[Hl1 He1]]; [left; by apply Hf2|].
  destruct (Hq2 id l Hl1) as [Hc|[Hl2 He2]]; [by left|right; split; congruence].
Qed.
End facts.

Section pass.
Context {K U Q V : Type} `{SmoltcpLaws K U} `{AppQueue Q (list Z)} `{AppQueue V (SocketAddr * list Z)}.
Context {RC RD RI TO : Type} `{ReceiverLaws RC Cmd} `{ReceiverLaws RD DataIn}
  `{ReceiverLaws RI (list Z)} `{Sender TO (list Z)}.
Abbreviation stack := (@NetStack K U Q V).
Context (t : Tuning) (poll : stack -> bool * stack) `{!PollLaws poll} (poll_delay : stack -> option Z).

(** What a pass did with the queues and with one flow. *)
Definition pass_stream (rs rs' : @run_state K U Q V) (msgs : list DataIn) : Prop :=
  forall id l, flow_taken (net rs) id = Some l ->
    credit_closed (net rs') id \/
    exists l', flow_taken (net rs') id = Some l' /\
      l' ++ queued_bytes id (Backlog.queue (backlog rs')) =
      l ++ queued_bytes id (Backlog.queue (backlog rs)) ++ queued_bytes id msgs.

Definition pass_queues (qs qs' : @queues RC RD RI TO) (b' : Backlog.t) (msgs : list DataIn) : Prop :=
  rx_queue (inbound_rx qs') = drop MAX_INGEST_PER_TICK (rx_queue (inbound_rx qs)) /\
  rx_queue (cmd_rx qs') = drop MAX_CMD_PER_TICK (rx_queue (cmd_rx qs)) /\
  rx_queue (data_in_rx qs) = msgs ++ rx_queue (data_in_rx qs') /\
  (length msgs <= MAX_APP_INGEST_PER_TICK)%nat /\
  (zlen msgs < Z.of_nat MAX_APP_INGEST_PER_TICK -> Backlog.bytes b' < MAX_BACKLOG_BYTES ->
   rx_queue (data_in_rx qs') = []).

(** The two directions of the drain, in either order. *)
Lemma drain_both_spec prefer (s : stack) b (in_rx : RI) (data_rx : RD) :
  stack_ok s -> backlog_inv b ->
  exists ni na c s' b' in_rx' data_rx' msgs,
    drain_both t prefer s b in_rx data_rx = Done (ni, na, c, s', b', in_rx', data_rx') /\
    stack_ok s' /\ backlog_inv b' /\ credits s' = credits s /\ next_id s' = next_id s /\
    rx_queue in_rx' = drop MAX_INGEST_PER_TICK (rx_queue in_rx) /\
    rx_queue data_rx = msgs ++ rx_queue data_rx' /\ (length msgs <= MAX_APP_INGEST_PER_TICK)%nat /\
    (zlen msgs < Z.of_nat MAX_APP_INGEST_PER_TICK -> Backlog.bytes b' < MAX_BACKLOG_BYTES ->
     rx_queue data_rx' = []) /\
    forall id l, flow_taken s id = Some l -> exists k,
      flow_taken s' id = Some (l ++ k) /\
      k ++ queued_bytes id (Backlog.queue b') =
      queued_bytes id (Backlog.queue b) ++ queued_bytes id msgs.
Proof.
  intros Hok Hb. unfold drain_both.
  assert (Hdev : forall (s : stack) d, stack_ok s -> stack_ok (with_device s d)) by (by intros ? ? []).
  assert (Happ : forall s0 : stack, stack_ok s0 -> exists na c s' b' data_rx' msgs,
    drain_app_data (H := stack_sink t) MAX_APP_INGEST_PER_TICK 0 s0 b data_rx = Done (na, c, s', b', data_rx') /\
    stack_ok s' /\ backlog_inv b' /\ credits s' = credits s0 /\ next_id s' = next_id s0 /\
    rx_queue data_rx = msgs ++ rx_queue data_rx' /\ (length msgs <= MAX_APP_INGEST_PER_TICK)%nat /\
    (zlen msgs < Z.of_nat MAX_APP_INGEST_PER_TICK -> Backlog.bytes b' < MAX_BACKLOG_BYTES ->
     rx_queue data_rx' = []) /\
    forall id l, flow_taken s0 id = Some l -> exists k,
      flow_taken s' id = Some (l ++ k) /\
      k ++ queued_bytes id (Backlog.queue b') =
      queued_bytes id (Backlog.queue b) ++ queued_bytes id msgs).
  { intros s0 Hok0.
    destruct (drain_app_data_spec (H := stack_sink t) (H0 := stack_sink_laws t)
      MAX_APP_INGEST_PER_TICK 0 s0 b data_rx Hok0 Hb)
      as (na & c & s' & b' & rx' & msgs & Hd & Hok' & Hb' & Hq & Hn & Hlen & _ & He & Hf).
    exists na, c, s', b', rx', msgs. rewrite Hd. split_and!; try done.
    - refine (drain_app_data_preserves (H := stack_sink t) (fun x => credits x = credits s0)
        _ _ _ _ _ _ _ _ _ _ _ _ Hd); [|done].
      cbv beta. intros x d bk x' Hx Ht. destruct (try_handle_credits t x d bk x' Ht). congruence.
    - refine (drain_app_data_preserves (H := stack_sink t) (fun x => next_id x = next_id s0)
        _ _ _ _ _ _ _ _ _ _ _ _ Hd); [|done].
      cbv beta. intros x d bk x' Hx Ht. destruct (try_handle_credits t x d bk x' Ht). congruence.
    - intros Hlt Hby. apply He; [lia|done]. }
  destruct prefer; cbn [negb]; unfold drain_net.
  - pose proof (drain_inbound_spec MAX_INGEST_PER_TICK 0 (device s) in_rx) as Hin.
    destruct (drain_inbound _ _ _ in_rx) as [[[ni ci] d] in_rx']. destruct Hin as (Hq & _ & _).
    destruct (Happ (with_device s d) (Hdev s d Hok)) as (na & c & s' & b' & rx' & msgs & -> & Hrest).
    cbn [mbind outcome_bind]. destruct Hrest as (Hok' & Hb' & Hc & Hn & Hqd & Hl & He & Hf).
    exists ni, na, (ci || c), s', b', in_rx', rx', msgs. split_and!; try done.
  - destruct (Happ s Hok) as (na & c & s' & b' & rx' & msgs & -> & Hok' & Hb' & Hc & Hn & Hqd & Hl & He & Hf).
    cbn [mbind outcome_bind].
    pose proof (drain_inbound_spec MAX_INGEST_PER_TICK 0 (device s') in_rx) as Hin.
    destruct (drain_inbound _ _ _ in_rx) as [[[ni ci] d] in_rx']. destruct Hin as (Hq & _ & _).
    exists ni, na, (c || ci), (with_device s' d), b', in_rx', rx', msgs.
    split_and!; try done. by apply Hdev.
Qed.

Lemma telemetry_spec now (rs : @run_state K U Q V) :
  stack_ok (net rs) ->
  stack_ok (net (telemetry now rs)) /\
  (forall i, flow_taken (net (telemetry now rs)) i = flow_taken (net rs) i) /\
  credits (net (telemetry now rs)) = credits (net rs) /\ backlog (telemetry now rs) = backlog rs.
Proof.
  intros [Htl Hul Hti Hui Hid Hud]. split_and!; try done.
  - split; cbn; try done.
    + intros i st Hi. apply lookup_fmap_Some in Hi as (st0 & <- & Hi). exact (Htl i st0 Hi).
    + intros i j st st' Hi Hj. apply lookup_fmap_Some in Hi as (st0 & <- & Hi).
      apply lookup_fmap_Some in Hj as (st1 & <- & Hj). exact (Hti i j st0 st1 Hi Hj).
    + intros i st Hi. apply lookup_fmap_Some in Hi as (st0 & <- & Hi). exact (Hid i st0 Hi).
  - intros i. unfold flow_taken. cbn. rewrite lookup_fmap. by destruct (tcp_conns (net rs) !! i).
Qed.

Lemma telemetry_if_due_spec e (rs : @run_state K U Q V) :
  stack_ok (net rs) ->
  let rs' := telemetry_if_due e rs in
  stack_ok (net rs') /\ (forall i, flow_taken (net rs') i = flow_taken (net rs) i) /\
  credits (net rs') = credits (net rs) /\ backlog rs' = backlog rs /\
  prefer_app_data rs' = prefer_app_data rs.
Proof.
  intros Hok. unfold telemetry_if_due. destruct (_ <=? _); [|done].
  destruct (telemetry_spec (app_clk e 4%nat) rs Hok) as (A & B & C & D). done.
Qed.

Lemma run_pass_spec e (rs : @run_state K U Q V) (qs : @queues RC RD RI TO) :
  stack_ok (net rs) -> backlog_inv (backlog rs) ->
  Backlog.sum_bytes (Backlog.queue (backlog rs)) <= u64_max ->
  exists r, run_pass t poll poll_delay e rs qs = Done r /\
    match r with
    | Returned => True
    | Yield rs' qs' | Park rs' qs' _ =>
        stack_ok (net rs') /\ backlog_inv (backlog rs') /\
        prefer_app_data rs' = negb (prefer_app_data rs) /\
        exists msgs, pass_queues qs qs' (backlog rs') msgs /\ pass_stream rs rs' msgs
    end.
Proof.
  intros Hok Hb Hsum. unfold run_pass. cbv zeta.
  destruct (poll_step poll (net rs) Hok) as [Hok0 F0]. set (s0 := poll_iface poll (net rs)) in *.
  destruct (service_tcp_spec t (resp_closed e) (svc_now e) (svc_clk e) (tcp_order e) s0 Hok0)
    as (s1 & tb & -> & Hok1 & F1). cbn [mbind outcome_bind].
  destruct (service_udp_spec (udp_order e) s1 Hok1) as (s2 & ub & -> & Hok2 & F2). cbn [mbind outcome_bind].
  pose proof (flows_step_trans _ _ _ F0 (flows_step_trans _ _ _ F1 F2)) as F02. clear F0 F1 F2.
  destruct (flush_tx (device s2) (outbound_tx qs)) as [[[dropped txb] d] otx].
  assert (Hok3 : stack_ok (with_device s2 d)) by (by destruct Hok2).
  destruct (drain_backlog_spec (H := stack_sink t) (H0 := stack_sink_laws t) (with_device s2 d) (backlog rs) Hok3 Hb)
    as (s4 & b4 & Hdr & Hok4 & Hb4 & F4).
  pose proof (drain_backlog_sum (H := stack_sink t) (H0 := stack_sink_laws t) _ _ _ _ Hok3 Hdr) as Hsum4.
  assert (Hcn4 : credits s4 = credits s2 /\ next_id s4 = next_id s2).
  { refine (drain_backlog_preserves (H := stack_sink t)
      (fun x => credits x = credits s2 /\ next_id x = next_id s2) _ _ _ _ _ _ Hdr); [|done].
    cbv beta. intros x dd bk x' [Hx1 Hx2] Ht. destruct (try_handle_credits t x dd bk x' Ht).
    split; congruence. }
  destruct Hcn4 as [Hc4 Hn4].
  rewrite Hdr. cbn [mbind outcome_bind].
  destruct (reap_wedged_stream (drain_clk e) (wedge_clk e) (stall_order e) (blocked_order e) s4 b4
    Hok4 Hb4 ltac:(lia)) as (s5 & b5 & -> & Hok5 & F5 & Hb5 & Q5). cbn [mbind outcome_bind].
  destruct (drain_both_spec (prefer_app_data rs) s5 b5 (inbound_rx qs) (data_in_rx qs) Hok5 Hb5)
    as (ni & na & c1 & s6 & b6 & irx & drx & msgs & -> & Hok6 & Hb6 & Hc6 & Hn6 & Qi & Qd & Ql & Qe & F6).
  cbn [mbind outcome_bind].
  pose proof (drain_cmds_spec t MAX_CMD_PER_TICK 0 (cmd_clk e) s6 (cmd_rx qs) Hok6) as Hcmd.
  destruct (drain_cmds t MAX_CMD_PER_TICK 0 (cmd_clk e) s6 (cmd_rx qs)) as [[[nc c2] s7] crx].
  destruct Hcmd as (Hok7 & [Hn7 F7] & Qc & _).
  destruct (c1 || c2); [by exists Returned|].
  (* the flow's bytes along the pass *)
  assert (Hstream : forall id l, flow_taken (net rs) id = Some l ->
    credit_closed s7 id \/
    exists l', flow_taken s7 id = Some l' /\
      l' ++ queued_bytes id (Backlog.queue b6) =
      l ++ queued_bytes id (Backlog.queue (backlog rs)) ++ queued_bytes id msgs).
  { intros id l Hl.
    assert (Hid : id < next_id s6).
    { destruct (flow_taken_conn _ _ _ Hl) as [st Hst]. pose proof (tcp_ids _ Hok id st Hst).
      destruct F02 as [N02 _]. destruct F5 as [N5 _]. lia. }
    destruct (F7 id Hid) as [T7 C7].
    assert (Hclose : credit_closed s2 id -> credit_closed s7 id).
    { intros Hc. unfold credit_closed. rewrite C7, Hc6. apply F5. unfold credit_closed. by rewrite Hc4. }
    destruct F02 as [_ F02]. destruct (F02 id) as [_ Ht2]. rewrite Hl in Ht2.
    destruct (flow_taken s2 id) as [l2|] eqn:E2; [|left; auto].
    destruct Ht2 as [->|[Hc _]]; [|left; auto].
    destruct (F4 id l E2) as (k4 & T4 & E4).
    destruct (Q5 id _ T4) as [Hc|[T5 E5]].
    { left. unfold credit_closed in *. by rewrite C7, Hc6. }
    right. destruct (F6 id _ T5) as (k6 & T6 & E6).
    exists ((l ++ k4) ++ k6). rewrite T7. split; [done|].
    rewrite <- !app_assoc. f_equal. rewrite E6, E5, app_assoc. by rewrite E4. }
  assert (Hend : forall rsx : @run_state K U Q V, net rsx = s7 -> backlog rsx = b6 ->
    prefer_app_data rsx = negb (prefer_app_data rs) ->
    let rs' := telemetry_if_due e rsx in
    stack_ok (net rs') /\ backlog_inv (backlog rs') /\
    prefer_app_data rs' = negb (prefer_app_data rs) /\
    exists msgs0, pass_queues qs (mkQueues crx drx irx otx) (backlog rs') msgs0 /\
      pass_stream rs rs' msgs0).
  { intros rsx <- Hb8 Hp8. cbv zeta.
    destruct (telemetry_if_due_spec e rsx Hok7) as (Hok8 & T8 & C8 & Hb9 & Hp9).
    rewrite Hb9, Hb8, Hp9, Hp8. split_and!; try done. exists msgs. split; [by split_and!|].
    intros id l Hl. rewrite T8, Hb9, Hb8. unfold credit_closed. rewrite C8. by apply Hstream. }
  destruct (starvation_clocks e rs ni na b6) as [progress starvation].
  destruct ((0 <? ni) || (0 <? na) || (0 <? nc)); eexists; (split; [reflexivity|]);
    cbv beta iota; eapply Hend; reflexivity.
Qed.
End pass.
