(* ===== verification/SimpleNet.v ===== *)
(** * A concrete instance of the stack's interfaces

    The smallest sockets and queues that satisfy the laws of [Smoltcp],
    [AppQueue] and [PollLaws]; the model is evaluated on them. *)

From stdpp Require Import base list option gmap.
From Stdlib Require Import ZArith Lia.
From S2P Require Import Prelude RustStr Net Channel Sysprofile Backlog Netstack RunFacts.

(** A TCP socket with a send buffer of [window] bytes and nothing acknowledged. *)
Record sim_tcp := mkSim { sim_state : tcp_state; sim_out : list Z; sim_window : Z; sim_in : list (list Z) }.

Definition sim_udp := list (SocketAddr * list Z).

Definition sim_send (k : sim_tcp) (data : list Z) : option Z * sim_tcp :=
  let n := Z.max 0 (Z.min (zlen data) (sim_window k - zlen (sim_out k))) in
  (Some n, mkSim (sim_state k) (sim_out k ++ ztake n data) (sim_window k) (sim_in k)).

#[global] Instance sim_smoltcp : Smoltcp sim_tcp sim_udp := {
  tcp_new _ tx _ _ := mkSim Closed [] tx [];
  tcp_connect _ _ _ k := (None, mkSim SynSent (sim_out k) (sim_window k) (sim_in k));
  state := sim_state;
  can_send k := zlen (sim_out k) <? sim_window k;
  can_recv k := match sim_in k with [] => false | _ => true end;
  send_slice := sim_send;
  send_queue k := zlen (sim_out k);
  tcp_recv k := match sim_in k with
                | [] => (None, k)
                | c :: r => (Some c, mkSim (sim_state k) (sim_out k) (sim_window k) r)
                end;
  abort k := mkSim Closed (sim_out k) (sim_window k) (sim_in k);
  close k := mkSim FinWait1 (sim_out k) (sim_window k) (sim_in k);
  udp_new _ _ := [];
  udp_bind u _ := (None, u);
  udp_can_recv u := match u with [] => false | _ => true end;
  udp_recv u := match u with [] => (None, u) | (a, d) :: r => (Some (d, a), r) end;
  udp_send_slice u _ _ := u;
  fresh_handle ss := fresh (dom ss);
  accepted := sim_out;
}.

#[global] Instance sim_smoltcp_laws : SmoltcpLaws sim_tcp sim_udp.
Proof.
  split; try done.
  - intros k data n k'. cbn. unfold sim_send. intros [= <- <-]. cbn.
    pose proof (zlen_nonneg data). split; [lia|done].
  - intros k. apply zlen_nonneg.
  - intros k. cbn. by destruct (sim_in k).
  - intros ss. cbn. apply not_elem_of_dom, is_fresh.
Qed.

#[global] Instance chan_app_queue A : AppQueue (chan A) A := {
  new_queue cap := mk_chan cap true [];
  try_reserve c := (if negb (chan_open c) then SendClosed
                    else if chan_cap c <=? zlen (chan_items c) then SendFull else SendOk);
  permit_send c a := mk_chan (chan_cap c) (chan_open c) (chan_items c ++ [a]);
}.

Abbreviation sim_stack := (@NetStack sim_tcp sim_udp (chan (list Z)) (chan (SocketAddr * list Z))).

Definition sim_poll (s : sim_stack) : bool * sim_stack := (false, s).

#[global] Instance sim_poll_laws : PollLaws sim_poll.
Proof.
  split; cbn; [done|]. intros s h. by destruct (sockets s !! h) as [[|]|].
Qed.
