(* ===== verification/NetstackCorrect.v ===== *)
(** * What the netstack promises

    The properties of the netstack task, with the model evaluated on the
    concrete sockets of [SimpleNet]. *)

From stdpp Require Import base list option gmap.
From Stdlib Require Import ZArith Lia.
From S2P Require Import Prelude RustStr Net Error Channel F64 Sysprofile Backlog FlowCredit Device Netstack Service Sink ServiceFacts Run RunFacts SimpleNet.

(** ** A stack to evaluate *)

Definition sim_tuning : Tuning :=
  mkTuning Low 2 None 4 262144 49152 65536 65536 32768 128 2097152 4194304.

Definition sim_limits : TcpLimits := mkLimits (secs 30) (secs 15) (secs 90) (secs 10).

Definition sim_flow (h : Z) (p : list Z) (est : bool) (resp : option Z) : @TcpState (chan (list Z)) :=
  mkTcp h (mk_chan 8 true []) (negb est) resp p est false (secs 30) None false 0
    (mkDrain 0 0 0 0 false) (mkUplink 0 0 f64_zero 49152 0 0 0 0 0).

(** Two established flows, the second with a full pending buffer. *)
Definition sim_net : sim_stack :=
  mkStack (mkInterface [] None None) (StackDevice.new 1280)
    (<[0 := inl (mkSim Established [] 2 [])]> (<[1 := inl (mkSim Established [] 2 [])]> ∅))
    (<[1 := sim_flow 0 [] true None]> (<[2 := sim_flow 1 [5] true None]> ∅)) ∅ 3 49152 sim_limits
    (<[1 := FlowCredit.new]> (<[2 := FlowCredit.new]> ∅)) [].

Lemma sim_net_ok : stack_ok sim_net.
Proof.
  split; cbn; try done.
  - intros id st Hi. apply lookup_insert_Some in Hi as [[<- <-]|[_ Hi]]; [eauto|].
    apply lookup_insert_Some in Hi as [[<- <-]|[_ Hi]]; [eauto|done].
  - intros i j st st' Hi Hj.
    apply lookup_insert_Some in Hi as [[<- <-]|[_ Hi]];
      [|apply lookup_insert_Some in Hi as [[<- <-]|[_ Hi]]; [|done]];
    (apply lookup_insert_Some in Hj as [[<- <-]|[_ Hj]];
      [|apply lookup_insert_Some in Hj as [[<- <-]|[_ Hj]]; [|done]]); done.
  - intros id st Hi. apply lookup_insert_Some in Hi as [[<- <-]|[_ Hi]]; [lia|].
    apply lookup_insert_Some in Hi as [[<- <-]|[_ Hi]]; [lia|done].
Qed.

Definition sim_run : @run_state sim_tcp sim_udp (chan (list Z)) (chan (SocketAddr * list Z)) :=
  mkRun sim_net (Backlog.push Backlog.default (Tcp 1 [1; 2])) false 0 512 0 0 0 0 0 0.

Definition sim_queues : @queues (chan Cmd) (chan DataIn) (chan (list Z)) (chan (list Z)) :=
  mkQueues (mk_chan 256 true []) (mk_chan 128 true [Tcp 1 [3]; Tcp 2 [9]; Tcp 1 [4]])
    (mk_chan 64 true [[69]]) (mk_chan 64 true []).

Definition sim_env : pass_env :=
  mkEnv 0 (fun _ _ => 0) (fun _ => false) [1; 2] [] [1; 2] [1; 2] (fun _ => 0) (fun _ => 0)
    (fun _ _ => 0) (fun _ => 0).

Lemma sim_backlog_ok : backlog_inv (backlog sim_run).
Proof. apply push_inv, backlog_default_inv. Qed.

(** ** Streams *)

(** C1: a pass of the netstack task never panics, keeps every flow's socket
    handle valid, and never loses, duplicates or reorders a byte an app
    uploads: for each flow, the bytes its socket and buffer hold followed by
    those waiting in the backlog are the ones there were before followed by
    the ones read from the app queue in this pass, or the flow's credit is
    closed, which its writer sees. *)
Theorem run_pass_keeps_streams
    {K U Q V : Type} `{SmoltcpLaws K U} `{AppQueue Q (list Z)} `{AppQueue V (SocketAddr * list Z)}
    {RC RD RI TO : Type} `{ReceiverLaws RC Cmd} `{ReceiverLaws RD DataIn}
    `{ReceiverLaws RI (list Z)} `{Sender TO (list Z)}
    (t : Tuning) (poll : @NetStack K U Q V -> bool * @NetStack K U Q V) `{!PollLaws poll} poll_delay
    e rs (qs : @queues RC RD RI TO) :
  stack_ok (net rs) -> backlog_inv (backlog rs) ->
  Backlog.sum_bytes (Backlog.queue (backlog rs)) <= u64_max ->
  exists r, run_pass t poll poll_delay e rs qs = Done r /\
    match r with
    | Returned => True
    | Yield rs' qs' | Park rs' qs' _ =>
        stack_ok (net rs') /\ backlog_inv (backlog rs') /\
        exists msgs, rx_queue (data_in_rx qs) = msgs ++ rx_queue (data_in_rx qs') /\
        forall id l, flow_taken (net rs) id = Some l ->
          credit_closed (net rs') id \/
          exists l', flow_taken (net rs') id = Some l' /\
            l' ++ queued_bytes id (Backlog.queue (backlog rs')) =
            l ++ queued_bytes id (Backlog.queue (backlog rs)) ++ queued_bytes id msgs
    end.
Proof.
  intros Hok Hb Hsum.
  destruct (run_pass_spec t poll poll_delay e rs qs Hok Hb Hsum) as (r & Hr & Hm).
  exists r. split; [done|]. destruct r as [|rs' qs'|rs' qs' dl]; [done| |];
    destruct Hm as (Hok' & Hb' & _ & msgs & (_ & _ & Hq & _) & Hs); eauto 10.
Qed.

Lemma run_pass_keeps_streams_witness :
  exists r, run_pass sim_tuning sim_poll (fun _ => None) sim_env sim_run sim_queues = Done r /\
    match r with
    | Returned => True
    | Yield rs' qs' | Park rs' qs' _ =>
        stack_ok (net rs') /\ backlog_inv (backlog rs') /\
        exists msgs, rx_queue (data_in_rx sim_queues) = msgs ++ rx_queue (data_in_rx qs') /\
        forall id l, flow_taken (net sim_run) id = Some l ->
          credit_closed (net rs') id \/
          exists l', flow_taken (net rs') id = Some l' /\
            l' ++ queued_bytes id (Backlog.queue (backlog rs')) =
            l ++ queued_bytes id (Backlog.queue (backlog sim_run)) ++ queued_bytes id msgs
    end.
Proof.
  apply (run_pass_keeps_streams sim_tuning sim_poll (fun _ => None) sim_env sim_run sim_queues).
  - exact sim_net_ok.
  - exact sim_backlog_ok.
  - vm_compute. done.
Defined.

(** The same pass, evaluated: both flows took what was sent to them. *)
Example sim_pass_result :
  match run_pass sim_tuning sim_poll (fun _ => None) sim_env sim_run sim_queues with
  | Done (Yield rs' _) =>
      (flow_taken (net rs') 1, flow_taken (net rs') 2) = (Some [1; 2; 3; 4], Some [5; 9])
  | _ => False
  end.
Proof. vm_compute. reflexivity. Qed.

(** C2: no direction starves another: whatever the other queues hold and
    whichever direction goes first, a pass reads up to 512 packets of the
    tunnel and up to 64 commands, and it reads the app queue until it is empty,
    512 messages were moved or the backlog reached its memory bound; the order
    of the two directions alternates. *)
Theorem run_pass_serves_all_queues
    {K U Q V : Type} `{SmoltcpLaws K U} `{AppQueue Q (list Z)} `{AppQueue V (SocketAddr * list Z)}
    {RC RD RI TO : Type} `{ReceiverLaws RC Cmd} `{ReceiverLaws RD DataIn}
    `{ReceiverLaws RI (list Z)} `{Sender TO (list Z)}
    (t : Tuning) (poll : @NetStack K U Q V -> bool * @NetStack K U Q V) `{!PollLaws poll} poll_delay
    e rs (qs : @queues RC RD RI TO) :
  stack_ok (net rs) -> backlog_inv (backlog rs) ->
  Backlog.sum_bytes (Backlog.queue (backlog rs)) <= u64_max ->
  exists r, run_pass t poll poll_delay e rs qs = Done r /\
    match r with
    | Returned => True
    | Yield rs' qs' | Park rs' qs' _ =>
        prefer_app_data rs' = negb (prefer_app_data rs) /\
        rx_queue (inbound_rx qs') = drop 512 (rx_queue (inbound_rx qs)) /\
        rx_queue (cmd_rx qs') = drop 64 (rx_queue (cmd_rx qs)) /\
        exists msgs, rx_queue (data_in_rx qs) = msgs ++ rx_queue (data_in_rx qs') /\
          (length msgs <= 512)%nat /\
          (length msgs = 512%nat \/ MAX_BACKLOG_BYTES <= Backlog.bytes (backlog rs') \/
           rx_queue (data_in_rx qs') = [])
    end.
Proof.
  intros Hok Hb Hsum.
  destruct (run_pass_spec t poll poll_delay e rs qs Hok Hb Hsum) as (r & Hr & Hm).
  exists r. split; [done|].
  assert (Hcases : forall (q msgs : list DataIn) (b : Backlog.t),
    (length msgs <= MAX_APP_INGEST_PER_TICK)%nat ->
    (zlen msgs < Z.of_nat MAX_APP_INGEST_PER_TICK -> Backlog.bytes b < MAX_BACKLOG_BYTES -> q = []) ->
    length msgs = 512%nat \/ MAX_BACKLOG_BYTES <= Backlog.bytes b \/ q = []).
  { intros q msgs b Hl He. change MAX_APP_INGEST_PER_TICK with 512%nat in *. unfold zlen in He.
    destruct (decide (length msgs = 512%nat)); [by left|].
    destruct (decide (Backlog.bytes b < MAX_BACKLOG_BYTES)); [|right; left; lia].
    right. right. apply He; [lia|done]. }
  destruct r as [|rs' qs'|rs' qs' dl]; [done| |];
    destruct Hm as (_ & _ & Hp & msgs & (Hi & Hc & Hq & Hl & He) & _);
    (split_and!; try done; exists msgs; split_and!; [done|done|by apply Hcases]).
Qed.

Lemma run_pass_serves_all_queues_witness :
  exists r, run_pass sim_tuning sim_poll (fun _ => None) sim_env sim_run sim_queues = Done r /\
    match r with
    | Returned => True
    | Yield rs' qs' | Park rs' qs' _ =>
        prefer_app_data rs' = negb (prefer_app_data sim_run) /\
        rx_queue (inbound_rx qs') = drop 512 (rx_queue (inbound_rx sim_queues)) /\
        rx_queue (cmd_rx qs') = drop 64 (rx_queue (cmd_rx sim_queues)) /\
        exists msgs, rx_queue (data_in_rx sim_queues) = msgs ++ rx_queue (data_in_rx qs') /\
          (length msgs <= 512)%nat /\
          (length msgs = 512%nat \/ MAX_BACKLOG_BYTES <= Backlog.bytes (backlog rs') \/
           rx_queue (data_in_rx qs') = [])
    end.
Proof.
  apply (run_pass_serves_all_queues sim_tuning sim_poll (fun _ => None) sim_env sim_run sim_queues).
  - exact sim_net_ok.
  - exact sim_backlog_ok.
  - vm_compute. done.
Defined.

(** C3: flows do not block one another: when a flow's buffer has place for what
    is queued for it, one pass over the backlog hands all of it over and
    unblocks the flow, however many other flows refuse their data. *)
Theorem drain_backlog_isolates {K U Q V : Type} `{SmoltcpLaws K U} `{AppQueue Q (list Z)}
    `{AppQueue V (SocketAddr * list Z)} (t : Tuning) (s : @NetStack K U Q V) b id l st :
  stack_ok s -> backlog_inv b -> flow_taken s id = Some l -> tcp_conns s !! id = Some st ->
  zlen (pending st) + zlen (queued_bytes id (Backlog.queue b)) < max_tcp_pending t ->
  exists s' b', drain_backlog (H := stack_sink t) s b = Done (s', b') /\
    ~ (id ∈ Backlog.blocked b') /\
    flow_taken s' id = Some (l ++ queued_bytes id (Backlog.queue b)).
Proof.
  intros Hok Hb Hl Hst Hroom.
  destruct (drain_backlog_spec (H := stack_sink t) (H0 := stack_sink_laws t) s b Hok Hb)
    as (s' & b' & Hd & Hok' & Hb' & Hf).
  destruct (Hf id l Hl) as (k & Hk & He).
  exists s', b'. split; [done|].
  assert (Hblk : id ∉ Backlog.blocked b').
  { unfold drain_backlog, Backlog.is_empty in Hd. destruct (Backlog.queue b) as [|d q] eqn:Eq.
    - injection Hd as <- <-. intros Hin. apply Hb in Hin as (d & Hd & _). rewrite Eq in Hd. set_solver.
    - pose proof (drain_loop_unblocks (H := stack_sink t) (H0 := stack_sink_laws t)
        (d :: q) id s [] ∅ 0 l Hok Hl ltac:(set_solver)) as Hw.
      rewrite Hd in Hw. apply Hw. cbn [room stack_sink]. unfold flow_room. rewrite Hst. lia. }
  split; [done|].
  assert (Hq : queued_bytes id (Backlog.queue b') = []).
  { apply queued_bytes_other. intros d Hin Heq. apply Hblk, Hb'. eauto. }
  cbn [taken stack_sink] in Hk. rewrite Hk. f_equal. f_equal. by rewrite <- He, Hq, app_nil_r.
Qed.

Lemma drain_backlog_isolates_witness :
  exists s' b', drain_backlog (H := stack_sink sim_tuning) sim_net (backlog sim_run) = Done (s', b') /\
    ~ (1 ∈ Backlog.blocked b') /\ flow_taken s' 1 = Some ([] ++ [1; 2]).
Proof.
  apply (drain_backlog_isolates sim_tuning sim_net (backlog sim_run) 1 [] (sim_flow 0 [] true None)).
  - exact sim_net_ok.
  - exact sim_backlog_ok.
  - done.
  - done.
  - vm_compute. done.
Defined.

(** ** Admission and liveness *)

Lemma measure_budget {K U Q : Type} `{SmoltcpLaws K U} (t : Tuning) clk (st : @TcpState Q) (k : K) c :
  exists st' c' flap, measure t clk st k c = Done (st', c', flap) /\
    MIN_FLOW_QUEUE_BYTES <= FlowCredit.cap c' <= Z.max (tcp_tx_buf t) MIN_FLOW_QUEUE_BYTES /\
    FlowCredit.acked c <= FlowCredit.acked c' /\ FlowCredit.sent c' = FlowCredit.sent c.
Proof.
  unfold measure. destruct (check_drain _ _ _ _ _) as [[d u] flap].
  destruct (flow_budget_spec t (drain_rate (sample_rate (clk 5%nat)
    (saturating_sub (accepted_total (drain st)) (send_queue k)) u))) as (b & -> & Hb).
  cbn [mbind outcome_bind]. eexists _, _, _. split; [done|]. cbn.
  split; [lia|]. split; [|done].
  destruct (Z.gtb_spec (saturating_sub (accepted_total (drain st)) (send_queue k)) (FlowCredit.acked c)); lia.
Qed.

(** What a pass makes of a flow's clock: it moves exactly when the peer
    acknowledged something or nothing is outstanding. *)
Definition clock_moved {Q} clk (queued acked : Z) (st st' : @TcpState Q) (flap : bool) : Prop :=
  if (queued =? 0) || (acked >? acked_high (drain st))
  then last_drain (drain st') = clk 1%nat /\ acked_high (drain st') = acked /\
       drain_warned (drain st') = false /\ flap = false
  else last_drain (drain st') = last_drain (drain st) /\ acked_high (drain st') = acked_high (drain st).

Lemma measure_clock {K U Q : Type} `{SmoltcpLaws K U}
    (t : Tuning) (clk : nat -> Z) (st : @TcpState Q) (k : K) c st' c' flap :
  0 <= acked_high (drain st) <= accepted_total (drain st) ->
  measure t clk st k c = Done (st', c', flap) ->
  let acked := saturating_sub (accepted_total (drain st)) (send_queue k) in
  send_queue_high (drain st') = send_queue k /\
  acked_high (drain st) <= acked_high (drain st') <= accepted_total (drain st') /\
  clock_moved clk (send_queue k) acked st st' flap.
Proof.
  intros Hinv Hm acked. pose proof (send_queue_nonneg k) as Hq. unfold measure in Hm. fold acked in Hm.
  destruct (check_drain clk (send_queue k) acked (drain st) (uplink st)) as [[d u] fl] eqn:Ec.
  destruct (flow_budget_spec t (drain_rate (sample_rate (clk 5%nat) acked u))) as (b & Hb & _).
  rewrite Hb in Hm. cbn [mbind outcome_bind] in Hm. injection Hm as <- <- <-. unfold clock_moved. cbn.
  unfold check_drain in Ec. unfold acked, saturating_sub in *.
  destruct (Z.eqb_spec (send_queue k) 0) as [Hz|Hz]; cbn [orb] in *.
  { injection Ec as <- <- <-. cbn. split_and!; try done; lia. }
  destruct (Z.gtb_spec (Z.max 0 (accepted_total (drain st) - send_queue k)) (acked_high (drain st))).
  { injection Ec as <- <- <-. cbn. split_and!; try done; lia. }
  destruct (_ && _); injection Ec as <- <- <-; cbn; split_and!; try done; lia.
Qed.

(** C4: measuring a flow never panics, and what it publishes is sound.  The
    budget its writer is granted is at least 48 KiB whatever the measured rate
    (a NaN or an infinity included); it is at most the socket's send buffer when
    that holds 48 KiB, and exactly 48 KiB when it does not; and no
    acknowledgement is taken back.  The liveness
    clock moves exactly when the peer acknowledged something or nothing is
    outstanding; a pass with nothing acknowledged leaves the mark and the clock,
    and the queue the reaper looks at is the socket's. *)
Theorem measure_sound {K U Q : Type} `{SmoltcpLaws K U}
    (t : Tuning) (clk : nat -> Z) (st : @TcpState Q) (k : K) c :
  0 <= acked_high (drain st) <= accepted_total (drain st) ->
  exists st' c' flap, measure t clk st k c = Done (st', c', flap) /\
    MIN_FLOW_QUEUE_BYTES <= FlowCredit.cap c' /\
    (if MIN_FLOW_QUEUE_BYTES <=? tcp_tx_buf t then FlowCredit.cap c' <= tcp_tx_buf t
     else FlowCredit.cap c' = MIN_FLOW_QUEUE_BYTES) /\
    FlowCredit.acked c <= FlowCredit.acked c' /\ FlowCredit.sent c' = FlowCredit.sent c /\
    send_queue_high (drain st') = send_queue k /\
    acked_high (drain st) <= acked_high (drain st') <= accepted_total (drain st') /\
    clock_moved clk (send_queue k) (saturating_sub (accepted_total (drain st)) (send_queue k)) st st' flap.
Proof.
  intros Hinv. destruct (measure_budget t clk st k c) as (st' & c' & flap & Hm & Hcap & Hack & Hsent).
  exists st', c', flap. split; [done|]. destruct (measure_clock t clk st k c st' c' flap Hinv Hm) as (Hq & Hh & Hc).
  split; [lia|]. split; [destruct (Z.leb_spec MIN_FLOW_QUEUE_BYTES (tcp_tx_buf t)); lia|].
  do 4 (split; [done|]). done.
Qed.

(** The ceiling is not the send buffer when that is below the floor: 16 KiB, the
    smallest AETHER_NETSTACK_TCP_TX allowed, still grants 48 KiB. *)
Example floor_above_buffer :
  let t := mkTuning Low 1 None 4 65536 49152 (16 * 1024) 65536 32768 128 2097152 4194304 in
  tcp_tx_buf t = 16384 /\ flow_budget t f64_zero = Done 49152.
Proof. vm_compute. done. Qed.

Lemma measure_sound_witness :
  let st := set_drain (sim_flow 0 [] true None) (mkDrain 3 5 2 7 false) (uplink (sim_flow 0 [] true None)) in
  let k := mkSim Established [1; 2; 3] 9 [] in
  exists st' c' flap,
    measure sim_tuning (fun _ => secs 4) st k FlowCredit.new = Done (st', c', flap) /\
    MIN_FLOW_QUEUE_BYTES <= FlowCredit.cap c' /\
    send_queue_high (drain st') = 3 /\ 2 <= acked_high (drain st') <= accepted_total (drain st') /\
    last_drain (drain st') = 7 /\ acked_high (drain st') = 2.
Proof.
  cbv zeta.
  destruct (measure_sound sim_tuning (fun _ => secs 4)
    (set_drain (sim_flow 0 [] true None) (mkDrain 3 5 2 7 false) (uplink (sim_flow 0 [] true None)))
    (mkSim Established [1; 2; 3] 9 []) FlowCredit.new ltac:(cbn; lia))
    as (st' & c' & flap & Hm & Hcap & _ & _ & _ & Hq & Hh & Hl & Ha).
  exists st', c', flap. split; [exact Hm|]. split; [exact Hcap|]. split; [exact Hq|]. split; [exact Hh|]. by split.
Defined.

Lemma abort_flows_unblocks {K U Q V : Type} `{SmoltcpLaws K U} `{AppQueue Q (list Z)}
    `{AppQueue V (SocketAddr * list Z)} ids (s : @NetStack K U Q V) b s' b' :
  abort_flows ids s b = Done (s', b') ->
  Backlog.blocked b' ⊆ Backlog.blocked b /\ forall id, id ∈ ids -> id ∉ Backlog.blocked b'.
Proof.
  revert s b. induction ids as [|i ids IH]; intros s b; cbn [abort_flows].
  { intros [= _ <-]. set_solver. }
  destruct (abort_flow s i) as [s1| | |]; cbn [mbind outcome_bind]; try done.
  intros Hr. apply IH in Hr as [Hsub Hno]. cbn in Hsub. split; [set_solver|].
  intros id Hid. apply elem_of_cons in Hid as [->|Hid]; set_solver.
Qed.

(** The reaper resets exactly the dead flows: a flow holding bytes with
    nothing acknowledged for 8 s is reset (buffer cleared, socket aborted,
    writer released, backlog purged) wherever it stands, and a flow that is
    neither stalled nor blocked and idle for 30 s is left as it is. *)
Lemma reap_wedged_exact {K U Q V : Type} `{SmoltcpLaws K U} `{AppQueue Q (list Z)}
    `{AppQueue V (SocketAddr * list Z)} now_drain now_wedge ids blocked (s : @NetStack K U Q V) b :
  stack_ok s -> backlog_inv b -> Backlog.sum_bytes (Backlog.queue b) <= u64_max ->
  (forall id st, tcp_conns s !! id = Some st -> id ∈ ids) ->
  exists s' b', reap_wedged now_drain now_wedge ids blocked s b = Done (s', b') /\
    forall id st, tcp_conns s !! id = Some st ->
      (0 < send_queue_high (drain st) ->
       secs 8 <= elapsed (now_drain id) (last_drain (drain st)) ->
       flow_reset s s' id /\ ~ (id ∈ Backlog.blocked b')) /\
      (is_stalled (now_drain id) st = false ->
       ~ (id ∈ Backlog.blocked b) \/ elapsed (now_wedge id) (last_progress st) < secs 30 ->
       flow_same s s' id).
Proof.
  intros Hok Hb Hsum Hids. unfold reap_wedged. cbv zeta. set (stalled := List.filter _ ids).
  assert (Hst : forall id st, tcp_conns s !! id = Some st -> id ∈ stalled <-> is_stalled (now_drain id) st = true).
  { intros id st Hst. unfold stalled. rewrite list_elem_of_In, List.filter_In, Hst, <- list_elem_of_In.
    pose proof (Hids id st Hst). tauto. }
  destruct (abort_flows_spec stalled s b Hok Hb Hsum)
    as (s1 & b1 & Ha1 & Hok1 & _ & Hb1 & Hsum1 & _ & Hin1 & Hout1).
  destruct (abort_flows_unblocks _ _ _ _ _ Ha1) as [Hsub1 Hno1].
  rewrite Ha1. cbn [mbind outcome_bind].
  assert (Hstalled : forall (st : @TcpState Q) id, 0 < send_queue_high (drain st) ->
    secs 8 <= elapsed (now_drain id) (last_drain (drain st)) -> is_stalled (now_drain id) st = true)
    by (intros st id Hpos Hel; unfold is_stalled, TCP_DRAIN_STALL_TIMEOUT; lia).
  case_bool_decide as Hemp.
  { exists s1, b1. split; [done|]. intros id st Hl. split.
    - intros Hpos Hel. assert (id ∈ stalled) by (by apply (Hst id st Hl), Hstalled). auto.
    - intros Hns _. apply Hout1. rewrite (Hst id st Hl). congruence. }
  set (wedged := List.filter _ blocked).
  destruct (abort_flows_spec wedged s1 b1 Hok1 Hb1 ltac:(lia))
    as (s2 & b2 & Ha2 & _ & _ & _ & _ & _ & Hin2 & Hout2).
  destruct (abort_flows_unblocks _ _ _ _ _ Ha2) as [Hsub2 Hno2].
  exists s2, b2. split; [done|]. intros id st Hl. split.
  - intros Hpos Hel. assert (Hi : id ∈ stalled) by (by apply (Hst id st Hl), Hstalled).
    split; [|specialize (Hno1 id Hi); set_solver].
    destruct (decide (id ∈ wedged)); [eapply flow_reset_twice|eapply flow_reset_same]; eauto.
  - intros Hns Hcond. assert (Hs1 : flow_same s s1 id) by (apply Hout1; rewrite (Hst id st Hl); congruence).
    apply (flow_same_trans s s1 s2 id Hs1), Hout2. intros Hw. unfold wedged in Hw.
    apply list_elem_of_In, List.filter_In in Hw as [_ Hw]. apply andb_prop in Hw as [Hbl Hw].
    apply bool_decide_eq_true in Hbl. unfold is_wedged in Hw. destruct Hs1 as [Ht1 _].
    rewrite Ht1, Hl in Hw.
    destruct Hcond as [Hc|Hc]; [set_solver|]. unfold TCP_WEDGE_TIMEOUT in Hw. lia.
Qed.

(** Flow 1 holds four bytes nobody acknowledged since time 0. *)
Definition sim_stalled : sim_stack :=
  with_flows sim_net (sockets sim_net)
    (<[1 := set_drain (sim_flow 0 [] true None) (mkDrain 4 4 0 0 true) (uplink (sim_flow 0 [] true None))]>
       (tcp_conns sim_net)) (udp_conns sim_net) (credits sim_net) (responses sim_net).

Lemma reap_wedged_exact_witness :
  exists s' b', reap_wedged (fun _ => secs 9) (fun _ => secs 9) [1; 2] [1] sim_stalled (backlog sim_run) = Done (s', b') /\
    flow_reset sim_stalled s' 1 /\ flow_same sim_stalled s' 2.
Proof.
  assert (Hok : stack_ok sim_stalled)
    by (apply (stack_ok_tcp_update sim_net 1 (sim_flow 0 [] true None)); [exact sim_net_ok|done|done]).
  destruct (reap_wedged_exact (fun _ => secs 9) (fun _ => secs 9) [1; 2] [1] sim_stalled (backlog sim_run))
    as (s' & b' & Hr & Hall).
  - exact Hok.
  - exact sim_backlog_ok.
  - vm_compute. done.
  - intros id st Hi. cbn in Hi. apply lookup_insert_Some in Hi as [[<- _]|[_ Hi]]; [set_solver|].
    apply lookup_insert_Some in Hi as [[<- _]|[_ Hi]]; [set_solver|].
    apply lookup_insert_Some in Hi as [[<- _]|[_ Hi]]; [set_solver|done].
  - exists s', b'. split; [exact Hr|]. split.
    + eapply (Hall 1); [reflexivity|vm_compute; done|vm_compute; done].
    + eapply (Hall 2); [reflexivity|vm_compute; done|right; vm_compute; done].
Defined.

(** ** Opening flows *)

Lemma service_established_resp {K U Q : Type} `{SmoltcpLaws K U} `{AppQueue Q (list Z)}
    (t : Tuning) limits now clk (st : @TcpState Q) (k : K) c st' k' c' bp :
  service_established t limits now clk st k c = Done (Keep st' k' c', bp) ->
  connect_resp st' = connect_resp st.
Proof.
  unfold service_established.
  destruct (push_pending_spec clk st k) as (st1 & k1 & -> & _ & _ & _ & Hr1 & _). cbn [mbind outcome_bind].
  rewrite <- Hr1. clear Hr1.
  assert (Hm : forall st2 c2 flap, measure t clk st1 k1 c = Done (st2, c2, flap) ->
    connect_resp st2 = connect_resp st1).
  { intros st2 c2 flap. unfold measure. destruct (check_drain _ _ _ _ _) as [[d u] f].
    destruct (flow_budget _ _); cbn [mbind outcome_bind]; try done. by intros [= <- _ _]. }
  destruct (measure t clk st1 k1 c) as [[[st2 c2] flap]| | |] eqn:Em; cbn [mbind outcome_bind]; try done.
  rewrite <- (Hm st2 c2 flap eq_refl).
  set (r := if flap then flap_reset st2 k1 c2 else (st2, k1, c2)).
  assert (Hr : connect_resp r.1.1 = connect_resp st2) by (unfold r; by destruct flap).
  clearbody r. destruct r as [[st3 k3] c3]. cbn in Hr. rewrite <- Hr.
  set (k4 := if _ && _ then close k3 else k3).
  destruct (deliver MAX_RECV_CHUNKS (to_app st3) k4) as [[[q k5] gone] b].
  assert (Hf : forall st6 k6, connect_resp st6 = connect_resp st3 ->
    finish_turn st6 k6 c3 = Keep st' k' c' -> connect_resp st' = connect_resp st3).
  { intros st6 k6 Hst6. unfold finish_turn.
    destruct (bool_decide (state k6 = TimeWait)); cbn [established set_pending];
      destruct (_ && established st6); intros Heq; inversion Heq; subst; done. }
  destruct gone; [|intros Heq; injection Heq as Hk _; by refine (Hf _ _ _ Hk)].
  unfold orphan. destruct (_ || _); intros Heq; [by injection Heq as <- _ _ _|].
  injection Heq as Hk _. by refine (Hf _ _ _ Hk).
Qed.

(** C5: a connect is answered once: serving a flow whose caller waits either
    leaves it waiting, which it never does past its deadline or when the
    caller gave up, or sends exactly one answer; the answer is the connection
    only if the socket is connected, and a failure only with the flow and its
    socket removed; afterwards no caller waits on the flow. *)
Theorem connect_answered_once {K U Q V : Type} `{SmoltcpLaws K U} `{AppQueue Q (list Z)}
    `{AppQueue V (SocketAddr * list Z)} (t : Tuning) resp_closed now clk (s : @NetStack K U Q V) id st r :
  stack_ok s -> tcp_conns s !! id = Some st ->
  connect_resp st = Some r -> from_stack_rx st = true -> established st = false -> aborted st = false ->
  exists s' bp, service_flow t resp_closed now clk s id = Done (s', bp) /\
    (s' = s /\ now < connect_deadline st /\ resp_closed r = false \/
     exists ans, responses s' = responses s ++ [(r, ans)] /\
       (forall st', tcp_conns s' !! id = Some st' -> connect_resp st' = None) /\
       match ans with
       | OpenedTcp i => i = id /\ exists k, sockets s !! handle st = Some (inl k) /\
                                          (state k = Established \/ state k = CloseWait)
       | OpenFailed _ => tcp_conns s' !! id = None /\ sockets s' !! handle st = None
       | OpenedUdp _ => False
       end).
Proof.
  intros Hok Hst Hr Hrx He Hab. destruct (tcp_live s Hok id st Hst) as [k Hk].
  unfold service_flow. rewrite Hst, Hab. unfold get_tcp, remove_socket. rewrite Hk.
  cbn [mbind outcome_bind]. rewrite He. cbn [negb andb].
  destruct (bool_decide (state k = Established) || bool_decide (state k = CloseWait)) eqn:Hconn.
  - cbn [established set_established negb andb]. rewrite Hr, Hrx.
    set (c := default FlowCredit.new (credits s !! id)).
    destruct (service_established_spec t (tcp_limits s) now clk (set_established st) k c eq_refl)
      as (v & bp & Hse & _).
    rewrite Hse. cbn [mbind outcome_bind].
    assert (Hstate : state k = Established \/ state k = CloseWait)
      by (apply orb_prop in Hconn as [Hc|Hc]; apply bool_decide_eq_true in Hc; auto).
    destruct v as [st2 k2 c2|c2]; eexists _, _; (split; [done|]); right; exists (OpenedTcp id); cbn.
    + apply service_established_resp in Hse. cbn in Hse. split_and!; eauto.
      intros st'. rewrite lookup_insert_eq. intros [= <-]. done.
    + split_and!; eauto. intros st'. by rewrite lookup_delete_eq.
  - cbn [negb andb]. rewrite He. cbn [negb andb]. rewrite Hr.
    destruct (bool_decide (state k = Closed) || bool_decide (state k = TimeWait)).
    { eexists _, _. split; [done|]. right. eexists (OpenFailed _).
      cbn [responses tcp_conns sockets with_flows].
      split_and!; [done|intros st'|..]; by rewrite lookup_delete_eq. }
    destruct (resp_closed r || (connect_deadline st <=? now)) eqn:Hd.
    + eexists _, _. split; [done|]. right. eexists (OpenFailed _).
      cbn [responses tcp_conns sockets with_flows].
      split_and!; [done|intros st'|..]; by rewrite lookup_delete_eq.
    + exists s, false. split; [done|]. left. apply orb_false_elim in Hd as [-> Hd]. split_and!; done || lia.
Qed.

Definition sim_syn_sent : sim_stack :=
  with_flows sim_net (<[0 := inl (mkSim SynSent [] 2 [])]> (sockets sim_net)) (tcp_conns sim_net)
    (udp_conns sim_net) (credits sim_net) (responses sim_net).

Definition sim_connecting : sim_stack :=
  with_flows sim_syn_sent (sockets sim_syn_sent)
    (<[1 := sim_flow 0 [] false (Some 77)]> (tcp_conns sim_syn_sent)) (udp_conns sim_syn_sent)
    (credits sim_syn_sent) (responses sim_syn_sent).

Lemma sim_connecting_ok : stack_ok sim_connecting.
Proof.
  apply (stack_ok_tcp_update sim_syn_sent 1 (sim_flow 0 [] true None)); [|done|done].
  apply (stack_ok_socket_update sim_net 0 (inl (mkSim Established [] 2 []))); [exact sim_net_ok|done|done].
Qed.

Lemma connect_answered_once_witness :
  exists s' bp, service_flow sim_tuning (fun _ => false) (secs 31) (fun _ => 0) sim_connecting 1 = Done (s', bp) /\
    (s' = sim_connecting /\ secs 31 < secs 30 /\ false = false \/
     exists ans, responses s' = responses sim_connecting ++ [(77, ans)] /\
       (forall st', tcp_conns s' !! 1 = Some st' -> connect_resp st' = None) /\
       match ans with
       | OpenedTcp i => i = 1 /\ exists k, sockets sim_connecting !! 0 = Some (inl k) /\
                                         (state k = Established \/ state k = CloseWait)
       | OpenFailed _ => tcp_conns s' !! 1 = None /\ sockets s' !! 0 = None
       | OpenedUdp _ => False
       end).
Proof.
  apply (connect_answered_once sim_tuning (fun _ => false) (secs 31) (fun _ => 0) sim_connecting 1
           (sim_flow 0 [] false (Some 77)) 77); try done.
  exact sim_connecting_ok.
Defined.

Lemma routable_prefix_v4_idem p : routable_prefix_v4 (routable_prefix_v4 p) = routable_prefix_v4 p.
Proof. unfold routable_prefix_v4. repeat dest_if; lia. Qed.
Lemma routable_prefix_v6_idem p : routable_prefix_v6 (routable_prefix_v6 p) = routable_prefix_v6 p.
Proof. unfold routable_prefix_v6. repeat dest_if; lia. Qed.

(** An address update from the edge is a merge: each family ends up with
    the update's address if it names one and with the address it had otherwise
    (its prefix widened until there is an on-link gateway), the default route
    of a family that has an address goes through a host of that network, a
    family without one keeps its route, no flow is touched, and applying the
    update again changes nothing. *)
Lemma set_addrs_merges {K U Q V : Type} `{Smoltcp K U} `{AppQueue Q (list Z)}
    `{AppQueue V (SocketAddr * list Z)} (t : Tuning) clk (s : @NetStack K U Q V) v4 v6 :
  let s' := handle_cmd t clk s (SetAddrs v4 v6) in
  let n4 := (fun a => (a.1, routable_prefix_v4 a.2)) <$> (v4 ∪ (current_addrs (iface s)).1) in
  let n6 := (fun a => (a.1, routable_prefix_v6 a.2)) <$> (v6 ∪ (current_addrs (iface s)).2) in
  current_addrs (iface s') = (n4, n6) /\
  default_v4 (iface s') = (gateway_of ∘ fst <$> n4) ∪ default_v4 (iface s) /\
  default_v6 (iface s') = (gateway_of ∘ fst <$> n6) ∪ default_v6 (iface s) /\
  s' = with_iface s (iface s') /\
  handle_cmd t clk s' (SetAddrs v4 v6) = s'.
Proof.
  cbv zeta. unfold handle_cmd. destruct (current_addrs (iface s)) as [c4 c6].
  destruct v4 as [[a p]|], v6 as [[b q]|], c4 as [[c r]|], c6 as [[d u]|];
    unfold with_iface, apply_addrs; cbn;
    rewrite ?routable_prefix_v4_idem, ?routable_prefix_v6_idem, ?union_Some_l, ?(left_id_L None (∪));
    split_and!; by rewrite ?union_Some_l, ?(left_id_L None (∪)).
Qed.
