(* ===== verification/Dns.v ===== *)
(** * DNS messages (src/native/aether/aether/src/dns.rs and the resolver of socks.rs)

    Queries, the check that a reply answers the query that was sent, the two
    record parsers (an ECH configuration, an IPv4 address), and the exchanges
    built on them.  Both files carry the same response check and the same
    [skip_name]; they differ in how a query treats empty labels. *)

From stdpp Require Import base list option.
From Stdlib Require Import ZArith Lia.
From S2P Require Import Prelude RustStr Net Error Sysprofile.

Definition RR_HTTPS : Z := 65.
Definition SVCPARAM_ECH : Z := 5.
Definition QTYPE_A : Z := 1.

(** [u16::from_be_bytes([msg[p], msg[p + 1]])] *)
Definition read_u16 {E} (msg : list Z) (p : Z) : outcome E Z :=
  a ← idx msg p; b ← idx msg (p + 1); Done (be_u16 a b).

(** ** Queries *)

(** The labels of [name.split('.')], as bytes. *)
Definition labels_of (name : str) : list (list Z) := utf8 <$> split 46 name.

(** A label with its length byte; [as u8] truncates. *)
Definition push_label (l : list Z) : list Z := u8 (zlen l) :: l.

Definition is_empty (l : list Z) : bool := zlen l =? 0.

(** [dns::build_query]; the random identifier is an argument. *)
Definition build_query (id : Z) (name : str) (qtype : Z) : list Z * Z :=
  (be_bytes 2 id ++ [1; 0] ++ [0; 1] ++ [0; 0; 0; 0; 0; 0] ++
   flat_map (fun l => if is_empty l then [] else push_label l) (labels_of name) ++
   [0] ++ be_bytes 2 qtype ++ [0; 1], id).

(** [socks::build_dns_query], which keeps empty labels. *)
Definition build_dns_query (id : Z) (name : str) (qtype : Z) : list Z * Z :=
  (be_bytes 2 id ++ [1; 0] ++ [0; 1] ++ [0; 0; 0; 0; 0; 0] ++
   flat_map push_label (labels_of name) ++
   [0] ++ be_bytes 2 qtype ++ [0; 1], id).

(** ** Does a message answer the query? *)

(** One label of the loop: the position after it, or [None] for the
    [return false]s. *)
Definition match_label (label msg : list Z) (pos : Z) : outcome False (option Z) :=
  match zget msg pos with
  | None => Done None
  | Some len =>
      if negb (len =? zlen label) then Done None
      else
        let pos := pos + 1 in
        match checked_add pos len with
        | Some end_ =>
            if end_ <=? zlen msg then
              got ← slice msg pos end_;
              if negb (eq_ignore_ascii_case got label) then Done None else Done (Some end_)
            else Done None
        | None => Done None
        end
  end.

Fixpoint match_labels (labels : list (list Z)) (msg : list Z) (pos : Z) : outcome False (option Z) :=
  match labels with
  | [] => Done (Some pos)
  | label :: labels =>
      if is_empty label then match_labels labels msg pos
      else
        next ← match_label label msg pos;
        match next with
        | Some pos => match_labels labels msg pos
        | None => Done None
        end
  end.

(** The question section, after the checks of the header. *)
Definition question_matches (msg : list Z) (expected_name : str) (expected_qtype : Z)
    : outcome False bool :=
  matched ← match_labels (labels_of expected_name) msg 12;
  match matched with
  | None => Done false
  | Some pos =>
      if negb (bool_decide (zget msg pos = Some 0)) then Done false
      else
        let pos := pos + 1 in
        if pos + 4 >? zlen msg then Done false
        else qtype ← read_u16 msg pos; Done (qtype =? expected_qtype)
  end.

Definition response_matches (msg : list Z) (expected_id : Z) (expected_name : str) (expected_qtype : Z)
    : outcome False bool :=
  if zlen msg <? 12 then Done false
  else
    id ← read_u16 msg 0;
    if negb (id =? expected_id) then Done false
    else
      flags ← idx msg 2;
      if Z.land flags 0x80 =? 0 then Done false
      else
        qd ← read_u16 msg 4;
        if negb (qd =? 1) then Done false
        else question_matches msg expected_name expected_qtype.

(** [socks::dns_response_matches]: the same text. *)
Definition dns_response_matches := response_matches.

(** ** Walking the records *)

(** [skip_name]; every turn moves past a byte of the message. *)
Fixpoint skip_name_loop (fuel : nat) (buf : list Z) (pos : Z) : opt Z :=
  match fuel with
  | O => Diverge
  | S fuel =>
      len ← oget (zget buf pos);
      if Z.land len 0xc0 =? 0xc0 then Done (pos + 2)
      else if len =? 0 then Done (pos + 1)
      else skip_name_loop fuel buf (pos + 1 + len)
  end.

Definition skip_name (buf : list Z) (pos : Z) : opt Z :=
  skip_name_loop (S (length buf)) buf pos.

Fixpoint skip_questions (qd : nat) (msg : list Z) (pos : Z) : opt Z :=
  match qd with
  | O => Done pos
  | S qd =>
      pos ← skip_name msg pos;
      pos ← oget (checked_add pos 4);
      skip_questions qd msg pos
  end.

(** The loop over the parameters of an HTTPS record. *)
Fixpoint svcparams_loop (fuel : nat) (msg : list Z) (end_ p : Z) : opt (list Z) :=
  match fuel with
  | O => Diverge
  | S fuel =>
      if p + 4 <=? end_ then
        key ← read_u16 msg p;
        len ← read_u16 msg (p + 2);
        let p := p + 4 in
        if p + len >? end_ then no_value
        else if key =? SVCPARAM_ECH then slice msg p (p + len)
        else svcparams_loop fuel msg end_ (p + len)
      else no_value
  end.

Definition parse_svcparams_ech (msg : list Z) (rdata_start rdlen : Z) : opt (list Z) :=
  let end_ := rdata_start + rdlen in
  if rdata_start + 2 >? end_ then no_value
  else
    p ← skip_name msg (rdata_start + 2);
    svcparams_loop (S (length msg)) msg end_ p.

(** The header of a record: its type, where its data starts and how long it
    is; shared by the two loops below, which have the same text here. *)
Definition record_at (msg : list Z) (pos : Z) : opt (Z * Z * Z) :=
  pos ← skip_name msg pos;
  if pos + 10 >? zlen msg then no_value
  else
    rtype ← read_u16 msg pos;
    rdlen ← read_u16 msg (pos + 8);
    let pos := pos + 10 in
    if pos + rdlen >? zlen msg then no_value else Done (rtype, pos, rdlen).

Fixpoint https_answers (an : nat) (msg : list Z) (pos : Z) : opt (list Z) :=
  match an with
  | O => no_value
  | S an =>
      '(rtype, pos, rdlen) ← record_at msg pos;
      if rtype =? RR_HTTPS then
        match parse_svcparams_ech msg pos rdlen with
        | Done ech => Done ech
        | Fail _ => https_answers an msg (pos + rdlen)
        | Panic => Panic
        | Diverge => Diverge
        end
      else https_answers an msg (pos + rdlen)
  end.

Definition parse_https_ech (msg : list Z) : opt (list Z) :=
  if zlen msg <? 12 then no_value
  else
    qd ← read_u16 msg 4;
    an ← read_u16 msg 6;
    pos ← skip_questions (Z.to_nat qd) msg 12;
    https_answers (Z.to_nat an) msg pos.

Fixpoint a_answers (an : nat) (resp : list Z) (pos : Z) : opt IpAddr :=
  match an with
  | O => no_value
  | S an =>
      '(rtype, pos, rdlen) ← record_at resp pos;
      if (rtype =? 1) && (rdlen =? 4) then
        a ← idx resp pos; b ← idx resp (pos + 1);
        c ← idx resp (pos + 2); d ← idx resp (pos + 3);
        Done (V4 [a; b; c; d])
      else a_answers an resp (pos + rdlen)
  end.

Definition parse_dns_a (resp : list Z) : opt IpAddr :=
  if zlen resp <? 12 then no_value
  else
    qd ← read_u16 resp 4;
    an ← read_u16 resp 6;
    pos ← skip_questions (Z.to_nat qd) resp 12;
    a_answers (Z.to_nat an) resp pos.

(** ** The exchanges *)

Definition BOOTSTRAP_DNS : list str := [lit "1.1.1.1:53"; lit "1.0.0.1:53"; lit "8.8.8.8:53"].
Definition ECH_HOSTS : list str := [lit "cloudflare-ech.com"; lit "crypto.cloudflare.com"].

(** What the wait for a datagram ends in. *)
Inductive dns_event :=
| Reply (data : list Z)
| Failed (e : AetherError)
| Deadline.

(** The receive loop of [query_ech]; the socket delivers at most 4096 bytes.
    An empty list of events is a wait that never ends. *)
Fixpoint await_ech (events : list dns_event) (id : Z) (host : str) : aresult (list Z) :=
  match events with
  | [] => Diverge
  | Deadline :: _ => Fail (Ech (lit "dns timeout"))
  | Failed e :: _ => Fail e
  | Reply data :: events =>
      let msg := ztake 4096 data in
      match response_matches msg id host RR_HTTPS with
      | Done false => await_ech events id host
      | Done true => map_err (fun _ => Ech (lit "no ech svcparam")) (parse_https_ech msg)
      | _ => Panic
      end
  end.

(** [fetch_ech_config]: every host is tried at every server; [query_ech] is the
    exchange with one server, sockets and clock included. *)
Fixpoint try_servers (query_ech : SocketAddr -> str -> aresult (list Z)) (host : str)
    (servers : list str) : outcome False (option (list Z)) :=
  match servers with
  | [] => Done None
  | server :: servers =>
      match parse_socket_addr server with
      | None => try_servers query_ech host servers
      | Some addr =>
          match query_ech addr host with
          | Done ech => if is_empty ech then try_servers query_ech host servers else Done (Some ech)
          | Fail _ => try_servers query_ech host servers
          | Panic => Panic
          | Diverge => Diverge
          end
      end
  end.

Fixpoint try_hosts (query_ech : SocketAddr -> str -> aresult (list Z)) (hosts servers : list str)
    : aresult (list Z) :=
  match hosts with
  | [] => Fail (Ech (lit "no ECHConfigList resolved"))
  | host :: hosts =>
      match try_servers query_ech host servers with
      | Done (Some ech) => Done ech
      | Done None => try_hosts query_ech hosts servers
      | Fail _ | Panic => Panic
      | Diverge => Diverge
      end
  end.

Definition fetch_ech_config (query_ech : SocketAddr -> str -> aresult (list Z)) : aresult (list Z) :=
  try_hosts query_ech ECH_HOSTS BOOTSTRAP_DNS.

(** [socks::resolver_addresses] *)
Definition resolver_entry (token : str) : option SocketAddr :=
  let entry := trim token in
  match entry with
  | [] => None
  | _ =>
      match parse_socket_addr entry with
      | Some a => Some a
      | None => (fun ip => sock ip 53) <$> parse_ip entry
      end
  end.

Definition add_server (servers : list SocketAddr) (token : str) : list SocketAddr :=
  match resolver_entry token with
  | Some server => if bool_decide (server ∈ servers) then servers else servers ++ [server]
  | None => servers
  end.

Definition is_dns_separator (c : Z) : bool := (c =? 44) || (c =? 32) || (c =? 59).

Definition unwrap {E A} (o : option A) : outcome E A :=
  match o with Some a => Done a | None => Panic end.

Definition resolver_addresses (env : environment) : outcome False (list SocketAddr) :=
  let configured := default [] (env (lit "AETHER_DNS")) in
  let servers := fold_left add_server (split_by is_dns_separator configured) [] in
  match servers with
  | [] =>
      a ← unwrap (parse_socket_addr (lit "1.1.1.1:53"));
      b ← unwrap (parse_socket_addr (lit "1.0.0.1:53"));
      Done [a; b]
  | _ => Done servers
  end.

(** The receive loop of [dns_exchange] for one server: an answer, or the error
    it leaves and the events still to come. *)
Inductive exchange_step :=
| Answered (r : aresult IpAddr)
| NextServer (last : AetherError) (events : list dns_event).

Fixpoint await_a (events : list dns_event) (id : Z) (name server : str) : exchange_step :=
  match events with
  | [] => Answered Diverge
  | Failed _ :: _ => Answered (Fail (Other (lit "dns channel closed")))
  | Deadline :: events => NextServer (Other (lit "dns timeout from " ++ server)) events
  | Reply resp :: events =>
      match dns_response_matches resp id name QTYPE_A with
      | Done false => await_a events id name server
      | Done true =>
          Answered (map_err (fun _ => Other (lit "no A record for " ++ name)) (parse_dns_a resp))
      | _ => Answered Panic
      end
  end.

(** [dns_exchange]: [send] is the send of a query to a server, [ids] the random
    identifiers, one per query; the flow's queue, and so [events], is shared
    by all the servers. *)
Fixpoint dns_exchange (send : SocketAddr -> list Z -> option AetherError)
    (name : str) (servers : list SocketAddr) (ids : nat -> Z) (events : list dns_event)
    (last : AetherError) : aresult IpAddr :=
  match servers with
  | [] => Fail last
  | server :: servers =>
      let '(query, id) := build_dns_query (ids 0%nat) name QTYPE_A in
      match send server query with
      | Some error => dns_exchange send name servers (ids ∘ S) events error
      | None =>
          match await_a events id name (show_socket_addr server) with
          | Answered r => r
          | NextServer last events => dns_exchange send name servers (ids ∘ S) events last
          end
      end
  end.

Example dns_examples :
  let q := (build_query 4660 (lit "a.bc.") 65).1 in
  q = [18; 52; 1; 0; 0; 1; 0; 0; 0; 0; 0; 0; 1; 97; 2; 98; 99; 0; 0; 65; 0; 1] /\
  response_matches (<[2%nat := 129]> q) 4660 (lit "A.bC") 65 = Done true /\
  response_matches (<[2%nat := 129]> q) 4660 (lit "a.bd") 65 = Done false /\
  parse_dns_a ([18; 52; 129; 0; 0; 1; 0; 2; 0; 0; 0; 0; 1; 97; 2; 98; 99; 0; 0; 1; 0; 1]
    ++ [192; 12; 0; 5; 0; 1; 0; 0; 0; 9; 0; 2; 192; 14]
    ++ [192; 12; 0; 1; 0; 1; 0; 0; 0; 9; 0; 4; 10; 1; 2; 3]) = Done (V4 [10; 1; 2; 3]) /\
  resolver_addresses (fun _ => Some (lit " 9.9.9.9;8.8.8.8:5353, 9.9.9.9:53")) =
    Done [sock (V4 [9; 9; 9; 9]) 53; sock (V4 [8; 8; 8; 8]) 5353].
Proof. vm_compute. done. Qed.

(** ** Facts *)

Lemma byte_forall (P : Z -> bool) :
  forallb P (seqZ 0 256) = true -> forall b, byte_ok b -> P b = true.
Proof.
  intros H b Hb. rewrite forallb_forall in H. apply H.
  apply list_elem_of_In, elem_of_seqZ. unfold byte_ok in Hb. lia.
Qed.

Lemma pointer_byte b : byte_ok b -> (Z.land b 0xc0 =? 0xc0) = (192 <=? b).
Proof.
  intros Hb. apply eqb_prop.
  apply (byte_forall (fun b => eqb (Z.land b 0xc0 =? 0xc0) (192 <=? b))); [|done].
  vm_compute. done.
Qed.

Lemma flag_byte b : byte_ok b -> (Z.land b 0x80 =? 0) = (b <? 128).
Proof.
  intros Hb. apply eqb_prop.
  apply (byte_forall (fun b => eqb (Z.land b 0x80 =? 0) (b <? 128))); [|done].
  vm_compute. done.
Qed.

Lemma wp_read_u16 {E} msg p (Q : Z -> Prop) (R : E -> Prop) :
  bytes_ok msg -> 0 <= p -> p + 2 <= zlen msg ->
  (forall v, 0 <= v < 65536 -> Q v) -> wp (read_u16 msg p) Q R.
Proof.
  intros Hm Hp Hl HQ. unfold read_u16.
  apply wp_bind, wp_idx; [lia|]. intros a Ha.
  apply wp_bind, wp_idx; [lia|]. intros b Hb.
  apply HQ. apply bytes_ok_zget in Ha, Hb; try done. unfold byte_ok, be_u16 in *. lia.
Qed.

Lemma read_u16_at {E} l v k p :
  p = zlen l -> 0 <= v < 65536 -> read_u16 (E := E) (l ++ be_bytes 2 v ++ k) p = Done v.
Proof.
  intros -> Hv. unfold read_u16, idx. rewrite be_bytes_2. cbn [app].
  rewrite (zget_app_mid l _ _ (zlen l)) by lia. cbn [mbind outcome_bind].
  rewrite zget_app_r by lia.
  replace (zlen l + 1 - zlen l) with 1 by lia.
  change (zget ?h 1) with (zget h (zlen [(v / 256) `mod` 256])).
  change (?a :: ?b :: k) with ([a] ++ b :: k). rewrite zget_app_mid by done.
  cbn [mbind outcome_bind]. by rewrite be_u16_bytes.
Qed.

(** *** No input breaks the parsers *)

Lemma skip_name_loop_total fuel buf pos :
  bytes_ok buf -> 0 <= pos -> zlen buf - pos < Z.of_nat fuel -> (0 < fuel)%nat ->
  wp (skip_name_loop fuel buf pos) (fun p => pos < p) (fun _ => True).
Proof.
  intros Hb. revert pos. induction fuel as [|fuel IH]; intros pos Hp Hf Hpos; [lia|].
  cbn [skip_name_loop]. apply wp_bind, wp_oget; [|done]. intros len Hl.
  pose proof (zget_Some_lt _ _ _ Hl). apply bytes_ok_zget in Hl; [|done]. unfold byte_ok in Hl.
  destruct (Z.land len 192 =? 192); [cbn; lia|].
  destruct (Z.eqb_spec len 0); [cbn; lia|].
  eapply wp_mono; [apply IH; lia| |done]. cbn. lia.
Qed.

Lemma skip_name_total buf pos :
  bytes_ok buf -> 0 <= pos -> wp (skip_name buf pos) (fun p => pos < p) (fun _ => True).
Proof. intros. apply skip_name_loop_total; try done; unfold zlen; lia. Qed.

Lemma skip_questions_total qd msg pos :
  bytes_ok msg -> 0 <= pos -> wp (skip_questions qd msg pos) (fun p => 0 <= p) (fun _ => True).
Proof.
  intros Hm. revert pos. induction qd as [|qd IH]; intros pos Hp; cbn [skip_questions]; [done|].
  apply wp_bind. eapply wp_mono; [by apply skip_name_total| |done]. intros p Hlt. cbv beta in Hlt.
  apply wp_bind, wp_oget; [|done]. intros p' Hc. apply IH.
  unfold checked_add in Hc. destruct (_ <=? _); [|done]. injection Hc as <-. lia.
Qed.

Lemma svcparams_loop_total fuel msg end_ p :
  bytes_ok msg -> end_ <= zlen msg -> 0 <= p -> end_ - p < Z.of_nat fuel -> (0 < fuel)%nat ->
  terminates (svcparams_loop fuel msg end_ p).
Proof.
  intros Hm He. revert p. induction fuel as [|fuel IH]; intros p Hp Hf Hpos; [lia|].
  cbn [svcparams_loop]. destruct (Z.leb_spec (p + 4) end_) as [Hle|]; [|done].
  apply wp_bind, wp_read_u16; [done|lia..|]. intros key _.
  apply wp_bind, wp_read_u16; [done|lia..|]. intros len Hlen.
  destruct (Z.gtb_spec (p + 4 + len) end_); [done|].
  destruct (key =? SVCPARAM_ECH); [apply wp_slice; [lia..|done]|]. apply IH; lia.
Qed.

Lemma parse_svcparams_ech_total msg start rdlen :
  bytes_ok msg -> 0 <= start -> 0 <= rdlen -> start + rdlen <= zlen msg ->
  terminates (parse_svcparams_ech msg start rdlen).
Proof.
  intros Hm Hs Hr Hl. unfold parse_svcparams_ech.
  destruct (Z.gtb_spec (start + 2) (start + rdlen)); [done|].
  apply wp_bind. eapply wp_mono; [apply skip_name_total; [done|lia]| |done]. intros p Hp. cbv beta in Hp.
  apply svcparams_loop_total; unfold zlen in *; try done; lia.
Qed.

Lemma record_at_total msg pos :
  bytes_ok msg -> 0 <= pos ->
  wp (record_at msg pos)
     (fun '(rtype, p, rdlen) => pos < p /\ 0 <= rdlen /\ p + rdlen <= zlen msg) (fun _ => True).
Proof.
  intros Hm Hp. unfold record_at.
  apply wp_bind. eapply wp_mono; [by apply skip_name_total| |done]. intros p Hlt. cbv beta in Hlt.
  destruct (Z.gtb_spec (p + 10) (zlen msg)); [done|].
  apply wp_bind, wp_read_u16; [done|lia..|]. intros rtype _.
  apply wp_bind, wp_read_u16; [done|lia..|]. intros rdlen Hr.
  destruct (Z.gtb_spec (p + 10 + rdlen) (zlen msg)); [done|]. cbn. lia.
Qed.

Lemma https_answers_total an msg pos :
  bytes_ok msg -> 0 <= pos -> terminates (https_answers an msg pos).
Proof.
  intros Hm. revert pos. induction an as [|an IH]; intros pos Hp; cbn [https_answers]; [done|].
  apply wp_bind. eapply wp_mono; [by apply record_at_total| |done].
  intros [[rtype p] rdlen] (Hlt & Hr & Hl).
  destruct (rtype =? RR_HTTPS); [|apply IH; lia].
  pose proof (parse_svcparams_ech_total msg p rdlen) as Ht. unfold terminates in Ht.
  destruct (parse_svcparams_ech msg p rdlen); [done|apply IH; lia|apply Ht; auto; lia..].
Qed.

Lemma a_answers_total an msg pos :
  bytes_ok msg -> 0 <= pos -> wp (a_answers an msg pos) ip_ok (fun _ => True).
Proof.
  intros Hm. revert pos. induction an as [|an IH]; intros pos Hp; cbn [a_answers]; [done|].
  apply wp_bind. eapply wp_mono; [by apply record_at_total| |done].
  intros [[rtype p] rdlen] (Hlt & Hr & Hl).
  destruct ((rtype =? 1) && (rdlen =? 4)) eqn:E; [|apply IH; lia].
  apply andb_prop in E as [_ E]. apply Z.eqb_eq in E. subst rdlen.
  do 4 (apply wp_bind, wp_idx; [lia|]; intros ? ?%bytes_ok_zget; [|done]).
  cbn. split; [done|]. auto with bytes.
Qed.

Lemma parse_https_ech_total msg : bytes_ok msg -> terminates (parse_https_ech msg).
Proof.
  intros Hm. unfold parse_https_ech. destruct (Z.ltb_spec (zlen msg) 12); [done|].
  apply wp_bind, wp_read_u16; [done|lia..|]. intros qd _.
  apply wp_bind, wp_read_u16; [done|lia..|]. intros an _.
  apply wp_bind. eapply wp_mono; [apply skip_questions_total; [done|lia]| |done].
  intros. by apply https_answers_total.
Qed.

Lemma parse_dns_a_total msg : bytes_ok msg -> wp (parse_dns_a msg) ip_ok (fun _ => True).
Proof.
  intros Hm. unfold parse_dns_a. destruct (Z.ltb_spec (zlen msg) 12); [done|].
  apply wp_bind, wp_read_u16; [done|lia..|]. intros qd _.
  apply wp_bind, wp_read_u16; [done|lia..|]. intros an _.
  apply wp_bind. eapply wp_mono; [apply skip_questions_total; [done|lia]| |done].
  intros. by apply a_answers_total.
Qed.

(** *** The response check, declaratively *)

(** A question name on the wire that spells the labels, up to ASCII case. *)
Inductive spells : list (list Z) -> list Z -> Prop :=
| spells_nil : spells [] []
| spells_empty ls q : spells ls q -> spells ([] :: ls) q
| spells_cons l ls bs q :
    l <> [] -> zlen bs = zlen l -> eq_ignore_ascii_case bs l = true -> spells ls q ->
    spells (l :: ls) (zlen bs :: bs ++ q).

Lemma eq_ignore_length a b : eq_ignore_ascii_case a b = true -> zlen a = zlen b.
Proof.
  unfold eq_ignore_ascii_case. intros H%str_eqb_eq. unfold zlen.
  rewrite <- (to_ascii_lowercase_length a), <- (to_ascii_lowercase_length b). by rewrite H.
Qed.

Lemma match_label_spec l pre rest :
  zlen pre + zlen rest < 2 ^ 62 ->
  exists r, match_label l (pre ++ rest) (zlen pre) = Done r /\
  match r with
  | Some e => exists bs k, rest = zlen l :: bs ++ k /\ e = zlen pre + 1 + zlen l /\
                zlen bs = zlen l /\ eq_ignore_ascii_case bs l = true
  | None => forall bs k, rest = zlen l :: bs ++ k -> zlen bs = zlen l ->
                eq_ignore_ascii_case bs l = false
  end.
Proof.
  intros Hbig. unfold match_label. pose proof (zlen_nonneg l). pose proof (zlen_nonneg pre).
  destruct rest as [|n rest].
  { rewrite app_nil_r, zget_None by lia. by eexists. }
  rewrite zget_app_mid by done.
  destruct (Z.eqb_spec n (zlen l)) as [->|Hn]; cbn [negb].
  2:{ eexists. split; [done|]. naive_solver. }
  rewrite zlen_cons in Hbig. pose proof (zlen_nonneg rest). unfold checked_add.
  rewrite zlen_app, zlen_cons.
  destruct (Z.leb_spec (zlen pre + 1 + zlen l) (zlen pre + (1 + zlen rest))) as [Hle|Hgt].
  2:{ exists None. split; [destruct (_ <=? u64_max); [|done]; by rewrite (proj2 (Z.leb_gt _ _) Hgt)|].
      intros bs k [= ->] ?. rewrite zlen_app in Hgt. pose proof (zlen_nonneg k). lia. }
  rewrite (proj2 (Z.leb_le (zlen pre + 1 + zlen l) u64_max)) by (unfold u64_max; lia).
  rewrite (proj2 (Z.leb_le _ _) Hle).
  rewrite <- (ztake_zdrop (zlen l) rest).
  assert (Hbs : zlen (ztake (zlen l) rest) = zlen l) by (rewrite zlen_ztake; lia).
  set (bs := ztake (zlen l) rest) in *. set (k := zdrop (zlen l) rest). clearbody bs k.
  assert (Hs : slice (E := False) (pre ++ zlen l :: bs ++ k) (zlen pre + 1) (zlen pre + 1 + zlen l) = Done bs).
  { unfold slice. rewrite (proj2 (in_slice_true _ _ _)).
    - change (zlen l :: bs ++ k) with ([zlen l] ++ (bs ++ k)). rewrite app_assoc.
      f_equal. apply zsub_app_mid; rewrite ?zlen_app, ?Hbs; done.
    - rewrite zlen_app, zlen_cons, zlen_app. pose proof (zlen_nonneg k). lia. }
  rewrite Hs. cbn [mbind outcome_bind]. destruct (eq_ignore_ascii_case bs l) eqn:Eci; cbn [negb].
  - eexists. split; [done|]. by exists bs, k.
  - eexists. split; [done|]. intros bs' k' [= Heq] Hl.
    apply app_inj_1 in Heq as [-> _]; [done|]. unfold zlen in *. lia.
Qed.

Lemma spells_inv l ls q :
  l <> [] -> spells (l :: ls) q ->
  exists bs q', q = zlen l :: bs ++ q' /\ zlen bs = zlen l /\
    eq_ignore_ascii_case bs l = true /\ spells ls q'.
Proof.
  intros Hl Hs. inversion Hs as [| |l' ls' bs q' _ Hlen Hci Hs' Heq]; subst; [done|].
  exists bs, q'. by rewrite Hlen.
Qed.

(** The loop finds the name at the start of [rest], or there is none. *)
Lemma match_labels_spec ls pre rest :
  zlen pre + zlen rest < 2 ^ 62 ->
  exists r, match_labels ls (pre ++ rest) (zlen pre) = Done r /\
  match r with
  | Some e => exists q k, rest = q ++ k /\ e = zlen pre + zlen q /\ spells ls q
  | None => forall q k, rest = q ++ k -> ~ spells ls q
  end.
Proof.
  revert pre rest. induction ls as [|l ls IH]; intros pre rest Hbig; cbn [match_labels].
  { eexists. split; [done|]. exists [], rest. split_and!; [done|unfold zlen; cbn; lia|constructor]. }
  unfold is_empty. destruct (Z.eqb_spec (zlen l) 0) as [Hz|Hz].
  { apply zlen_zero_inv in Hz as ->. destruct (IH pre rest Hbig) as (r & -> & Hr).
    exists r. split; [done|]. destruct r as [e|].
    - destruct Hr as (q & k & ? & ? & ?). exists q, k. split_and!; [done..|by constructor].
    - intros q k Hq Hs. inversion Hs; subst; [by eapply Hr|done]. }
  assert (Hne : l <> []) by (intros ->; done).
  destruct (match_label_spec l pre rest Hbig) as ([e|] & -> & Hr); cbn [mbind outcome_bind].
  2:{ eexists. split; [done|]. intros q k -> Hs.
      apply spells_inv in Hs as (bs & q' & -> & Hl & Hci & _); [|done].
      specialize (Hr bs (q' ++ k)). rewrite Hci in Hr. discriminate Hr; [|done].
      cbn. by rewrite <- app_assoc. }
  destruct Hr as (bs & k & -> & -> & Hl & Hci).
  assert (Hpre : pre ++ zlen l :: bs ++ k = (pre ++ zlen l :: bs) ++ k) by (by rewrite <- app_assoc).
  assert (Hlen : zlen pre + 1 + zlen l = zlen (pre ++ zlen l :: bs))
    by (rewrite zlen_app, zlen_cons; lia).
  rewrite Hpre, Hlen. destruct (IH (pre ++ zlen l :: bs) k) as (r & -> & Hr).
  { rewrite <- Hlen. rewrite zlen_cons, zlen_app in Hbig. lia. }
  exists r. split; [done|]. destruct r as [e|].
  - destruct Hr as (q & k' & -> & -> & Hs). exists (zlen bs :: bs ++ q), k'.
    split_and!; [rewrite Hl; cbn; by rewrite <- app_assoc| |by constructor].
    rewrite <- Hlen, zlen_cons, zlen_app. lia.
  - intros q k' Hq Hs. apply spells_inv in Hs as (bs' & q' & -> & Hl' & _ & Hs); [|done].
    cbn in Hq. rewrite <- app_assoc in Hq. injection Hq as Hq.
    apply app_inj_1 in Hq as [_ ->]; [by eapply Hr|]. unfold zlen in *. lia.
Qed.

Lemma spells_len ls q q' : spells ls q -> spells ls q' -> zlen q = zlen q'.
Proof.
  intros Hs. revert q'. induction Hs as [|ls q Hs IH|l ls bs q Hl Hlen Hci Hs IH]; intros q' Hs'.
  - by inversion Hs'.
  - inversion Hs'; subst; [by apply IH|done].
  - apply spells_inv in Hs' as (bs' & q'' & -> & Hl' & _ & Hs'); [|done].
    apply IH in Hs'. rewrite !zlen_cons, !zlen_app. lia.
Qed.

Lemma be_u16_eq a b v :
  byte_ok a -> byte_ok b -> 0 <= v < 65536 -> be_u16 a b = v <-> [a; b] = be_bytes 2 v.
Proof.
  unfold byte_ok, be_u16. intros Ha Hb Hv. rewrite be_bytes_2. split.
  - intros <-. f_equal; [|f_equal]; Z.div_mod_to_equations; lia.
  - intros [= -> ->]. by apply be_u16_bytes.
Qed.

(** What a question section must look like. *)
Definition question (name : str) (qtype : Z) (section : list Z) : Prop :=
  exists q rest, section = q ++ [0] ++ be_bytes 2 qtype ++ rest /\
    spells (labels_of name) q /\ 2 <= zlen rest.

Lemma question_matches_spec pre rest name qtype :
  zlen pre = 12 -> bytes_ok rest -> zlen rest < 2 ^ 61 -> 0 <= qtype < 65536 ->
  exists b, question_matches (pre ++ rest) name qtype = Done b /\ (b = true <-> question name qtype rest).
Proof.
  intros Hpre Hok Hbig Hqt. unfold question_matches, question. rewrite <- Hpre.
  destruct (match_labels_spec (labels_of name) pre rest) as ([e|] & -> & Hr); [lia|..];
    cbn [mbind outcome_bind].
  2:{ eexists. split; [done|]. split; [done|]. intros (q & r & -> & Hs & _). by eapply Hr in Hs. }
  destruct Hr as (q & k & -> & -> & Hs).
  assert (Hsame : forall q' r, q ++ k = q' ++ [0] ++ be_bytes 2 qtype ++ r ->
    spells (labels_of name) q' -> k = 0 :: be_bytes 2 qtype ++ r).
  { intros q' r Heq Hs'. pose proof (spells_len _ _ _ Hs Hs') as Hl.
    apply app_inj_1 in Heq as [_ ->]; [done|]. unfold zlen in Hl. lia. }
  replace (zlen pre + zlen q) with (zlen (pre ++ q)) by (by rewrite zlen_app).
  rewrite app_assoc. destruct k as [|z k].
  { rewrite zget_None by (rewrite app_nil_r; lia). eexists. split; [done|]. split; [done|].
    intros (q' & r & Heq & Hs' & _). by apply Hsame in Heq. }
  rewrite zget_app_mid by done. case_bool_decide as Hz; cbn [negb].
  2:{ eexists. split; [done|]. split; [done|].
      intros (q' & r & Heq & Hs' & _). apply Hsame in Heq; [|done]. congruence. }
  injection Hz as ->. rewrite (zlen_app (pre ++ q)), zlen_cons.
  destruct (Z.gtb_spec (zlen (pre ++ q) + 1 + 4) (zlen (pre ++ q) + (1 + zlen k))) as [Hlt|Hge].
  { eexists. split; [done|]. split; [done|].
    intros (q' & r & Heq & Hs' & ?). apply Hsame in Heq; [|done].
    apply (f_equal zlen) in Heq. rewrite !zlen_cons, zlen_app, zlen_be_bytes in Heq. lia. }
  destruct k as [|a [|b k]]; [unfold zlen in Hge; cbn in Hge; lia..|].
  apply bytes_ok_app in Hok as [_ Hok]. inversion Hok as [|? ? _ Hok1]; subst.
  inversion Hok1 as [|? ? Ha Hok2]; subst. inversion Hok2 as [|? ? Hb _]; subst.
  rewrite !zlen_cons in Hge.
  assert (Hab : 0 <= be_u16 a b < 65536) by (unfold be_u16, byte_ok in *; lia).
  assert (Hrd : read_u16 (E := False) ((pre ++ q) ++ 0 :: a :: b :: k) (zlen (pre ++ q) + 1) = Done (be_u16 a b)).
  { replace (a :: b :: k) with (be_bytes 2 (be_u16 a b) ++ k).
    - change (0 :: ?l) with ([0] ++ l). rewrite (app_assoc (pre ++ q)).
      apply read_u16_at; [by rewrite (zlen_app (pre ++ q))|done].
    - by rewrite <- (proj1 (be_u16_eq a b _ Ha Hb Hab) eq_refl). }
  rewrite Hrd. cbn [mbind outcome_bind]. eexists. split; [done|]. rewrite Z.eqb_eq, be_u16_eq by done.
  split.
  - intros <-. exists q, k. split_and!; [done|done|lia].
  - intros (q' & r & Heq & Hs' & ?). apply Hsame in Heq; [|done]. rewrite be_bytes_2 in *.
    by injection Heq as -> ->.
Qed.

Lemma header_split (msg : list Z) : 12 <= zlen msg ->
  exists a b f g c d h rest, msg = [a; b; f; g; c; d] ++ h ++ rest /\ zlen h = 6.
Proof.
  intros Hl.
  destruct msg as [|a [|b [|f [|g [|c [|d rest]]]]]]; try (unfold zlen in Hl; cbn in Hl; lia).
  exists a, b, f, g, c, d, (ztake 6 rest), (zdrop 6 rest). rewrite ztake_zdrop.
  split; [done|]. rewrite !zlen_cons in Hl. apply zlen_ztake. lia.
Qed.

Lemma header_inv id a b f g c d h rest f' g' h' sec :
  zlen h = 6 -> [a; b; f; g; c; d] ++ h ++ rest =
    be_bytes 2 id ++ [f'; g'] ++ be_bytes 2 1 ++ h' ++ sec -> zlen h' = 6 ->
  [a; b] = be_bytes 2 id /\ f = f' /\ [c; d] = be_bytes 2 1 /\ rest = sec.
Proof.
  intros Hh Heq Hh'. rewrite !be_bytes_2 in *. injection Heq as -> -> -> -> -> -> Heq.
  apply app_inj_1 in Heq as [-> ->]; [done|]. unfold zlen in *. lia.
Qed.

Lemma response_matches_spec msg id name qtype :
  bytes_ok msg -> zlen msg < 2 ^ 61 -> 0 <= id < 65536 -> 0 <= qtype < 65536 ->
  exists b, response_matches msg id name qtype = Done b /\
  (b = true <-> exists flags lo counts section,
     msg = be_bytes 2 id ++ [flags; lo] ++ be_bytes 2 1 ++ counts ++ section /\
     128 <= flags /\ zlen counts = 6 /\ question name qtype section).
Proof.
  intros Hok Hbig Hid Hqt. unfold response_matches.
  destruct (Z.ltb_spec (zlen msg) 12) as [Hlt|Hge].
  { eexists. split; [done|]. split; [done|]. intros (f & g & h & sec & -> & _ & Hh & _).
    rewrite !zlen_app, !zlen_be_bytes in Hlt. change (zlen [f; g]) with 2 in Hlt.
    pose proof (zlen_nonneg sec). lia. }
  destruct (header_split msg Hge) as (a & b & f & g & c & d & h & rest & -> & Hh).
  assert (Hrest : bytes_ok rest) by (rewrite !bytes_ok_app in Hok; tauto).
  apply bytes_ok_app in Hok as [Hok _]. unfold bytes_ok in Hok. rewrite !Forall_cons_iff in Hok.
  destruct Hok as (Ha & Hb & Hf & _ & Hc & Hd & _).
  pose proof (fun f' g' h' sec => header_inv id a b f g c d h rest f' g' h' sec Hh) as Hinv.
  change (read_u16 ([a; b; f; g; c; d] ++ h ++ rest) 0) with (Done (E := False) (be_u16 a b)).
  cbn [mbind outcome_bind].
  destruct (Z.eqb_spec (be_u16 a b) id) as [Eid|Eid]; cbn [negb].
  2:{ eexists. split; [done|]. split; [done|]. intros (f' & g' & h' & sec & Heq & _ & Hh' & _).
      apply Hinv in Heq as (Heq & _); [|done]. by apply be_u16_eq in Heq. }
  change (idx ([a; b; f; g; c; d] ++ h ++ rest) 2) with (Done (E := False) f). cbn [mbind outcome_bind].
  rewrite flag_byte by done. destruct (Z.ltb_spec f 128) as [Ef|Ef].
  { eexists. split; [done|]. split; [done|]. intros (f' & g' & h' & sec & Heq & ? & Hh' & _).
    apply Hinv in Heq as (_ & -> & _); [|done]. lia. }
  change (read_u16 ([a; b; f; g; c; d] ++ h ++ rest) 4) with (Done (E := False) (be_u16 c d)).
  cbn [mbind outcome_bind].
  destruct (Z.eqb_spec (be_u16 c d) 1) as [Eqd|Eqd]; cbn [negb].
  2:{ eexists. split; [done|]. split; [done|]. intros (f' & g' & h' & sec & Heq & _ & Hh' & _).
      apply Hinv in Heq as (_ & _ & Heq & _); [|done]. apply be_u16_eq in Heq; try done; lia. }
  rewrite app_assoc.
  destruct (question_matches_spec ([a; b; f; g; c; d] ++ h) rest name qtype) as (r & -> & Hr); try done.
  { by rewrite zlen_app, Hh. }
  { rewrite !zlen_app in Hbig. pose proof (zlen_nonneg h). unfold zlen in *. cbn in *. lia. }
  eexists. split; [done|]. rewrite Hr. split.
  - intros Hq. exists f, g, h, rest. split_and!; [|done..].
    apply be_u16_eq in Eid; [|done..]. apply be_u16_eq in Eqd; [|done..]. rewrite <- Eid, <- Eqd. by rewrite <- app_assoc.
  - intros (f' & g' & h' & sec & Heq & _ & Hh' & Hq). rewrite <- app_assoc in Heq.
    apply Hinv in Heq as (_ & _ & _ & ->); done.
Qed.

(** The check that a DNS reply answers the query sent is exact: a message
    passes if and only if it carries the query's identifier, has the response
    bit set, has exactly one question, and that question spells the name asked
    for, up to ASCII case and empty labels, with the type asked for and a class
    after it.  No message makes the check panic. *)
Lemma response_matches_iff msg id name qtype :
  bytes_ok msg -> zlen msg < 2 ^ 61 -> 0 <= id < 65536 -> 0 <= qtype < 65536 ->
  exists b, response_matches msg id name qtype = Done b /\
  (b = true <-> exists flags lo counts section,
     msg = be_bytes 2 id ++ [flags; lo] ++ be_bytes 2 1 ++ counts ++ section /\
     128 <= flags /\ zlen counts = 6 /\ question name qtype section).
Proof. apply response_matches_spec. Qed.

Definition sample_reply : list Z :=
  [18; 52; 129; 128; 0; 1; 0; 1; 0; 0; 0; 0; 1; 65; 2; 98; 99; 0; 0; 1; 0; 1;
   192; 12; 0; 1; 0; 1; 0; 0; 0; 9; 0; 4; 10; 1; 2; 3].

Lemma response_matches_iff_witness :
  exists b, response_matches sample_reply 4660 (lit "a.bc") 1 = Done b /\
  (b = true <-> exists flags lo counts section,
     sample_reply = be_bytes 2 4660 ++ [flags; lo] ++ be_bytes 2 1 ++ counts ++ section /\
     128 <= flags /\ zlen counts = 6 /\ question (lit "a.bc") 1 section).
Proof.
  apply (response_matches_iff sample_reply 4660 (lit "a.bc") 1); [|vm_compute; done|lia..].
  apply (bool_decide_unpack _). vm_compute. done.
Defined.

(** *** Finding the records *)

(** A name on the wire: labels, then the root or a compression pointer. *)
Inductive encoded_name : list Z -> Prop :=
| name_root : encoded_name [0]
| name_pointer a b : 192 <= a < 256 -> encoded_name [a; b]
| name_label l q : 1 <= zlen l <= 63 -> encoded_name q -> encoded_name (zlen l :: l ++ q).

Lemma name_nonempty q : encoded_name q -> 1 <= zlen q.
Proof. destruct 1; rewrite ?zlen_cons, ?zlen_app; unfold zlen; lia. Qed.

Lemma skip_name_loop_at fuel pre q post :
  encoded_name q -> zlen q <= Z.of_nat fuel ->
  skip_name_loop fuel (pre ++ q ++ post) (zlen pre) = Done (zlen pre + zlen q).
Proof.
  intros Hq. revert fuel pre. induction Hq as [|a b Ha|l q Hl Hq IH]; intros fuel pre Hf.
  all: destruct fuel as [|fuel]; [rewrite ?zlen_cons in Hf; pose proof (zlen_nonneg (A := Z)); unfold zlen in *; cbn in Hf; lia|].
  - cbn [skip_name_loop app]. rewrite zget_app_mid by done. done.
  - cbn [skip_name_loop app]. rewrite zget_app_mid by done. cbn [oget mbind outcome_bind].
    rewrite pointer_byte by (unfold byte_ok; lia). by rewrite (proj2 (Z.leb_le 192 a)) by lia.
  - cbn [skip_name_loop app]. rewrite zget_app_mid by done. cbn [oget mbind outcome_bind].
    rewrite pointer_byte by (unfold byte_ok; lia). rewrite (proj2 (Z.leb_gt 192 (zlen l))) by lia.
    destruct (Z.eqb_spec (zlen l) 0); [lia|].
    rewrite <- app_assoc. change (zlen l :: l ++ q ++ post) with ((zlen l :: l) ++ q ++ post).
    rewrite app_assoc.
    replace (zlen pre + 1 + zlen l) with (zlen (pre ++ zlen l :: l)) by (rewrite zlen_app, zlen_cons; lia).
    rewrite IH by (rewrite zlen_cons, zlen_app in Hf; pose proof (zlen_nonneg l); lia).
    f_equal. rewrite zlen_app, !zlen_cons, zlen_app. lia.
Qed.

Lemma skip_name_at pre q post :
  encoded_name q -> skip_name (pre ++ q ++ post) (zlen pre) = Done (zlen pre + zlen q).
Proof.
  intros Hq. apply skip_name_loop_at; [done|]. unfold zlen. rewrite !length_app. lia.
Qed.

(** A resource record; the class and the time to live are not read. *)
Record rr := mkRr { rr_name : list Z; rr_type : Z; rr_fixed : list Z; rr_data : list Z }.

Definition rr_bytes (r : rr) : list Z :=
  rr_name r ++ be_bytes 2 (rr_type r) ++ rr_fixed r ++ be_bytes 2 (zlen (rr_data r)) ++ rr_data r.

Definition rr_ok (r : rr) : Prop :=
  encoded_name (rr_name r) /\ 0 <= rr_type r < 65536 /\ zlen (rr_fixed r) = 6 /\
  zlen (rr_data r) < 65536.

Lemma record_at_rr pre r post :
  rr_ok r -> record_at (pre ++ rr_bytes r ++ post) (zlen pre) =
  Done (rr_type r, zlen pre + zlen (rr_name r) + 10, zlen (rr_data r)).
Proof.
  intros (Hn & Ht & Hf & Hd). unfold record_at, rr_bytes.
  rewrite <- !app_assoc, skip_name_at by done. cbn [mbind outcome_bind].
  pose proof (zlen_nonneg (rr_data r)). pose proof (zlen_nonneg post).
  assert (Hlen : zlen (pre ++ rr_name r ++ be_bytes 2 (rr_type r) ++ rr_fixed r ++
            be_bytes 2 (zlen (rr_data r)) ++ rr_data r ++ post) =
          zlen pre + zlen (rr_name r) + 10 + zlen (rr_data r) + zlen post)
    by (rewrite !zlen_app, !zlen_be_bytes, Hf; lia).
  rewrite Hlen. destruct (Z.gtb_spec (zlen pre + zlen (rr_name r) + 10)
    (zlen pre + zlen (rr_name r) + 10 + zlen (rr_data r) + zlen post)); [lia|].
  rewrite app_assoc, (read_u16_at _ _ _ (zlen pre + zlen (rr_name r))) by (rewrite ?zlen_app; done).
  cbn [mbind outcome_bind].
  rewrite app_assoc, app_assoc, read_u16_at.
  2:{ rewrite !zlen_app, zlen_be_bytes, Hf. lia. }
  2:{ lia. }
  cbn [mbind outcome_bind].
  destruct (Z.gtb_spec (zlen pre + zlen (rr_name r) + 10 + zlen (rr_data r))
    (zlen pre + zlen (rr_name r) + 10 + zlen (rr_data r) + zlen post)); [lia|done].
Qed.

Lemma rr_len r : rr_ok r -> zlen (rr_bytes r) = zlen (rr_name r) + 10 + zlen (rr_data r).
Proof.
  intros (Hn & Ht & Hf & Hd). unfold rr_bytes. rewrite !zlen_app, !zlen_be_bytes. lia.
Qed.

(** A message with the given questions and answers; [tail] is the other sections. *)
Definition question_bytes (q : list Z * list Z) : list Z := q.1 ++ q.2.
Definition question_ok (q : list Z * list Z) : Prop := encoded_name q.1 /\ zlen q.2 = 4.

Definition dns_message (id4 nsar : list Z) (qs : list (list Z * list Z)) (rs : list rr) (tail : list Z)
    : list Z :=
  id4 ++ be_bytes 2 (zlen qs) ++ be_bytes 2 (zlen rs) ++ nsar ++
  flat_map question_bytes qs ++ flat_map rr_bytes rs ++ tail.

Lemma skip_questions_at qs pre post :
  Forall question_ok qs -> zlen pre + zlen (flat_map question_bytes qs) <= u64_max ->
  skip_questions (length qs) (pre ++ flat_map question_bytes qs ++ post) (zlen pre) =
  Done (zlen pre + zlen (flat_map question_bytes qs)).
Proof.
  intros Hq. revert pre. induction Hq as [|[n x] qs [Hn Hx] Hq IH]; intros pre Hb.
  { cbn. f_equal. unfold zlen. cbn. lia. }
  cbn [length skip_questions flat_map]. cbn [fst snd] in *.
  change (question_bytes (n, x)) with (n ++ x).
  rewrite <- !app_assoc, skip_name_at by done. cbn [mbind outcome_bind].
  cbn [flat_map] in Hb. change (question_bytes (n, x)) with (n ++ x) in Hb. rewrite !zlen_app in Hb.
  pose proof (zlen_nonneg (flat_map question_bytes qs)).
  unfold checked_add. rewrite (proj2 (Z.leb_le _ _)) by lia. cbn [oget mbind outcome_bind].
  rewrite (app_assoc n), (app_assoc pre).
  replace (zlen pre + zlen n + 4) with (zlen (pre ++ n ++ x)) by (rewrite !zlen_app; lia).
  rewrite IH by (rewrite !zlen_app; lia). f_equal. rewrite !zlen_app. lia.
Qed.

Lemma dns_message_head {A} id4 nsar qs rs tail (k : nat -> Z -> list Z -> opt A) :
  zlen id4 = 4 -> zlen nsar = 4 -> zlen qs < 65536 -> zlen rs < 65536 -> Forall question_ok qs ->
  zlen (dns_message id4 nsar qs rs tail) <= u64_max ->
  let msg := dns_message id4 nsar qs rs tail in
  let pre := id4 ++ be_bytes 2 (zlen qs) ++ be_bytes 2 (zlen rs) ++ nsar ++ flat_map question_bytes qs in
  (if zlen msg <? 12 then no_value
   else
     qd ← read_u16 msg 4; an ← read_u16 msg 6;
     pos ← skip_questions (Z.to_nat qd) msg 12; k (Z.to_nat an) pos msg) =
  k (length rs) (zlen pre) (pre ++ flat_map rr_bytes rs ++ tail).
Proof.
  intros Hi Hn Hq Hr Hok Hbig. cbv zeta. pose proof (zlen_nonneg qs). pose proof (zlen_nonneg rs).
  unfold dns_message in *. rewrite !zlen_app, !zlen_be_bytes in *.
  pose proof (zlen_nonneg (flat_map question_bytes qs)).
  pose proof (zlen_nonneg (flat_map rr_bytes rs)). pose proof (zlen_nonneg tail).
  match goal with |- context [?a <? 12] => destruct (Z.ltb_spec a 12); [lia|] end.
  rewrite (read_u16_at id4 (zlen qs) _ 4) by lia. cbn [mbind outcome_bind].
  rewrite (app_assoc id4), (read_u16_at (id4 ++ _) (zlen rs) _ 6) by (rewrite ?zlen_app, ?zlen_be_bytes; lia).
  cbn [mbind outcome_bind].
  rewrite (app_assoc (id4 ++ _)), (app_assoc ((id4 ++ _) ++ _)).
  assert (Hp : 12 = zlen (((id4 ++ be_bytes 2 (zlen qs)) ++ be_bytes 2 (zlen rs)) ++ nsar))
    by (rewrite !zlen_app, !zlen_be_bytes; lia).
  replace (Z.to_nat (zlen qs)) with (length qs) by (unfold zlen; lia).
  rewrite Hp at 1. rewrite skip_questions_at by (try done; rewrite <- Hp; lia).
  cbn [mbind outcome_bind]. rewrite <- Hp. rewrite !app_assoc.
  f_equal; [unfold zlen; lia|]. rewrite !zlen_app, !zlen_be_bytes in *. lia.
Qed.

(** The first A record with an address in it. *)
Fixpoint first_a (rs : list rr) : option IpAddr :=
  match rs with
  | [] => None
  | r :: rs => if (rr_type r =? 1) && (zlen (rr_data r) =? 4) then Some (V4 (rr_data r)) else first_a rs
  end.

Lemma a_answers_at rs pre tail :
  Forall rr_ok rs ->
  a_answers (length rs) (pre ++ flat_map rr_bytes rs ++ tail) (zlen pre) = oget (first_a rs).
Proof.
  intros Hr. revert pre. induction Hr as [|r rs Hr Hrs IH]; intros pre; [done|].
  cbn [length a_answers flat_map first_a]. rewrite <- app_assoc, record_at_rr by done.
  cbn [mbind outcome_bind].
  destruct ((rr_type r =? 1) && (zlen (rr_data r) =? 4)) eqn:E.
  - apply andb_prop in E as [_ E]. apply Z.eqb_eq in E.
    assert (Hsplit : exists l, pre ++ rr_bytes r ++ flat_map rr_bytes rs ++ tail =
      l ++ rr_data r ++ flat_map rr_bytes rs ++ tail /\ zlen l = zlen pre + zlen (rr_name r) + 10).
    { exists (pre ++ rr_name r ++ be_bytes 2 (rr_type r) ++ rr_fixed r ++ be_bytes 2 (zlen (rr_data r))).
      destruct Hr as (_ & _ & Hf & _). unfold rr_bytes. rewrite <- !app_assoc. split; [done|].
      rewrite !zlen_app, !zlen_be_bytes. lia. }
    destruct Hsplit as (l & -> & <-).
    destruct (rr_data r) as [|a [|b [|c [|d [|e x]]]]]; try (unfold zlen in E; cbn in E; lia).
    unfold idx. cbn [app]. rewrite !zget_app_r by lia.
    replace (zlen l - zlen l) with 0 by lia. replace (zlen l + 1 - zlen l) with 1 by lia.
    replace (zlen l + 2 - zlen l) with 2 by lia. replace (zlen l + 3 - zlen l) with 3 by lia. done.
  - rewrite app_assoc.
    replace (zlen pre + zlen (rr_name r) + 10 + zlen (rr_data r)) with (zlen (pre ++ rr_bytes r))
      by (rewrite zlen_app, rr_len by done; lia).
    apply IH.
Qed.

(** A parameter of an HTTPS record. *)
Definition param_bytes (p : Z * list Z) : list Z := be_bytes 2 p.1 ++ be_bytes 2 (zlen p.2) ++ p.2.
Definition param_ok (p : Z * list Z) : Prop := 0 <= p.1 < 65536 /\ zlen p.2 < 65536.

Fixpoint ech_param (ps : list (Z * list Z)) : option (list Z) :=
  match ps with
  | [] => None
  | (key, v) :: ps => if key =? SVCPARAM_ECH then Some v else ech_param ps
  end.

Lemma param_len p : zlen (param_bytes p) = 4 + zlen p.2.
Proof. unfold param_bytes. rewrite !zlen_app, !zlen_be_bytes. lia. Qed.

Lemma svcparams_loop_at fuel ps pre post end_ :
  Forall param_ok ps -> end_ = zlen pre + zlen (flat_map param_bytes ps) ->
  zlen (flat_map param_bytes ps) < Z.of_nat fuel ->
  svcparams_loop fuel (pre ++ flat_map param_bytes ps ++ post) end_ (zlen pre) = oget (ech_param ps).
Proof.
  intros Hp. revert fuel pre end_. induction Hp as [|[key v] ps [Hk Hv] Hps IH]; intros fuel pre ? -> Hf.
  all: destruct fuel as [|fuel];
    [match type of Hf with zlen ?l < _ => pose proof (zlen_nonneg l) end; lia|];
    cbn [svcparams_loop flat_map].
  { unfold zlen at 3. cbn [length Z.of_nat]. rewrite (proj2 (Z.leb_gt _ _)) by lia. done. }
  cbn [fst snd] in *. cbn [flat_map] in Hf. pose proof (zlen_nonneg v).
  rewrite zlen_app, param_len in *. cbn [snd] in *.
  pose proof (zlen_nonneg (flat_map param_bytes ps)). rewrite (proj2 (Z.leb_le _ _)) by lia.
  change (param_bytes (key, v)) with (be_bytes 2 key ++ be_bytes 2 (zlen v) ++ v).
  rewrite <- !app_assoc, (read_u16_at pre key _ (zlen pre)) by lia. cbn [mbind outcome_bind].
  rewrite (app_assoc pre), (read_u16_at _ (zlen v) _ (zlen pre + 2)) by (rewrite ?zlen_app, ?zlen_be_bytes; lia).
  cbn [mbind outcome_bind].
  destruct (Z.gtb_spec (zlen pre + 4 + zlen v) (zlen pre + (4 + zlen v + zlen (flat_map param_bytes ps)))); [lia|].
  rewrite (app_assoc (pre ++ be_bytes 2 key)).
  assert (Hl : zlen pre + 4 = zlen ((pre ++ be_bytes 2 key) ++ be_bytes 2 (zlen v)))
    by (rewrite !zlen_app, !zlen_be_bytes; lia).
  cbn [ech_param]. destruct (key =? SVCPARAM_ECH).
  - unfold slice. rewrite (proj2 (in_slice_true _ _ _)).
    + cbn [oget]. f_equal. by apply zsub_app_mid.
    + rewrite !zlen_app, !zlen_be_bytes. pose proof (zlen_nonneg post). pose proof (zlen_nonneg pre). lia.
  - rewrite (app_assoc (_ ++ be_bytes 2 (zlen v))).
    replace (zlen pre + 4 + zlen v) with (zlen (((pre ++ be_bytes 2 key) ++ be_bytes 2 (zlen v)) ++ v))
      by (rewrite (zlen_app _ v); lia).
    apply IH; rewrite ?(zlen_app _ v); lia.
Qed.

(** An answer together with the parameters its data encodes when it is of type
    HTTPS. *)
Definition answer_ok (a : rr * list (Z * list Z)) : Prop :=
  rr_ok a.1 /\ Forall param_ok a.2 /\
  (rr_type a.1 = RR_HTTPS -> exists prio target,
     rr_data a.1 = be_bytes 2 prio ++ target ++ flat_map param_bytes a.2 /\ encoded_name target).

Fixpoint first_ech (answers : list (rr * list (Z * list Z))) : option (list Z) :=
  match answers with
  | [] => None
  | (r, ps) :: answers =>
      if rr_type r =? RR_HTTPS then
        match ech_param ps with Some ech => Some ech | None => first_ech answers end
      else first_ech answers
  end.

Lemma parse_svcparams_at pre prio target ps post :
  encoded_name target -> Forall param_ok ps ->
  let data := be_bytes 2 prio ++ target ++ flat_map param_bytes ps in
  parse_svcparams_ech (pre ++ data ++ post) (zlen pre) (zlen data) = oget (ech_param ps).
Proof.
  intros Ht Hps. cbv zeta. unfold parse_svcparams_ech.
  pose proof (name_nonempty _ Ht). pose proof (zlen_nonneg (flat_map param_bytes ps)).
  rewrite !(zlen_app (be_bytes 2 prio)), zlen_be_bytes, (zlen_app target).
  match goal with |- context [?a >? ?b] => destruct (Z.gtb_spec a b); [lia|] end.
  rewrite <- !app_assoc, (app_assoc pre).
  replace (zlen pre + 2) with (zlen (pre ++ be_bytes 2 prio)) by (rewrite zlen_app, zlen_be_bytes; lia).
  rewrite skip_name_at by done. cbn [mbind outcome_bind].
  rewrite (app_assoc (pre ++ be_bytes 2 prio)).
  replace (zlen (pre ++ be_bytes 2 prio) + zlen target) with (zlen ((pre ++ be_bytes 2 prio) ++ target))
    by (rewrite (zlen_app _ target); lia).
  apply svcparams_loop_at; [done|rewrite !zlen_app, zlen_be_bytes; lia|].
  unfold zlen. rewrite !length_app. lia.
Qed.

Lemma https_answers_at answers pre tail :
  Forall answer_ok answers ->
  https_answers (length answers) (pre ++ flat_map rr_bytes answers.*1 ++ tail) (zlen pre) =
  oget (first_ech answers).
Proof.
  intros Hr. revert pre. induction Hr as [|[r ps] rs (Hr & Hps & Hsvc) Hrs IH]; intros pre; [done|].
  cbn [length https_answers flat_map first_ech fmap list_fmap fst snd] in *.
  rewrite <- app_assoc, record_at_rr by done. cbn [mbind outcome_bind].
  assert (Hnext : https_answers (length rs) (pre ++ rr_bytes r ++ flat_map rr_bytes rs.*1 ++ tail)
    (zlen pre + zlen (rr_name r) + 10 + zlen (rr_data r)) = oget (first_ech rs)).
  { rewrite app_assoc.
    replace (zlen pre + zlen (rr_name r) + 10 + zlen (rr_data r)) with (zlen (pre ++ rr_bytes r))
      by (rewrite zlen_app, rr_len by done; lia).
    apply IH. }
  destruct (Z.eqb_spec (rr_type r) RR_HTTPS) as [Ht|Ht]; [|done].
  destruct (Hsvc Ht) as (prio & target & Hd & Htg).
  pose (l := pre ++ rr_name r ++ be_bytes 2 (rr_type r) ++ rr_fixed r ++ be_bytes 2 (zlen (rr_data r))).
  assert (Hl : zlen pre + zlen (rr_name r) + 10 = zlen l).
  { destruct Hr as (_ & _ & Hf & _). unfold l. rewrite !zlen_app, !zlen_be_bytes. lia. }
  assert (Hsplit : pre ++ rr_bytes r ++ flat_map rr_bytes rs.*1 ++ tail =
    l ++ rr_data r ++ flat_map rr_bytes rs.*1 ++ tail)
    by (unfold l, rr_bytes; by rewrite <- !app_assoc).
  rewrite Hl in *. rewrite Hsplit in *.
  assert (Hp := parse_svcparams_at l prio target ps (flat_map rr_bytes rs.*1 ++ tail) Htg Hps).
  cbv zeta in Hp. rewrite <- Hd in Hp. rewrite Hp. by destruct (ech_param ps).
Qed.

(** The record parsers find what is there.  On any well-formed message with
    any number of questions and answers, names compressed or not,
    [parse_dns_a] returns the address of the first A record and nothing when
    there is none, and [parse_https_ech] returns the ECH parameter of the first
    HTTPS record that has one, past records that have none.  And no message,
    however malformed, makes a parser panic or loop: truncated records, names
    that run off the end, pointers and lengths that lie all end in [None], and
    an address that is returned is four octets. *)
Lemma dns_answers_found id4 nsar qs answers tail :
  zlen id4 = 4 -> zlen nsar = 4 -> Forall question_ok qs -> Forall answer_ok answers ->
  zlen qs < 65536 -> zlen answers < 65536 ->
  let msg := dns_message id4 nsar qs answers.*1 tail in
  zlen msg <= u64_max ->
  parse_dns_a msg = oget (first_a answers.*1) /\ parse_https_ech msg = oget (first_ech answers) /\
  forall junk, bytes_ok junk ->
    terminates (parse_https_ech junk) /\ wp (parse_dns_a junk) ip_ok (fun _ => True).
Proof.
  intros Hi Hn Hq Ha Hqs Han msg Hbig.
  assert (Hrs : zlen answers.*1 = zlen answers) by (unfold zlen; by rewrite length_fmap).
  split; [|split].
  - etransitivity;
      [apply (dns_message_head id4 nsar qs answers.*1 tail (fun an pos m => a_answers an m pos));
       try done; lia|].
    apply a_answers_at, Forall_fmap. eapply Forall_impl, Ha. by intros ? [? _].
  - etransitivity;
      [apply (dns_message_head id4 nsar qs answers.*1 tail (fun an pos m => https_answers an m pos));
       try done; lia|].
    rewrite length_fmap. by apply https_answers_at.
  - intros junk Hj. split; [by apply parse_https_ech_total|by apply parse_dns_a_total].
Qed.

Definition sample_answers : list (rr * list (Z * list Z)) :=
  [(mkRr [192; 12] 5 [0; 1; 0; 0; 0; 9] [192; 14], []);
   (mkRr [192; 12] 65 [0; 1; 0; 0; 0; 9] ([0; 1] ++ [0] ++ flat_map param_bytes [(1, [2; 104; 50])]), [(1, [2; 104; 50])]);
   (mkRr [192; 12] 1 [0; 1; 0; 0; 0; 9] [10; 1; 2; 3], []);
   (mkRr [192; 12] 65 [0; 1; 0; 0; 0; 9] ([0; 1] ++ [0] ++ flat_map param_bytes [(1, []); (5, [7; 8; 9])]),
    [(1, []); (5, [7; 8; 9])])].

Lemma dns_answers_found_witness :
  let msg := dns_message [18; 52; 129; 128] [0; 0; 0; 0] [([1; 97; 2; 98; 99; 0], [0; 1; 0; 1])]
               sample_answers.*1 [] in
  parse_dns_a msg = oget (first_a sample_answers.*1) /\
  parse_https_ech msg = oget (first_ech sample_answers).
Proof.
  intros msg.
  assert (Hqs : Forall question_ok [([1; 97; 2; 98; 99; 0], [0; 1; 0; 1])]).
  { repeat constructor; try done. cbn.
    apply (name_label [97]); [vm_compute; done|]. apply (name_label [98; 99]); [vm_compute; done|].
    apply name_root. }
  assert (Has : Forall answer_ok sample_answers).
  { repeat constructor; try done; try (apply name_pointer; lia); cbn; try done;
      intros _; exists 1, [0]; (split; [vm_compute; done|apply name_root]). }
  destruct (dns_answers_found [18; 52; 129; 128] [0; 0; 0; 0] [([1; 97; 2; 98; 99; 0], [0; 1; 0; 1])]
           sample_answers [] eq_refl eq_refl Hqs Has) as (Ha & He & _); [vm_compute; done..|by split].
Defined.

(** *** The exchange *)

Lemma response_matches_total msg id name qtype :
  bytes_ok msg -> zlen msg < 2 ^ 61 -> exists b, response_matches msg id name qtype = Done b.
Proof.
  intros Hok Hbig. unfold response_matches.
  destruct (Z.ltb_spec (zlen msg) 12) as [Hlt|Hge]; [by eexists|].
  destruct (header_split msg Hge) as (a & b & f & g & c & d & h & rest & -> & Hh).
  change (read_u16 ([a; b; f; g; c; d] ++ h ++ rest) 0) with (Done (E := False) (be_u16 a b)).
  change (idx ([a; b; f; g; c; d] ++ h ++ rest) 2) with (Done (E := False) f).
  change (read_u16 ([a; b; f; g; c; d] ++ h ++ rest) 4) with (Done (E := False) (be_u16 c d)).
  cbn [mbind outcome_bind].
  do 3 (match goal with |- context [if ?c then _ else _] => destruct c end; [by eexists|]).
  unfold question_matches. rewrite app_assoc in *.
  assert (Hp : 12 = zlen ([a; b; f; g; c; d] ++ h)) by (by rewrite zlen_app, Hh).
  rewrite Hp. destruct (match_labels_spec (labels_of name) ([a; b; f; g; c; d] ++ h) rest)
    as ([e|] & -> & Hr); [rewrite zlen_app in Hbig; lia| |by eexists].
  cbn [mbind outcome_bind]. destruct Hr as (q & k & -> & -> & _).
  match goal with |- context [if ?c then _ else _] => destruct c end; [by eexists|].
  match goal with |- context [if ?x >? ?y then _ else _] => destruct (Z.gtb_spec x y) end; [by eexists|].
  rewrite <- Hp in *. pose proof (zlen_nonneg q).
  assert (Hw : wp (E := False) (read_u16 (([a; b; f; g; c; d] ++ h) ++ q ++ k) (12 + zlen q + 1))
                 (fun _ => True) (fun _ => True)) by (apply wp_read_u16; [done|lia..|done]).
  destruct (read_u16 _ _); [by eexists|done..].
Qed.

Definition reply_ok (e : dns_event) : Prop :=
  match e with Reply d => bytes_ok d /\ zlen d < 2 ^ 61 | _ => True end.

(** Events that end the wait for a reply. *)
Definition ends_wait (e : dns_event) : bool := match e with Reply _ => false | _ => true end.

(** [ip] is the address in a received reply that matches a query sent. *)
Definition answer_from (events : list dns_event) (id : Z) (name : str) (ip : IpAddr) : Prop :=
  exists resp, Reply resp ∈ events /\ dns_response_matches resp id name QTYPE_A = Done true /\
    parse_dns_a resp = Done ip.

Lemma await_a_spec events id name server :
  Forall reply_ok events -> (0 < length (List.filter ends_wait events))%nat ->
  match await_a events id name server with
  | Answered r => wp r (fun ip => ip_ok ip /\ answer_from events id name ip) (fun _ => True)
  | NextServer _ events' =>
      suffix events' events /\
      (length (List.filter ends_wait events) = S (length (List.filter ends_wait events')))
  end.
Proof.
  induction 1 as [|ev events Hev Hevs IH]; cbn [List.filter length]; [lia|]. intros Hc.
  destruct ev as [resp|e|]; cbn [ends_wait await_a] in *.
  - destruct Hev as [Hok Hbig].
    destruct (response_matches_total resp id name QTYPE_A Hok Hbig) as [b Hb].
    unfold dns_response_matches in *. rewrite Hb. destruct b.
    + pose proof (parse_dns_a_total resp Hok) as Hp.
      destruct (parse_dns_a resp) as [ip| | |] eqn:E; try done. split; [done|].
      exists resp. split_and!; [left|done..].
    + specialize (IH Hc). destruct (await_a events id name server) as [r|l evs].
      * eapply wp_mono; [exact IH| |done]. intros ip (Hi & r' & Hin & Hm). split; [done|].
        exists r'. split; [by right|done].
      * destruct IH as [Hs Hl]. split; [by apply suffix_cons_r|done].
  - done.
  - split; [by apply suffix_cons_r|done].
Qed.

(** C36: resolving a name through the tunnel always ends, and an address it
    returns is authentic: it is the first A record of a received reply that
    carries the identifier of a query this exchange sent and repeats its
    question.  Whatever replies arrive, from whichever server, it never
    panics; it ends as soon as every server's wait has ended. *)
Theorem dns_exchange_authentic send name servers ids events last :
  Forall reply_ok events -> (length servers <= length (List.filter ends_wait events))%nat ->
  wp (dns_exchange send name servers ids events last)
     (fun ip => ip_ok ip /\ exists n, (n < length servers)%nat /\ answer_from events (ids n) name ip)
     (fun _ => True).
Proof.
  revert ids events last. induction servers as [|server servers IH]; intros ids events last Hok Hc; [done|].
  cbn [dns_exchange build_dns_query length] in *.
  assert (Hrest : forall evs last, suffix evs events ->
    (length servers <= length (List.filter ends_wait evs))%nat ->
    wp (dns_exchange send name servers (ids ∘ S) evs last)
      (fun ip => ip_ok ip /\ exists n, (n < S (length servers))%nat /\ answer_from events (ids n) name ip)
      (fun _ => True)).
  { intros evs l [pre Hs] Hl. eapply wp_mono; [apply IH; [|done]| |done].
    - rewrite Hs in Hok. by apply Forall_app in Hok as [_ ?].
    - intros ip (Hi & n & Hn & resp & Hin & Hm). split; [done|]. exists (S n). split; [lia|].
      exists resp. split; [|done]. rewrite Hs. apply elem_of_app. by right. }
  destruct (send server _) as [e|]; [apply Hrest; [done|lia]|].
  pose proof (await_a_spec events (ids 0%nat) name (show_socket_addr server) Hok ltac:(lia)) as Ha.
  destruct (await_a events (ids 0%nat) name (show_socket_addr server)) as [r|l evs].
  - eapply wp_mono; [exact Ha| |done]. intros ip [Hi Hf]. split; [done|]. exists 0%nat. split; [lia|done].
  - destruct Ha as [Hs Hl]. apply Hrest; [done|lia].
Qed.

Lemma dns_exchange_authentic_witness :
  wp (dns_exchange (fun _ _ => None) (lit "a.bc") [sock (V4 [1; 1; 1; 1]) 53; sock (V4 [1; 0; 0; 1]) 53]
        (fun n => 4659 + Z.of_nat n) [Reply [1; 2; 3]; Deadline; Reply sample_reply; Deadline] Cancelled)
     (fun ip => ip_ok ip /\ exists n, (n < 2)%nat /\
        answer_from [Reply [1; 2; 3]; Deadline; Reply sample_reply; Deadline] (4659 + Z.of_nat n) (lit "a.bc") ip)
     (fun _ => True).
Proof.
  apply (dns_exchange_authentic (fun _ _ => None) (lit "a.bc")
    [sock (V4 [1; 1; 1; 1]) 53; sock (V4 [1; 0; 0; 1]) 53] (fun n => 4659 + Z.of_nat n)
    [Reply [1; 2; 3]; Deadline; Reply sample_reply; Deadline] Cancelled).
  - repeat apply Forall_cons_2; try done; split; try (vm_compute; done);
      apply (bool_decide_unpack _); vm_compute; done.
  - cbn. lia.
Defined.

(** *** Queries and resolvers *)

Lemma eq_ignore_refl l : eq_ignore_ascii_case l l = true.
Proof. unfold eq_ignore_ascii_case. apply str_eqb_refl. Qed.

Lemma spells_labels ls :
  Forall (fun l => zlen l < 256) ls ->
  spells ls (flat_map (fun l => if is_empty l then [] else push_label l) ls).
Proof.
  induction 1 as [|l ls Hl Hls IH]; cbn [flat_map]; [constructor|].
  unfold is_empty at 1. destruct (Z.eqb_spec (zlen l) 0) as [Hz|Hz].
  - apply zlen_zero_inv in Hz as ->. by constructor.
  - unfold push_label. pose proof (zlen_nonneg l). unfold u8. rewrite Z.mod_small by lia.
    cbn. constructor; [by intros ->|done|apply eq_ignore_refl|done].
Qed.

Lemma push_labels_same ls :
  Forall (fun l => l <> []) ls ->
  flat_map push_label ls = flat_map (fun l => if is_empty l then [] else push_label l) ls.
Proof.
  induction 1 as [|l ls Hl Hls IH]; cbn [flat_map]; [done|].
  rewrite IH. unfold is_empty at 2. destruct (Z.eqb_spec (zlen l) 0) as [Hz%zlen_zero_inv|]; done.
Qed.

Lemma flat_map_bytes_ok {A} (f : A -> list Z) l :
  Forall (fun a => bytes_ok (f a)) l -> bytes_ok (flat_map f l).
Proof. induction 1; cbn; [constructor|]. by apply bytes_ok_app. Qed.

Lemma split_by_Forall (P : Z -> Prop) p s : Forall P s -> Forall (Forall P) (split_by p s).
Proof.
  induction 1 as [|c s Hc Hs IH]; cbn [split_by]; [by repeat constructor|].
  destruct (p c); [by constructor|].
  destruct (split_by p s) as [|x xs]; [by repeat constructor|].
  inversion IH; subst. constructor; [by constructor|done].
Qed.

Lemma question_labels_ok name :
  Forall is_scalar name ->
  bytes_ok (flat_map (fun l => if is_empty l then [] else push_label l) (labels_of name)).
Proof.
  intros Hn. apply flat_map_bytes_ok. unfold labels_of. rewrite Forall_fmap.
  eapply Forall_impl; [|by apply (split_by_Forall is_scalar (Z.eqb 46))].
  intros l Hl. cbn. destruct (is_empty _); [constructor|].
  constructor; [unfold u8, byte_ok; apply Z.mod_pos_bound; lia|by apply utf8_ok].
Qed.

(** The reply of a server that copies the question of [query]. *)
Definition server_reply (id flags lo : Z) (counts query answers : list Z) : list Z :=
  be_bytes 2 id ++ [flags; lo] ++ be_bytes 2 1 ++ counts ++ zdrop 12 query ++ answers.

(** A query finds its answer: a reply that copies the question of the query
    built for a name, with the query's identifier and the response bit, passes
    the check, whatever its other flags, counts and records are.  The resolver
    of the proxy builds the same query for a name without empty labels. *)
Lemma query_reply_accepted id name qtype flags lo counts answers :
  Forall is_scalar name -> Forall (fun l => zlen l < 256) (labels_of name) ->
  0 <= id < 65536 -> 0 <= qtype < 65536 -> 128 <= flags < 256 -> byte_ok lo ->
  bytes_ok counts -> zlen counts = 6 -> bytes_ok answers ->
  let query := (build_query id name qtype).1 in
  zlen query + zlen answers < 2 ^ 60 ->
  response_matches (server_reply id flags lo counts query answers) id name qtype = Done true /\
  (Forall (fun l => l <> []) (labels_of name) -> (build_dns_query id name qtype).1 = query).
Proof.
  intros Hn Hl Hid Hqt Hfl Hlo Hcok Hc Ha query Hbig. split.
  2:{ intros Hne. unfold query, build_dns_query, build_query. cbn [fst]. by rewrite push_labels_same. }
  set (q := flat_map (fun l => if is_empty l then [] else push_label l) (labels_of name)).
  assert (Hq : zdrop 12 query = q ++ [0] ++ be_bytes 2 qtype ++ [0; 1])
    by (unfold query, build_query; cbn [fst]; by rewrite be_bytes_2).
  assert (Hlen : zlen (zdrop 12 query) <= zlen query) by (unfold zlen, zdrop; rewrite length_drop; lia).
  destruct (response_matches_spec (server_reply id flags lo counts query answers) id name qtype)
    as (b & -> & Hb); try done.
  - unfold server_reply. rewrite Hq, !bytes_ok_app. pose proof (question_labels_ok name Hn).
    split_and!; auto with bytes; repeat (apply bytes_ok_cons; [unfold byte_ok in *; lia|]); apply bytes_ok_nil.
  - unfold server_reply. rewrite !zlen_app, !zlen_be_bytes, Hc. change (zlen [flags; lo]) with 2. lia.
  - rewrite (proj2 Hb); [done|]. exists flags, lo, counts, (zdrop 12 query ++ answers).
    split_and!; [done|lia|done|]. exists q, ([0; 1] ++ answers). rewrite Hq, <- !app_assoc.
    split_and!; [done|by apply spells_labels|]. rewrite zlen_app. pose proof (zlen_nonneg answers).
    change (zlen [0; 1]) with 2. lia.
Qed.

Lemma query_reply_accepted_witness :
  let query := (build_query 7 (lit "Example.com") 65).1 in
  response_matches (server_reply 7 129 128 [0; 0; 0; 0; 0; 0] query []) 7 (lit "Example.com") 65 = Done true /\
  (Forall (fun l => l <> []) (labels_of (lit "Example.com")) ->
   (build_dns_query 7 (lit "Example.com") 65).1 = query).
Proof.
  apply (query_reply_accepted 7 (lit "Example.com") 65 129 128 [0; 0; 0; 0; 0; 0] []);
    try lia; try (apply (bool_decide_unpack _); vm_compute; exact I); try (vm_compute; done).
Defined.

(** A name with a trailing dot: the proxy's query then has an empty label
    inside the question, and a reply that copies it is not recognised. *)
Example trailing_dot_query :
  let query := (build_dns_query 7 (lit "a.") QTYPE_A).1 in
  query <> (build_query 7 (lit "a.") QTYPE_A).1 /\
  dns_response_matches (server_reply 7 129 128 [0; 0; 0; 0; 0; 0] query []) 7 (lit "a.") QTYPE_A = Done false.
Proof. vm_compute. done. Qed.

Lemma add_servers_spec tokens acc :
  NoDup acc ->
  let servers := fold_left add_server tokens acc in
  NoDup servers /\
  forall s, s ∈ servers <-> s ∈ acc \/ exists t, t ∈ tokens /\ resolver_entry t = Some s.
Proof.
  cbv zeta. revert acc. induction tokens as [|t tokens IH]; intros acc Hacc; cbn [fold_left].
  { split; [done|]. intros s. split; [by left|]. intros [?|(t & Hin & _)]; [done|]. by apply elem_of_nil in Hin. }
  assert (Hadd : NoDup (add_server acc t) /\
    forall s, s ∈ add_server acc t <-> s ∈ acc \/ resolver_entry t = Some s).
  { unfold add_server. destruct (resolver_entry t) as [s'|]; [|split; [done|naive_solver]].
    case_bool_decide as Hin; [split; [done|]; intros s; split; [by left|]; naive_solver|].
    split.
    - apply list.NoDup_app. split_and!; [done| |apply NoDup_singleton].
      intros x Hx ->%list_elem_of_singleton. done.
    - intros s. rewrite elem_of_app, list_elem_of_singleton. naive_solver. }
  destruct Hadd as [Hnd Hs]. destruct (IH _ Hnd) as [Hnd' Hs']. split; [done|].
  intros s. rewrite Hs', Hs. setoid_rewrite elem_of_cons. naive_solver.
Qed.

(** The resolver list is never empty and never tries a server twice; when
    the configuration names any valid server the list holds exactly the valid
    ones, and otherwise the two built-in ones.  The built-in ones parse. *)
Lemma resolver_addresses_exact env :
  let tokens := split_by is_dns_separator (default [] (env (lit "AETHER_DNS"))) in
  exists servers, resolver_addresses env = Done servers /\ servers <> [] /\ NoDup servers /\
  ((forall s, s ∈ servers <-> exists t, t ∈ tokens /\ resolver_entry t = Some s) \/
   (forall t, t ∈ tokens -> resolver_entry t = None) /\
   servers = [sock (V4 [1; 1; 1; 1]) 53; sock (V4 [1; 0; 0; 1]) 53]).
Proof.
  cbv zeta. unfold resolver_addresses.
  set (tokens := split_by is_dns_separator (default [] (env (lit "AETHER_DNS")))).
  destruct (add_servers_spec tokens []) as [Hnd Hs]; [constructor|].
  destruct (fold_left add_server tokens []) as [|s0 servers].
  - eexists. split; [vm_compute; reflexivity|]. split_and!; [done| |right; split; [|done]].
    + apply (bool_decide_unpack _). vm_compute. done.
    + intros t Ht. destruct (resolver_entry t) as [s|] eqn:E; [|done].
      exfalso. apply (not_elem_of_nil s), Hs. eauto.
  - eexists. split_and!; [done..|]. left. intros s. rewrite Hs, elem_of_nil. naive_solver.
Qed.
