(* ===== verification/Sniff.v ===== *)
(** * Hostname sniffing (src/native/aether/aether/src/sniff.rs)

    The first bytes of a connection to a bare address are searched for a TLS
    server name or an HTTP Host header, so that routing rules on domains apply
    to it.  The buffer is a peek: it may hold less than the record announces. *)

From stdpp Require Import base list option.
From Stdlib Require Import ZArith Lia.
From S2P Require Import Prelude RustStr StrFacts Net.

Definition TLS_HANDSHAKE : Z := 0x16.
Definition TLS_CLIENT_HELLO : Z := 1.
Definition EXT_SERVER_NAME : Z := 0.
Definition SNI_HOST_NAME : Z := 0.
Definition MAX_HOST_LEN : Z := 253.
Definition PEEK_BUDGET : Z := 4096.

Definition be16 (buf : list Z) (at_ : Z) : opt Z :=
  hi ← oget (zget buf at_);
  lo ← oget (zget buf (at_ + 1));
  Done (Z.lor (Z.shiftl hi 8) lo).

Definition be24 (buf : list Z) (at_ : Z) : opt Z :=
  a ← oget (zget buf at_);
  b ← oget (zget buf (at_ + 1));
  c ← oget (zget buf (at_ + 2));
  Done (Z.lor (Z.lor (Z.shiftl a 16) (Z.shiftl b 8)) c).

Definition allowed_byte (b : Z) : bool :=
  is_ascii_alphanumeric b || (b =? 45) || (b =? 46) || (b =? 95).

Definition plausible_host `{UnicodeData} (raw : list Z) : opt str :=
  if (zlen raw =? 0) || (zlen raw >? MAX_HOST_LEN) then no_value
  else
    text ← oget (from_utf8 raw);
    let name := trim_end_matches 46 (trim text) in
    if (zlen name =? 0) || (zlen (utf8 name) >? MAX_HOST_LEN) then no_value
    else if negb (forallb allowed_byte (utf8 name)) || negb (contains_char name 46) then no_value
    else match parse_ip name with
         | Some _ => no_value
         | None => Done (to_lowercase name)
         end.

(** The loop over the names of a server_name extension; each turn moves past
    three bytes of it. *)
Fixpoint server_name_loop `{UnicodeData} (fuel : nat) (data : list Z) (list_end at_ : Z) : opt str :=
  match fuel with
  | O => Diverge
  | S fuel =>
      if at_ + 3 <=? list_end then
        kind ← oget (zget data at_);
        len ← be16 data (at_ + 1);
        let start := at_ + 3 in
        end_ ← oget (checked_add start len);
        if end_ >? list_end then no_value
        else if kind =? SNI_HOST_NAME then
          raw ← oget (get_slice data start end_);
          plausible_host raw
        else server_name_loop fuel data list_end end_
      else no_value
  end.

Definition first_server_name `{UnicodeData} (data : list Z) : opt str :=
  list_len ← be16 data 0;
  list_end ← oget (checked_add 2 list_len);
  server_name_loop (S (length data)) data (Z.min list_end (zlen data)) 2.

(** The loop over the extensions of a ClientHello. *)
Fixpoint extensions_loop `{UnicodeData} (fuel : nat) (hello : list Z) (extensions_end at_ : Z) : opt str :=
  match fuel with
  | O => Diverge
  | S fuel =>
      if at_ + 4 <=? extensions_end then
        kind ← be16 hello at_;
        len ← be16 hello (at_ + 2);
        let data_start := at_ + 4 in
        data_end ← oget (checked_add data_start len);
        if data_end >? extensions_end then no_value
        else if u16 kind =? EXT_SERVER_NAME then
          data ← oget (get_slice hello data_start data_end);
          first_server_name data
        else extensions_loop fuel hello extensions_end data_end
      else no_value
  end.

(** The body of a ClientHello, after the handshake header. *)
Definition hello_sni `{UnicodeData} (hello : list Z) : opt str :=
  let at_ := 2 + 32 in
  session_len ← oget (zget hello at_);
  at_ ← oget (checked_add at_ (1 + session_len));
  cipher_len ← be16 hello at_;
  at_ ← oget (checked_add at_ (2 + cipher_len));
  compression_len ← oget (zget hello at_);
  at_ ← oget (checked_add at_ (1 + compression_len));
  extensions_len ← be16 hello at_;
  at_ ← oget (checked_add at_ 2);
  extensions_end ← oget (checked_add at_ extensions_len);
  extensions_loop (S (length hello)) hello (Z.min extensions_end (zlen hello)) at_.

Definition tls_sni `{UnicodeData} (buf : list Z) : opt str :=
  first ← oget (zget buf 0);
  if negb (first =? TLS_HANDSHAKE) then no_value
  else
    record_len ← be16 buf 3;
    record_end ← oget (checked_add 5 record_len);
    body ← oget (get_slice buf 5 (Z.min record_end (zlen buf)));
    kind ← oget (zget body 0);
    if negb (kind =? TLS_CLIENT_HELLO) then no_value
    else
      hello_len ← be24 body 1;
      hello_end ← oget (checked_add 4 hello_len);
      hello ← oget (get_slice body 4 (Z.min hello_end (zlen body)));
      hello_sni hello.

Definition METHODS : list str :=
  [lit "GET "; lit "POST "; lit "PUT "; lit "HEAD "; lit "DELETE "; lit "OPTIONS "; lit "PATCH ";
   lit "TRACE "; lit "CONNECT "].

Definition looks_like_http (line : str) : bool :=
  existsb (starts_with line) METHODS && contains line (lit "HTTP/").

(** The value of a Host header without its port. *)
Definition without_port (value : str) : str :=
  match rsplit_once 58 value with
  | Some (host, port) => if forallb is_ascii_digit port then host else value
  | None => value
  end.

Fixpoint host_header `{UnicodeData} (ls : list str) : opt str :=
  match ls with
  | [] => no_value
  | [] :: _ => no_value
  | line :: ls =>
      match split_once 58 line with
      | None => host_header ls
      | Some (name, value) =>
          if negb (eq_ignore_ascii_case name (lit "host")) then host_header ls
          else plausible_host (utf8 (without_port (trim value)))
      end
  end.

Definition http_host `{UnicodeData} (buf : list Z) : opt str :=
  head ← oget (get_slice buf 0 (Z.min (zlen buf) PEEK_BUDGET));
  let text := from_utf8_lossy head in
  match split_crlf text with
  | [] => no_value
  | request_line :: ls => if negb (looks_like_http request_line) then no_value else host_header ls
  end.

Definition hostname `{UnicodeData} (buf : list Z) : opt str :=
  match tls_sni buf with
  | Fail _ => http_host buf
  | r => r
  end.

Example sniff_examples (U : UnicodeData) :
  http_host (utf8 (lit "GET / HTTP/1.1" ++ [13; 10] ++ lit "Accept: *" ++ [13; 10] ++
     lit "HOST:  Example.COM:8080" ++ [13; 10; 13; 10])) = Done (lit "example.com") /\
  hostname (utf8 (lit "GET / HTTP/1.1" ++ [13; 10] ++ lit "Host: 10.0.0.1" ++ [13; 10])) = Fail tt /\
  plausible_host (utf8 (lit " a.b.. ")) = Done (lit "a.b").
Proof. vm_compute. done. Qed.

(** ** Facts *)

Lemma wp_get {A} (l : list A) i (Q : A -> Prop) (R : unit -> Prop) :
  (forall a, zget l i = Some a -> 0 <= i < zlen l -> Q a) -> R tt -> wp (oget (zget l i)) Q R.
Proof. intros HQ HR. apply wp_oget; [|done]. intros a Ha. apply HQ; [done|by eapply zget_Some_lt]. Qed.

Lemma wp_checked_add a b (Q : Z -> Prop) (R : unit -> Prop) :
  (a + b <= u64_max -> Q (a + b)) -> R tt -> wp (oget (checked_add a b)) Q R.
Proof.
  intros HQ HR. apply wp_oget; [|done]. intros v. unfold checked_add.
  destruct (Z.leb_spec (a + b) u64_max); [|done]. intros [= <-]. auto.
Qed.

Lemma wp_be16 buf i (Q : Z -> Prop) (R : unit -> Prop) :
  bytes_ok buf -> (forall v, 0 <= v < 65536 -> 0 <= i -> i + 2 <= zlen buf -> Q v) -> R tt ->
  wp (be16 buf i) Q R.
Proof.
  intros Hb HQ HR. unfold be16.
  apply wp_bind, wp_get; [|done]. intros hi Hhi Hi. apply wp_bind, wp_get; [|done]. intros lo Hlo Hi'.
  apply bytes_ok_zget in Hhi, Hlo; [|done..]. unfold byte_ok in *.
  cbn [wp]. rewrite lor_shiftl by lia. apply HQ; lia.
Qed.

Lemma wp_be24 buf i (Q : Z -> Prop) (R : unit -> Prop) :
  bytes_ok buf -> (forall v, 0 <= v -> Q v) -> R tt -> wp (be24 buf i) Q R.
Proof.
  intros Hb HQ HR. unfold be24.
  apply wp_bind, wp_get; [|done]. intros a Ha _. apply wp_bind, wp_get; [|done]. intros b Hb' _.
  apply wp_bind, wp_get; [|done]. intros c Hc _.
  apply bytes_ok_zget in Ha, Hb', Hc; [|done..]. unfold byte_ok in *. apply HQ.
  rewrite !Z.lor_nonneg, !Z.shiftl_nonneg. lia.
Qed.

(** What sniffing may return: a lower-case dotted name that is no address. *)
Definition host_byte (c : Z) : bool := is_ascii_digit c || is_ascii_lower c || (c =? 45) || (c =? 46) || (c =? 95).

Definition host_ok (h : str) : Prop :=
  1 <= zlen h <= MAX_HOST_LEN /\ Forall (fun c => host_byte c = true) h /\ 46 ∈ h /\
  exists name, h = to_ascii_lowercase name /\ parse_ip name = None.

Lemma allowed_ascii b : allowed_byte b = true -> 0 <= b < 128.
Proof. unfold allowed_byte, is_ascii_alphanumeric, is_ascii_digit, is_ascii_upper, is_ascii_lower. lia. Qed.

Lemma allowed_lower c : allowed_byte c = true -> host_byte (ascii_lower c) = true.
Proof.
  unfold allowed_byte, host_byte, ascii_lower, is_ascii_alphanumeric, is_ascii_digit, is_ascii_upper, is_ascii_lower.
  intros H. destruct ((65 <=? c) && (c <=? 90)) eqn:E; lia.
Qed.

(** A character of several bytes has one above 127. *)
Lemma utf8_char_allowed c : forallb allowed_byte (utf8_char c) = true -> allowed_byte c = true.
Proof.
  unfold utf8_char. destruct (Z.ltb_spec c 128); [cbn; by rewrite andb_true_r|].
  assert (Hno : allowed_byte (128 + c `mod` 64) = false).
  { destruct (allowed_byte (128 + c `mod` 64)) eqn:E; [|done]. apply allowed_ascii in E.
    pose proof (Z.mod_pos_bound c 64). lia. }
  destruct (c <? 2048); [|destruct (c <? 65536)]; cbn [forallb]; rewrite Hno, ?andb_false_r; done.
Qed.

Lemma utf8_allowed s :
  forallb allowed_byte (utf8 s) = true -> Forall (fun c => allowed_byte c = true) s.
Proof.
  induction s as [|c s IH]; [constructor|]. unfold utf8. cbn [flat_map].
  rewrite forallb_app. intros [Hc Hs]%andb_prop. constructor; [by apply utf8_char_allowed|by apply IH].
Qed.

Lemma plausible_host_ok `{UnicodeData} raw : wp (plausible_host raw) host_ok (fun _ => True).
Proof.
  unfold plausible_host. destruct ((zlen raw =? 0) || (zlen raw >? MAX_HOST_LEN)); [done|].
  apply wp_bind, wp_oget; [|done]. intros text _. set (name := trim_end_matches 46 (trim text)).
  destruct ((zlen name =? 0) || (zlen (utf8 name) >? MAX_HOST_LEN)) eqn:El; [done|].
  destruct (negb (forallb allowed_byte (utf8 name)) || negb (contains_char name 46)) eqn:Ec; [done|].
  apply orb_false_elim in El as [Hne Hlen], Ec as [Hall%negb_false_iff Hdot%negb_false_iff].
  apply utf8_allowed in Hall.
  assert (Hascii : Forall (fun c => 0 <= c < 128) name)
    by (eapply Forall_impl; [exact allowed_ascii|exact Hall]).
  rewrite utf8_ascii in Hlen by done. pose proof (zlen_nonneg name).
  destruct (parse_ip name) eqn:Ep; [done|]. cbn [wp]. rewrite to_lowercase_ascii by done.
  unfold host_ok. split_and!.
  - unfold zlen. rewrite to_ascii_lowercase_length. fold (zlen name). lia.
  - unfold zlen. rewrite to_ascii_lowercase_length. fold (zlen name). lia.
  - apply Forall_fmap. eapply Forall_impl; [|exact Hall]. exact allowed_lower.
  - unfold contains_char in Hdot. apply existsb_exists in Hdot as (c & Hin & Hc).
    apply Z.eqb_eq in Hc as <-. apply list_elem_of_In. by apply (in_map ascii_lower name 46).
  - by exists name.
Qed.

Lemma server_name_loop_ok `{UnicodeData} fuel data list_end at_ :
  bytes_ok data -> list_end - at_ < Z.of_nat fuel -> (0 < fuel)%nat ->
  wp (server_name_loop fuel data list_end at_) host_ok (fun _ => True).
Proof.
  intros Hd. revert at_. induction fuel as [|fuel IH]; intros at_ Hf Hp; [lia|].
  cbn [server_name_loop]. destruct (Z.leb_spec (at_ + 3) list_end); [|done].
  apply wp_bind, wp_get; [|done]. intros kind _ Hat.
  apply wp_bind, wp_be16; [done| |done]. intros len Hlen _ _.
  apply wp_bind, wp_checked_add; [|done]. intros _.
  destruct (Z.gtb_spec (at_ + 3 + len) list_end); [done|].
  destruct (kind =? SNI_HOST_NAME); [|apply IH; lia].
  apply wp_bind, wp_oget; [|done]. intros. apply plausible_host_ok.
Qed.

Lemma first_server_name_ok `{UnicodeData} data :
  bytes_ok data -> wp (first_server_name data) host_ok (fun _ => True).
Proof.
  intros Hd. unfold first_server_name. apply wp_bind, wp_be16; [done| |done]. intros len Hlen _ _.
  apply wp_bind, wp_checked_add; [|done]. intros _.
  apply server_name_loop_ok; [done|unfold zlen; lia|lia].
Qed.

Lemma extensions_loop_ok `{UnicodeData} fuel hello ext_end at_ :
  bytes_ok hello -> ext_end - at_ < Z.of_nat fuel -> (0 < fuel)%nat ->
  wp (extensions_loop fuel hello ext_end at_) host_ok (fun _ => True).
Proof.
  intros Hd. revert at_. induction fuel as [|fuel IH]; intros at_ Hf Hp; [lia|].
  cbn [extensions_loop]. destruct (Z.leb_spec (at_ + 4) ext_end); [|done].
  apply wp_bind, wp_be16; [done| |done]. intros kind _ _ _.
  apply wp_bind, wp_be16; [done| |done]. intros len Hlen _ _.
  apply wp_bind, wp_checked_add; [|done]. intros _.
  destruct (Z.gtb_spec (at_ + 4 + len) ext_end); [done|].
  destruct (u16 kind =? EXT_SERVER_NAME); [|apply IH; lia].
  apply wp_bind, wp_oget; [|done]. intros data (-> & _)%get_slice_Some.
  apply first_server_name_ok. auto with bytes.
Qed.

Lemma hello_sni_ok `{UnicodeData} hello :
  bytes_ok hello -> wp (hello_sni hello) host_ok (fun _ => True).
Proof.
  intros Hh. unfold hello_sni.
  apply wp_bind, wp_get; [|done]. intros s Hs%bytes_ok_zget _; [|done]. unfold byte_ok in Hs.
  apply wp_bind, wp_checked_add; [|done]. intros _.
  apply wp_bind, wp_be16; [done| |done]. intros c Hc _ _.
  apply wp_bind, wp_checked_add; [|done]. intros _.
  apply wp_bind, wp_get; [|done]. intros z Hz%bytes_ok_zget _; [|done]. unfold byte_ok in Hz.
  apply wp_bind, wp_checked_add; [|done]. intros _.
  apply wp_bind, wp_be16; [done| |done]. intros e He _ _.
  apply wp_bind, wp_checked_add; [|done]. intros _.
  apply wp_bind, wp_checked_add; [|done]. intros _.
  apply extensions_loop_ok; [done|unfold zlen; lia|lia].
Qed.

Lemma tls_sni_ok `{UnicodeData} buf : bytes_ok buf -> wp (tls_sni buf) host_ok (fun _ => True).
Proof.
  intros Hb. unfold tls_sni. apply wp_bind, wp_oget; [|done]. intros first _.
  destruct (negb (first =? TLS_HANDSHAKE)); [done|].
  apply wp_bind, wp_be16; [done| |done]. intros n Hn _ _.
  apply wp_bind, wp_checked_add; [|done]. intros _.
  apply wp_bind, wp_oget; [|done]. intros body (-> & _)%get_slice_Some.
  apply wp_bind, wp_oget; [|done]. intros kind _.
  destruct (negb (kind =? TLS_CLIENT_HELLO)); [done|].
  apply wp_bind, wp_be24; [auto with bytes| |done]. intros m Hm.
  apply wp_bind, wp_checked_add; [|done]. intros _.
  apply wp_bind, wp_oget; [|done]. intros hello (-> & _)%get_slice_Some.
  apply hello_sni_ok. auto with bytes.
Qed.

Lemma host_header_ok `{UnicodeData} ls : wp (host_header ls) host_ok (fun _ => True).
Proof.
  induction ls as [|[|c line] ls IH]; [done..|]. cbn [host_header].
  destruct (split_once 58 (c :: line)) as [[name value]|]; [|done].
  destruct (negb _); [done|]. apply plausible_host_ok.
Qed.

Lemma http_host_ok `{UnicodeData} buf : wp (http_host buf) host_ok (fun _ => True).
Proof.
  unfold http_host. apply wp_bind, wp_oget; [|done]. intros head _.
  destruct (split_crlf (from_utf8_lossy head)) as [|line ls]; [done|].
  destruct (negb _); [done|]. apply host_header_ok.
Qed.

(** Sniffing is safe on whatever a client sends: it never panics or loops,
    and what it returns is always a lower-case name of at most 253 bytes, made
    of letters, digits, dots, dashes and underscores, with a dot in it, that
    was not an IP address literal. *)
Lemma hostname_sound `{UnicodeData} buf : bytes_ok buf -> wp (hostname buf) host_ok (fun _ => True).
Proof.
  intros Hb. unfold hostname. pose proof (tls_sni_ok buf Hb) as Ht. pose proof (http_host_ok buf).
  by destruct (tls_sni buf).
Qed.

(** *** A server name that is there is found *)

Lemma be16_at l v k p : p = zlen l -> 0 <= v < 65536 -> be16 (l ++ be_bytes 2 v ++ k) p = Done v.
Proof.
  intros -> Hv. unfold be16. rewrite be_bytes_2. cbn [app].
  rewrite (zget_app_plus l _ 1), (zget_app_mid l) by done. cbn [oget mbind outcome_bind].
  change (zget _ 1) with (Some (v `mod` 256)). cbn [oget mbind outcome_bind].
  rewrite lor_shiftl by (Z.div_mod_to_equations; lia). f_equal. change (2 ^ 8) with 256.
  by apply be_u16_bytes.
Qed.

Lemma be16_start v k : 0 <= v < 65536 -> be16 (be_bytes 2 v ++ k) 0 = Done v.
Proof. by apply (be16_at []). Qed.

Lemma be24_at l v k p : p = zlen l -> 0 <= v < 2 ^ 24 -> be24 (l ++ be_bytes 3 v ++ k) p = Done v.
Proof.
  intros -> Hv. unfold be24. cbn [be_bytes app]. rewrite Z.div_1_r.
  rewrite (zget_app_plus l _ 2), (zget_app_plus l _ 1), (zget_app_mid l) by done.
  cbn [oget mbind outcome_bind].
  change (zget _ 1) with (Some ((v / 256 ^ Z.of_nat 1) `mod` 256)).
  change (zget _ 2) with (Some (v `mod` 256)). cbn [oget mbind outcome_bind].
  rewrite <- Z.lor_assoc, (lor_shiftl _ _ 8), lor_shiftl by (Z.div_mod_to_equations; lia).
  f_equal. Z.div_mod_to_equations. lia.
Qed.

Lemma checked_add_ok a b : a + b <= u64_max -> oget (checked_add a b) = Done (a + b).
Proof. intros. unfold checked_add. by rewrite (proj2 (Z.leb_le _ _)). Qed.

Lemma get_slice_at (l m k : list Z) a b :
  a = zlen l -> b = a + zlen m -> get_slice (l ++ m ++ k) a b = Some m.
Proof.
  intros Ha Hb. unfold get_slice. rewrite (proj2 (in_slice_true _ _ _)).
  - by rewrite (zsub_app_mid l m k).
  - rewrite !zlen_app. pose proof (zlen_nonneg l). pose proof (zlen_nonneg m). pose proof (zlen_nonneg k). lia.
Qed.

(** An extension, and an entry of a server_name list. *)
Definition ext_bytes (e : Z * list Z) : list Z := be_bytes 2 e.1 ++ be_bytes 2 (zlen e.2) ++ e.2.
Definition ext_ok (e : Z * list Z) : Prop := 0 <= e.1 < 65536 /\ zlen e.2 < 65536.
Definition name_bytes (n : Z * list Z) : list Z := n.1 :: be_bytes 2 (zlen n.2) ++ n.2.

Lemma ext_len e : zlen (ext_bytes e) = 4 + zlen e.2.
Proof. unfold ext_bytes. rewrite !zlen_app, !zlen_be_bytes. lia. Qed.
Lemma name_len n : zlen (name_bytes n) = 3 + zlen n.2.
Proof. unfold name_bytes. rewrite zlen_cons, zlen_app, zlen_be_bytes. lia. Qed.

Lemma server_name_step `{UnicodeData} fuel pre k v r list_end :
  zlen v < 65536 -> zlen (pre ++ name_bytes (k, v)) <= list_end <= u64_max ->
  server_name_loop (S fuel) (pre ++ name_bytes (k, v) ++ r) list_end (zlen pre) =
  if k =? SNI_HOST_NAME then plausible_host v
  else server_name_loop fuel ((pre ++ name_bytes (k, v)) ++ r) list_end (zlen (pre ++ name_bytes (k, v))).
Proof.
  intros Hv Hend. rewrite zlen_app, name_len in *. cbn [snd] in *.
  pose proof (zlen_nonneg v). pose proof (zlen_nonneg pre). cbn [server_name_loop].
  rewrite (proj2 (Z.leb_le _ _)) by lia.
  assert (E1 : pre ++ name_bytes (k, v) ++ r = pre ++ k :: (be_bytes 2 (zlen v) ++ v ++ r))
    by (unfold name_bytes; cbn [fst snd app]; by rewrite <- app_assoc).
  assert (E2 : pre ++ name_bytes (k, v) ++ r = (pre ++ [k]) ++ be_bytes 2 (zlen v) ++ v ++ r)
    by (rewrite E1; by rewrite <- app_assoc).
  assert (E3 : pre ++ name_bytes (k, v) ++ r = ((pre ++ [k]) ++ be_bytes 2 (zlen v)) ++ v ++ r)
    by (rewrite E2; by rewrite <- !app_assoc).
  rewrite E1 at 1. rewrite zget_app_mid by done. cbn [oget mbind outcome_bind].
  rewrite E2 at 1. rewrite (be16_at (pre ++ [k])) by (rewrite ?zlen_app; try done; lia).
  cbn [oget mbind outcome_bind]. rewrite checked_add_ok by lia. cbn [oget mbind outcome_bind].
  destruct (Z.gtb_spec (zlen pre + 3 + zlen v) list_end); [lia|].
  destruct (k =? SNI_HOST_NAME).
  - rewrite E3, get_slice_at; [done| |lia].
    rewrite !zlen_app, zlen_be_bytes. change (zlen [k]) with 1. lia.
  - rewrite <- app_assoc. f_equal. lia.
Qed.

Lemma server_name_loop_at `{UnicodeData} fuel pre others host post list_end :
  Forall (fun n => n.1 <> SNI_HOST_NAME /\ zlen n.2 < 65536) others -> zlen host < 65536 ->
  zlen (pre ++ flat_map name_bytes others ++ name_bytes (SNI_HOST_NAME, host)) <= list_end <= u64_max ->
  (length others < fuel)%nat ->
  server_name_loop fuel (pre ++ flat_map name_bytes others ++ name_bytes (SNI_HOST_NAME, host) ++ post)
    list_end (zlen pre) = plausible_host host.
Proof.
  intros Ho Hh. revert fuel pre. induction Ho as [|[k v] others [Hk Hv] Ho IH]; intros fuel pre Hend Hf.
  all: destruct fuel as [|fuel]; [cbn in Hf; lia|]; cbn [flat_map length fst snd] in *.
  - by rewrite app_nil_l, server_name_step.
  - rewrite <- app_assoc, server_name_step; [|done|].
    + destruct (Z.eqb_spec k SNI_HOST_NAME); [done|]. apply IH; [|lia]. by rewrite <- !app_assoc in *.
    + rewrite !zlen_app in *. pose proof (zlen_nonneg (flat_map name_bytes others)).
      pose proof (zlen_nonneg (name_bytes (SNI_HOST_NAME, host))). lia.
Qed.

Lemma extensions_step `{UnicodeData} fuel pre e r ext_end :
  ext_ok e -> zlen (pre ++ ext_bytes e) <= ext_end <= u64_max ->
  extensions_loop (S fuel) (pre ++ ext_bytes e ++ r) ext_end (zlen pre) =
  if e.1 =? EXT_SERVER_NAME then first_server_name e.2
  else extensions_loop fuel ((pre ++ ext_bytes e) ++ r) ext_end (zlen (pre ++ ext_bytes e)).
Proof.
  destruct e as [k v]. intros [Hk Hv] Hend. cbn [fst snd] in *. rewrite zlen_app, ext_len in *. cbn [snd] in *.
  pose proof (zlen_nonneg v). pose proof (zlen_nonneg pre). cbn [extensions_loop].
  rewrite (proj2 (Z.leb_le _ _)) by lia.
  assert (E1 : pre ++ ext_bytes (k, v) ++ r = pre ++ be_bytes 2 k ++ be_bytes 2 (zlen v) ++ v ++ r)
    by (unfold ext_bytes; cbn [fst snd]; by rewrite <- !app_assoc).
  assert (E2 : pre ++ ext_bytes (k, v) ++ r = (pre ++ be_bytes 2 k) ++ be_bytes 2 (zlen v) ++ v ++ r)
    by (rewrite E1; by rewrite <- app_assoc).
  assert (E3 : pre ++ ext_bytes (k, v) ++ r = ((pre ++ be_bytes 2 k) ++ be_bytes 2 (zlen v)) ++ v ++ r)
    by (rewrite E2; by rewrite <- !app_assoc).
  rewrite E1 at 1. rewrite (be16_at pre k _ (zlen pre)) by lia. cbn [mbind outcome_bind].
  rewrite E2 at 1. rewrite (be16_at (pre ++ be_bytes 2 k)) by (rewrite ?zlen_app, ?zlen_be_bytes; lia).
  cbn [oget mbind outcome_bind]. rewrite checked_add_ok by lia. cbn [oget mbind outcome_bind].
  destruct (Z.gtb_spec (zlen pre + 4 + zlen v) ext_end); [lia|].
  unfold u16. rewrite Z.mod_small by lia. destruct (k =? EXT_SERVER_NAME).
  - rewrite E3, get_slice_at; [done| |lia]. rewrite !zlen_app, !zlen_be_bytes. lia.
  - rewrite <- app_assoc. f_equal. lia.
Qed.

Lemma extensions_loop_at `{UnicodeData} fuel pre others data post ext_end :
  Forall (fun e => ext_ok e /\ e.1 <> EXT_SERVER_NAME) others -> zlen data < 65536 ->
  zlen (pre ++ flat_map ext_bytes others ++ ext_bytes (EXT_SERVER_NAME, data)) <= ext_end <= u64_max ->
  (length others < fuel)%nat ->
  extensions_loop fuel (pre ++ flat_map ext_bytes others ++ ext_bytes (EXT_SERVER_NAME, data) ++ post)
    ext_end (zlen pre) = first_server_name data.
Proof.
  intros Ho Hd. revert fuel pre. induction Ho as [|e others [He Hk] Ho IH]; intros fuel pre Hend Hf.
  all: destruct fuel as [|fuel]; [cbn in Hf; lia|]; cbn [flat_map length] in *.
  - rewrite app_nil_l, extensions_step; [done|split; cbn; [unfold EXT_SERVER_NAME; lia|done]|done].
  - rewrite <- app_assoc, extensions_step; [|done|].
    + destruct (Z.eqb_spec e.1 EXT_SERVER_NAME); [done|]. apply IH; [|lia]. by rewrite <- !app_assoc in *.
    + rewrite !zlen_app in *. pose proof (zlen_nonneg (flat_map ext_bytes others)).
      pose proof (zlen_nonneg (ext_bytes (EXT_SERVER_NAME, data))). lia.
Qed.

(** A ClientHello as it goes over the wire, up to the server name; what the
    length fields announce may be more than what follows here. *)
Record client_hello := mkHello {
  ch_random : list Z;                (* version and random *)
  ch_session : list Z;
  ch_ciphers : list Z;
  ch_compression : list Z;
  ch_extensions : list (Z * list Z); (* before the server name *)
  ch_names : list (Z * list Z);      (* before the host name *)
  ch_host : list Z;
  ch_more_names : list Z;
  ch_extensions_len : Z;
  ch_names_len : Z;
}.

Definition sni_data (c : client_hello) : list Z :=
  be_bytes 2 (ch_names_len c) ++ flat_map name_bytes (ch_names c) ++
  name_bytes (SNI_HOST_NAME, ch_host c) ++ ch_more_names c.

Definition hello_exts (c : client_hello) : list Z :=
  flat_map ext_bytes (ch_extensions c) ++ ext_bytes (EXT_SERVER_NAME, sni_data c).

Definition hello_head (c : client_hello) : list Z :=
  ((((ch_random c ++ [zlen (ch_session c)]) ++ ch_session c) ++
   be_bytes 2 (zlen (ch_ciphers c))) ++ ch_ciphers c) ++
   [zlen (ch_compression c)] ++ ch_compression c.

Definition hello_bytes (c : client_hello) : list Z :=
  (hello_head c ++ be_bytes 2 (ch_extensions_len c)) ++ hello_exts c.

Definition hello_ok (c : client_hello) : Prop :=
  zlen (ch_random c) = 34 /\ zlen (ch_session c) < 256 /\ zlen (ch_ciphers c) < 65536 /\
  zlen (ch_compression c) < 256 /\
  Forall (fun e => ext_ok e /\ e.1 <> EXT_SERVER_NAME) (ch_extensions c) /\
  Forall (fun n => n.1 <> SNI_HOST_NAME /\ zlen n.2 < 65536) (ch_names c) /\
  zlen (ch_host c) < 65536 /\ zlen (sni_data c) < 65536 /\
  zlen (hello_exts c) <= ch_extensions_len c < 65536 /\
  zlen (flat_map name_bytes (ch_names c) ++ name_bytes (SNI_HOST_NAME, ch_host c)) <= ch_names_len c < 65536.

Lemma length_flat_map_pos {A B} (f : A -> list B) l :
  (forall a, 1 <= zlen (f a)) -> zlen l <= zlen (flat_map f l).
Proof.
  intros Hf. induction l as [|a l IH]; [done|]. cbn [flat_map]. rewrite zlen_cons, zlen_app.
  specialize (Hf a). lia.
Qed.

Lemma first_server_name_at `{UnicodeData} c :
  hello_ok c -> first_server_name (sni_data c) = plausible_host (ch_host c).
Proof.
  intros (_ & _ & _ & _ & _ & Hn & Hh & Hd & _ & Hl). unfold first_server_name.
  assert (Hlen : zlen (sni_data c) = 2 + zlen (flat_map name_bytes (ch_names c) ++
     name_bytes (SNI_HOST_NAME, ch_host c)) + zlen (ch_more_names c))
    by (unfold sni_data; rewrite !zlen_app, zlen_be_bytes; lia).
  pose proof (zlen_nonneg (ch_more_names c)).
  match type of Hl with zlen ?x <= _ < _ => pose proof (zlen_nonneg x) end.
  assert (Hb : be16 (sni_data c) 0 = Done (ch_names_len c)) by (apply be16_start; lia).
  rewrite Hb. cbn [mbind outcome_bind].
  rewrite checked_add_ok by (unfold u64_max; lia). cbn [mbind outcome_bind].
  apply (server_name_loop_at (S (length (sni_data c))) (be_bytes 2 (ch_names_len c))); [done..| |].
  - rewrite zlen_app, zlen_be_bytes. unfold u64_max. lia.
  - pose proof (length_flat_map_pos name_bytes (ch_names c)) as Hp.
    rewrite zlen_app in Hlen. pose proof (zlen_nonneg (name_bytes (SNI_HOST_NAME, ch_host c))).
    enough (zlen (ch_names c) < zlen (sni_data c) + 1) by (unfold zlen in *; lia).
    specialize (Hp ltac:(intros; rewrite name_len; pose proof (zlen_nonneg a.2); lia)). lia.
Qed.

(** Where the fields of a ClientHello are. *)
Lemma hello_layout c rest :
  let h := hello_bytes c ++ rest in
  (exists k, h = ch_random c ++ zlen (ch_session c) :: k) /\
  (exists k, h = ((ch_random c ++ [zlen (ch_session c)]) ++ ch_session c) ++
      be_bytes 2 (zlen (ch_ciphers c)) ++ k) /\
  (exists k, h = ((((ch_random c ++ [zlen (ch_session c)]) ++ ch_session c) ++
      be_bytes 2 (zlen (ch_ciphers c))) ++ ch_ciphers c) ++ zlen (ch_compression c) :: k) /\
  h = hello_head c ++ be_bytes 2 (ch_extensions_len c) ++ hello_exts c ++ rest /\
  h = (hello_head c ++ be_bytes 2 (ch_extensions_len c)) ++
      flat_map ext_bytes (ch_extensions c) ++ ext_bytes (EXT_SERVER_NAME, sni_data c) ++ rest /\
  zlen (hello_head c) = zlen (ch_random c) + (1 + zlen (ch_session c)) + (2 + zlen (ch_ciphers c)) +
      (1 + zlen (ch_compression c)).
Proof.
  cbv zeta. unfold hello_bytes, hello_exts, hello_head.
  split_and!; try (try eexists; by rewrite <- !app_assoc).
  rewrite !zlen_app, zlen_be_bytes. unfold zlen. cbn. lia.
Qed.

Lemma hello_sni_at `{UnicodeData} c rest :
  hello_ok c -> zlen (hello_bytes c ++ rest) <= u64_max ->
  hello_sni (hello_bytes c ++ rest) = plausible_host (ch_host c).
Proof.
  intros Hok Hbig. rewrite <- first_server_name_at by done.
  destruct (hello_layout c rest) as ([k1 E1] & [k2 E2] & [k3 E3] & E4 & E5 & Hhead).
  destruct Hok as (Hr & Hs & Hc & Hz & He & _ & _ & Hd & Hl & _).
  set (h := hello_bytes c ++ rest) in *. unfold hello_sni.
  assert (Hh : zlen h = zlen (hello_head c) + 2 + zlen (hello_exts c) + zlen rest)
    by (rewrite E4, !zlen_app, zlen_be_bytes; lia).
  pose proof (zlen_nonneg (ch_session c)). pose proof (zlen_nonneg (ch_ciphers c)).
  pose proof (zlen_nonneg (ch_compression c)). pose proof (zlen_nonneg (hello_exts c)).
  pose proof (zlen_nonneg rest).
  assert (Hf : (length (ch_extensions c) < S (length h))%nat).
  { pose proof (length_flat_map_pos ext_bytes (ch_extensions c)) as Hp.
    specialize (Hp ltac:(intros; rewrite ext_len; pose proof (zlen_nonneg a.2); lia)).
    unfold hello_exts in Hh. rewrite zlen_app in Hh.
    pose proof (zlen_nonneg (ext_bytes (EXT_SERVER_NAME, sni_data c))).
    unfold zlen in *. lia. }
  generalize dependent (S (length h)). intros fuel Hf.
  rewrite E1 at 1. rewrite zget_app_mid by (rewrite Hr; done). cbn [oget mbind outcome_bind].
  rewrite checked_add_ok by lia. cbn [mbind outcome_bind].
  rewrite E2 at 1. rewrite be16_at by (rewrite ?zlen_app, ?Hr; unfold zlen in *; cbn; lia).
  cbn [mbind outcome_bind]. rewrite checked_add_ok by lia. cbn [mbind outcome_bind].
  rewrite E3 at 1.
  rewrite zget_app_mid by (rewrite !zlen_app, zlen_be_bytes, Hr; unfold zlen in *; cbn; lia).
  cbn [oget mbind outcome_bind]. rewrite checked_add_ok by lia. cbn [mbind outcome_bind].
  rewrite E4 at 1. rewrite be16_at by (rewrite ?Hhead; lia).
  cbn [oget mbind outcome_bind]. rewrite checked_add_ok by lia. cbn [mbind outcome_bind].
  rewrite checked_add_ok by (unfold u64_max; lia). cbn [mbind outcome_bind].
  replace (2 + 32 + (1 + zlen (ch_session c)) + (2 + zlen (ch_ciphers c)) + (1 + zlen (ch_compression c)) + 2)
    with (zlen (hello_head c ++ be_bytes 2 (ch_extensions_len c)))
    by (rewrite zlen_app, zlen_be_bytes, Hhead; lia).
  rewrite E5 at 1. apply extensions_loop_at; [done..| |done].
  change (flat_map ext_bytes (ch_extensions c) ++ _) with (hello_exts c).
  rewrite (zlen_app (hello_head c ++ _)), (zlen_app (hello_head c)), zlen_be_bytes. lia.
Qed.

(** Slicing up to an announced length that covers [m]. *)
Lemma get_slice_covering (l m k : list Z) a n :
  a = zlen l -> zlen m <= n ->
  get_slice (l ++ m ++ k) a (Z.min (a + n) (zlen (l ++ m ++ k))) = Some (m ++ ztake (n - zlen m) k).
Proof.
  intros -> Hn. unfold get_slice. rewrite !zlen_app.
  pose proof (zlen_nonneg l). pose proof (zlen_nonneg m). pose proof (zlen_nonneg k).
  rewrite (proj2 (in_slice_true _ _ _)) by (rewrite !zlen_app; lia). f_equal.
  unfold zsub. rewrite zdrop_app_eq. unfold ztake. rewrite take_app. f_equal.
  - apply take_ge. unfold zlen in *. lia.
  - destruct (decide (n - zlen m <= zlen k)); [f_equal; unfold zlen in *; lia|].
    rewrite !take_ge by (unfold zlen in *; lia). done.
Qed.

(** A peek at the record that carries a ClientHello; [rest] is whatever
    follows the server name in the buffer. *)
Definition peeked (v1 v2 record_len hello_len : Z) (c : client_hello) (rest : list Z) : list Z :=
  ([TLS_HANDSHAKE; v1; v2] ++ be_bytes 2 record_len) ++
  (([TLS_CLIENT_HELLO] ++ be_bytes 3 hello_len) ++ hello_bytes c) ++ rest.

(** The server name of a ClientHello is found wherever it is: after any
    other extensions and any entries of another type, with any session, cipher
    and compression fields, and also when the peek ends before the record or
    the ClientHello does, as long as the server name itself is in it. *)
Lemma tls_sni_found `{UnicodeData} v1 v2 record_len hello_len c rest :
  hello_ok c -> 4 + zlen (hello_bytes c) <= record_len < 65536 ->
  zlen (hello_bytes c) <= hello_len < 2 ^ 24 -> zlen rest < 2 ^ 60 ->
  tls_sni (peeked v1 v2 record_len hello_len c rest) = plausible_host (ch_host c).
Proof.
  intros Hok Hrl Hhl Hrest. unfold tls_sni. pose proof (zlen_nonneg (hello_bytes c)).
  set (buf := peeked v1 v2 record_len hello_len c rest).
  change (zget buf 0) with (Some TLS_HANDSHAKE). cbn [oget mbind outcome_bind Z.eqb negb].
  rewrite Z.eqb_refl. cbn [negb].
  assert (Hb : be16 buf 3 = Done record_len).
  { unfold buf, peeked. rewrite <- app_assoc. apply be16_at; [done|lia]. }
  rewrite Hb. cbn [mbind outcome_bind]. rewrite checked_add_ok by (unfold u64_max; lia).
  cbn [mbind outcome_bind]. unfold buf, peeked at 1. unfold peeked.
  rewrite (get_slice_covering _ _ _ 5 record_len)
    by (rewrite ?zlen_app, ?zlen_be_bytes; try done; unfold zlen in *; cbn; lia).
  cbn [oget mbind outcome_bind].
  set (rest' := ztake _ rest). rewrite <- (app_assoc _ (hello_bytes c)).
  set (body := _ ++ hello_bytes c ++ rest').
  change (zget body 0) with (Some TLS_CLIENT_HELLO). cbn [oget mbind outcome_bind].
  rewrite Z.eqb_refl. cbn [negb].
  assert (Hb' : be24 body 1 = Done hello_len).
  { unfold body. rewrite <- app_assoc. apply be24_at; [done|lia]. }
  rewrite Hb'. cbn [mbind outcome_bind]. rewrite checked_add_ok by (unfold u64_max; lia).
  cbn [mbind outcome_bind]. unfold body.
  rewrite (get_slice_covering _ _ _ 4 hello_len) by (rewrite ?zlen_app, ?zlen_be_bytes; try done; lia).
  cbn [oget mbind outcome_bind]. apply hello_sni_at; [done|].
  rewrite zlen_app. unfold rest', u64_max, zlen, ztake in *. rewrite !length_take. lia.
Qed.

Definition sample_hello : client_hello :=
  mkHello (replicate 34 7) [1; 2; 3] [19; 1; 19; 2] [0] [(10, [0; 29]); (13, [])] [(9, [5])]
    (utf8 (lit "Api.Example.org")) [] 200 60.

(** *** A Host header that is there is found *)

(** Lines joined by carriage return, line feed. *)
Fixpoint join_crlf (ls : list str) : str :=
  match ls with
  | [] => []
  | [l] => l
  | l :: ls => l ++ 13 :: 10 :: join_crlf ls
  end.

Lemma split_crlf_cons c s :
  c <> 13 ->
  split_crlf (c :: s) = match split_crlf s with [] => [[c]] | x :: xs => (c :: x) :: xs end.
Proof. intros Hc. destruct c as [|p|p]; try done. do 4 (destruct p as [p|p|]; try done). Qed.

Lemma split_crlf_line l s xs :
  13 ∉ l -> split_crlf s = [] :: xs -> split_crlf (l ++ s) = l :: xs.
Proof.
  intros Hl Hs. induction l as [|c l IH]; [done|].
  apply not_elem_of_cons in Hl as [Hc Hl]. cbn [app]. rewrite split_crlf_cons by done.
  by rewrite IH.
Qed.

Lemma split_join_crlf ls : ls <> [] -> Forall (fun l => 13 ∉ l) ls -> split_crlf (join_crlf ls) = ls.
Proof.
  intros Hne Hls. induction Hls as [|l ls Hl Hls IH]; [done|]. destruct ls as [|l' ls].
  - cbn [join_crlf]. rewrite <- (app_nil_r l) at 1. by apply split_crlf_line.
  - cbn [join_crlf]. apply split_crlf_line; [done|].
    change (split_crlf (13 :: 10 :: ?s)) with ([] :: split_crlf s).
    f_equal. by apply IH.
Qed.

Definition is_host_line (l : str) : bool :=
  match split_once 58 l with
  | Some (name, _) => eq_ignore_ascii_case name (lit "host")
  | None => false
  end.

Lemma host_name_no_colon name : eq_ignore_ascii_case name (lit "host") = true -> 58 ∉ name.
Proof.
  unfold eq_ignore_ascii_case. intros H%str_eqb_eq Hin.
  apply list_elem_of_In, (in_map ascii_lower) in Hin. change (ascii_lower 58) with 58 in Hin.
  change (map ascii_lower name) with (to_ascii_lowercase name) in Hin. rewrite H in Hin.
  vm_compute in Hin. intuition discriminate.
Qed.

Lemma host_header_at `{UnicodeData} before name value after :
  Forall (fun l => l <> [] /\ is_host_line l = false) before ->
  eq_ignore_ascii_case name (lit "host") = true ->
  host_header (before ++ (name ++ 58 :: value) :: after) = plausible_host (utf8 (without_port (trim value))).
Proof.
  intros Hb Hn. induction Hb as [|l before [Hl Hh] Hb IH]; cbn [app host_header].
  - rewrite split_once_at by (by apply host_name_no_colon). rewrite Hn. by destruct name.
  - unfold is_host_line in Hh. destruct l as [|c l]; [done|].
    destruct (split_once 58 (c :: l)) as [[n v]|]; [|done]. by rewrite Hh.
Qed.

(** The Host header of an HTTP request that fits in the peek is found
    behind any other headers, whatever the case of its name, and its value is
    judged without surrounding blanks and without a port. *)
Lemma http_host_found `{UnicodeData} request before name value after :
  let ls := request :: before ++ (name ++ 58 :: value) :: after in
  Forall (Forall is_scalar) ls -> Forall (fun l => 13 ∉ l) ls -> zlen (utf8 (join_crlf ls)) <= PEEK_BUDGET ->
  looks_like_http request = true ->
  Forall (fun l => l <> [] /\ is_host_line l = false) before ->
  eq_ignore_ascii_case name (lit "host") = true ->
  http_host (utf8 (join_crlf ls)) = plausible_host (utf8 (without_port (trim value))).
Proof.
  intros ls Hs Hcr Hlen Hreq Hb Hn. unfold http_host.
  assert (Hjoin : Forall is_scalar (join_crlf ls)).
  { clear -Hs. induction Hs as [|l ls Hl Hs IH]; [constructor|]. destruct ls; [done|].
    cbn [join_crlf]. apply Forall_app. split; [done|].
    repeat (constructor; [unfold is_scalar; lia|]). done. }
  unfold get_slice. pose proof (zlen_nonneg (utf8 (join_crlf ls))).
  rewrite (proj2 (in_slice_true _ _ _)) by lia. cbn [oget mbind outcome_bind].
  unfold zsub. rewrite zdrop_0, ztake_all by lia.
  rewrite from_utf8_lossy_utf8, split_join_crlf by done. unfold ls. rewrite Hreq. cbn [negb].
  by apply host_header_at.
Qed.

(** A request line starts with a letter, so it is not taken for TLS. *)
Lemma http_not_tls `{UnicodeData} request rest :
  looks_like_http request = true -> tls_sni (utf8 (request ++ rest)) = Fail tt.
Proof.
  intros [Hm _]%andb_prop. apply existsb_exists in Hm as (m & Hm & Hs).
  assert (Hfirst : match m with c :: _ => (65 <=? c) && (c <=? 90) | [] => false end = true).
  { clear Hs. revert m Hm. apply forallb_forall. by vm_compute. }
  destruct m as [|c m]; [done|].
  destruct request as [|c' request]; [done|]. cbn [starts_with] in Hs. apply andb_prop in Hs as [Hc%Z.eqb_eq _]. subst c'.
  assert (Hletter : 65 <= c <= 90) by lia.
  unfold tls_sni. cbn [app utf8 flat_map]. unfold utf8_char. rewrite (proj2 (Z.ltb_lt c 128)) by lia.
  cbn [app]. rewrite zget_0. cbn [oget mbind outcome_bind].
  rewrite (proj2 (Z.eqb_neq c TLS_HANDSHAKE)) by (unfold TLS_HANDSHAKE; lia). done.
Qed.

Lemma join_crlf_cons l ls : exists rest, join_crlf (l :: ls) = l ++ rest.
Proof. destruct ls; [exists []; by rewrite app_nil_r | by eexists]. Qed.

(** C37: sniffing is safe on whatever a client sends and finds a host name that is
    there.  It never panics or loops, and what it returns is a lower-case name
    of at most 253 bytes, with a dot in it, that was not an IP address literal.  The server name of a ClientHello is
    found after any other extensions and entries, with any session, cipher and
    compression fields, also when the peek ends before the record or the
    ClientHello does, as long as the name itself is in it; the Host header of
    an HTTP request that fits in the peek is found behind any other headers,
    whatever the case of its name, and judged without blanks and port. *)
Theorem hostname_found `{UnicodeData} :
  (forall v1 v2 record_len hello_len c rest name,
     hello_ok c -> 4 + zlen (hello_bytes c) <= record_len < 65536 ->
     zlen (hello_bytes c) <= hello_len < 2 ^ 24 -> zlen rest < 2 ^ 60 ->
     plausible_host (ch_host c) = Done name ->
     hostname (peeked v1 v2 record_len hello_len c rest) = Done name) /\
  (forall request before name value after,
     let ls := request :: before ++ (name ++ 58 :: value) :: after in
     Forall (Forall is_scalar) ls -> Forall (fun l => 13 ∉ l) ls ->
     zlen (utf8 (join_crlf ls)) <= PEEK_BUDGET -> looks_like_http request = true ->
     Forall (fun l => l <> [] /\ is_host_line l = false) before ->
     eq_ignore_ascii_case name (lit "host") = true ->
     hostname (utf8 (join_crlf ls)) = plausible_host (utf8 (without_port (trim value)))) /\
  (forall buf, bytes_ok buf -> wp (hostname buf) host_ok (fun _ => True)).
Proof.
  split; [|split; [|exact hostname_sound]].
  - intros v1 v2 rl hl c rest name Hok Hr Hh Hrest Hname. unfold hostname. by rewrite tls_sni_found, Hname.
  - intros request before name value after ls Hs Hcr Hlen Hreq Hb Hn. unfold hostname.
    destruct (join_crlf_cons request (before ++ (name ++ 58 :: value) :: after)) as [rest Hrest].
    fold ls in Hrest. rewrite Hrest at 1. rewrite http_not_tls by done. by apply http_host_found.
Qed.

Lemma hostname_found_witness :
  hostname (H := ascii_only) (peeked 3 1 512 500 sample_hello [1; 2; 3]) = Done (lit "api.example.org") /\
  hostname (H := ascii_only)
    (utf8 (join_crlf [lit "POST /x HTTP/1.1"; lit "Accept: */*"; lit "hOsT: Www.Example.net:8443"; []]))
  = Done (lit "www.example.net") /\
  wp (hostname (H := ascii_only) (utf8 (lit "GET / HTTP/1.1" ++ [13; 10] ++ lit "Host: a.B")))
    host_ok (fun _ => True).
Proof.
  split; [|split].
  - apply (proj1 (hostname_found (H := ascii_only)) 3 1 512 500 sample_hello [1; 2; 3]);
      [unfold hello_ok; split_and!; repeat constructor; vm_compute; done|vm_compute; done..].
  - etransitivity.
    + apply (proj1 (proj2 (hostname_found (H := ascii_only))) (lit "POST /x HTTP/1.1") [lit "Accept: */*"] (lit "hOsT")
               (lit " Www.Example.net:8443") [[]]);
        try (apply (bool_decide_unpack _); vm_compute; exact I); try (vm_compute; done).
    + vm_compute. done.
  - apply (proj2 (proj2 (hostname_found (H := ascii_only))) (utf8 (lit "GET / HTTP/1.1" ++ [13; 10] ++ lit "Host: a.B"))).
    apply (bool_decide_unpack _). vm_compute. done.
Defined.
