(* ===== verification/Fragment.v ===== *)
(** * ClientHello fragmentation (src/native/aether/aether/src/fragment.rs)

    A stream that writes the first bytes of a connection in small pieces with
    pauses between them, the first cut falling inside the server name.  The
    stream underneath is an [AsyncWrite]; random numbers and the clock are
    arguments. *)

From stdpp Require Import base list option.
From Stdlib Require Import ZArith Lia.
From S2P Require Import Prelude Rand RustStr Net Sysprofile Sniff.

Record FragmentConfig := mkConfig {
  enabled : bool;
  size_min : Z;
  size_max : Z;
  delay_min_ms : Z;
  delay_max_ms : Z;
  sni_split : bool;
}.

Definition disabled : FragmentConfig := mkConfig false 1 1 0 0 false.

Definition is_truthy `{UnicodeData} (v : str) : bool :=
  let v := to_lowercase (trim v) in
  str_eqb v (lit "1") || str_eqb v (lit "true") || str_eqb v (lit "yes") || str_eqb v (lit "on").

Definition parse_range (spec : str) (default_ : Z * Z) : Z * Z :=
  let spec := trim spec in
  match spec with
  | [] => default_
  | _ =>
      match split_once 45 spec with
      | Some (a, b) =>
          let lo := default default_.1 (parse_uint u64_max (trim a)) in
          let hi := default default_.2 (parse_uint u64_max (trim b)) in
          if hi <? lo then (hi, lo) else (lo, hi)
      | None =>
          let v := default default_.1 (parse_uint u64_max spec) in
          (v, v)
      end
  end.

Definition from_env `{UnicodeData} {arch : Arch} (env : environment) : FragmentConfig :=
  let enabled := match env (lit "AETHER_MASQUE_H2_FRAGMENT") with Some v => is_truthy v | None => false end in
  let '(smin, smax) := parse_range (default [] (env (lit "AETHER_MASQUE_H2_FRAGMENT_SIZE"))) (16, 32) in
  let '(dmin, dmax) := parse_range (default [] (env (lit "AETHER_MASQUE_H2_FRAGMENT_DELAY"))) (2, 10) in
  let smin := as_usize (Z.max smin 1) in
  let smax := as_usize (Z.max smax smin) in
  let sni := match env (lit "AETHER_MASQUE_H2_FRAGMENT_SNI") with Some v => is_truthy v | None => true end in
  mkConfig enabled smin smax dmin (Z.max dmax dmin) sni.

Definition pick_chunk_len {E} (cfg : FragmentConfig) (word remaining : Z) : outcome E Z :=
  let hi := Z.min (Z.max (size_max cfg) 1) remaining in
  let lo := Z.min (Z.max (size_min cfg) 1) hi in
  if hi <=? lo then Done hi else random_range word lo hi.

(** In milliseconds. *)
Definition pick_delay {E} (cfg : FragmentConfig) (word : Z) : outcome E Z :=
  if delay_max_ms cfg =? 0 then Done 0
  else if delay_max_ms cfg <=? delay_min_ms cfg then Done (delay_min_ms cfg)
  else random_range word (delay_min_ms cfg) (delay_max_ms cfg).

(** ** The host name in a ClientHello *)

(** The closure [take]: [n] bytes at [at], big endian. *)
Definition take_at (buf : list Z) (at_ n : Z) : opt Z :=
  end_ ← oget (checked_add at_ n);
  s ← oget (get_slice buf at_ end_);
  Done (fold_left (fun acc b => Z.lor (Z.shiftl acc 8) b) s 0).

Fixpoint sni_range_loop (fuel : nat) (buf : list Z) (extensions_end at_ : Z) : opt (Z * Z) :=
  match fuel with
  | O => Diverge
  | S fuel =>
      if at_ + 4 <=? extensions_end then
        kind ← take_at buf at_ 2;
        len ← take_at buf (at_ + 2) 2;
        let body := at_ + 4 in
        if kind =? 0 then
          let entry := body + 2 in
          t ← take_at buf entry 1;
          if negb (t =? 0) then no_value
          else
            host_len ← take_at buf (entry + 1) 2;
            let host := entry + 3 in
            if (host_len =? 0) || (host + host_len >? zlen buf) then no_value
            else Done (host, host + host_len)
        else sni_range_loop fuel buf extensions_end (body + len)
      else no_value
  end.

Definition sni_host_range (buf : list Z) : opt (Z * Z) :=
  first ← oget (zget buf 0);
  if negb (first =? 0x16) then no_value
  else
    kind ← oget (zget buf 5);
    if negb (kind =? 1) then no_value
    else
      let at_ := 43 in
      n ← take_at buf at_ 1; let at_ := at_ + 1 + n in
      n ← take_at buf at_ 2; let at_ := at_ + 2 + n in
      n ← take_at buf at_ 1; let at_ := at_ + 1 + n in
      n ← take_at buf at_ 2;
      let extensions_end := at_ + 2 + n in
      sni_range_loop (S (length buf)) buf extensions_end (at_ + 2).

(** ** The stream *)

Inductive poll :=
| Ready (n : Z)
| ReadyErr (e : str)
| Pending.

(** The stream underneath.  [written] is what has gone into it. *)
Class AsyncWrite (W : Type) := {
  inner_poll_write : W -> list Z -> poll * W;
  written : W -> list Z;
}.

(** The contract of [poll_write]: [Ready n] has taken the first [n] bytes of
    the buffer, anything else has taken none. *)
Class AsyncWriteLaws (W : Type) `{AsyncWrite W} : Prop := {
  poll_write_ready : forall w buf n w', inner_poll_write w buf = (Ready n, w') ->
    0 <= n <= zlen buf /\ written w' = written w ++ ztake n buf;
  poll_write_other : forall w buf r w', inner_poll_write w buf = (r, w') ->
    (forall n, r <> Ready n) -> written w' = written w;
}.

Section stream.
Context {W : Type} `{AsyncWrite W}.

(** The delay is the instant it ends at, in milliseconds. *)
Record FragmentingStream := mkStream {
  inner : W;
  cfg : FragmentConfig;
  fragmenting : bool;
  first_write : bool;
  pending_delay : option Z;
}.

Definition new (w : W) (c : FragmentConfig) : FragmentingStream :=
  mkStream w c (enabled c) true None.

(** [poll_read] ends the fragmentation, whatever the read returns. *)
Definition poll_read (s : FragmentingStream) (w : W) : FragmentingStream :=
  mkStream w (cfg s) false (first_write s) (pending_delay s).

Definition set_inner (s : FragmentingStream) (w : W) : FragmentingStream :=
  mkStream w (cfg s) (fragmenting s) (first_write s) (pending_delay s).

(** How much of [buf] the next write offers. *)
Definition chunk_len_of (s : FragmentingStream) (word : Z) (buf : list Z) : outcome False Z :=
  let pick := pick_chunk_len (cfg s) word (zlen buf) in
  if first_write s && sni_split (cfg s) then
    match sni_host_range buf with
    | Done (start, end_) =>
        let split := start + (end_ - start) / 2 in
        if (0 <? split) && (split <? zlen buf) then Done split else pick
    | Fail _ => pick
    | Panic => Panic
    | Diverge => Diverge
    end
  else pick.

(** What a poll reads of its surroundings. *)
Record poll_env := mkPollEnv { now : Z; chunk_word : Z; delay_word : Z; sleep_start : Z }.

Definition poll_write (e : poll_env) (s : FragmentingStream) (buf : list Z)
    : outcome False (poll * FragmentingStream) :=
  if (zlen buf =? 0) || negb (fragmenting s) then
    let '(r, w) := inner_poll_write (inner s) buf in Done (r, set_inner s w)
  else
    let sleeping := match pending_delay s with Some at_ => negb (at_ <=? now e) | None => false end in
    if sleeping then Done (Pending, s)
    else
      let s := mkStream (inner s) (cfg s) (fragmenting s) (first_write s) None in
      chunk_len ← chunk_len_of s (chunk_word e) buf;
      chunk ← slice buf 0 chunk_len;
      match inner_poll_write (inner s) chunk with
      | (Ready n, w) =>
          if 0 <? n then
            delay ← pick_delay (cfg s) (delay_word e);
            let pending := if negb (delay =? 0) then Some (sleep_start e + delay) else None in
            Done (Ready n, mkStream w (cfg s) (fragmenting s) false pending)
          else Done (Ready n, set_inner s w)
      | (r, w) => Done (r, set_inner s w)
      end.

(** The caller's side: the polls of a [write_all], one environment each; what
    is left of the data, and the stream. *)
Fixpoint write_all (polls : list poll_env) (s : FragmentingStream) (data : list Z)
    : outcome False (list Z * FragmentingStream) :=
  match polls, data with
  | _, [] => Done ([], s)
  | [], _ => Done (data, s)
  | e :: polls, _ =>
      '(r, s) ← poll_write e s data;
      match r with
      | Ready n => if n =? 0 then Done (data, s) else write_all polls s (zdrop n data)
      | Pending => write_all polls s data
      | ReadyErr _ => Done (data, s)
      end
  end.
End stream.
Arguments FragmentingStream W : clear implicits.

Example fragment_examples (U : UnicodeData) :
  parse_range (lit " 40-10 ") (16, 32) = (10, 40) /\ parse_range (lit "7") (16, 32) = (7, 7) /\
  parse_range (lit "x-9") (16, 32) = (9, 16) /\
  sni_host_range (peeked 3 1 512 500
    (mkHello (replicate 34 7) [1; 2; 3] [19; 1; 19; 2] [0] [(10, [0; 29]); (13, [])] []
       (utf8 (lit "Api.Example.org")) [] 200 60) [1; 2]) = Done (76, 91).
Proof. vm_compute. done. Qed.

(** ** Facts *)

Lemma pick_chunk_len_spec {E} c word remaining :
  1 <= remaining ->
  wp (pick_chunk_len (E := E) c word remaining)
     (fun n => 1 <= n <= remaining /\ n <= Z.max (size_max c) 1 /\
               (Z.min (size_min c) (size_max c) <= n \/ n = remaining))
     (fun _ => False).
Proof.
  intros Hr. unfold pick_chunk_len.
  set (hi := Z.min (Z.max (size_max c) 1) remaining). set (lo := Z.min (Z.max (size_min c) 1) hi).
  destruct (Z.leb_spec hi lo); [cbn; lia|].
  eapply wp_mono; [apply random_range_spec; lia| |done]. cbn. lia.
Qed.

Lemma pick_delay_spec {E} c word :
  0 <= delay_min_ms c ->
  wp (pick_delay (E := E) c word) (fun n => 0 <= n <= Z.max (delay_min_ms c) (delay_max_ms c)) (fun _ => False).
Proof.
  intros Hd. unfold pick_delay. destruct (delay_max_ms c =? 0); [cbn; lia|].
  destruct (Z.leb_spec (delay_max_ms c) (delay_min_ms c)); [cbn; lia|].
  eapply wp_mono; [apply random_range_spec; lia| |done]. cbn. lia.
Qed.

Lemma fold_be_nonneg s acc :
  bytes_ok s -> 0 <= acc -> 0 <= fold_left (fun acc b => Z.lor (Z.shiftl acc 8) b) s acc.
Proof.
  intros Hs. revert acc. induction Hs as [|b s Hb Hs IH]; intros acc Ha; [done|]. cbn [fold_left].
  apply IH. unfold byte_ok in Hb. rewrite Z.lor_nonneg, Z.shiftl_nonneg. lia.
Qed.

Lemma wp_take_at buf i n (Q : Z -> Prop) (R : unit -> Prop) :
  bytes_ok buf -> (forall v, 0 <= v -> 0 <= i -> i + n <= zlen buf -> Q v) -> R tt ->
  wp (take_at buf i n) Q R.
Proof.
  intros Hb HQ HR. unfold take_at. apply wp_bind, wp_checked_add; [|done]. intros _.
  apply wp_bind, wp_oget; [|done]. intros s (-> & Hi & Hl)%get_slice_Some.
  apply HQ; [|lia..]. apply fold_be_nonneg; [auto with bytes|done].
Qed.

Definition in_buf (buf : list Z) (r : Z * Z) : Prop := 0 < r.1 < r.2 /\ r.2 <= zlen buf.

Lemma sni_range_loop_total fuel buf ext_end at_ :
  bytes_ok buf -> zlen buf - at_ < Z.of_nat fuel -> (0 < fuel)%nat -> 0 <= at_ ->
  wp (sni_range_loop fuel buf ext_end at_) (in_buf buf) (fun _ => True).
Proof.
  intros Hb. revert at_. induction fuel as [|fuel IH]; intros at_ Hf Hp Ha; [lia|].
  cbn [sni_range_loop]. destruct (at_ + 4 <=? ext_end); [|done].
  apply wp_bind, wp_take_at; [done| |done]. intros kind _ _ Hk.
  apply wp_bind, wp_take_at; [done| |done]. intros len Hlen _ Hl.
  destruct (kind =? 0); [|apply IH; lia].
  apply wp_bind, wp_take_at; [done| |done]. intros t _ _ _. destruct (negb (t =? 0)); [done|].
  apply wp_bind, wp_take_at; [done| |done]. intros host_len Hh _ _.
  destruct ((host_len =? 0) || _) eqn:E; [done|]. unfold in_buf. cbn. lia.
Qed.

Lemma sni_host_range_total buf : bytes_ok buf -> wp (sni_host_range buf) (in_buf buf) (fun _ => True).
Proof.
  intros Hb. unfold sni_host_range. apply wp_bind, wp_oget; [|done]. intros first _.
  destruct (negb (first =? 22)); [done|]. apply wp_bind, wp_oget; [|done]. intros kind _.
  destruct (negb (kind =? 1)); [done|].
  do 4 (apply wp_bind, wp_take_at; [done| |done]; intros ? ? _ _).
  apply sni_range_loop_total; [done|unfold zlen; lia..].
Qed.

Section stream_facts.
Context {W : Type} `{AsyncWriteLaws W}.
Implicit Types s : FragmentingStream W.

Lemma chunk_len_spec s word buf :
  bytes_ok buf -> 1 <= zlen buf ->
  wp (chunk_len_of s word buf) (fun n => 1 <= n <= zlen buf) (fun _ => False).
Proof.
  intros Hb Hl. unfold chunk_len_of.
  assert (Hpick : wp (E := False) (pick_chunk_len (cfg s) word (zlen buf)) (fun n => 1 <= n <= zlen buf) (fun _ => False)).
  { eapply wp_mono; [by apply pick_chunk_len_spec| |done]. cbn. tauto. }
  destruct (first_write s && sni_split (cfg s)); [|done].
  pose proof (sni_host_range_total buf Hb) as Hs.
  destruct (sni_host_range buf) as [[start end_]| | |]; try done.
  destruct ((0 <? _) && _) eqn:E; [|done]. cbn. lia.
Qed.

(** A poll hands a prefix of the buffer to the stream underneath, or nothing. *)
Definition step_ok s (buf : list Z) (r : poll) s' : Prop :=
  cfg s' = cfg s /\
  match r with
  | Ready n => 0 <= n <= zlen buf /\ written (inner s') = written (inner s) ++ ztake n buf
  | _ => written (inner s') = written (inner s)
  end.

Lemma inner_step s w buf chunk r w' :
  inner_poll_write w chunk = (r, w') -> w = inner s -> chunk `prefix_of` buf ->
  match r with
  | Ready n => 0 <= n <= zlen buf /\ written w' = written w ++ ztake n buf
  | _ => written w' = written w
  end.
Proof.
  intros Hw -> [k ->]. destruct r as [n| |].
  - apply poll_write_ready in Hw as [Hn ->]. rewrite zlen_app. pose proof (zlen_nonneg k).
    split; [lia|]. f_equal. unfold ztake. rewrite take_app_le; [done|]. unfold zlen in Hn. lia.
  - by eapply poll_write_other in Hw.
  - by eapply poll_write_other in Hw.
Qed.

Lemma poll_write_spec e s buf :
  bytes_ok buf -> 0 <= delay_min_ms (cfg s) ->
  wp (poll_write e s buf) (fun '(r, s') => step_ok s buf r s') (fun _ => False).
Proof.
  intros Hb Hd. unfold poll_write.
  destruct ((zlen buf =? 0) || negb (fragmenting s)) eqn:Ef.
  { destruct (inner_poll_write (inner s) buf) as [r w] eqn:Ew. cbn. split; [done|].
    by eapply inner_step in Ew. }
  destruct (match pending_delay s with Some _ => _ | None => _ end); [by split|].
  pose proof (zlen_nonneg buf).
  apply wp_bind. eapply wp_mono; [apply chunk_len_spec; [done|lia]| |done]. intros n Hn. cbv beta in Hn.
  apply wp_bind, wp_slice; [lia..|].
  destruct (inner_poll_write _ _) as [r w] eqn:Ew.
  eapply (inner_step s _ buf) in Ew; [|done|unfold zsub, ztake; apply prefix_take].
  destruct r as [m|err|]; [|by split..].
  destruct (0 <? m); [|by split]. apply wp_bind.
  eapply wp_mono; [by apply pick_delay_spec| |done]. intros d _. by split.
Qed.
End stream_facts.

(** Polls far enough apart that no pause is still running. *)
Fixpoint spaced (c : FragmentConfig) (polls : list poll_env) : Prop :=
  match polls with
  | e :: ((e' :: _) as polls') =>
      sleep_start e + Z.max (delay_min_ms c) (delay_max_ms c) <= now e' /\ spaced c polls'
  | _ => True
  end.

(** No pause of [s] reaches into the first of the polls. *)
Definition awake {W} (s : FragmentingStream W) (polls : list poll_env) : Prop :=
  match polls, pending_delay s with
  | e :: _, Some at_ => fragmenting s = true -> at_ <= now e
  | _, _ => True
  end.

(** A stream that always takes something. *)
Definition eager (W : Type) `{AsyncWrite W} : Prop :=
  forall (w : W) buf, buf <> [] -> exists n w', inner_poll_write w buf = (Ready n, w') /\ 1 <= n.

Lemma poll_write_progress {W} `{AsyncWriteLaws W} e polls (s : FragmentingStream W) buf :
  eager W -> bytes_ok buf -> 0 <= delay_min_ms (cfg s) -> buf <> [] ->
  awake s (e :: polls) -> spaced (cfg s) (e :: polls) ->
  exists n s', poll_write e s buf = Done (Ready n, s') /\ 1 <= n /\ awake s' polls.
Proof.
  intros He Hb Hd Hne Ha Hsp. unfold poll_write.
  assert (Hl : 1 <= zlen buf) by (destruct buf; [done|]; rewrite zlen_cons; pose proof (zlen_nonneg buf); lia).
  rewrite (proj2 (Z.eqb_neq (zlen buf) 0)) by lia. cbn [orb].
  destruct (fragmenting s) eqn:Ef; cbn [negb].
  2:{ destruct (He (inner s) buf Hne) as (n & w & -> & Hn). eexists _, _. split_and!; [done..|].
      unfold awake, set_inner. cbn. rewrite Ef. by destruct polls, (pending_delay s). }
  assert (Hs : match pending_delay s with Some at_ => negb (at_ <=? now e) | None => false end = false).
  { unfold awake in Ha. destruct (pending_delay s); [|done]. specialize (Ha Ef). lia. }
  rewrite Hs. set (s0 := mkStream (inner s) (cfg s) true (first_write s) None).
  pose proof (chunk_len_spec s0 (chunk_word e) buf Hb Hl) as Hc.
  destruct (chunk_len_of s0 (chunk_word e) buf) as [n| | |]; try done. cbn [wp mbind outcome_bind] in *.
  unfold slice. rewrite (proj2 (in_slice_true _ _ _)) by lia. cbn [mbind outcome_bind].
  destruct (He (inner s0) (zsub buf 0 n)) as (k & w & -> & Hk).
  { intros Hz. apply (f_equal zlen) in Hz. rewrite zlen_zsub in Hz by lia.
    change (zlen []) with 0 in Hz. lia. }
  rewrite (proj2 (Z.ltb_lt 0 k)) by lia.
  pose proof (pick_delay_spec (E := False) (cfg s0) (delay_word e) Hd) as Hp.
  destruct (pick_delay (cfg s0) (delay_word e)) as [d| | |]; try done. cbn [wp mbind outcome_bind] in *.
  eexists _, _. split_and!; [done..|]. unfold awake. cbn [pending_delay fragmenting].
  destruct polls as [|e' polls]; [done|]. destruct Hsp as [Hsp _].
  destruct (negb (d =? 0)); [|done]. intros _. cbn in *. lia.
Qed.

(** C38: fragmentation changes when bytes go out, never which: after any polls,
    what the stream underneath has taken followed by what is left is exactly
    what was there followed by the data, in order, whatever the sizes, pauses,
    random draws and short writes.  No poll panics.  And it makes progress:
    over a stream that takes something at each write, polled after each pause
    has passed, one poll per byte is enough to write everything. *)
Theorem fragmenting_write_all {W} `{AsyncWriteLaws W} polls (s : FragmentingStream W) data :
  bytes_ok data -> 0 <= delay_min_ms (cfg s) ->
  exists rest s', write_all polls s data = Done (rest, s') /\
    written (inner s') ++ rest = written (inner s) ++ data /\
    (eager W -> awake s polls -> spaced (cfg s) polls -> (length data <= length polls)%nat -> rest = []).
Proof.
  revert s data. induction polls as [|e polls IH]; intros s data Hb Hd.
  { exists data, s. destruct data; split_and!; try done. cbn. lia. }
  destruct data as [|b data]; [by exists [], s|]. set (buf := b :: data) in *. cbn [write_all].
  pose proof (poll_write_spec e s buf Hb Hd) as Hp.
  assert (Hne : buf <> []) by done.
  pose proof (fun He Ha => poll_write_progress e polls s buf He Hb Hd Hne Ha) as Hprog.
  destruct (poll_write e s buf) as [[r s1]| | |]; try done. cbn [wp mbind outcome_bind] in *.
  destruct Hp as [Hcfg Hr].
  assert (Hstop : written (inner s1) = written (inner s) ->
    (forall n, r = Ready n -> ~ 1 <= n) ->
    exists rest s', Done (E := False) (buf, s1) = Done (rest, s') /\
      written (inner s') ++ rest = written (inner s) ++ buf /\
      (eager W -> awake s (e :: polls) -> spaced (cfg s) (e :: polls) ->
       (length buf <= length (e :: polls))%nat -> rest = [])).
  { intros Hw Hno. exists buf, s1. split_and!; [done|by rewrite Hw|]. intros He Ha Hs _.
    destruct (Hprog He Ha Hs) as (n & s2 & [= -> ->] & Hn & _). by destruct (Hno n). }
  destruct r as [n|err|].
  - destruct Hr as [Hn Hw]. destruct (Z.eqb_spec n 0) as [->|Hnz].
    { apply Hstop; [by rewrite Hw; unfold ztake; rewrite take_0, app_nil_r|]. intros n [= <-]. lia. }
    destruct (IH s1 (zdrop n buf)) as (rest & s' & Hwa & Heq & Hfin); [auto with bytes|by rewrite Hcfg|].
    exists rest, s'. split; [done|]. split; [by rewrite Heq, Hw, <- app_assoc, ztake_zdrop|].
    intros He Ha Hs Hlen. destruct (Hprog He Ha Hs) as (k & s2 & [= <- <-] & _ & Ha'). apply Hfin; try done.
    + rewrite Hcfg. by destruct polls; [|destruct Hs].
    + unfold zdrop. rewrite length_drop. cbn [length] in *. lia.
  - apply Hstop; done.
  - destruct (IH s1 buf Hb) as (rest & s' & Hwa & Heq & Hfin); [by rewrite Hcfg|].
    exists rest, s'. split; [done|]. split; [by rewrite Heq, Hr|].
    intros He Ha Hs _. by destruct (Hprog He Ha Hs) as (k & s2 & [=] & _).
Qed.

(** A stream that takes at most two bytes at a time. *)
#[global] Instance two_at_a_time : AsyncWrite (list Z) := {
  inner_poll_write w buf := (Ready (Z.min 2 (zlen buf)), w ++ ztake (Z.min 2 (zlen buf)) buf);
  written w := w;
}.
#[global] Instance two_at_a_time_laws : AsyncWriteLaws (list Z).
Proof.
  split.
  - intros w buf n w' [= <- <-]. pose proof (zlen_nonneg buf). split; [lia|done].
  - intros w buf r w' [= <- <-] Hr. by destruct (Hr (Z.min 2 (zlen buf))).
Qed.

Definition sample_stream : FragmentingStream (list Z) := new [] (mkConfig true 1 3 2 4 true).
Definition sample_polls : list poll_env := replicate 9 (mkPollEnv 10 5 3 0).

Lemma fragmenting_write_all_witness :
  exists rest s', write_all sample_polls sample_stream [1; 2; 3; 4; 5] = Done (rest, s') /\
    written (inner s') ++ rest = written (inner sample_stream) ++ [1; 2; 3; 4; 5] /\
    (eager (list Z) -> awake sample_stream sample_polls -> spaced (cfg sample_stream) sample_polls ->
     (length [1; 2; 3; 4; 5] <= length sample_polls)%nat -> rest = []).
Proof.
  apply (fragmenting_write_all sample_polls sample_stream [1; 2; 3; 4; 5]).
  - apply (bool_decide_unpack _). vm_compute. done.
  - vm_compute. done.
Defined.

(** The range the environment configures is never empty. *)
Lemma parse_range_ordered spec lo hi :
  0 <= lo <= hi -> hi <= u64_max ->
  let '(a, b) := parse_range spec (lo, hi) in 0 <= a <= b /\ b <= u64_max.
Proof.
  intros Hl Hh. unfold parse_range.
  assert (Hp : forall s d, 0 <= d <= u64_max -> 0 <= default d (parse_uint u64_max s) <= u64_max).
  { intros s d Hd. destruct (parse_uint u64_max s) as [v|] eqn:E; [|done].
    by apply from_str_radix_range in E. }
  destruct (trim spec) as [|c r]; [done|]. cbn [fst snd].
  destruct (split_once 45 (c :: r)) as [[a b]|].
  - pose proof (Hp (trim a) lo ltac:(lia)). pose proof (Hp (trim b) hi ltac:(lia)).
    destruct (Z.ltb_spec (default hi (parse_uint u64_max (trim b))) (default lo (parse_uint u64_max (trim a)))); lia.
  - pose proof (Hp (c :: r) lo ltac:(lia)). lia.
Qed.

(** *** The first cut falls inside the server name *)

Lemma take_at_byte l b r p : p = zlen l -> p + 1 <= u64_max -> take_at (l ++ b :: r) p 1 = Done b.
Proof.
  intros -> Hp. unfold take_at. rewrite checked_add_ok by done. cbn [mbind outcome_bind].
  change (b :: r) with ([b] ++ r). rewrite get_slice_at by done. done.
Qed.

Lemma take_at_u16 l v r p :
  p = zlen l -> 0 <= v < 65536 -> p + 2 <= u64_max -> take_at (l ++ be_bytes 2 v ++ r) p 2 = Done v.
Proof.
  intros -> Hv Hp. unfold take_at. rewrite checked_add_ok by done. cbn [mbind outcome_bind].
  rewrite get_slice_at by (by rewrite ?zlen_be_bytes). cbn [oget mbind outcome_bind].
  rewrite be_bytes_2. cbn [fold_left]. f_equal.
  rewrite (lor_shiftl 0), (lor_shiftl _ _ 8) by (Z.div_mod_to_equations; lia).
  rewrite Z.add_0_l. change (2 ^ 8) with 256. by apply be_u16_bytes.
Qed.

Lemma sni_range_loop_skip fuel pre e r ext_end :
  ext_ok e -> e.1 <> 0 -> zlen (pre ++ ext_bytes e) <= ext_end -> ext_end <= u64_max ->
  sni_range_loop (S fuel) (pre ++ ext_bytes e ++ r) ext_end (zlen pre) =
  sni_range_loop fuel ((pre ++ ext_bytes e) ++ r) ext_end (zlen (pre ++ ext_bytes e)).
Proof.
  destruct e as [k v]. intros [Hk Hv] Hne Hend Hmax. cbn [fst snd] in *.
  rewrite zlen_app, ext_len in *. cbn [snd] in *. pose proof (zlen_nonneg v). cbn [sni_range_loop].
  rewrite (proj2 (Z.leb_le _ _)) by lia.
  assert (E1 : pre ++ ext_bytes (k, v) ++ r = pre ++ be_bytes 2 k ++ be_bytes 2 (zlen v) ++ v ++ r)
    by (unfold ext_bytes; cbn [fst snd]; by rewrite <- !app_assoc).
  assert (E2 : pre ++ ext_bytes (k, v) ++ r = (pre ++ be_bytes 2 k) ++ be_bytes 2 (zlen v) ++ v ++ r)
    by (rewrite E1; by rewrite <- app_assoc).
  rewrite E1 at 1. rewrite take_at_u16 by lia. cbn [mbind outcome_bind].
  rewrite E2 at 1. rewrite take_at_u16 by (rewrite ?zlen_app, ?zlen_be_bytes; lia). cbn [mbind outcome_bind].
  rewrite (proj2 (Z.eqb_neq k 0)) by done. rewrite <- app_assoc. f_equal. lia.
Qed.

(** The server_name extension with the host name first. *)
Lemma sni_range_loop_hit fuel pre nl host more r ext_end :
  let data := be_bytes 2 nl ++ name_bytes (SNI_HOST_NAME, host) ++ more in
  1 <= zlen host < 65536 -> zlen data < 65536 ->
  zlen (pre ++ ext_bytes (0, data)) <= ext_end -> ext_end <= u64_max ->
  sni_range_loop (S fuel) (pre ++ ext_bytes (0, data) ++ r) ext_end (zlen pre) =
  Done (zlen pre + 9, zlen pre + 9 + zlen host).
Proof.
  intros data Hh Hd Hend Hmax. rewrite zlen_app, ext_len in *. cbn [snd] in *.
  pose proof (zlen_nonneg data). pose proof (zlen_nonneg pre). pose proof (zlen_nonneg more).
  pose proof (zlen_nonneg r).
  assert (Hdl : zlen data = 5 + zlen host + zlen more)
    by (unfold data; rewrite !zlen_app, zlen_be_bytes, name_len; cbn [snd]; lia).
  cbn [sni_range_loop]. rewrite (proj2 (Z.leb_le _ _)) by lia.
  set (buf := pre ++ ext_bytes (0, data) ++ r).
  assert (E1 : exists k, buf = pre ++ be_bytes 2 0 ++ k)
    by (eexists; unfold buf, ext_bytes; cbn [fst snd]; by rewrite <- !app_assoc).
  assert (E2 : exists k, buf = (pre ++ be_bytes 2 0) ++ be_bytes 2 (zlen data) ++ k)
    by (eexists; unfold buf, ext_bytes; cbn [fst snd]; by rewrite <- !app_assoc).
  assert (E3 : exists k, buf = (((pre ++ be_bytes 2 0) ++ be_bytes 2 (zlen data)) ++ be_bytes 2 nl) ++ 0 :: k)
    by (eexists; unfold buf, ext_bytes, data, name_bytes; cbn [fst snd]; by rewrite <- !app_assoc).
  assert (E4 : exists k, buf = ((((pre ++ be_bytes 2 0) ++ be_bytes 2 (zlen data)) ++ be_bytes 2 nl) ++ [0]) ++
      be_bytes 2 (zlen host) ++ k)
    by (eexists; unfold buf, ext_bytes, data, name_bytes; cbn [fst snd]; rewrite <- !app_assoc; cbn [app];
        by rewrite <- !app_assoc).
  assert (Hb : zlen buf = zlen pre + 4 + zlen data + zlen r)
    by (unfold buf; rewrite !zlen_app, ext_len; cbn [snd]; lia).
  destruct E1 as [k1 E1], E2 as [k2 E2], E3 as [k3 E3], E4 as [k4 E4].
  assert (T1 : take_at buf (zlen pre) 2 = Done 0) by (rewrite E1; apply take_at_u16; lia).
  assert (T2 : take_at buf (zlen pre + 2) 2 = Done (zlen data))
    by (rewrite E2; apply take_at_u16; rewrite ?zlen_app, ?zlen_be_bytes; lia).
  assert (T3 : take_at buf (zlen pre + 4 + 2) 1 = Done 0)
    by (rewrite E3; apply take_at_byte; rewrite ?zlen_app, ?zlen_be_bytes; lia).
  assert (T4 : take_at buf (zlen pre + 4 + 2 + 1) 2 = Done (zlen host))
    by (rewrite E4; apply take_at_u16; rewrite ?zlen_app, ?zlen_be_bytes; change (zlen [0]) with 1; lia).
  rewrite T1, T2. cbn [mbind outcome_bind Z.eqb]. rewrite T3. cbn [mbind outcome_bind Z.eqb negb].
  rewrite T4. cbn [mbind outcome_bind]. rewrite Hb, (proj2 (Z.eqb_neq (zlen host) 0)) by lia. cbn [orb].
  match goal with |- context [?a >? ?b] => destruct (Z.gtb_spec a b); [lia|] end.
  f_equal. f_equal; lia.
Qed.

Lemma sni_range_loop_at fuel pre others nl host more r ext_end :
  let data := be_bytes 2 nl ++ name_bytes (SNI_HOST_NAME, host) ++ more in
  Forall (fun e => ext_ok e /\ e.1 <> 0) others -> 1 <= zlen host < 65536 -> zlen data < 65536 ->
  zlen (pre ++ flat_map ext_bytes others ++ ext_bytes (0, data)) <= ext_end -> ext_end <= u64_max ->
  (length others < fuel)%nat ->
  let start := zlen (pre ++ flat_map ext_bytes others) + 9 in
  sni_range_loop fuel (pre ++ flat_map ext_bytes others ++ ext_bytes (0, data) ++ r) ext_end (zlen pre) =
  Done (start, start + zlen host).
Proof.
  intros data Ho Hh Hd. cbv zeta. revert fuel pre. induction Ho as [|e others [He Hk] Ho IH]; intros fuel pre Hend Hmax Hf.
  all: destruct fuel as [|fuel]; [cbn in Hf; lia|]; cbn [flat_map length] in *.
  - rewrite app_nil_l, app_nil_r in *. by apply sni_range_loop_hit.
  - rewrite <- app_assoc, sni_range_loop_skip; [|done|done| |done].
    + rewrite IH; [by rewrite <- app_assoc|by rewrite <- !app_assoc in *|done|lia].
    + rewrite !zlen_app in *. pose proof (zlen_nonneg (flat_map ext_bytes others)).
      pose proof (zlen_nonneg (ext_bytes (0, data))). lia.
Qed.

Definition record_head (v1 v2 record_len hello_len : Z) : list Z :=
  [TLS_HANDSHAKE; v1; v2] ++ be_bytes 2 record_len ++ [TLS_CLIENT_HELLO] ++ be_bytes 3 hello_len.

(** Where the host name starts in the peek of a ClientHello. *)
Definition host_start (c : client_hello) : Z :=
  zlen (hello_head c) + 11 + zlen (flat_map ext_bytes (ch_extensions c)) + 9.

Lemma peeked_head v1 v2 rl hl c rest :
  peeked v1 v2 rl hl c rest = record_head v1 v2 rl hl ++ hello_bytes c ++ rest.
Proof. unfold peeked, record_head. by rewrite <- !app_assoc. Qed.

(** The length fields of the ClientHello, at their places in the peek. *)
Lemma hello_fields P c rest :
  hello_ok c -> zlen P = 9 -> zlen (hello_bytes c ++ rest) < 2 ^ 60 ->
  let buf := P ++ hello_bytes c ++ rest in
  let a1 := 43 + 1 + zlen (ch_session c) in
  let a2 := a1 + 2 + zlen (ch_ciphers c) in
  let a3 := a2 + 1 + zlen (ch_compression c) in
  take_at buf 43 1 = Done (zlen (ch_session c)) /\ take_at buf a1 2 = Done (zlen (ch_ciphers c)) /\
  take_at buf a2 1 = Done (zlen (ch_compression c)) /\ take_at buf a3 2 = Done (ch_extensions_len c) /\
  a3 = 9 + zlen (hello_head c).
Proof.
  intros Hok HP Hbig. cbv zeta.
  destruct (hello_layout c rest) as ([k1 E1] & [k2 E2] & [k3 E3] & E4 & _ & Hhead).
  destruct Hok as (Hr & Hs & Hc & Hz & _ & _ & _ & _ & Hl & _).
  pose proof (zlen_nonneg (ch_session c)). pose proof (zlen_nonneg (ch_ciphers c)).
  pose proof (zlen_nonneg (ch_compression c)). pose proof (zlen_nonneg (hello_exts c)).
  split_and!.
  - rewrite E1, app_assoc. apply take_at_byte; [by rewrite zlen_app, HP, Hr|unfold u64_max; lia].
  - rewrite E2, app_assoc. apply take_at_u16; [|lia|unfold u64_max; lia].
    rewrite !zlen_app, HP, Hr. unfold zlen. cbn. lia.
  - rewrite E3, app_assoc. apply take_at_byte; [|unfold u64_max; lia].
    rewrite !zlen_app, zlen_be_bytes, HP, Hr. unfold zlen. cbn. lia.
  - rewrite E4, app_assoc. apply take_at_u16; [|lia|unfold u64_max; lia]. rewrite zlen_app. lia.
  - lia.
Qed.

Lemma sni_host_range_at v1 v2 rl hl c rest :
  hello_ok c -> ch_names c = [] -> 1 <= zlen (ch_host c) ->
  zlen (hello_bytes c ++ rest) < 2 ^ 60 ->
  sni_host_range (peeked v1 v2 rl hl c rest) = Done (host_start c, host_start c + zlen (ch_host c)).
Proof.
  intros Hok Hn Hh Hbig. rewrite peeked_head.
  destruct (hello_layout c rest) as (_ & _ & _ & E4 & E5 & _).
  set (P := record_head v1 v2 rl hl). assert (HP : zlen P = 9) by done.
  destruct (hello_fields P c rest Hok HP Hbig) as (T1 & T2 & T3 & T4 & Ha).
  destruct Hok as (_ & _ & _ & _ & He & _ & Hh' & Hd & Hl & _).
  set (h := hello_bytes c ++ rest) in *. unfold sni_host_range.
  change (zget (P ++ h) 0) with (Some TLS_HANDSHAKE). change (zget (P ++ h) 5) with (Some TLS_CLIENT_HELLO).
  cbn [oget mbind outcome_bind Z.eqb negb TLS_HANDSHAKE TLS_CLIENT_HELLO Pos.eqb].
  pose proof (zlen_nonneg (hello_exts c)). pose proof (zlen_nonneg rest).
  rewrite T1. cbn [mbind outcome_bind]. rewrite T2. cbn [mbind outcome_bind].
  rewrite T3. cbn [mbind outcome_bind]. rewrite T4. cbn [mbind outcome_bind]. rewrite Ha.
  assert (Hhl : zlen h = zlen (hello_head c) + 2 + zlen (hello_exts c) + zlen rest)
    by (rewrite E4, !zlen_app, zlen_be_bytes; lia).
  assert (Hat : 9 + zlen (hello_head c) + 2 = zlen (P ++ hello_head c ++ be_bytes 2 (ch_extensions_len c)))
    by (rewrite !zlen_app, zlen_be_bytes; lia).
  assert (Hf : (length (ch_extensions c) < S (length (P ++ h)))%nat).
  { pose proof (length_flat_map_pos ext_bytes (ch_extensions c)) as Hp.
    specialize (Hp ltac:(intros; rewrite ext_len; pose proof (zlen_nonneg a.2); lia)).
    unfold hello_exts in Hhl. rewrite zlen_app in Hhl. rewrite length_app.
    pose proof (zlen_nonneg (ext_bytes (EXT_SERVER_NAME, sni_data c))). unfold zlen in *. lia. }
  generalize dependent (S (length (P ++ h))). intros fuel Hf. rewrite Hat.
  rewrite E5, app_assoc. unfold sni_data, hello_exts, EXT_SERVER_NAME in *. rewrite Hn in *.
  cbn [flat_map app] in *. unfold sni_data in *. rewrite Hn in *. cbn [flat_map app] in *.
  rewrite sni_range_loop_at; try done; try lia.
  - f_equal. unfold host_start. rewrite !zlen_app, zlen_be_bytes, HP. f_equal; lia.
  - rewrite (zlen_app (P ++ _)). lia.
  - unfold u64_max. lia.
Qed.

(** With SNI splitting on, the first write of a ClientHello is cut strictly
    inside the host name: the range found is exactly the bytes of the name,
    behind any other extensions, and for a name of two bytes or more the first
    piece ends after its first byte and before its last. *)
Lemma first_cut_inside_host {W} v1 v2 rl hl c rest (s : FragmentingStream W) word :
  hello_ok c -> ch_names c = [] -> 2 <= zlen (ch_host c) -> zlen (hello_bytes c ++ rest) < 2 ^ 60 ->
  first_write s = true -> sni_split (cfg s) = true ->
  let buf := peeked v1 v2 rl hl c rest in
  exists start end_ n,
    sni_host_range buf = Done (start, end_) /\ zsub buf start end_ = ch_host c /\
    chunk_len_of s word buf = Done n /\ start < n < end_.
Proof.
  intros Hok Hn Hh Hbig Hf Hs buf.
  assert (Hr := sni_host_range_at v1 v2 rl hl c rest Hok Hn ltac:(lia) Hbig). fold buf in Hr.
  assert (Hbuf : exists k, buf = ((record_head v1 v2 rl hl ++ hello_head c ++ be_bytes 2 (ch_extensions_len c)) ++
    flat_map ext_bytes (ch_extensions c) ++ be_bytes 2 0 ++ be_bytes 2 (zlen (sni_data c)) ++
    be_bytes 2 (ch_names_len c) ++ [0] ++ be_bytes 2 (zlen (ch_host c))) ++ ch_host c ++ k).
  { eexists. unfold buf. rewrite peeked_head. unfold hello_bytes, hello_exts, ext_bytes. cbn [fst snd].
    unfold sni_data at 2. rewrite Hn. unfold name_bytes. cbn [flat_map fst snd app].
    rewrite <- !app_assoc. cbn [app]. by rewrite <- !app_assoc. }
  destruct Hbuf as [k Hbuf].
  match type of Hbuf with _ = ?p ++ _ => assert (Hp : zlen p = host_start c) end.
  { unfold host_start. rewrite !zlen_app, !zlen_be_bytes. change (zlen (record_head v1 v2 rl hl)) with 9.
    change (zlen [0]) with 1. lia. }
  exists (host_start c), (host_start c + zlen (ch_host c)), (host_start c + zlen (ch_host c) / 2).
  split_and!; [done| | |Z.div_mod_to_equations; lia..].
  - rewrite Hbuf. by apply zsub_app_mid.
  - unfold chunk_len_of. rewrite Hf, Hs, Hr. cbn [andb].
    replace (host_start c + zlen (ch_host c) - host_start c) with (zlen (ch_host c)) by lia.
    assert (0 <= host_start c) by (rewrite <- Hp; apply zlen_nonneg).
    rewrite (proj2 (Z.ltb_lt 0 _)) by (Z.div_mod_to_equations; lia).
    rewrite (proj2 (Z.ltb_lt _ (zlen buf))); [done|].
    rewrite Hbuf, zlen_app, Hp, zlen_app. pose proof (zlen_nonneg k). Z.div_mod_to_equations; lia.
Qed.

Definition split_hello : client_hello :=
  mkHello (replicate 34 7) [1; 2; 3] [19; 1; 19; 2] [0] [(10, [0; 29]); (13, [])] []
    (utf8 (lit "api.example.org")) [] 200 60.

Lemma first_cut_inside_host_witness :
  let buf := peeked 3 1 512 500 split_hello [1; 2] in
  exists start end_ n,
    sni_host_range buf = Done (start, end_) /\ zsub buf start end_ = ch_host split_hello /\
    chunk_len_of sample_stream 0 buf = Done n /\ start < n < end_.
Proof.
  apply (first_cut_inside_host 3 1 512 500 split_hello [1; 2] sample_stream 0);
    [unfold hello_ok; split_and!; repeat constructor; vm_compute; done|vm_compute; done..].
Defined.
