(* ===== verification/Routing.v ===== *)
(** * Routing rules (src/native/aether/aether/src/routing.rs)

    Which destinations are refused, which go out directly and which go through
    the tunnel.  Regular expressions and IP networks come from the regex and
    ipnet crates and are parameters. *)

From stdpp Require Import base list option.
From Stdlib Require Import ZArith Lia.
From S2P Require Import Prelude RustStr StrFacts Net Sysprofile.

Inductive Action := Proxy | Direct | Block.

#[global] Instance Action_eq_dec : EqDecision Action.
Proof. solve_decision. Defined.

Definition label (a : Action) : str :=
  match a with Proxy => lit "proxy" | Direct => lit "direct" | Block => lit "block" end.

Inductive Host := Domain (name : str) | Ip (ip : IpAddr).

(** The crates behind [DomainRegex] and [Net]. *)
Class RuleLibs := {
  regex : Type;
  regex_new : str -> option regex;
  is_match : regex -> str -> bool;
  ipnet : Type;
  ipnet_parse : str -> option ipnet;
  ipnet_from : IpAddr -> ipnet;
  ipnet_contains : ipnet -> IpAddr -> bool;
}.

Section rules.
Context `{UnicodeData} `{RuleLibs}.

Inductive Matcher :=
| DomainSuffix (suffix : str)
| DomainFull (full : str)
| DomainKeyword (needle : str)
| DomainRegex (pattern : regex)
| Net (net : ipnet)
| Ports (lo hi : Z)
| Private.

Definition normalize_domain (value : str) : option str :=
  let cleaned := to_lowercase
    (trim_end_matches 46 (trim_start_matches 46 (trim_start_matches 42 (trim value)))) in
  match cleaned with [] => None | _ => Some cleaned end.

Definition parse_net (value : str) : option ipnet :=
  let value := trim value in
  match ipnet_parse value with
  | Some net => Some net
  | None => ipnet_from <$> parse_ip value
  end.

Definition parse_ports (value : str) : option (Z * Z) :=
  let value := trim value in
  match split_once 45 value with
  | Some (lo, hi) =>
      lo ← parse_uint u16_max (trim lo);
      hi ← parse_uint u16_max (trim hi);
      Some (if hi <? lo then (hi, lo) else (lo, hi))
  | None =>
      single ← parse_uint u16_max value;
      Some (single, single)
  end.

(** The kind of an entry and its value. *)
Definition entry_kind (entry : str) : str * str :=
  match split_once 58 entry with
  | Some (kind, value) =>
      if negb (contains_char kind 46) && negb (contains_char kind 47)
      then (to_lowercase (trim kind), trim value)
      else ([], entry)
  | None => ([], entry)
  end.

Definition is_kind (kind : str) (names : list str) : bool := existsb (str_eqb kind) names.

Definition matcher_parse (entry : str) : option Matcher :=
  let entry := trim entry in
  if str_eqb entry [] || starts_with entry (lit "#") then None
  else
    let '(kind, value) := entry_kind entry in
    if is_kind kind [lit "domain"; lit "suffix"] then DomainSuffix <$> normalize_domain value
    else if is_kind kind [lit "full"; lit "exact"] then DomainFull <$> normalize_domain value
    else if is_kind kind [lit "keyword"] then
      let needle := to_lowercase (trim value) in
      match needle with [] => None | _ => Some (DomainKeyword needle) end
    else if is_kind kind [lit "regexp"; lit "regex"] then DomainRegex <$> regex_new value
    else if is_kind kind [lit "ip"; lit "cidr"] then Net <$> parse_net value
    else if is_kind kind [lit "port"] then (fun p => Ports p.1 p.2) <$> parse_ports value
    else if is_kind kind [lit "geoip"; lit "geosite"] then
      if eq_ignore_ascii_case value (lit "private") then Some Private else None
    else if is_kind kind [[]] then
      if eq_ignore_ascii_case value (lit "private") then Some Private
      else match parse_net value with
           | Some net => Some (Net net)
           | None => DomainSuffix <$> normalize_domain value
           end
    else None.

Definition is_private (ip : IpAddr) : bool :=
  match ip with
  | V4 o =>
      v4_is_private o || is_loopback ip || v4_is_link_local o || v4_is_broadcast o ||
      v4_is_documentation o || is_unspecified ip ||
      ((octet o 0 =? 100) && ((64 <=? octet o 1) && (octet o 1 <? 128)))
  | V6 o =>
      is_loopback ip || is_unspecified ip || (Z.land (segment o 0) 0xfe00 =? 0xfc00) ||
      (Z.land (segment o 0) 0xffc0 =? 0xfe80)
  end.

Definition matches (rule : Matcher) (host : Host) (port : Z) : bool :=
  match rule with
  | Ports lo hi => (lo <=? port) && (port <=? hi)
  | Private =>
      match host with
      | Ip ip => is_private ip
      | Domain name => eq_ignore_ascii_case name (lit "localhost")
      end
  | Net net => match host with Ip ip => ipnet_contains net ip | Domain _ => false end
  | DomainSuffix suffix =>
      match host with
      | Domain name =>
          let name := to_lowercase name in
          str_eqb name suffix || ends_with name (46 :: suffix)
      | Ip _ => false
      end
  | DomainFull full => match host with Domain name => eq_ignore_ascii_case name full | Ip _ => false end
  | DomainKeyword needle =>
      match host with Domain name => contains (to_lowercase name) needle | Ip _ => false end
  | DomainRegex pattern => match host with Domain name => is_match pattern name | Ip _ => false end
  end.

Record RuleSet := mkRules { block : list Matcher; direct : list Matcher }.

Definition is_list_separator (c : Z) : bool := (c =? 10) || (c =? 44) || (c =? 59).

Definition parse_list (raw : str) : list Matcher := omap matcher_parse (split_by is_list_separator raw).

Definition push_list (target extra : str) : str :=
  if str_eqb (trim extra) [] then target
  else (if negb (str_eqb (trim target) []) then target ++ [10] else target) ++ extra.

(** The section a line of a routes file belongs to. *)
Inductive section := NoSection | BlockSection | DirectSection.

Definition section_line (st : str * str * section) (line : str) : str * str * section :=
  let '(b, d, current) := st in
  let trimmed := trim line in
  if str_eqb trimmed [] || starts_with trimmed (lit "#") then st
  else
    let lowered := to_lowercase trimmed in
    if str_eqb lowered (lit "[block]") then (b, d, BlockSection)
    else if str_eqb lowered (lit "[direct]") then (b, d, DirectSection)
    else if starts_with lowered (lit "[") then (b, d, NoSection)
    else match current with
         | NoSection => st
         | BlockSection => (b ++ trimmed ++ [10], d, current)
         | DirectSection => (b, d ++ trimmed ++ [10], current)
         end.

Definition split_sections (text : str) : str * str :=
  (fold_left section_line (lines text) ([], [], NoSection)).1.

Definition rules_parse (block direct : str) : RuleSet := mkRules (parse_list block) (parse_list direct).

(** [RuleSet::from_env]; [read_file] is [read_to_string]. *)
Definition rules_from_env (env : environment) (read_file : str -> option str) : RuleSet :=
  let block := default [] (env (lit "AETHER_ROUTE_BLOCK")) in
  let direct := default [] (env (lit "AETHER_ROUTE_DIRECT")) in
  match env (lit "AETHER_ROUTES_FILE") with
  | Some path =>
      match read_file path with
      | Some text =>
          let '(file_block, file_direct) := split_sections text in
          rules_parse (push_list block file_block) (push_list direct file_direct)
      | None => rules_parse block direct
      end
  | None => rules_parse block direct
  end.

Definition rules_is_empty (s : RuleSet) : bool :=
  match block s, direct s with [], [] => true | _, _ => false end.

Definition is_domain_rule (rule : Matcher) : bool :=
  match rule with
  | DomainSuffix _ | DomainFull _ | DomainKeyword _ | DomainRegex _ => true
  | _ => false
  end.

Definition has_domain_rules (s : RuleSet) : bool := existsb is_domain_rule (block s ++ direct s).

Definition decide_rules (s : RuleSet) (host : Host) (port : Z) : Action :=
  if existsb (fun rule => matches rule host port) (block s) then Block
  else if existsb (fun rule => matches rule host port) (direct s) then Direct
  else Proxy.
End rules.

(** ** Facts *)

Section rule_facts.
Context `{UnicodeData} `{RuleLibs}.

Lemma matcher_parse_space c s : is_whitespace c = true -> matcher_parse (c :: s) = matcher_parse s.
Proof. intros Hc. unfold matcher_parse. by rewrite trim_cons_space. Qed.

Lemma matcher_parse_blank : matcher_parse [] = None.
Proof. done. Qed.

(** Blanks in front of a list change nothing. *)
Lemma parse_list_blank a b : forallb is_whitespace a = true -> parse_list (a ++ b) = parse_list b.
Proof.
  unfold parse_list. induction a as [|c a IH]; [done|]. cbn [forallb]. intros [Hc Ha]%andb_prop.
  cbn [app split_by]. destruct (is_list_separator c); [by apply IH|].
  rewrite <- IH by done. pose proof (split_by_nonempty is_list_separator (a ++ b)).
  destruct (split_by is_list_separator (a ++ b)) as [|x xs]; [done|].
  cbn [omap list_omap]. by rewrite matcher_parse_space.
Qed.

Lemma parse_list_sep a c b : is_list_separator c = true -> parse_list (a ++ c :: b) = parse_list a ++ parse_list b.
Proof. intros Hc. unfold parse_list. by rewrite split_by_sep, list.omap_app. Qed.

(** Appending a list to another never fuses an entry of one with an entry of
    the other. *)
Lemma parse_push_list a b : parse_list (push_list a b) = parse_list a ++ parse_list b.
Proof.
  unfold push_list. destruct (str_eqb (trim b) []) eqn:Eb.
  { apply str_eqb_eq, trim_nil in Eb. pose proof (parse_list_blank b [] Eb) as Hb.
    rewrite app_nil_r in Hb. rewrite Hb. by rewrite app_nil_r. }
  destruct (str_eqb (trim a) []) eqn:Ea; cbn [negb].
  - apply str_eqb_eq, trim_nil in Ea. pose proof (parse_list_blank a [] Ea) as Ha.
    rewrite app_nil_r in Ha. by rewrite Ha, parse_list_blank.
  - rewrite <- app_assoc. by apply parse_list_sep.
Qed.
End rule_facts.

(** *** Routes files *)

Definition text_of (ls : list str) : str := flat_map (fun l => l ++ [10]) ls.

(** A line that stands for itself: no blanks around it, not a comment, not a
    section header. *)
Definition entry_ok (l : str) : Prop :=
  trim l = l /\ Forall (fun c => 0 <= c < 128) l /\ (10 ∉ l) /\
  match l with c :: _ => c <> 35 /\ c <> 91 | [] => False end.

Lemma lines_text ls : Forall (fun l => (10 ∉ l) /\ trim l = l) ls -> lines (text_of ls) = ls.
Proof.
  intros Hls. assert (Hs : split 10 (text_of ls) = ls ++ [[]]).
  { induction Hls as [|l ls [Hl _] Hls IH]; [done|]. cbn [text_of flat_map].
    change (split_by (Z.eqb 10) ((l ++ [10]) ++ text_of ls) = l :: ls ++ [[]]).
    rewrite <- app_assoc. cbn [app]. rewrite split_by_sep by done.
    change (split_by (Z.eqb 10) l) with (split 10 l). rewrite split_none by done.
    change (split_by (Z.eqb 10) (text_of ls)) with (split 10 (text_of ls)). by rewrite IH. }
  unfold lines. rewrite Hs, rev_app_distr. cbn [rev app]. rewrite rev_involutive. cbn [str_eqb].
  change (str_eqb [] []) with true. rewrite app_nil_r.
  clear Hs. induction Hls as [|l ls [_ Hl] Hls IH]; [done|]. cbn [map]. by rewrite trimmed_strip_cr, IH.
Qed.

Section file_facts.
Context `{UnicodeData} `{RuleLibs}.

Lemma section_line_entry b d cur l :
  entry_ok l ->
  section_line (b, d, cur) l =
  match cur with
  | NoSection => (b, d, cur)
  | BlockSection => (b ++ l ++ [10], d, cur)
  | DirectSection => (b, d ++ l ++ [10], cur)
  end.
Proof.
  intros (Ht & Ha & _ & Hh). unfold section_line. rewrite Ht.
  destruct l as [|c l]; [done|]. destruct Hh as [Hc Hb].
  assert (Hlow : ascii_lower c <> 91).
  { unfold ascii_lower, is_ascii_upper. destruct ((65 <=? c) && (c <=? 90)) eqn:E; lia. }
  rewrite to_lowercase_ascii by done. cbn [to_ascii_lowercase map].
  change (str_eqb (c :: l) []) with false.
  change (lit "#") with [35]. rewrite starts_with_one.
  rewrite (proj2 (Z.eqb_neq 35 c)) by done. cbn [andb orb].
  assert (Hnb : forall s, str_eqb (ascii_lower c :: map ascii_lower l) (91 :: s) = false).
  { intros s. apply not_true_is_false. intros Hs%str_eqb_eq. by injection Hs. }
  change (lit "[block]") with (91 :: lit "block]"). change (lit "[direct]") with (91 :: lit "direct]").
  rewrite !Hnb. change (lit "[") with [91]. rewrite starts_with_one.
  by rewrite (proj2 (Z.eqb_neq 91 (ascii_lower c))).
Qed.

Lemma section_lines_entries ls b d cur :
  Forall entry_ok ls -> cur <> NoSection ->
  fold_left section_line ls (b, d, cur) =
  match cur with
  | BlockSection => (b ++ text_of ls, d, cur)
  | _ => (b, d ++ text_of ls, cur)
  end.
Proof.
  intros Hls Hc. revert b d. induction Hls as [|l ls Hl Hls IH]; intros b d; cbn [fold_left text_of flat_map].
  { destruct cur; [done|by rewrite app_nil_r..]. }
  rewrite section_line_entry by done. destruct cur; [done|..]; rewrite IH by done;
    unfold text_of; by rewrite <- !app_assoc.
Qed.

(** A routes file with a block and a direct section. *)
Definition routes_file (blocks directs : list str) : str :=
  text_of (lit "[block]" :: blocks ++ lit "[direct]" :: directs).

Lemma split_sections_file blocks directs :
  Forall entry_ok blocks -> Forall entry_ok directs ->
  split_sections (routes_file blocks directs) = (text_of blocks, text_of directs).
Proof.
  intros Hb Hd. unfold split_sections, routes_file.
  assert (Hplain : forall ls, Forall entry_ok ls -> Forall (fun l => (10 ∉ l) /\ trim l = l) ls).
  { intros ls Hls. eapply Forall_impl, Hls. intros l (? & ? & ? & ?). done. }
  rewrite lines_text.
  2:{ constructor; [split; [apply (bool_decide_unpack _)|]; vm_compute; done|].
      apply Forall_app. split; [auto|].
      constructor; [split; [apply (bool_decide_unpack _)|]; vm_compute; done|auto]. }
  cbn [fold_left]. change (section_line ([], [], NoSection) (lit "[block]")) with (@nil Z, @nil Z, BlockSection).
  rewrite fold_left_app, section_lines_entries by done. cbn [fold_left app].
  change (section_line (text_of blocks, [], BlockSection) (lit "[direct]"))
    with (text_of blocks, @nil Z, DirectSection).
  by rewrite section_lines_entries by done.
Qed.

Lemma parse_text_of ls : parse_list (text_of ls) = flat_map parse_list ls.
Proof.
  induction ls as [|l ls IH]; [done|]. cbn [text_of flat_map]. rewrite <- app_assoc. cbn [app].
  rewrite parse_list_sep by done. by rewrite <- IH.
Qed.
End file_facts.

(** Some rule of the list matches. *)
Definition any_match `{UnicodeData} `{RuleLibs} (rules : list Matcher) (host : Host) (port : Z) : Prop :=
  exists r, r ∈ rules /\ matches r host port = true.

(** C32: the configured rules are what is decided on: the block and the direct
    list are the entries of the environment followed by those of the matching
    section of the routes file, none lost, fused or moved to the other list,
    and a destination is blocked when any block rule matches it, goes out
    directly when no block rule and some direct rule does, and is proxied
    otherwise. *)
Theorem rules_from_env_decide `{UnicodeData} `{RuleLibs} env read_file path blocks directs host port :
  env (lit "AETHER_ROUTES_FILE") = Some path -> read_file path = Some (routes_file blocks directs) ->
  Forall entry_ok blocks -> Forall entry_ok directs ->
  let s := rules_from_env env read_file in
  let bs := parse_list (default [] (env (lit "AETHER_ROUTE_BLOCK"))) ++ flat_map parse_list blocks in
  let ds := parse_list (default [] (env (lit "AETHER_ROUTE_DIRECT"))) ++ flat_map parse_list directs in
  block s = bs /\ direct s = ds /\
  match decide_rules s host port with
  | Block => any_match bs host port
  | Direct => ~ any_match bs host port /\ any_match ds host port
  | Proxy => ~ any_match bs host port /\ ~ any_match ds host port
  end.
Proof.
  intros He Hf Hb Hd s bs ds.
  assert (Hs : s = mkRules bs ds).
  { unfold s, rules_from_env. rewrite He, Hf, split_sections_file by done.
    unfold rules_parse. by rewrite !parse_push_list, !parse_text_of. }
  rewrite Hs. split_and!; [done..|]. unfold decide_rules. cbn [block direct].
  assert (Hany : forall l, existsb (fun r => matches r host port) l = true <-> any_match l host port)
    by (intros l; apply existsb_elem).
  destruct (existsb _ bs) eqn:E1; [by apply Hany|].
  assert (Hn1 : ~ any_match bs host port) by (rewrite <- Hany; congruence).
  destruct (existsb _ ds) eqn:E2; [by rewrite <- (Hany ds)|].
  split; [done|]. rewrite <- Hany. congruence.
Qed.

(** Literal patterns and single addresses, as a concrete pair of libraries. *)
#[global] Instance literal_libs : RuleLibs := {|
  regex := str; regex_new := Some; is_match p s := contains s p;
  ipnet := IpAddr; ipnet_parse := parse_ip; ipnet_from := id;
  ipnet_contains n ip := bool_decide (n = ip);
|}.
Definition ascii_lowering : UnicodeData := {| ucd_lower _ c _ := [c] |}.

Definition sample_env : environment := fun k =>
  if str_eqb k (lit "AETHER_ROUTES_FILE") then Some (lit "routes.conf")
  else if str_eqb k (lit "AETHER_ROUTE_BLOCK") then Some (lit "ads.example") else None.

Lemma rules_from_env_decide_witness :
  let U := ascii_lowering in
  let read_file (_ : str) := Some (routes_file [lit "port:25"; lit "full:x.org"] [lit "private,bank.ir"]) in
  let s := rules_from_env sample_env read_file in
  block s = parse_list (lit "ads.example") ++ flat_map parse_list [lit "port:25"; lit "full:x.org"] /\
  direct s = parse_list [] ++ flat_map parse_list [lit "private,bank.ir"] /\
  match decide_rules s (Domain (lit "www.bank.ir")) 443 with
  | Block => any_match (parse_list (lit "ads.example") ++ flat_map parse_list [lit "port:25"; lit "full:x.org"])
               (Domain (lit "www.bank.ir")) 443
  | Direct =>
      ~ any_match (parse_list (lit "ads.example") ++ flat_map parse_list [lit "port:25"; lit "full:x.org"])
          (Domain (lit "www.bank.ir")) 443 /\
      any_match (parse_list [] ++ flat_map parse_list [lit "private,bank.ir"]) (Domain (lit "www.bank.ir")) 443
  | Proxy =>
      ~ any_match (parse_list (lit "ads.example") ++ flat_map parse_list [lit "port:25"; lit "full:x.org"])
          (Domain (lit "www.bank.ir")) 443 /\
      ~ any_match (parse_list [] ++ flat_map parse_list [lit "private,bank.ir"]) (Domain (lit "www.bank.ir")) 443
  end.
Proof.
  intros U read_file s.
  apply (rules_from_env_decide (H := U) sample_env read_file (lit "routes.conf")
    [lit "port:25"; lit "full:x.org"] [lit "private,bank.ir"] (Domain (lit "www.bank.ir")) 443).
  1-2: done.
  all: repeat apply Forall_cons_2; try apply Forall_nil_2; unfold entry_ok; split_and!;
    try (vm_compute; done); try (apply (bool_decide_unpack _); vm_compute; done).
Defined.

(** The characters of a host name. *)
Definition domain_char (c : Z) : bool := is_ascii_alphanumeric c || (c =? 45) || (c =? 46).

Lemma domain_char_spec c :
  domain_char c = true -> 0 <= c < 128 /\ is_whitespace c = false /\ c <> 58 /\ c <> 42 /\ c <> 35.
Proof.
  unfold domain_char, is_whitespace, is_ascii_alphanumeric, is_ascii_digit, is_ascii_upper, is_ascii_lower. lia.
Qed.

Lemma lower_ascii_nonempty `{UnicodeData} d :
  Forall (fun c => 0 <= c < 128) d -> d <> [] -> to_lowercase d <> [].
Proof. intros Ha Hd. rewrite to_lowercase_ascii by done. by destruct d. Qed.

(** A name of host characters, not starting or ending in a dot. *)
Definition plain_domain (d : str) : Prop :=
  Forall (fun c => domain_char c = true) d /\
  match d with c :: _ => c <> 46 | [] => False end /\
  match rev d with c :: _ => c <> 46 | [] => False end.

#[global] Instance plain_domain_dec d : Decision (plain_domain d).
Proof. unfold plain_domain. destruct d, (rev _); apply _. Defined.

Lemma normalize_plain `{UnicodeData} d : plain_domain d -> normalize_domain d = Some (to_lowercase d) /\ trim d = d.
Proof.
  intros (Hc & Hh & Ht).
  assert (Hr : Forall (fun c => domain_char c = true) (rev d)) by (by apply Forall_rev).
  assert (Htrim : trim d = d).
  { unfold trim. rewrite (trim_start_id is_whitespace d), trim_end_id; [done|..].
    - destruct (rev d) as [|c r]; [done|]. inversion Hr; subst. by apply domain_char_spec.
    - destruct d as [|c r]; [done|]. inversion Hc; subst. by apply domain_char_spec. }
  split; [|done]. unfold normalize_domain. rewrite Htrim. unfold trim_start_matches, trim_end_matches.
  rewrite (trim_start_id _ d), (trim_start_id _ d), trim_end_id.
  - pose proof (lower_ascii_nonempty d) as Hl. destruct (to_lowercase d) eqn:E; [|done].
    destruct Hl; [|by destruct d|done]. eapply Forall_impl, Hc. intros c Hd%domain_char_spec. tauto.
  - destruct (rev d); [done|]. lia.
  - destruct d; [done|]. lia.
  - destruct d as [|c d]; [done|]. inversion Hc as [|? ? Hd _]; subst. apply domain_char_spec in Hd.
    apply Z.eqb_neq. lia.
Qed.

(** A bare domain entry covers the name and its subdomains and nothing
    else: [example.com] matches a host exactly when the host, lower-cased, is
    that name or ends in a dot and that name, so [notexample.com] and
    [example.com.evil] never match; it matches no address. *)
Lemma bare_domain_rule `{UnicodeData} `{RuleLibs} d :
  plain_domain d -> eq_ignore_ascii_case d (lit "private") = false ->
  ipnet_parse d = None -> parse_ip d = None ->
  exists rule, matcher_parse d = Some rule /\
  (forall name port, matches rule (Domain name) port = true <->
     to_lowercase name = to_lowercase d \/ exists sub, to_lowercase name = sub ++ [46] ++ to_lowercase d) /\
  (forall ip port, matches rule (Ip ip) port = false).
Proof.
  intros Hd Hp Hn Hi. destruct (normalize_plain d Hd) as [Hnorm Htrim]. destruct Hd as (Hc & Hh & _).
  assert (Hcol : 58 ∉ d).
  { intros Hin%list_elem_of_In. rewrite List.Forall_forall in Hc. apply Hc, domain_char_spec in Hin. tauto. }
  exists (DomainSuffix (to_lowercase d)). split_and!.
  - unfold matcher_parse, entry_kind. rewrite Htrim, split_once_none by done.
    assert (Hskip : str_eqb d [] || starts_with d (lit "#") = false).
    { destruct d as [|c d]; [done|]. change (lit "#") with [35]. rewrite starts_with_one.
      inversion Hc as [|? ? Hd _]; subst. apply domain_char_spec in Hd.
      by rewrite (proj2 (Z.eqb_neq 35 c)) by lia. }
    rewrite Hskip. set (pr := lit "private") in *. cbn -[normalize_domain eq_ignore_ascii_case parse_net pr].
    rewrite Hp.
    unfold parse_net. by rewrite Htrim, Hn, Hi, Hnorm.
  - intros name port. cbn [matches]. rewrite orb_true_iff, str_eqb_eq, ends_with_spec. done.
  - done.
Qed.

Lemma bare_domain_rule_witness :
  exists rule, matcher_parse (H := ascii_lowering) (lit "Example.com") = Some rule /\
  (forall name port, matches (H := ascii_lowering) rule (Domain name) port = true <->
     to_lowercase (H := ascii_lowering) name = to_lowercase (H := ascii_lowering) (lit "Example.com") \/
     exists sub, to_lowercase (H := ascii_lowering) name = sub ++ [46] ++ to_lowercase (H := ascii_lowering) (lit "Example.com")) /\
  (forall ip port, matches (H := ascii_lowering) rule (Ip ip) port = false).
Proof.
  apply (bare_domain_rule (H := ascii_lowering) (lit "Example.com")).
  - apply (bool_decide_unpack _). vm_compute. done.
  - vm_compute. done.
  - vm_compute. done.
  - vm_compute. done.
Defined.

(** *** Private addresses *)

(** The address as a number, and the blocks of addresses, first to last. *)
Definition addr_value (ip : IpAddr) : Z := be_value (ip_octets ip).

Definition v4_block (a b c d len : Z) : Z * Z :=
  let base := be_value [a; b; c; d] in (base, base + 2 ^ (32 - len) - 1).

Definition private_v4_blocks : list (Z * Z) :=
  [v4_block 10 0 0 0 8; v4_block 172 16 0 0 12; v4_block 192 168 0 0 16; v4_block 127 0 0 0 8;
   v4_block 169 254 0 0 16; v4_block 255 255 255 255 32; v4_block 192 0 2 0 24; v4_block 198 51 100 0 24;
   v4_block 203 0 113 0 24; v4_block 0 0 0 0 32; v4_block 100 64 0 0 10].

(** ::1, ::, fc00::/7 and fe80::/10 *)
Definition private_v6_blocks : list (Z * Z) :=
  [(1, 1); (0, 0); (0xfc00 * 2 ^ 112, 0xfe00 * 2 ^ 112 - 1); (0xfe80 * 2 ^ 112, 0xfec0 * 2 ^ 112 - 1)].

Definition in_blocks (bs : list (Z * Z)) (v : Z) : Prop := Exists (fun b => b.1 <= v <= b.2) bs.

Lemma is_private_v4 o :
  length o = 4%nat -> bytes_ok o -> is_private (V4 o) = true <-> in_blocks private_v4_blocks (be_value o).
Proof.
  intros Hl Hb. destruct o as [|a [|b [|c [|d [|e o]]]]]; try done.
  unfold bytes_ok in Hb. rewrite !Forall_cons_iff in Hb. destruct Hb as (Ha & Hb & Hc & Hd & _).
  unfold byte_ok in *. unfold in_blocks.
  let x := eval vm_compute in private_v4_blocks in change private_v4_blocks with x.
  rewrite !Exists_cons, Exists_nil. cbn [fst snd].
  unfold is_private, v4_is_private, is_loopback, v4_is_link_local, v4_is_broadcast, v4_is_documentation,
    is_unspecified, all_zero, octet. cbn [nth ip_octets forallb]. rewrite !andb_true_r.
  change (be_value [a; b; c; d]) with ((((0 * 256 + a) * 256 + b) * 256 + c) * 256 + d).
  set (v := (((0 * 256 + a) * 256 + b) * 256 + c) * 256 + d).
  rewrite !orb_true_iff, !andb_true_iff, !Z.eqb_eq, !Z.leb_le, Z.ltb_lt.
  assert (a = 10 <-> 167772160 <= v <= 184549375) by (clear -Ha Hb Hc Hd; subst v; lia).
  assert ((a = 172 /\ 16 <= b) /\ b <= 31 <-> 2886729728 <= v <= 2887778303) by (clear -Ha Hb Hc Hd; subst v; lia).
  assert (a = 192 /\ b = 168 <-> 3232235520 <= v <= 3232301055) by (clear -Ha Hb Hc Hd; subst v; lia).
  assert (a = 127 <-> 2130706432 <= v <= 2147483647) by (clear -Ha Hb Hc Hd; subst v; lia).
  assert (a = 169 /\ b = 254 <-> 2851995648 <= v <= 2852061183) by (clear -Ha Hb Hc Hd; subst v; lia).
  assert (255 = a /\ 255 = b /\ 255 = c /\ 255 = d <-> 4294967295 <= v <= 4294967295) by (clear -Ha Hb Hc Hd; subst v; lia).
  assert ((a = 192 /\ b = 0) /\ c = 2 <-> 3221225984 <= v <= 3221226239) by (clear -Ha Hb Hc Hd; subst v; lia).
  assert ((a = 198 /\ b = 51) /\ c = 100 <-> 3325256704 <= v <= 3325256959) by (clear -Ha Hb Hc Hd; subst v; lia).
  assert ((a = 203 /\ b = 0) /\ c = 113 <-> 3405803776 <= v <= 3405804031) by (clear -Ha Hb Hc Hd; subst v; lia).
  assert (0 = a /\ 0 = b /\ 0 = c /\ 0 = d <-> 0 <= v <= 0) by (clear -Ha Hb Hc Hd; subst v; lia).
  assert (a = 100 /\ 64 <= b /\ b < 128 <-> 1681915904 <= v <= 1686110207) by (clear -Ha Hb Hc Hd; subst v; lia).
  tauto.
Qed.

Lemma all_zero_value o : bytes_ok o -> all_zero o = true <-> be_value o = 0.
Proof.
  induction 1 as [|b o Hb Ho IH]; [done|]. unfold byte_ok in Hb. cbn [all_zero forallb].
  change (forallb (Z.eqb 0) o) with (all_zero o). rewrite andb_true_iff, IH, be_value_cons, Z.eqb_eq.
  pose proof (be_value_bound o Ho). assert (0 < 256 ^ zlen o) by (apply Z.pow_pos_nonneg; [lia|apply zlen_nonneg]).
  nia.
Qed.

(** A property of 16-bit numbers, checked byte by byte. *)
Definition check_u16 (P : Z -> bool) : bool :=
  forallb (fun a => forallb (fun b => P (a * 256 + b)) (seqZ 0 256)) (seqZ 0 256).

Lemma u16_forall (P : Z -> bool) : check_u16 P = true -> forall v, 0 <= v < 65536 -> P v = true.
Proof.
  unfold check_u16. intros HP v Hv. rewrite forallb_forall in HP.
  specialize (HP (v / 256)). rewrite forallb_forall in HP.
  rewrite (Z.div_mod v 256), Z.mul_comm by lia.
  apply HP; apply list_elem_of_In, elem_of_seqZ; Z.div_mod_to_equations; lia.
Qed.

Lemma segment_masks v : 0 <= v < 65536 ->
  ((Z.land v 0xfe00 =? 0xfc00) = ((0xfc00 <=? v) && (v <? 0xfe00))) /\
  ((Z.land v 0xffc0 =? 0xfe80) = ((0xfe80 <=? v) && (v <? 0xfec0))).
Proof.
  intros Hv. split; apply eqb_prop.
  - apply (u16_forall (fun v => eqb (Z.land v 0xfe00 =? 0xfc00) ((0xfc00 <=? v) && (v <? 0xfe00)))); [|done].
    vm_compute. done.
  - apply (u16_forall (fun v => eqb (Z.land v 0xffc0 =? 0xfe80) ((0xfe80 <=? v) && (v <? 0xfec0)))); [|done].
    vm_compute. done.
Qed.

Lemma is_private_v6 o :
  length o = 16%nat -> bytes_ok o -> is_private (V6 o) = true <-> in_blocks private_v6_blocks (be_value o).
Proof.
  intros Hl Hb. unfold in_blocks, private_v6_blocks. rewrite !Exists_cons, Exists_nil. cbn [fst snd].
  unfold is_private. rewrite !orb_true_iff.
  assert (Hloop : is_loopback (V6 o) = true <-> be_value o = 1).
  { unfold is_loopback. rewrite andb_true_iff, Z.eqb_eq, all_zero_value by (by apply Forall_take).
    destruct (lookup_lt_is_Some_2 o 15) as [x Hx]; [lia|].
    assert (Ho : o = take 15 o ++ [x]) by (by rewrite <- take_S_r, take_ge by (done || lia)).
    assert (Hoct : octet o 15 = x) by (unfold octet; by apply nth_lookup_Some).
    rewrite Hoct. rewrite Ho at 2. rewrite be_value_app. change (256 ^ zlen [x]) with 256.
    change (be_value [x]) with (0 * 256 + x).
    assert (byte_ok x) as Hxb by (eapply Forall_lookup_1; done). unfold byte_ok in Hxb.
    pose proof (be_value_bound (take 15 o) ltac:(by apply Forall_take)). lia. }
  assert (Hun : is_unspecified (V6 o) = true <-> be_value o = 0) by (by apply all_zero_value).
  rewrite Hloop, Hun.
  assert (Hseg : exists rest, be_value o = segment o 0 * 2 ^ 112 + rest /\ 0 <= rest < 2 ^ 112 /\
    0 <= segment o 0 < 65536).
  { destruct o as [|a [|b o]]; [done..|]. exists (be_value o).
    rewrite !be_value_cons. assert (Hz : zlen o = 14) by (unfold zlen; cbn in Hl; lia).
    rewrite zlen_cons, Hz. inversion Hb as [|? ? Ha Hb']; subst. inversion Hb' as [|? ? Hb2 Ho]; subst.
    unfold byte_ok in *. pose proof (be_value_bound o Ho) as Hr. rewrite Hz in Hr.
    change (256 ^ (1 + 14)) with (256 * 2 ^ 112). change (256 ^ 14) with (2 ^ 112) in *.
    unfold segment, octet, be_u16. cbn [nth Nat.mul Nat.add]. lia. }
  destruct Hseg as (rest & Hv & Hr & Hs). destruct (segment_masks (segment o 0) Hs) as [-> ->].
  rewrite !andb_true_iff, !Z.leb_le, !Z.ltb_lt, Hv. change (2 ^ 112) with 5192296858534827628530496329220096 in *.
  lia.
Qed.

(** [private] means exactly the private blocks: an address is private if and
    only if, read as a number, it lies in one of the IPv4 blocks 10/8, 172.16/12,
    192.168/16, 127/8, 169.254/16, 100.64/10, the three documentation networks,
    the broadcast or the unspecified address, or in ::1, ::, fc00::/7 or
    fe80::/10. *)
Lemma is_private_blocks ip :
  ip_ok ip ->
  is_private ip = true <->
  in_blocks (match ip with V4 _ => private_v4_blocks | V6 _ => private_v6_blocks end) (addr_value ip).
Proof. destruct ip as [o|o]; intros [Hl Hb]; [by apply is_private_v4|by apply is_private_v6]. Qed.

Lemma is_private_blocks_witness :
  is_private (V4 [172; 31; 255; 254]) = true <-> in_blocks private_v4_blocks (addr_value (V4 [172; 31; 255; 254])).
Proof.
  apply (is_private_blocks (V4 [172; 31; 255; 254])). split; [done|].
  apply (bool_decide_unpack _). vm_compute. done.
Defined.

(** A bare IPv6 entry is taken for a kind and its value, and dropped; with the
    kind written out it is accepted. *)
Example bare_ipv6_entry :
  let accepted s := match matcher_parse (H := ascii_lowering) s with Some (Net _) => true | _ => false end in
  let dropped s := match matcher_parse (H := ascii_lowering) s with None => true | _ => false end in
  dropped (lit "2001:db8::1") && dropped (lit "fd00::/8") &&
  accepted (lit "1.2.3.4") && accepted (lit "ip:2001:db8::1") = true.
Proof. vm_compute. reflexivity. Qed.
