(* ===== verification/Upstream.v ===== *)
(** * The upstream proxy (src/native/aether/aether/src/upstream.rs)

    The proxy the engine itself dials out through: its configuration, the
    SOCKS5 and HTTP client handshakes, the address codec they share, and the
    detours that send a datagram socket through a SOCKS5 UDP relay.  A TCP
    stream is what the peer will send and what has been written to it. *)

From stdpp Require Import base list option gmap.
From Stdlib Require Import ZArith Lia.
From S2P Require Import Prelude RustStr StrFacts Net Error Streams Sysprofile Routing.

Definition VER : Z := 5.
Definition AUTH_NONE : Z := 0.
Definition AUTH_USERPASS : Z := 2.
Definition AUTH_REJECTED : Z := 0xff.
Definition CMD_CONNECT : Z := 1.
Definition CMD_ASSOCIATE : Z := 3.
Definition ATYP_V4 : Z := 1.
Definition ATYP_NAME : Z := 3.
Definition ATYP_V6 : Z := 4.
Definition REP_OK : Z := 0.

Inductive Kind := Socks5 | Http.

#[global] Instance Kind_eq_dec : EqDecision Kind.
Proof. solve_decision. Defined.

Record Upstream := mkUpstream {
  kind : Kind;
  host : str;
  port : Z;
  user : option str;
  password : option str;
}.

#[global] Instance Upstream_eq_dec : EqDecision Upstream.
Proof. solve_decision. Defined.

(** ** Configuration *)

(** The loop of [percent_decode], on what is left of the bytes. *)
Fixpoint percent_loop (fuel : nat) (bytes : list Z) : list Z :=
  match fuel, bytes with
  | S fuel, b :: rest =>
      if (b =? 37) && (2 <=? zlen rest) then
        let hex := default [] (from_utf8 (ztake 2 rest)) in
        match from_str_radix 16 u8_max hex with
        | Some byte => byte :: percent_loop fuel (zdrop 2 rest)
        | None => b :: percent_loop fuel rest
        end
      else b :: percent_loop fuel rest
  | _, _ => []
  end.

Definition percent_decode (value : str) : str :=
  let bytes := utf8 value in from_utf8_lossy (percent_loop (length bytes) bytes).

Definition split_endpoint (endpoint : str) : aresult (str * Z) :=
  let malformed := Other (endpoint ++ lit " is not a host and port an upstream proxy can live at") in
  match strip_prefix endpoint (lit "[") with
  | Some rest =>
      '(host, tail) ← ok_or malformed (split_once 93 rest);
      port ← ok_or malformed (strip_prefix tail (lit ":"));
      port ← ok_or malformed (parse_uint u16_max port);
      if (zlen host =? 0) || (port =? 0) then Fail malformed else Done (host, port)
  | None =>
      '(host, port) ← ok_or malformed (rsplit_once 58 endpoint);
      port ← ok_or malformed (parse_uint u16_max port);
      if (zlen host =? 0) || (port =? 0) then Fail malformed else Done (host, port)
  end.

Definition kind_of_scheme (scheme : str) : option Kind :=
  if str_eqb scheme (lit "socks5") || str_eqb scheme (lit "socks5h") || str_eqb scheme (lit "socks")
  then Some Socks5
  else if str_eqb scheme (lit "http") || str_eqb scheme (lit "https") then Some Http
  else None.

Definition split_credentials (rest : str) : option str * str :=
  match rsplit_once 64 rest with
  | Some (credentials, endpoint) => (Some credentials, endpoint)
  | None => (None, rest)
  end.

Definition decode_credentials (credentials : option str) : option str * option str :=
  match credentials with
  | Some creds =>
      match split_once 58 creds with
      | Some (user, password) => (Some (percent_decode user), Some (percent_decode password))
      | None => (Some (percent_decode creds), None)
      end
  | None => (None, None)
  end.

Definition https_password : AetherError :=
  Other (lit "an https:// upstream with a password is refused: aether talks to its upstream over plain http, which would send the password in the clear; use http:// only if that is acceptable, or socks5://").

Definition upstream_parse `{UnicodeData} (raw : str) : aresult Upstream :=
  let raw := trim raw in
  let '(scheme, rest) :=
    match split_once_str (lit "://") raw with
    | Some (scheme, rest) => (to_lowercase scheme, rest)
    | None => (lit "socks5", raw)
    end in
  kind ← ok_or (Other (scheme ++ lit " is not an upstream proxy kind aether understands"))
           (kind_of_scheme scheme);
  let '(credentials, endpoint) := split_credentials rest in
  if str_eqb scheme (lit "https") && bool_decide (is_Some credentials) then Fail https_password
  else
    '(host, port) ← split_endpoint (trim_end_matches 47 endpoint);
    let '(user, password) := decode_credentials credentials in
    Done (mkUpstream kind host port user password).

(** [Upstream::from_env]: a setting that does not parse is ignored. *)
Definition upstream_from_env `{UnicodeData} (env : environment) : option Upstream :=
  raw ← env (lit "AETHER_UPSTREAM");
  let trimmed := trim raw in
  match trimmed with
  | [] => None
  | _ => to_option (map_err (fun _ => tt) (upstream_parse trimmed))
  end.

Definition endpoint (u : Upstream) : str := host u ++ lit ":" ++ show_uint (port u).

Definition url (u : Upstream) : str :=
  let h := if contains_char (host u) 58 then lit "[" ++ host u ++ lit "]" else host u in
  let scheme := match kind u with Socks5 => lit "socks5h" | Http => lit "http" end in
  scheme ++ lit "://" ++ h ++ lit ":" ++ show_uint (port u).

(** ** The address codec *)

Definition encode_address (target : SocketAddr) : list Z :=
  (match sock_ip target with
   | V4 o => ATYP_V4 :: o
   | V6 o => ATYP_V6 :: o
   end) ++ be_bytes 2 (sock_port target).

Definition encode_request (command : Z) (target : SocketAddr) : list Z :=
  [VER; command; 0] ++ encode_address target.

Definition encode_udp_header (target : SocketAddr) : list Z :=
  [0; 0; 0] ++ encode_address target.

Definition port_at (buf : list Z) (p : Z) : opt Z :=
  a ← idx buf p; b ← idx buf (p + 1); Done (be_u16 a b).

Definition decode_udp_header (buf : list Z) : opt (SocketAddr * Z) :=
  if zlen buf <? 4 then no_value
  else
    frag ← idx buf 2;
    if negb (frag =? 0) then no_value
    else
      atyp ← idx buf 3;
      if atyp =? ATYP_V4 then
        if zlen buf <? 10 then no_value
        else
          octets ← slice buf 4 8;
          port ← port_at buf 8;
          Done (sock (V4 octets) port, 10)
      else if atyp =? ATYP_V6 then
        if zlen buf <? 22 then no_value
        else
          octets ← slice buf 4 20;
          port ← port_at buf 20;
          Done (sock (V6 octets) port, 22)
      else if atyp =? ATYP_NAME then
        length ← oget (zget buf 4);
        let end_ := 5 + length in
        if zlen buf <? end_ + 2 then no_value
        else
          port ← port_at buf end_;
          raw ← slice buf 5 end_;
          name ← oget (from_utf8 raw);
          ip ← oget (parse_ip name);
          Done (sock ip port, end_ + 2)
      else no_value.

(** ** The SOCKS5 client *)

Definition socks_authenticate (u : Upstream) (t : tcp) : aresult tcp :=
  let user := utf8 (default [] (user u)) in
  let password := utf8 (default [] (password u)) in
  if (zlen user >? 255) || (zlen password >? 255) then
    Fail (Other (lit "the upstream proxy credentials are longer than socks5 allows"))
  else
    t ← write_all t ([1] ++ [u8 (zlen user)] ++ user ++ [u8 (zlen password)] ++ password);
    '(answer, t) ← read_exact t 2;
    a0 ← idx answer 0;
    a1 ← idx answer 1;
    if negb (a0 =? 1) then
      Fail (Other (lit "the upstream proxy answered the password negotiation with the wrong version"))
    else if negb (a1 =? 0) then Fail (Other (lit "the upstream proxy refused the credentials supplied"))
    else Done t.

Definition socks_greet (u : Upstream) (t : tcp) : aresult tcp :=
  let wants_auth := bool_decide (is_Some (user u)) in
  t ← write_all t (if wants_auth then [VER; 1; AUTH_USERPASS] else [VER; 1; AUTH_NONE]);
  '(answer, t) ← read_exact t 2;
  a0 ← idx answer 0;
  if negb (a0 =? VER) then Fail (Other (lit "the upstream proxy did not speak socks5"))
  else
    a1 ← idx answer 1;
    if (a1 =? AUTH_NONE) && wants_auth then
      Fail (Other (lit "the upstream proxy skipped authentication even though credentials are configured"))
    else if a1 =? AUTH_NONE then Done t
    else if a1 =? AUTH_USERPASS then socks_authenticate u t
    else if a1 =? AUTH_REJECTED then
      Fail (Other (lit "the upstream proxy rejected every authentication method offered"))
    else Fail (Other (lit "the upstream proxy asked for authentication method " ++ show_uint a1 ++
                      lit ", which aether cannot do")).

Definition reply_ip (atyp : Z) (t : tcp) : aresult (IpAddr * tcp) :=
  if atyp =? ATYP_V4 then '(o, t) ← read_exact t 4; Done (V4 o, t)
  else if atyp =? ATYP_V6 then '(o, t) ← read_exact t 16; Done (V6 o, t)
  else if atyp =? ATYP_NAME then
    '(length, t) ← read_exact t 1;
    n ← idx length 0;
    '(name, t) ← read_exact t n;
    Done (default UNSPECIFIED_V4 (parse_ip (from_utf8_lossy name)), t)
  else Fail (Other (lit "the upstream proxy sent address type " ++ show_uint atyp ++
                    lit ", which aether cannot read")).

Definition read_reply (t : tcp) : aresult (SocketAddr * tcp) :=
  '(head, t) ← read_exact t 4;
  h0 ← idx head 0;
  if negb (h0 =? VER) then
    Fail (Other (lit "the upstream proxy answered with something other than socks5"))
  else
    h1 ← idx head 1;
    if negb (h1 =? REP_OK) then
      Fail (Other (lit "the upstream proxy refused the request with code " ++ show_uint h1))
    else
      atyp ← idx head 3;
      '(ip, t) ← reply_ip atyp t;
      '(port, t) ← read_exact t 2;
      a ← idx port 0;
      b ← idx port 1;
      Done (sock ip (be_u16 a b), t).

(** The SOCKS5 side of [connect], on a stream that is open. *)
Definition socks_connect (u : Upstream) (target : SocketAddr) (t : tcp) : aresult (SocketAddr * tcp) :=
  t ← socks_greet u t;
  t ← write_all t (encode_request CMD_CONNECT target);
  read_reply t.

(** ** The HTTP client *)

Section http.
(** The standard alphabet of the base64 crate. *)
Context (base64 : list Z -> str).

Definition connect_request (u : Upstream) (target : SocketAddr) : str :=
  let authority := show_socket_addr target in
  let crlf := [13; 10] in
  lit "CONNECT " ++ authority ++ lit " HTTP/1.1" ++ crlf ++ lit "Host: " ++ authority ++ crlf ++
  lit "Proxy-Connection: Keep-Alive" ++ crlf ++
  (match user u with
   | Some user =>
       lit "Proxy-Authorization: Basic " ++ base64 (utf8 (user ++ lit ":" ++ default [] (password u))) ++ crlf
   | None => []
   end) ++ crlf.

(** The answer is read byte by byte up to the blank line. *)
Fixpoint read_head (fuel : nat) (head : list Z) (t : tcp) : aresult (list Z * tcp) :=
  match fuel with
  | O => Diverge
  | S fuel =>
      if zlen head >? 8192 then Fail (Other (lit "the upstream proxy sent an oversized answer"))
      else
        read ← read_byte t;
        match read with
        | None => Fail (Other (lit "the upstream proxy closed before answering the connect"))
        | Some (b, t) =>
            let head := head ++ [b] in
            if ends_with head [13; 10; 13; 10] then Done (head, t) else read_head fuel head t
        end
  end.

Definition http_status (head : list Z) : option Z :=
  line ← lines (from_utf8_lossy head) !! 0%nat;
  let parts := split_whitespace line in
  version ← parts !! 0%nat;
  if negb (starts_with version (lit "HTTP/")) then None
  else code ← parts !! 1%nat; parse_uint u16_max code.

Definition http_connect (u : Upstream) (target : SocketAddr) (t : tcp) : aresult tcp :=
  t ← write_all t (utf8 (connect_request u target));
  '(head, t) ← read_head (Z.to_nat 8194) [] t;
  status ← ok_or (Other (lit "the upstream proxy answer was not http")) (http_status head);
  if negb ((200 <=? status) && (status <? 300)) then
    Fail (Other (lit "the upstream proxy answered " ++ show_uint status ++ lit " to the connect"))
  else Done t.

(** [connect], on the stream [tcp_connect_host] opened; the timeout around it
    can only turn the outcome into an error. *)
Definition connect (u : Upstream) (target : SocketAddr) (t : tcp) : aresult tcp :=
  match kind u with
  | Socks5 => '(_, t) ← socks_connect u target t; Done t
  | Http => http_connect u target t
  end.
End http.

(** ** UDP relays *)

(** [lookup] is the first address [lookup_host] yields. *)
Definition relay_address (lookup : str -> Z -> aresult (option SocketAddr)) (bound : SocketAddr)
    (host : str) (port : Z) : aresult SocketAddr :=
  if negb (is_unspecified (sock_ip bound)) && negb (sock_port bound =? 0) then Done bound
  else
    let relay_port := if sock_port bound =? 0 then port else sock_port bound in
    match parse_ip host with
    | Some ip => Done (sock ip relay_port)
    | None =>
        found ← lookup host relay_port;
        ok_or (Other (host ++ lit " does not resolve to a usable relay address")) found
    end.

(** [associate] up to the address of the relay. *)
Definition associate (lookup : str -> Z -> aresult (option SocketAddr)) (u : Upstream) (t : tcp)
    : aresult (SocketAddr * tcp) :=
  match kind u with
  | Http => Fail (Other (lit "only a socks5 proxy can carry udp, an http proxy cannot"))
  | Socks5 =>
      t ← socks_greet u t;
      t ← write_all t (encode_request CMD_ASSOCIATE (sock UNSPECIFIED_V4 0));
      '(bound, t) ← read_reply t;
      relay ← relay_address lookup bound (host u) (port u);
      Done (relay, t)
  end.

(** What [UdpRelay::send_to] hands to the socket, and what [recv_from] makes of
    a datagram for a buffer of [room] bytes. *)
Definition relay_send (payload : list Z) (target : SocketAddr) : list Z :=
  encode_udp_header target ++ payload.

Definition relay_recv (room : Z) (datagram : list Z) : outcome IoErrorKind (list Z * SocketAddr) :=
  let framed := ztake (Z.max room 2048 + 512) datagram in
  match decode_udp_header framed with
  | Done (origin, offset) =>
      payload ← slice framed offset (zlen framed);
      Done (ztake (Z.min (zlen payload) room) payload, origin)
  | Fail _ => Fail InvalidData
  | Panic => Panic
  | Diverge => Diverge
  end.

(** ** Detours *)

Record Detour := mkDetour {
  id : Z;
  shim : SocketAddr;
  peer : SocketAddr;
}.

(** The statics behind [next_detour_id] and [detours]; no holder of the mutex
    can panic, so it is never poisoned. *)
Record detour_state := mkDetours {
  NEXT : Z;
  DETOURS : gmap SocketAddr Detour;
}.

Definition no_detours : detour_state := mkDetours 1 ∅.

(** [DetourGuard], less the abort handle of the pump. *)
Definition DetourGuard : Type := option (SocketAddr * Z).

Definition forget_detour (client : SocketAddr) (n : Z) (st : detour_state) : detour_state :=
  match DETOURS st !! client with
  | Some detour => if id detour =? n then mkDetours (NEXT st) (delete client (DETOURS st)) else st
  | None => st
  end.

Definition guard_drop (guard : DetourGuard) (st : detour_state) : detour_state :=
  match guard with Some (client, n) => forget_detour client n st | None => st end.

Definition next_detour_id (st : detour_state) : Z * detour_state :=
  (NEXT st, mkDetours (u64 (NEXT st + 1)) (DETOURS st)).

Definition relay_target (st : detour_state) (local intended : SocketAddr) : SocketAddr :=
  match DETOURS st !! local with Some d => shim d | None => intended end.

Definition real_source (st : detour_state) (local observed : SocketAddr) : SocketAddr :=
  match DETOURS st !! local with
  | Some d => if decide (shim d = observed) then peer d else observed
  | None => observed
  end.

(** [relay], [client] and [shim_address] are what [associate] and the two
    [local_addr] calls (the shim bound to the loopback of the client's family)
    answer. *)
Definition attach_detour_via (relay : aresult SocketAddr) (client : outcome IoErrorKind SocketAddr)
    (shim_address : IpAddr -> outcome IoErrorKind SocketAddr) (peer : SocketAddr) (st : detour_state)
    : aresult (DetourGuard * detour_state) :=
  if is_private (sock_ip peer) then Done (None, st)
  else
    _ ← relay;
    client ← map_err Io client;
    let loopback := match sock_ip client with V4 _ => LOCALHOST_V4 | V6 _ => LOCALHOST_V6 end in
    shim ← map_err Io (shim_address loopback);
    let '(n, st) := next_detour_id st in
    Done (Some (client, n), mkDetours (NEXT st) (<[client := mkDetour n shim peer]> (DETOURS st))).

Definition from_detoured_socket (client origin : SocketAddr) : bool :=
  (sock_port origin =? sock_port client) &&
  (bool_decide (sock_ip origin = sock_ip client) ||
   (is_unspecified (sock_ip client) && is_loopback (sock_ip origin))).

(** ** The pump *)

Inductive arrival :=
| at_shim (datagram : list Z) (origin : SocketAddr)
| at_relay (datagram : list Z)
| io_failure (e : IoErrorKind).

Inductive emission :=
| to_relay (framed : list Z)
| to_client (payload : list Z) (to : SocketAddr).

(** One turn of [pump]'s loop: the answer address, and what is sent. *)
Definition pump_turn (client peer : SocketAddr) (reply_to : option SocketAddr) (a : arrival)
    : outcome IoErrorKind (option SocketAddr * list emission) :=
  match a with
  | at_shim datagram origin =>
      let datagram := ztake 65535 datagram in
      if negb (from_detoured_socket client origin) then Done (reply_to, [])
      else Done (Some origin, [to_relay (relay_send datagram peer)])
  | at_relay datagram =>
      match relay_recv 65535 datagram with
      | Done (payload, _) =>
          match reply_to with
          | Some to => Done (reply_to, [to_client payload to])
          | None => Done (reply_to, [])
          end
      | Fail InvalidData => Done (reply_to, [])
      | Fail error => Fail error
      | Panic => Panic
      | Diverge => Diverge
      end
  | io_failure e => Fail e
  end.

Fixpoint pump (client peer : SocketAddr) (reply_to : option SocketAddr) (arrivals : list arrival)
    : list emission * option (outcome IoErrorKind unit) :=
  match arrivals with
  | [] => ([], None)
  | a :: rest =>
      match pump_turn client peer reply_to a with
      | Done (reply_to, sent) =>
          let '(out, end_) := pump client peer reply_to rest in (sent ++ out, end_)
      | Fail e => ([], Some (Fail e))
      | Panic => ([], Some Panic)
      | Diverge => ([], Some Diverge)
      end
  end.

(** ** The relay: lemmas *)

Lemma port_at_bytes pre p rest :
  0 <= p <= u16_max -> port_at (pre ++ be_bytes 2 p ++ rest) (zlen pre) = Done p.
Proof.
  intros Hp. unfold port_at, idx.
  rewrite <- (Z.add_0_r (zlen pre)) at 1.
  rewrite !zget_app_plus by lia. rewrite be_bytes_2. cbn [zget app].
  simpl. rewrite be_u16_bytes; [done | unfold u16_max in Hp; lia].
Qed.

Lemma zlen_encode_address a :
  ip_ok (sock_ip a) -> zlen (encode_address a) = zlen (ip_octets (sock_ip a)) + 3.
Proof.
  intros _. unfold encode_address.
  destruct (sock_ip a); cbn [ip_octets]; autorewrite with bytes; lia.
Qed.

(** Both fixed-length address forms are read back the same way. *)
Lemma decode_fixed_header atyp o p rest :
  (atyp = ATYP_V4 /\ length o = 4%nat) \/ (atyp = ATYP_V6 /\ length o = 16%nat) ->
  0 <= p <= u16_max ->
  decode_udp_header ([0; 0; 0; atyp] ++ o ++ be_bytes 2 p ++ rest)
  = Done (sock (if atyp =? ATYP_V4 then V4 o else V6 o) p, 6 + zlen o).
Proof.
  intros Hcase Hp. set (buf := [0; 0; 0; atyp] ++ o ++ be_bytes 2 p ++ rest).
  assert (Hlen : zlen buf = 6 + zlen o + zlen rest)
    by (unfold buf; autorewrite with bytes; rewrite Nat2Z.inj_succ; lia).
  pose proof (zlen_nonneg rest).
  assert (Hs : forall b, b = 4 + zlen o -> @slice unit _ buf 4 b = Done o)
    by (intros b Hb; apply slice_app_mid; done).
  assert (Hq : forall q, q = 4 + zlen o -> port_at buf q = Done p).
  { intros q ->. unfold buf. rewrite (app_assoc [0; 0; 0; atyp]).
    replace (4 + zlen o) with (zlen ([0; 0; 0; atyp] ++ o)) by (autorewrite with bytes; lia).
    by apply port_at_bytes. }
  assert (H2 : @idx unit _ buf 2 = Done 0) by done.
  assert (H3 : @idx unit _ buf 3 = Done atyp) by done.
  clearbody buf. unfold decode_udp_header.
  destruct Hcase as [[-> Hl] | [-> Hl]];
    assert (Hz : zlen o = Z.of_nat (length o)) by done; rewrite Hl in Hz;
    [change (Z.of_nat 4) with 4 in Hz | change (Z.of_nat 16) with 16 in Hz];
    rewrite Hz in Hlen, Hs, Hq |- *; rewrite (proj2 (Z.ltb_ge (zlen buf) 4)) by lia;
    rewrite H2; simpl; rewrite H3; simpl;
    rewrite (proj2 (Z.ltb_ge (zlen buf) _)), Hs by lia; simpl; by rewrite Hq by lia.
Qed.

Lemma encode_udp_header_eq a rest :
  encode_udp_header a ++ rest
  = [0; 0; 0; match sock_ip a with V4 _ => ATYP_V4 | V6 _ => ATYP_V6 end]
    ++ ip_octets (sock_ip a) ++ be_bytes 2 (sock_port a) ++ rest.
Proof.
  unfold encode_udp_header, encode_address.
  destruct (sock_ip a); cbn [ip_octets]; by rewrite <- !app_assoc.
Qed.

Lemma zlen_encode_udp_header a : zlen (encode_udp_header a) = 6 + zlen (ip_octets (sock_ip a)).
Proof.
  rewrite <- (app_nil_r (encode_udp_header a)), encode_udp_header_eq.
  autorewrite with bytes. lia.
Qed.

Lemma decode_encoded_header a rest :
  sock_ok a ->
  decode_udp_header (encode_udp_header a ++ rest)
  = Done (sock (sock_ip a) (sock_port a), zlen (encode_udp_header a)).
Proof.
  intros [Hip Hp]. rewrite encode_udp_header_eq, zlen_encode_udp_header.
  destruct (sock_ip a) as [o | o] eqn:E; destruct Hip as [Hl _]; cbn [ip_octets];
    rewrite decode_fixed_header; eauto.
Qed.

Lemma wp_port_at buf p (Q : Z -> Prop) (R : unit -> Prop) :
  0 <= p -> p + 1 < zlen buf -> (forall q, Q q) -> wp (port_at buf p) Q R.
Proof.
  intros. unfold port_at. do 2 (apply wp_bind, wp_idx; [lia | intros ? _]). simpl. auto.
Qed.

Lemma decode_udp_header_total buf :
  bytes_ok buf ->
  wp (decode_udp_header buf) (fun '(_, offset) => 4 <= offset <= zlen buf) (fun _ => True).
Proof.
  intros Hb. unfold decode_udp_header. dest_if; [done|].
  apply wp_bind, wp_idx; [lia|]. intros frag _. dest_if; [done|].
  apply wp_bind, wp_idx; [lia|]. intros atyp _. dest_if.
  { dest_if; [done|]. apply wp_bind, wp_slice; [lia..|].
    apply wp_bind, wp_port_at; [lia..|]. intros q. simpl. lia. }
  dest_if.
  { dest_if; [done|]. apply wp_bind, wp_slice; [lia..|].
    apply wp_bind, wp_port_at; [lia..|]. intros q. simpl. lia. }
  dest_if; [|done].
  apply wp_bind, wp_oget; [|done]. intros n Hn.
  pose proof (bytes_ok_zget _ _ _ Hb Hn) as Hbyte. unfold byte_ok in Hbyte.
  dest_if; [done|]. apply wp_bind, wp_port_at; [lia..|]. intros q.
  apply wp_bind, wp_slice; [lia..|].
  apply wp_bind, wp_oget; [|done]. intros name _.
  apply wp_bind, wp_oget; [|done]. intros ip _. simpl. lia.
Qed.

Lemma decode_truncated_header a cut :
  sock_ok a -> 0 <= cut < zlen (encode_udp_header a) ->
  decode_udp_header (ztake cut (encode_udp_header a)) = Fail tt.
Proof.
  intros [Hip _] Hcut. set (buf := ztake cut (encode_udp_header a)).
  assert (Hlen : zlen buf = cut) by (apply zlen_ztake; lia).
  assert (Hget : forall i x, zget (encode_udp_header a) i = Some x -> 0 <= i < cut ->
                             @idx unit _ buf i = Done x).
  { intros i x Hx Hi. unfold idx.
    rewrite <- (zget_app_l buf (zdrop cut (encode_udp_header a))) by lia.
    unfold buf. by rewrite ztake_zdrop, Hx. }
  rewrite zlen_encode_udp_header in Hcut. unfold decode_udp_header. dest_if; [done|].
  rewrite (Hget 2 0) by (done || lia). simpl.
  destruct (sock_ip a) as [o | o] eqn:Ea; destruct Hip as [Hl _]; cbn [ip_octets] in Hcut;
    unfold zlen in Hcut; rewrite Hl in Hcut.
  - rewrite (Hget 3 ATYP_V4) by (unfold encode_udp_header, encode_address; rewrite ?Ea; done || lia).
    simpl. by rewrite (proj2 (Z.ltb_lt _ _)) by lia.
  - rewrite (Hget 3 ATYP_V6) by (unfold encode_udp_header, encode_address; rewrite ?Ea; done || lia).
    simpl. by rewrite (proj2 (Z.ltb_lt _ _)) by lia.
Qed.

Lemma relay_recv_sent room payload target :
  sock_ok target -> 0 <= room ->
  relay_recv room (relay_send payload target)
  = Done (ztake room payload, sock (sock_ip target) (sock_port target)).
Proof.
  intros Hok Hroom. unfold relay_recv, relay_send. set (h := encode_udp_header target).
  assert (Hh : 0 <= zlen h <= 22).
  { unfold h. rewrite zlen_encode_udp_header. destruct Hok as [Hip _].
    unfold zlen. destruct (sock_ip target); destruct Hip as [Hl _]; cbn [ip_octets]; rewrite Hl; lia. }
  rewrite ztake_app_ge by lia. unfold h at 1. rewrite decode_encoded_header by done.
  fold h. set (kept := ztake _ payload).
  assert (Hs : @slice IoErrorKind _ (h ++ kept) (zlen h) (zlen (h ++ kept)) = Done kept).
  { rewrite <- (app_nil_r kept) at 1. apply slice_app_mid; [done|]. by rewrite zlen_app. }
  rewrite Hs. simpl. do 2 f_equal. rewrite ztake_min_len by done.
  unfold kept. apply ztake_ztake_le. lia.
Qed.

Lemma relay_recv_total room datagram :
  bytes_ok datagram -> 0 <= room ->
  wp (relay_recv room datagram) (fun '(payload, _) => zlen payload <= room) (fun e => e = InvalidData).
Proof.
  intros Hb Hroom. unfold relay_recv. set (framed := ztake _ datagram).
  pose proof (decode_udp_header_total framed (bytes_ok_ztake _ _ Hb)) as Hd.
  destruct (decode_udp_header framed) as [[origin offset] | | |]; simpl in *; try done.
  apply wp_bind, wp_slice; [lia..|]. simpl.
  set (p := zsub _ _ _). pose proof (zlen_nonneg p).
  rewrite zlen_ztake by lia. lia.
Qed.

(** ** The handshakes: lemmas *)

(** What the client says, and what a server that lets it through answers. *)
Definition greeting (u : Upstream) : list Z :=
  [VER; 1; match user u with Some _ => AUTH_USERPASS | None => AUTH_NONE end].

Definition password_message (u : Upstream) : list Z :=
  let user := utf8 (default [] (user u)) in
  let password := utf8 (default [] (password u)) in
  [1; zlen user] ++ user ++ [zlen password] ++ password.

Definition client_says (u : Upstream) (method : Z) : list Z :=
  greeting u ++ if method =? AUTH_USERPASS then password_message u else [].

Definition server_accepts (method : Z) : list Z :=
  [VER; method] ++ if method =? AUTH_USERPASS then [1; 0] else [].

Definition credentials_fit (u : Upstream) : Prop :=
  zlen (utf8 (default [] (user u))) <= 255 /\ zlen (utf8 (default [] (password u))) <= 255.

(** A server may skip the password only when none is configured. *)
Definition method_allowed (u : Upstream) (method : Z) : Prop :=
  (method = AUTH_USERPASS /\ credentials_fit u) \/ (method = AUTH_NONE /\ user u = None).

(** The bytes of an address in a reply, and the address the client takes. *)
Inductive reply_address : list Z -> SocketAddr -> Prop :=
| reply_fixed ip p :
    ip_ok ip -> 0 <= p <= u16_max -> reply_address (encode_address (sock ip p)) (sock ip p)
| reply_name name p :
    0 <= p <= u16_max ->
    reply_address ([ATYP_NAME; zlen name] ++ name ++ be_bytes 2 p)
      (sock (default UNSPECIFIED_V4 (parse_ip (from_utf8_lossy name))) p).

Lemma wp_socks_authenticate u t :
  wp (socks_authenticate u t)
     (fun t' => exchanged t t' [1; 0] (password_message u) /\ credentials_fit u) (fun _ => True).
Proof.
  unfold socks_authenticate, password_message, credentials_fit.
  set (name := utf8 (default [] (user u))). set (secret := utf8 (default [] (password u))).
  dest_if; [done|].
  apply wp_bind, wp_write_all. intros t1 H1.
  apply wp_bind, wp_read_exact; [lia|]. intros got t2 Hlen H2.
  destruct (zlen_2_inv _ Hlen) as (a & b & ->). simpl.
  dest_if; [done|]. dest_if; [done|]. simpl.
  assert (a = 1) as -> by bool_lia. assert (b = 0) as -> by bool_lia.
  pose proof (zlen_nonneg name). pose proof (zlen_nonneg secret).
  pose proof (exchanged_trans _ _ _ _ _ _ _ H1 H2) as Hx. rewrite app_nil_r in Hx.
  unfold u8 in Hx. rewrite !Z.mod_small in Hx by bool_lia.
  split; [exact Hx | bool_lia].
Qed.

Lemma wp_socks_greet u t :
  wp (socks_greet u t)
     (fun t' => exists method, method_allowed u method /\
                exchanged t t' (server_accepts method) (client_says u method)) (fun _ => True).
Proof.
  unfold socks_greet.
  apply wp_bind, wp_write_all. intros t1 H1.
  apply wp_bind, wp_read_exact; [lia|]. intros got t2 Hlen H2.
  destruct (zlen_2_inv _ Hlen) as (a & b & ->). simpl.
  pose proof (exchanged_trans _ _ _ _ _ _ _ H1 H2) as Hx. rewrite app_nil_r in Hx.
  replace (if bool_decide (is_Some (user u)) then [VER; 1; AUTH_USERPASS] else [VER; 1; AUTH_NONE])
    with (greeting u) in Hx by (unfold greeting; by destruct (user u)).
  dest_if; [done|]. assert (a = VER) as -> by bool_lia.
  dest_if; [done|]. dest_if.
  { assert (b = AUTH_NONE) as -> by bool_lia. simpl. exists AUTH_NONE. split.
    - right. split; [done|]. destruct (user u); [|done]. done.
    - unfold client_says. change (AUTH_NONE =? AUTH_USERPASS) with false.
      by rewrite app_nil_r. }
  dest_if; [|by dest_if].
  assert (b = AUTH_USERPASS) as -> by bool_lia.
  eapply wp_mono; [apply wp_socks_authenticate| |done].
  intros t3 [H3 Hfit]. exists AUTH_USERPASS. split; [by left|].
  exact (exchanged_trans _ _ _ _ _ _ _ Hx H3).
Qed.

Lemma wp_reply_ip atyp t :
  bytes_ok (incoming t) ->
  wp (reply_ip atyp t)
     (fun '(ip, t') => exists heard, exchanged t t' heard [] /\
        forall p, 0 <= p <= u16_max -> reply_address (atyp :: heard ++ be_bytes 2 p) (sock ip p))
     (fun _ => True).
Proof.
  intros Hb. unfold reply_ip. dest_if; [|dest_if; [|dest_if; [|done]]].
  1, 2: apply wp_bind, wp_read_exact; [lia|]; intros o t1 Hlen H1; simpl;
    exists o; split; [done|]; intros p Hp;
    assert (atyp = ATYP_V4 \/ atyp = ATYP_V6) as Hatyp by bool_lia;
    apply exchanged_bytes_ok in H1 as [Ho _]; [|done];
    destruct Hatyp as [-> | ->]; try done.
  - apply (reply_fixed (V4 o) p); [|done]. split; [unfold zlen in Hlen; lia | done].
  - apply (reply_fixed (V6 o) p); [|done]. split; [unfold zlen in Hlen; lia | done].
  - assert (atyp = ATYP_NAME) as -> by bool_lia.
    apply wp_bind, wp_read_exact; [lia|]. intros got t1 Hlen H1.
    destruct (zlen_1_inv _ Hlen) as (n & ->). simpl.
    pose proof (exchanged_bytes_ok _ _ _ _ H1 Hb) as [Hn Hb1].
    apply Forall_cons_iff in Hn as [Hn _]. unfold byte_ok in Hn.
    apply wp_bind, wp_read_exact; [lia|]. intros name t2 Hname H2. simpl.
    exists (n :: name). split; [exact (exchanged_trans _ _ _ _ _ _ _ H1 H2)|].
    intros p Hp. subst n. by apply (reply_name name p).
Qed.

Lemma wp_read_reply t :
  bytes_ok (incoming t) ->
  wp (read_reply t)
     (fun '(bound, t') => exists rsv addr, reply_address addr bound /\
                          exchanged t t' ([VER; REP_OK; rsv] ++ addr) []) (fun _ => True).
Proof.
  intros Hb. unfold read_reply.
  apply wp_bind, wp_read_exact; [lia|]. intros got t1 Hlen H1.
  destruct (zlen_4_inv _ Hlen) as (h0 & h1 & rsv & atyp & ->). simpl.
  pose proof (exchanged_bytes_ok _ _ _ _ H1 Hb) as [_ Hb1].
  dest_if; [done|]. dest_if; [done|].
  assert (h0 = VER) as -> by bool_lia. assert (h1 = REP_OK) as -> by bool_lia.
  apply wp_bind. eapply wp_mono; [apply wp_reply_ip, Hb1| |done].
  intros [ip t2] (heard & H2 & Haddr).
  pose proof (exchanged_bytes_ok _ _ _ _ H2 Hb1) as [_ Hb2].
  apply wp_bind, wp_read_exact; [lia|]. intros pb t3 Hlen3 H3.
  pose proof (exchanged_bytes_ok _ _ _ _ H3 Hb2) as [Hpb _].
  destruct (zlen_2_inv _ Hlen3) as (a & b & ->). simpl.
  apply Forall_cons_iff in Hpb as [Ha Hpb]. apply Forall_cons_iff in Hpb as [Hbb _].
  exists rsv, (atyp :: heard ++ [a; b]). split.
  - rewrite <- (be_u16_be_bytes a b) by done. apply Haddr.
    clear -Ha Hbb. unfold byte_ok, be_u16, u16_max in *. lia.
  - pose proof (exchanged_trans _ _ _ _ _ _ _ (exchanged_trans _ _ _ _ _ _ _ H1 H2) H3) as Hx.
    simpl in Hx. by rewrite ?app_nil_r, <- ?app_assoc in Hx.
Qed.

(** The head is at most 8193 bytes long, so 8194 turns settle the loop. *)
Lemma wp_read_head fuel head t :
  zlen head <= 8193 -> 8194 - zlen head <= Z.of_nat fuel ->
  wp (read_head fuel head t)
     (fun '(head', t') => exists heard, head' = head ++ heard /\ exchanged t t' heard [] /\
        ends_with head' [13; 10; 13; 10] = true /\ zlen head' <= 8193) (fun _ => True).
Proof.
  revert head t. induction fuel as [|fuel IH]; intros head t Hmax Hf; [lia|].
  cbn [read_head]. dest_if; [done|]. apply wp_bind.
  unfold read_byte. destruct (incoming t) as [|b rest] eqn:Hin.
  { by destruct (read_end t). }
  simpl. set (t1 := mkTcpStream rest _ _ _).
  assert (H1 : exchanged t t1 [b] []) by (split; [done | by rewrite app_nil_r]).
  destruct (ends_with (head ++ [b]) [13; 10; 13; 10]) eqn:Hend.
  - exists [b]. split; [done|]. split; [done|]. split; [done|].
    autorewrite with bytes. bool_lia.
  - eapply wp_mono; [apply (IH (head ++ [b]) t1); autorewrite with bytes; bool_lia | | done].
    intros [head' t'] (heard & -> & H2 & Hends & Hlen). exists (b :: heard).
    rewrite <- app_assoc in Hends, Hlen |- *. split; [done|]. split; [|done].
    exact (exchanged_trans _ _ _ _ _ _ _ H1 H2).
Qed.

Section connect_spec.
Context (base64 : list Z -> str) (u : Upstream) (target : SocketAddr).

(** A connection is open from [t] to [t'] when the two sides exchanged exactly
    a handshake of the proxy's kind. *)
Definition connected (t t' : tcp) : Prop :=
  match kind u with
  | Socks5 => exists method rsv addr bound,
      method_allowed u method /\ reply_address addr bound /\
      exchanged t t' (server_accepts method ++ [VER; REP_OK; rsv] ++ addr)
                     (client_says u method ++ encode_request CMD_CONNECT target)
  | Http => exists head status,
      http_status head = Some status /\ 200 <= status < 300 /\ zlen head <= 8193 /\
      ends_with head [13; 10; 13; 10] = true /\
      exchanged t t' head (utf8 (connect_request base64 u target))
  end.

Lemma wp_connect t :
  bytes_ok (incoming t) -> wp (connect base64 u target t) (connected t) (fun _ => True).
Proof.
  intros Hb. unfold connect, connected. destruct (kind u).
  - unfold socks_connect. apply wp_bind, wp_bind.
    eapply wp_mono; [apply wp_socks_greet| |done]. intros t1 (method & Hm & H1).
    pose proof (exchanged_bytes_ok _ _ _ _ H1 Hb) as [_ Hb1].
    apply wp_bind, wp_write_all. intros t2 H2.
    pose proof (exchanged_bytes_ok _ _ _ _ H2 Hb1) as [_ Hb2].
    eapply wp_mono; [apply wp_read_reply, Hb2| |done].
    intros [bound t3] (rsv & addr & Haddr & H3). exists method, rsv, addr, bound.
    split; [done|]. split; [done|].
    pose proof (exchanged_trans _ _ _ _ _ _ _ (exchanged_trans _ _ _ _ _ _ _ H1 H2) H3) as Hx.
    by rewrite !app_nil_r in Hx.
  - unfold http_connect. apply wp_bind, wp_write_all. intros t1 H1.
    apply wp_bind. eapply wp_mono; [apply wp_read_head; rewrite zlen_nil; lia| |done].
    intros [head t2] (heard & -> & H2 & Hends & Hlen). cbn [app] in *.
    destruct (http_status heard) as [status|] eqn:Hs; [|done].
    cbn [ok_or mbind outcome_bind]. dest_if; [done|]. simpl. exists heard, status.
    split; [done|]. split; [bool_lia|]. split; [done|]. split; [done|].
    pose proof (exchanged_trans _ _ _ _ _ _ _ H1 H2) as Hx. by rewrite app_nil_r in Hx.
Qed.
End connect_spec.

Lemma socks_greet_accepted u method rest out re :
  method_allowed u method ->
  socks_greet u (mkTcpStream (server_accepts method ++ rest) out None re)
  = Done (mkTcpStream rest (out ++ client_says u method) None re).
Proof.
  intros Hm. unfold socks_greet, write_all. cbn [write_error incoming outgoing read_end mbind outcome_bind].
  unfold server_accepts. rewrite <- app_assoc, (read_exact_app [VER; method]) by done.
  cbn [mbind outcome_bind]. destruct Hm as [[-> [Hu Hp]] | [-> Hu]].
  - simpl. unfold socks_authenticate.
    rewrite (proj2 (orb_false_iff _ _)) by (split; lia).
    unfold write_all. cbn [write_error incoming outgoing read_end mbind outcome_bind].
    rewrite (read_exact_app [1; 0] rest) by done. simpl.
    do 2 f_equal. rewrite <- app_assoc. f_equal. unfold client_says, greeting, password_message.
    pose proof (zlen_nonneg (utf8 (default [] (user u)))).
    pose proof (zlen_nonneg (utf8 (default [] (password u)))).
    unfold u8. rewrite !Z.mod_small by lia. by destruct (user u).
  - unfold client_says, greeting. rewrite Hu. simpl. do 2 f_equal.
Qed.

Lemma reply_address_read addr bound :
  reply_address addr bound ->
  exists atyp body ip p,
    addr = atyp :: body ++ be_bytes 2 p /\ bound = sock ip p /\ 0 <= p <= u16_max /\
    forall rest out we re,
      reply_ip atyp (mkTcpStream (body ++ rest) out we re) = Done (ip, mkTcpStream rest out we re).
Proof.
  destruct 1 as [[o | o] p [Hl _] Hp | name p Hp].
  - exists ATYP_V4, o, (V4 o), p. do 3 (split; [done|]). intros. unfold reply_ip. simpl.
    rewrite read_exact_app; [done | unfold zlen; lia].
  - exists ATYP_V6, o, (V6 o), p. do 3 (split; [done|]). intros. unfold reply_ip. simpl.
    rewrite read_exact_app; [done | unfold zlen; lia].
  - exists ATYP_NAME, (zlen name :: name), (default UNSPECIFIED_V4 (parse_ip (from_utf8_lossy name))), p.
    do 3 (split; [done|]). intros. unfold reply_ip. simpl.
    rewrite (read_exact_app [zlen name] (name ++ rest)) by done. simpl.
    by rewrite read_exact_app.
Qed.

Lemma read_reply_accepted rsv addr bound rest out we re :
  reply_address addr bound ->
  read_reply (mkTcpStream ([VER; REP_OK; rsv] ++ addr ++ rest) out we re)
  = Done (bound, mkTcpStream rest out we re).
Proof.
  intros (atyp & body & ip & p & -> & -> & Hp & Hread)%reply_address_read.
  unfold read_reply.
  replace ((atyp :: body ++ be_bytes 2 p) ++ rest) with (atyp :: body ++ be_bytes 2 p ++ rest)
    by (by rewrite (app_assoc body)).
  rewrite (read_exact_app [VER; REP_OK; rsv; atyp] (body ++ be_bytes 2 p ++ rest)) by done.
  rewrite be_bytes_2. set (tail := [_; _] ++ rest).
  simpl. rewrite Hread. unfold tail. cbn [mbind outcome_bind].
  rewrite read_exact_app by done. simpl.
  rewrite be_u16_bytes; [done | unfold u16_max in Hp; lia].
Qed.

Lemma socks_connect_accepted u target method rsv addr bound rest out re :
  method_allowed u method -> reply_address addr bound ->
  socks_connect u target
    (mkTcpStream (server_accepts method ++ [VER; REP_OK; rsv] ++ addr ++ rest) out None re)
  = Done (bound, mkTcpStream rest (out ++ client_says u method ++ encode_request CMD_CONNECT target) None re).
Proof.
  intros Hm Ha. unfold socks_connect. rewrite socks_greet_accepted by done.
  unfold write_all. cbn [write_error incoming outgoing read_end mbind outcome_bind].
  rewrite <- app_assoc. by apply read_reply_accepted.
Qed.

(** ** The detour table: lemmas *)

(** What happens to the table: attempts to attach, and the end of a detour by
    its guard or its pump. *)
Inductive detour_event :=
| Attach (relay : aresult SocketAddr) (client : outcome IoErrorKind SocketAddr)
    (shim_address : IpAddr -> outcome IoErrorKind SocketAddr) (peer : SocketAddr)
| Close (client : SocketAddr) (n : Z).

Definition detour_step (st : detour_state) (e : detour_event) : detour_state :=
  match e with
  | Attach relay client shim_address peer =>
      match attach_detour_via relay client shim_address peer st with
      | Done (_, st') => st'
      | _ => st
      end
  | Close client n => guard_drop (Some (client, n)) st
  end.

Definition detours_after (trace : list detour_event) : detour_state :=
  fold_left detour_step trace no_detours.

(** The specification: a log of every detour ever opened, newest first, the
    n-th one numbered n, each open until it is closed under its own number. *)
Record log_entry := mkEntry {
  le_client : SocketAddr;
  le_detour : Detour;
  le_open : bool;
}.

(** Client and shim of an attempt that opens a detour. *)
Definition opens (relay : aresult SocketAddr) (client : outcome IoErrorKind SocketAddr)
    (shim_address : IpAddr -> outcome IoErrorKind SocketAddr) (peer : SocketAddr)
    : option (SocketAddr * SocketAddr) :=
  match is_private (sock_ip peer), relay, client with
  | false, Done _, Done c =>
      match shim_address (match sock_ip c with V4 _ => LOCALHOST_V4 | V6 _ => LOCALHOST_V6 end) with
      | Done s => Some (c, s)
      | _ => None
      end
  | _, _, _ => None
  end.

Definition close_entry (c : SocketAddr) (n : Z) (e : log_entry) : log_entry :=
  if bool_decide (le_client e = c) && (id (le_detour e) =? n)
  then mkEntry (le_client e) (le_detour e) false else e.

Definition log_step (log : list log_entry) (e : detour_event) : list log_entry :=
  match e with
  | Attach relay client shim_address peer =>
      match opens relay client shim_address peer with
      | Some (c, s) => mkEntry c (mkDetour (zlen log + 1) s peer) true :: log
      | None => log
      end
  | Close c n => map (close_entry c n) log
  end.

Definition detour_log (trace : list detour_event) : list log_entry := fold_left log_step trace [].

(** The newest detour of a client counts, if it is still open. *)
Fixpoint current (c : SocketAddr) (log : list log_entry) : option Detour :=
  match log with
  | [] => None
  | e :: log =>
      if decide (le_client e = c) then if le_open e then Some (le_detour e) else None
      else current c log
  end.

Definition table_matches (st : detour_state) (log : list log_entry) : Prop :=
  NEXT st = zlen log + 1 /\ forall c, DETOURS st !! c = current c log.

Lemma attach_opens relay client shim_address peer st :
  match opens relay client shim_address peer with
  | Some (c, s) =>
      attach_detour_via relay client shim_address peer st
      = Done (Some (c, NEXT st),
              mkDetours (u64 (NEXT st + 1)) (<[c := mkDetour (NEXT st) s peer]> (DETOURS st)))
  | None =>
      match attach_detour_via relay client shim_address peer st with Done (_, st') => st' = st | _ => True end
  end.
Proof.
  unfold opens, attach_detour_via. destruct (is_private _); [done|].
  destruct relay; try done. destruct client as [c| | |]; try done. simpl.
  by destruct (shim_address _).
Qed.

Lemma current_close c c0 n log :
  current c (map (close_entry c0 n) log)
  = match current c log with
    | Some d => if bool_decide (c = c0) && (id d =? n) then None else Some d
    | None => None
    end.
Proof.
  induction log as [|e log IH]; [done|]. cbn [map current].
  assert (Hc : le_client (close_entry c0 n e) = le_client e) by (unfold close_entry; by dest_if).
  rewrite Hc. destruct (decide (le_client e = c)) as [<- | _]; [|exact IH].
  unfold close_entry.
  destruct (bool_decide (le_client e = c0) && (id (le_detour e) =? n)) eqn:Hc0; simpl;
    destruct (le_open e); simpl; by rewrite ?Hc0.
Qed.

Lemma detour_step_matches st log e :
  table_matches st log -> zlen (log_step log e) < u64_max ->
  table_matches (detour_step st e) (log_step log e).
Proof.
  intros [Hn Hm] Hbound. destruct e as [relay client shim_address peer | c n].
  - pose proof (attach_opens relay client shim_address peer st) as Ha.
    cbn [detour_step log_step] in *.
    destruct (opens relay client shim_address peer) as [[c s]|].
    + rewrite Ha. rewrite zlen_cons in Hbound. pose proof (zlen_nonneg log). split; simpl.
      * rewrite Hn, zlen_cons. unfold u64, u64_max in *. rewrite Z.mod_small; lia.
      * intros c'. rewrite Hn. case_decide; [subst; by rewrite lookup_insert_eq|].
        by rewrite lookup_insert_ne.
    + destruct (attach_detour_via _ _ _ _ st) as [[g st']| | |]; simpl in *; try (subst; by split).
  - cbn [detour_step log_step guard_drop]. unfold forget_detour. split.
    + unfold zlen. rewrite length_map. destruct (DETOURS st !! c); [dest_if|]; done.
    + intros c'. rewrite current_close, <- !Hm.
      destruct (DETOURS st !! c) as [d|] eqn:Hd.
      * destruct (id d =? n) eqn:Hid; simpl.
        -- destruct (decide (c' = c)) as [->|Hne].
           ++ rewrite lookup_delete_eq, Hd. rewrite bool_decide_eq_true_2 by done. by rewrite Hid.
           ++ rewrite lookup_delete_ne by done. rewrite bool_decide_eq_false_2 by done.
              by destruct (DETOURS st !! c').
        -- destruct (DETOURS st !! c') as [d'|] eqn:Hd'; [|done].
           case_bool_decide; [|done]. subst. rewrite Hd in Hd'. injection Hd' as <-. by rewrite Hid.
      * destruct (DETOURS st !! c') as [d'|] eqn:Hd'; [|done].
        case_bool_decide; [|done]. subst. by rewrite Hd in Hd'.
Qed.

Lemma zlen_log_step log e : zlen log <= zlen (log_step log e).
Proof.
  destruct e as [relay client shim_address peer | c n]; cbn [log_step].
  - destruct (opens _ _ _ _) as [[]|]; rewrite ?zlen_cons; lia.
  - unfold zlen. rewrite length_map. lia.
Qed.

Lemma zlen_fold_log trace log : zlen log <= zlen (fold_left log_step trace log).
Proof.
  revert log. induction trace as [|e trace IH]; intros log; simpl; [lia|].
  pose proof (IH (log_step log e)). pose proof (zlen_log_step log e). lia.
Qed.

Lemma detours_match trace st log :
  table_matches st log -> zlen (fold_left log_step trace log) < u64_max ->
  table_matches (fold_left detour_step trace st) (fold_left log_step trace log).
Proof.
  revert st log. induction trace as [|e trace IH]; intros st log Hm Hb; [done|]. simpl in *.
  pose proof (zlen_fold_log trace (log_step log e)).
  apply IH; [|done]. apply detour_step_matches; [done | lia].
Qed.

Lemma close_entry_detour c n e : le_detour (close_entry c n e) = le_detour e.
Proof. unfold close_entry. by dest_if. Qed.

Definition log_ids (log : list log_entry) : list Z := map (fun e => id (le_detour e)) log.

Lemma log_ids_step log e :
  NoDup (log_ids log) /\ Forall (fun n => n <= zlen log) (log_ids log) ->
  NoDup (log_ids (log_step log e)) /\ Forall (fun n => n <= zlen (log_step log e)) (log_ids (log_step log e)).
Proof.
  intros [Hd Hf]. destruct e as [relay client shim_address peer | c n]; cbn [log_step].
  - destruct (opens _ _ _ _) as [[c s]|]; [|done]. unfold log_ids in *. cbn [map le_detour id].
    rewrite zlen_cons. split.
    + apply NoDup_cons. split; [|done]. intros Hin%list_elem_of_In.
      rewrite List.Forall_forall in Hf. specialize (Hf _ Hin). cbv beta in Hf. lia.
    + apply Forall_cons_2; [lia|]. eapply Forall_impl; [exact Hf|]. cbv beta. lia.
  - assert (Hids : log_ids (map (close_entry c n) log) = log_ids log).
    { unfold log_ids. rewrite map_map. apply map_ext. intros e. by rewrite close_entry_detour. }
    rewrite Hids. unfold zlen. by rewrite length_map.
Qed.

Lemma log_ids_unique trace : NoDup (log_ids (detour_log trace)).
Proof.
  enough (H : forall log, NoDup (log_ids log) /\ Forall (fun n => n <= zlen log) (log_ids log) ->
              NoDup (log_ids (fold_left log_step trace log))).
  { apply H. split; constructor. }
  induction trace as [|e trace IH]; intros log Hl; simpl; [apply Hl|]. apply IH, log_ids_step, Hl.
Qed.

(** ** The pump: lemmas *)

Definition relay_frame (e : emission) : option (list Z) :=
  match e with to_relay f => Some f | to_client _ _ => None end.

Definition forwarded (client peer : SocketAddr) (a : arrival) : option (list Z) :=
  match a with
  | at_shim d o => if from_detoured_socket client o then Some (relay_send (ztake 65535 d) peer) else None
  | _ => None
  end.

Definition arrival_ok (a : arrival) : Prop :=
  match a with at_shim d _ | at_relay d => bytes_ok d | io_failure _ => True end.

(** A datagram for the client is the payload of one the relay sent, and goes
    to an address the client was seen at. *)
Definition emission_ok (client : SocketAddr) (arrivals : list arrival) (reply_to : option SocketAddr)
    (e : emission) : Prop :=
  match e with
  | to_relay _ => True
  | to_client payload to =>
      from_detoured_socket client to = true /\
      (reply_to = Some to \/ exists d, In (at_shim d to) arrivals) /\
      exists d origin, In (at_relay d) arrivals /\ relay_recv 65535 d = Done (payload, origin)
  end.

Lemma emission_ok_cons client a arrivals reply_to reply_to' e :
  (reply_to' = reply_to \/ exists d to, a = at_shim d to /\ reply_to' = Some to) ->
  emission_ok client arrivals reply_to' e -> emission_ok client (a :: arrivals) reply_to e.
Proof.
  intros Hr. destruct e as [f | payload to]; [done|]. intros (Hf & Hto & d & o & Hd & Hrecv).
  split; [done|]. split; [|exists d, o; by split; [right|]].
  destruct Hto as [Hto | (d' & Hd')]; [|right; exists d'; by right].
  destruct Hr as [-> | (d' & to' & -> & Hr)]; [by left|].
  right. exists d'. left. congruence.
Qed.

Lemma pump_turn_spec client peer reply_to a :
  arrival_ok a -> (forall to, reply_to = Some to -> from_detoured_socket client to = true) ->
  wp (pump_turn client peer reply_to a)
    (fun '(reply_to', sent) =>
       (forall to, reply_to' = Some to -> from_detoured_socket client to = true) /\
       (reply_to' = reply_to \/ exists d to, a = at_shim d to /\ reply_to' = Some to) /\
       omap relay_frame sent = option_list (forwarded client peer a) /\
       forall rest, Forall (emission_ok client (a :: rest) reply_to) sent)
    (fun e => a = io_failure e).
Proof.
  intros Hok Hr. destruct a as [d o | d | e]; simpl; [| |done].
  - destruct (from_detoured_socket client o) eqn:Hf; simpl.
    + split; [by intros ? [= <-]|]. split; [right; by exists d, o|]. split; [done|].
      intros rest. by repeat constructor.
    + split; [done|]. split; [by left|]. split; [done|]. constructor.
  - pose proof (relay_recv_total 65535 d Hok ltac:(lia)) as Ht.
    destruct (relay_recv 65535 d) as [[payload origin] | e | |] eqn:Hd; simpl in Ht; try done.
    + destruct reply_to as [to|] eqn:Hto; simpl.
      * split; [done|]. split; [by left|]. split; [done|]. intros rest. constructor; [|constructor].
        split; [by apply Hr|]. split; [by left|]. exists d, origin. split; [by left | done].
      * split; [done|]. split; [by left|]. split; [done|]. constructor.
    + subst e. simpl. split; [done|]. split; [by left|]. split; [done|]. constructor.
Qed.

Lemma pump_spec client peer arrivals reply_to :
  Forall arrival_ok arrivals ->
  (forall to, reply_to = Some to -> from_detoured_socket client to = true) ->
  let '(out, stop) := pump client peer reply_to arrivals in
  Forall (emission_ok client arrivals reply_to) out /\
  match stop with
  | None => omap relay_frame out = omap (forwarded client peer) arrivals
  | Some r => exists e, r = Fail e /\ In (io_failure e) arrivals
  end.
Proof.
  revert reply_to. induction arrivals as [|a arrivals IH]; intros reply_to Hok Hr; simpl.
  { by split. }
  apply Forall_cons_iff in Hok as [Ha Hok].
  pose proof (pump_turn_spec client peer reply_to a Ha Hr) as Ht.
  destruct (pump_turn client peer reply_to a) as [[reply_to' sent] | e | |]; simpl in Ht; try done.
  - destruct Ht as (Hr' & Hnext & Hsent & Hall). specialize (IH reply_to' Hok Hr').
    destruct (pump client peer reply_to' arrivals) as [out stop]. destruct IH as [Hout Hstop]. split.
    + apply Forall_app. split; [apply Hall|]. eapply Forall_impl; [exact Hout|].
      intros em. by apply emission_ok_cons.
    + destruct stop as [r|].
      * destruct Hstop as (e & -> & He). exists e. by split; [|right].
      * rewrite omap_app, Hsent, Hstop. by destruct (forwarded client peer a).
  - split; [constructor|]. exists e. split; [done | by left].
Qed.

(** ** The proxy setting: lemmas *)

(** Percent-encoding, as a user writes a name or a password into the URL. *)
Definition hex_upper (d : Z) : Z := if d <? 10 then 48 + d else 55 + d.

Definition pct_byte (b : Z) : list Z :=
  if is_ascii_alphanumeric b then [b] else [37; hex_upper (b / 16); hex_upper (b `mod` 16)].

Definition pct (s : str) : str := flat_map pct_byte (utf8 s).

Definition all_bytes (P : Z -> bool) : bool := forallb P (seqZ 0 256).

Lemma all_bytes_spec P b : all_bytes P = true -> byte_ok b -> P b = true.
Proof.
  intros HP Hb. unfold all_bytes in HP. rewrite forallb_forall in HP. apply HP.
  apply list_elem_of_In, elem_of_seqZ. unfold byte_ok in Hb. lia.
Qed.

Definition hex_pair_ok (b : Z) : bool :=
  bool_decide (from_utf8 [hex_upper (b / 16); hex_upper (b `mod` 16)]
               = Some [hex_upper (b / 16); hex_upper (b `mod` 16)]) &&
  bool_decide (from_str_radix 16 u8_max [hex_upper (b / 16); hex_upper (b `mod` 16)] = Some b).

Lemma hex_pair b :
  byte_ok b ->
  from_utf8 [hex_upper (b / 16); hex_upper (b `mod` 16)]
    = Some [hex_upper (b / 16); hex_upper (b `mod` 16)] /\
  from_str_radix 16 u8_max [hex_upper (b / 16); hex_upper (b `mod` 16)] = Some b.
Proof.
  intros Hb. assert (H : hex_pair_ok b = true) by (apply all_bytes_spec; [by vm_compute | done]).
  apply andb_prop in H as [H1 H2]. apply bool_decide_eq_true in H1, H2. done.
Qed.

Definition pct_char (c : Z) : bool := (c =? 37) || is_ascii_alphanumeric c.

Lemma pct_byte_chars b : byte_ok b -> Forall (fun c => pct_char c = true) (pct_byte b).
Proof.
  intros Hb. apply Forall_forall. intros c Hc.
  assert (H : forallb pct_char (pct_byte b) = true)
    by (apply (all_bytes_spec (fun b => forallb pct_char (pct_byte b))); [by vm_compute | done]).
  rewrite forallb_forall in H. apply H. by apply list_elem_of_In.
Qed.

Lemma pct_chars s : Forall is_scalar s -> Forall (fun c => pct_char c = true) (pct s).
Proof.
  intros Hs%utf8_ok. unfold pct. induction Hs as [|b l Hb _ IH]; [constructor|].
  cbn [flat_map]. apply Forall_app. split; [by apply pct_byte_chars | exact IH].
Qed.

Lemma percent_loop_pct l fuel :
  bytes_ok l -> (length (flat_map pct_byte l) <= fuel)%nat ->
  percent_loop fuel (flat_map pct_byte l) = l.
Proof.
  intros Hl. revert fuel. induction Hl as [|b l Hb _ IH]; intros fuel Hf; [by destruct fuel|].
  cbn [flat_map] in *. set (r := flat_map pct_byte l) in *. rewrite length_app in Hf.
  destruct fuel as [|fuel]; [unfold pct_byte in Hf; destruct (is_ascii_alphanumeric b); simpl in Hf; lia|].
  unfold pct_byte in *. destruct (is_ascii_alphanumeric b) eqn:Ha; simpl in Hf; cbn [app percent_loop].
  - destruct (b =? 37) eqn:H37; [apply Z.eqb_eq in H37; subst b; by vm_compute in Ha|].
    cbn [andb]. f_equal. apply IH. lia.
  - destruct (hex_pair b Hb) as [Hutf Hhex]. set (h := hex_upper (b / 16)) in *.
    set (k := hex_upper (b `mod` 16)) in *.
    rewrite (proj2 (Z.leb_le 2 _)) by (rewrite !zlen_cons; pose proof (zlen_nonneg r); lia).
    change (ztake 2 (h :: k :: r)) with [h; k]. change (zdrop 2 (h :: k :: r)) with r.
    rewrite Hutf. unfold default, Datatypes.id. rewrite Hhex.
    f_equal. apply IH. lia.
Qed.

Lemma percent_decode_pct s : Forall is_scalar s -> percent_decode (pct s) = s.
Proof.
  intros Hs. unfold percent_decode. rewrite (utf8_ascii (pct s)).
  - unfold pct. rewrite percent_loop_pct by (done || by apply utf8_ok).
    by apply from_utf8_lossy_utf8.
  - eapply Forall_impl; [by apply pct_chars|]. intros c Hc. cbv beta in Hc.
    unfold pct_char, is_ascii_alphanumeric, is_ascii_digit, is_ascii_upper, is_ascii_lower in Hc. lia.
Qed.

(** A host the URL form can carry: brackets are for hosts with a colon. *)
Definition host_ok (h : str) : Prop :=
  h <> [] /\ (64 ∉ h) /\ (93 ∉ h) /\ (58 ∈ h \/ forall r, h <> 91 :: r).

Definition setting_ok (u : Upstream) : Prop :=
  host_ok (host u) /\ 1 <= port u <= u16_max /\
  Forall is_scalar (default [] (user u)) /\ Forall is_scalar (default [] (password u)) /\
  (user u = None -> password u = None).

Definition credentials_text (u : Upstream) : str :=
  match user u, password u with
  | Some name, Some secret => pct name ++ lit ":" ++ pct secret ++ lit "@"
  | Some name, None => pct name ++ lit "@"
  | None, _ => []
  end.

Definition bracketed (h : str) : str := if contains_char h 58 then lit "[" ++ h ++ lit "]" else h.

Definition scheme_of (k : Kind) : str := match k with Socks5 => lit "socks5h" | Http => lit "http" end.

(** The setting that stands for [u]. *)
Definition setting_text (u : Upstream) : str :=
  scheme_of (kind u) ++ lit "://" ++ credentials_text u ++ bracketed (host u) ++ lit ":" ++ show_uint (port u).

Lemma bracketed_no_at h : 64 ∉ h -> 64 ∉ bracketed h.
Proof. intros Hh. unfold bracketed. dest_if; [|done].
  rewrite !not_elem_of_app. split; [closed_notin|]. split; [done | closed_notin].
Qed.

Lemma setting_trimmed u : 0 <= port u -> trim (setting_text u) = setting_text u.
Proof.
  intros Hp. unfold trim. rewrite trim_start_id.
  - unfold setting_text. rewrite !app_assoc. apply ends_in_number; [done | apply digit_not_space].
  - unfold setting_text. by destruct (kind u).
Qed.

Lemma split_endpoint_text h p :
  host_ok h -> 1 <= p <= u16_max -> split_endpoint (bracketed h ++ lit ":" ++ show_uint p) = Done (h, p).
Proof.
  intros (Hne & _ & Hclose & Hopen) Hp.
  assert (Hparse : parse_uint u16_max (show_uint p) = Some p)
    by (apply parse_show_uint; [lia | by vm_compute]).
  assert (Hlen : (zlen h =? 0) = false).
  { apply Z.eqb_neq. intros ?%zlen_zero_inv. done. }
  assert (Hp0 : (p =? 0) = false) by lia.
  unfold split_endpoint, bracketed. destruct (contains_char h 58) eqn:Hc.
  - assert (Hs : strip_prefix ((lit "[" ++ h ++ lit "]") ++ lit ":" ++ show_uint p) (lit "[")
                 = Some (h ++ 93 :: lit ":" ++ show_uint p)).
    { change ((lit "[" ++ h ++ lit "]") ++ lit ":" ++ show_uint p)
        with (91 :: (h ++ lit "]") ++ lit ":" ++ show_uint p).
      rewrite <- app_assoc. apply strip_prefix_one. }
    rewrite Hs, split_once_at by done. cbn [ok_or mbind outcome_bind].
    assert (Hs' : strip_prefix (lit ":" ++ show_uint p) (lit ":") = Some (show_uint p))
      by apply strip_prefix_one.
    rewrite Hs'. cbn [ok_or mbind outcome_bind]. rewrite Hparse. cbn [ok_or mbind outcome_bind].
    by rewrite Hlen, Hp0.
  - assert (Hs : strip_prefix (h ++ lit ":" ++ show_uint p) (lit "[") = None).
    { destruct h as [|c r]; [done|]. unfold strip_prefix. change (lit "[") with [91]. cbn [app starts_with].
      destruct (Z.eqb_spec 91 c) as [<-|]; [|done]. destruct Hopen as [Hin | Hno].
      - by apply contains_char_spec in Hin; rewrite Hin in Hc.
      - by specialize (Hno r). }
    rewrite Hs. change (lit ":" ++ show_uint p) with (58 :: show_uint p).
    rewrite rsplit_once_at by (apply not_in_digits; lia). cbn [ok_or mbind outcome_bind].
    rewrite Hparse. cbn [ok_or mbind outcome_bind]. by rewrite Hlen, Hp0.
Qed.

Lemma pct_no_char s c : Forall is_scalar s -> pct_char c = false -> c ∉ pct s.
Proof.
  intros Hs%pct_chars Hc Hin. rewrite Forall_forall in Hs. specialize (Hs c Hin). congruence.
Qed.

Lemma credentials_split u rest :
  setting_ok u -> 64 ∉ rest ->
  exists creds, split_credentials (credentials_text u ++ rest) = (creds, rest) /\
                decode_credentials creds = (user u, password u).
Proof.
  intros (_ & _ & Hu & Hp & Hnone) Hrest. unfold split_credentials, credentials_text.
  destruct (user u) as [name|]; [destruct (password u) as [secret|]|]; cbn [default] in Hu, Hp.
  - exists (Some (pct name ++ 58 :: pct secret)). split.
    + replace ((pct name ++ lit ":" ++ pct secret ++ lit "@") ++ rest)
        with ((pct name ++ 58 :: pct secret) ++ 64 :: rest) by (by rewrite <- !app_assoc).
      by rewrite rsplit_once_at.
    + cbn [decode_credentials]. rewrite split_once_at by (by apply pct_no_char).
      by rewrite !percent_decode_pct.
  - exists (Some (pct name)). split.
    + rewrite <- app_assoc. change (lit "@" ++ rest) with (64 :: rest). by rewrite rsplit_once_at.
    + cbn [decode_credentials]. rewrite split_once_none by (by apply pct_no_char).
      by rewrite percent_decode_pct.
  - exists None. cbn [app]. rewrite rsplit_once_none by done. by rewrite (Hnone eq_refl).
Qed.

Lemma parse_setting_text `{UnicodeData} u : setting_ok u -> upstream_parse (setting_text u) = Done u.
Proof.
  intros Hok. pose proof Hok as (Hh & Hp & _). pose proof Hh as (_ & Hat & _).
  unfold upstream_parse. rewrite setting_trimmed by lia. unfold setting_text.
  rewrite split_once_str_at by (destruct (kind u); closed_notin).
  rewrite to_lowercase_ascii by (destruct (kind u); repeat constructor; lia).
  assert (Hk : kind_of_scheme (to_ascii_lowercase (scheme_of (kind u))) = Some (kind u))
    by (by destruct (kind u)).
  rewrite Hk. cbn [ok_or mbind outcome_bind].
  destruct (credentials_split u (bracketed (host u) ++ lit ":" ++ show_uint (port u)) Hok) as (creds & Hs & Hd).
  { rewrite !not_elem_of_app. split; [by apply bracketed_no_at|]. split; [closed_notin|].
    apply not_in_digits; lia. }
  rewrite Hs.
  assert (Hhttps : str_eqb (to_ascii_lowercase (scheme_of (kind u))) (lit "https") = false)
    by (by destruct (kind u)).
  rewrite Hhttps. cbn [andb]. unfold trim_end_matches. rewrite (app_assoc (bracketed _)).
  rewrite ends_in_number by lia. rewrite <- app_assoc, split_endpoint_text by done.
  cbn [mbind outcome_bind]. rewrite Hd. by destruct u.
Qed.

Lemma wp_split_endpoint e :
  wp (split_endpoint e) (fun '(h, p) => h <> [] /\ 1 <= p <= u16_max) (fun _ => True).
Proof.
  assert (Hdone : forall (h : str) p (m : AetherError),
    0 <= p <= u16_max ->
    wp (if (zlen h =? 0) || (p =? 0) then Fail m else Done (h, p))
       (fun '(h, p) => h <> [] /\ 1 <= p <= u16_max) (fun _ => True)).
  { intros h p m Hp. destruct h as [|c h]; [done|]. dest_if; [done|]. simpl. split; [done | bool_lia]. }
  unfold split_endpoint. destruct (strip_prefix e (lit "[")) as [rest|].
  - apply wp_bind, wp_ok_or; [|done]. intros [h tail] _.
    apply wp_bind, wp_ok_or; [|done]. intros text _.
    apply wp_bind, wp_ok_or; [|done]. intros p Hp%from_str_radix_range; [|done..]. by apply Hdone.
  - apply wp_bind, wp_ok_or; [|done]. intros [h text] _.
    apply wp_bind, wp_ok_or; [|done]. intros p Hp%from_str_radix_range; [|done..]. by apply Hdone.
Qed.

Definition parsed_ok (raw : str) (u : Upstream) : Prop :=
  host u <> [] /\ 1 <= port u <= u16_max /\ (user u = None -> password u = None) /\
  forall rest, trim raw = lit "https://" ++ rest -> kind u = Http /\ user u = None.

Lemma wp_upstream_parse `{UnicodeData} raw : wp (upstream_parse raw) (parsed_ok raw) (fun _ => True).
Proof.
  unfold upstream_parse.
  destruct (match split_once_str (lit "://") (trim raw) with
            | Some (scheme, rest) => (to_lowercase scheme, rest)
            | None => (lit "socks5", trim raw)
            end) as [scheme rest] eqn:Hsplit.
  assert (Hhttps : forall r, trim raw = lit "https://" ++ r -> scheme = lit "https").
  { intros r Hr. rewrite Hr in Hsplit.
    change (lit "https://" ++ r) with (lit "https" ++ lit "://" ++ r) in Hsplit.
    rewrite split_once_str_at in Hsplit by closed_notin. injection Hsplit as <- _.
    rewrite to_lowercase_ascii by (repeat constructor; lia). done. }
  apply wp_bind, wp_ok_or; [|done]. intros k Hk.
  destruct (split_credentials rest) as [creds endpoint].
  destruct (str_eqb scheme (lit "https") && bool_decide (is_Some creds)) eqn:Hrefuse; [done|].
  apply wp_bind. eapply wp_mono; [apply wp_split_endpoint| |done].
  intros [h p] [Hh Hp]. destruct (decode_credentials creds) as [name secret] eqn:Hd. simpl.
  split; [done|]. split; [done|]. simpl. split.
  - intros ->. unfold decode_credentials in Hd. destruct creds as [c|]; [|by injection Hd].
    by destruct (split_once 58 c) as [[]|].
  - intros r Hr. rewrite (Hhttps r Hr) in Hk, Hrefuse. rewrite str_eqb_refl in Hrefuse.
    destruct creds; [done|]. injection Hd as <- <-. by injection Hk as <-.
Qed.

(** ** Properties *)

(** C33: a proxy setting reads back as it was meant: the URL with any user name
    and password percent-encoded into it parses to exactly that proxy, the URL
    the API client is given names the same host and port without the
    credentials, and the environment setting yields it; whatever parses has a
    host and a port that is not zero, and an https:// setting with
    credentials never does. *)
Theorem upstream_parse_roundtrip `{UnicodeData} (u : Upstream) (env : environment) (raw : str) :
  setting_ok u ->
  upstream_parse (setting_text u) = Done u /\
  upstream_parse (url u) = Done (mkUpstream (kind u) (host u) (port u) None None) /\
  (env (lit "AETHER_UPSTREAM") = Some (setting_text u) -> upstream_from_env env = Some u) /\
  wp (upstream_parse raw) (parsed_ok raw) (fun _ => True).
Proof.
  intros Hok. split; [by apply parse_setting_text|]. split; [|split].
  - apply (parse_setting_text (mkUpstream (kind u) (host u) (port u) None None)).
    destruct Hok as (Hh & Hp & _). split; [done|]. split; [done|]. simpl.
    split; [constructor|]. split; [constructor | done].
  - intros Henv. unfold upstream_from_env. rewrite Henv. simpl.
    rewrite setting_trimmed by (destruct Hok as (_ & Hp & _); lia).
    rewrite parse_setting_text by done. unfold setting_text. by destruct (kind u).
  - apply wp_upstream_parse.
Qed.

Definition sample_proxy : Upstream :=
  mkUpstream Socks5 (lit "::1") 1080 (Some (lit "al ice")) (Some (lit "p@ss:%")).

Lemma upstream_parse_roundtrip_witness :
  setting_text sample_proxy = lit "socks5h://al%20ice:p%40ss%3A%25@[::1]:1080" /\
  @upstream_parse ascii_only (setting_text sample_proxy) = Done sample_proxy.
Proof.
  split; [by vm_compute|].
  refine (proj1 (@upstream_parse_roundtrip ascii_only sample_proxy (fun _ => None) [] _)).
  split; [|split; [by vm_compute|split; [|split; [|done]]]].
  - split; [done|]. split; [closed_notin|]. split; [closed_notin|]. left.
    exact (bool_decide_unpack (58 ∈ lit "::1") I).
  - by apply ascii_scalars; vm_compute.
  - by apply ascii_scalars; vm_compute.
Defined.

(** A datagram sent to a target through the relay and read back from it
    carries that target and the payload, cut at the room of the reader's
    buffer; a header cut short anywhere is refused; and no datagram whatever
    can make the reader panic or overrun the buffer. *)
Lemma udp_relay_roundtrip (target : SocketAddr) (payload : list Z) (room : Z) :
  sock_ok target -> 0 <= room ->
  relay_recv room (relay_send payload target)
    = Done (ztake room payload, sock (sock_ip target) (sock_port target)) /\
  (forall cut, 0 <= cut < zlen (encode_udp_header target) ->
     decode_udp_header (ztake cut (encode_udp_header target)) = Fail tt) /\
  (forall datagram, bytes_ok datagram ->
     wp (relay_recv room datagram) (fun '(p, _) => zlen p <= room) (fun e => e = InvalidData)).
Proof.
  intros Hok Hroom. split; [by apply relay_recv_sent|]. split.
  - intros cut. by apply decode_truncated_header.
  - intros d Hd. by apply relay_recv_total.
Qed.

Definition sample_target : SocketAddr := SockV4 [162; 159; 192; 1] 2408.

Lemma sample_target_ok : sock_ok sample_target.
Proof. split; [|by vm_compute]. split; [done|]. repeat constructor; unfold byte_ok; lia. Qed.

Lemma udp_relay_roundtrip_witness :
  relay_recv 4 (relay_send [112; 105; 110; 103; 33] sample_target)
  = Done ([112; 105; 110; 103], sample_target).
Proof.
  apply (udp_relay_roundtrip sample_target [112; 105; 110; 103; 33] 4); [apply sample_target_ok | lia].
Defined.

(** C34: [connect] neither panics nor hangs on anything the proxy sends.  When
    it succeeds, exactly one handshake of the proxy's kind was exchanged: with
    SOCKS5 credentials configured the proxy asked for and accepted them; an
    HTTP proxy answered a 2xx head of at most 8193 bytes, and nothing past it
    was consumed.  A SOCKS5 proxy that answers by the protocol is always
    accepted, its reply address is what is read, and what follows is left on
    the stream. *)
Theorem upstream_connect_spec (base64 : list Z -> str) (u : Upstream) (target : SocketAddr) (t : tcp) :
  bytes_ok (incoming t) ->
  wp (connect base64 u target t) (connected base64 u target t) (fun _ => True) /\
  (forall method rsv addr bound rest out re,
     method_allowed u method -> reply_address addr bound ->
     socks_connect u target
       (mkTcpStream (server_accepts method ++ [VER; REP_OK; rsv] ++ addr ++ rest) out None re)
     = Done (bound, mkTcpStream rest
               (out ++ client_says u method ++ encode_request CMD_CONNECT target) None re)).
Proof.
  intros Hb. split; [by apply wp_connect|]. intros. by apply socks_connect_accepted.
Qed.

Lemma upstream_connect_spec_witness :
  socks_connect sample_proxy sample_target
    (mkTcpStream [5; 2; 1; 0; 5; 0; 0; 1; 127; 0; 0; 1; 0; 80; 42] [] None None)
  = Done (SockV4 [127; 0; 0; 1] 80,
          mkTcpStream [42] (client_says sample_proxy 2 ++ encode_request CMD_CONNECT sample_target) None None).
Proof.
  apply (proj2 (upstream_connect_spec (fun b => b) sample_proxy sample_target
                  (mkTcpStream [] [] None None) bytes_ok_nil)
           AUTH_USERPASS 0 [1; 127; 0; 0; 1; 0; 80] (SockV4 [127; 0; 0; 1] 80) [42] [] None).
  - left. split; [done|]. by split; vm_compute.
  - apply (reply_fixed (V4 [127; 0; 0; 1]) 80); [|by vm_compute].
    split; [done|]. repeat constructor; unfold byte_ok; lia.
Defined.

(** C35: the detour table follows its history: whatever attempts and closures
    came in whatever order, a socket is redirected to the shim of its newest
    detour while that one is open, the shim's answers are given the peer's
    address, and every other address passes unchanged.  A guard that outlives
    its detour closes only the detour it was issued for. *)
Theorem detours_follow_log (trace : list detour_event) (local addr : SocketAddr) :
  zlen (detour_log trace) < u64_max ->
  NoDup (log_ids (detour_log trace)) /\
  relay_target (detours_after trace) local addr
    = match current local (detour_log trace) with Some d => shim d | None => addr end /\
  real_source (detours_after trace) local addr
    = match current local (detour_log trace) with
      | Some d => if decide (shim d = addr) then peer d else addr
      | None => addr
      end.
Proof.
  intros Hb. destruct (detours_match trace no_detours []) as [_ Hm]; [by split | done|].
  split; [apply log_ids_unique|]. unfold relay_target, real_source, detours_after. by rewrite !Hm.
Qed.

(** Two detours of one socket; the guard of the first is dropped last. *)
Definition sample_detours : list detour_event :=
  let attach shim := Attach (Done sample_target) (Done (SockV4 [0; 0; 0; 0] 5000))
                       (fun _ => Done (SockV4 [127; 0; 0; 1] shim)) sample_target in
  [attach 6001; attach 6002; Close (SockV4 [0; 0; 0; 0] 5000) 1].

Lemma detours_follow_log_witness :
  zlen (detour_log sample_detours) < u64_max /\
  relay_target (detours_after sample_detours) (SockV4 [0; 0; 0; 0] 5000) sample_target
  = SockV4 [127; 0; 0; 1] 6002.
Proof.
  split; [by vm_compute|].
  rewrite (proj1 (proj2 (detours_follow_log sample_detours (SockV4 [0; 0; 0; 0] 5000) sample_target
                           ltac:(by vm_compute)))).
  by vm_compute.
Defined.

(** The pump forwards to the relay every datagram of the detoured socket
    and of no other, each once, in order, framed for the peer; it answers only
    addresses the detoured socket was seen at, with payloads the relay sent;
    a malformed datagram is skipped and only an I/O error ends it. *)
Lemma pump_confined (client peer : SocketAddr) (arrivals : list arrival) :
  Forall arrival_ok arrivals ->
  let '(out, stop) := pump client peer None arrivals in
  Forall (emission_ok client arrivals None) out /\
  match stop with
  | None => omap relay_frame out = omap (forwarded client peer) arrivals
  | Some r => exists e, r = Fail e /\ In (io_failure e) arrivals
  end.
Proof. intros Hok. by apply pump_spec. Qed.

Lemma pump_confined_witness :
  Forall (emission_ok (SockV4 [0; 0; 0; 0] 5000)
            [at_shim [7] (SockV4 [127; 0; 0; 1] 5000); at_shim [8] (SockV4 [10; 0; 0; 1] 5000)] None)
    [to_relay (relay_send [7] sample_target)] /\
  [relay_send [7] sample_target]
  = omap (forwarded (SockV4 [0; 0; 0; 0] 5000) sample_target)
      [at_shim [7] (SockV4 [127; 0; 0; 1] 5000); at_shim [8] (SockV4 [10; 0; 0; 1] 5000)].
Proof.
  exact (pump_confined (SockV4 [0; 0; 0; 0] 5000) sample_target
           [at_shim [7] (SockV4 [127; 0; 0; 1] 5000); at_shim [8] (SockV4 [10; 0; 0; 1] 5000)]
           ltac:(repeat constructor; unfold byte_ok; lia)).
Defined.

(** A plus sign passes for the first hex digit of an escape. *)
Example plus_is_a_hex_digit : percent_decode (lit "a%+fb") = [97; 15; 98].
Proof. by vm_compute. Qed.
