(* ===== verification/SocksWire.v ===== *)
(** * The SOCKS5 wire format of the listener (src/native/aether/aether/src/socks.rs)

    What a local client sends to the engine's SOCKS5 listener and what it is
    answered: greeting, request, reply, and the UDP encapsulation. *)

From stdpp Require Import base list option.
From Stdlib Require Import ZArith Lia.
From S2P Require Import Prelude RustStr Net Error Streams Routing.

Definition VER : Z := 5.
Definition CMD_CONNECT : Z := 1.
Definition CMD_UDP_ASSOCIATE : Z := 3.
Definition ATYP_V4 : Z := 1.
Definition ATYP_DOMAIN : Z := 3.
Definition ATYP_V6 : Z := 4.
Definition REP_OK : Z := 0.
Definition REP_GENERAL : Z := 1.
Definition REP_NOT_ALLOWED : Z := 2.
Definition REP_NOT_SUPPORTED : Z := 7.

(** [Target::Ip] and [Target::Domain] *)
Inductive Target :=
| TIp (ip : IpAddr)
| TDomain (name : str).

#[global] Instance Target_eq_dec : EqDecision Target.
Proof. solve_decision. Defined.

Definition show_target (t : Target) : str :=
  match t with TIp ip => show_ip ip | TDomain name => name end.

Definition host_of (target : Target) : Host :=
  match target with TDomain name => Domain name | TIp ip => Ip ip end.

(** ** Requests *)

Definition handshake (sock : tcp) : aresult tcp :=
  '(prefix, sock) ← read_exact sock 2;
  p0 ← idx prefix 0;
  if negb (p0 =? VER) then Fail (Other (lit "bad greeting version"))
  else
    nmethods ← idx prefix 1;
    '(_, sock) ← read_exact sock nmethods;
    write_all sock [VER; 0].

Definition target_body (sock : tcp) (atyp : Z) : aresult (Target * tcp) :=
  if atyp =? ATYP_V4 then '(b, sock) ← read_exact sock 4; Done (TIp (V4 b), sock)
  else if atyp =? ATYP_V6 then '(b, sock) ← read_exact sock 16; Done (TIp (V6 b), sock)
  else if atyp =? ATYP_DOMAIN then
    '(len, sock) ← read_exact sock 1;
    n ← idx len 0;
    '(name, sock) ← read_exact sock n;
    Done (TDomain (from_utf8_lossy name), sock)
  else Fail (Other (lit "bad atyp")).

Definition read_target (sock : tcp) (atyp : Z) : aresult (Target * Z * tcp) :=
  '(target, sock) ← target_body sock atyp;
  '(port, sock) ← read_exact sock 2;
  a ← idx port 0;
  b ← idx port 1;
  Done (target, be_u16 a b, sock).

Definition read_request (sock : tcp) : aresult (Z * Target * Z * tcp) :=
  sock ← handshake sock;
  '(head, sock) ← read_exact sock 4;
  h0 ← idx head 0;
  if negb (h0 =? VER) then Fail (Other (lit "bad socks version"))
  else
    atyp ← idx head 3;
    '(target, port, sock) ← read_target sock atyp;
    cmd ← idx head 1;
    Done (cmd, target, port, sock).

(** ** Replies *)

Definition reply_bytes (code : Z) : list Z := [VER; code; 0; ATYP_V4; 0; 0; 0; 0; 0; 0].

Definition reply (sock : tcp) (code : Z) : aresult tcp := write_all sock (reply_bytes code).

Definition reply_bound_bytes (bound : SocketAddr) : list Z :=
  [VER; REP_OK; 0] ++
  (match sock_ip bound with V4 o => ATYP_V4 :: o | V6 o => ATYP_V6 :: o end) ++
  be_bytes 2 (sock_port bound).

Definition reply_bound (sock : tcp) (bound : SocketAddr) : aresult tcp :=
  write_all sock (reply_bound_bytes bound).

(** ** Datagrams *)

(** The target of a datagram and the position of its port. *)
Definition udp_target (buf : list Z) : opt (Target * Z) :=
  atyp ← idx buf 3;
  if atyp =? ATYP_V4 then
    if zlen buf <? 8 then no_value
    else o ← slice buf 4 8; Done (TIp (V4 o), 8)
  else if atyp =? ATYP_V6 then
    if zlen buf <? 20 then no_value
    else o ← slice buf 4 20; Done (TIp (V6 o), 20)
  else if atyp =? ATYP_DOMAIN then
    len ← oget (zget buf 4);
    if zlen buf <? 5 + len then no_value
    else raw ← slice buf 5 (5 + len); Done (TDomain (from_utf8_lossy raw), 5 + len)
  else no_value.

Definition parse_udp_request (buf : list Z) : opt (Target * (Z * list Z)) :=
  if zlen buf <? 4 then no_value
  else
    frag ← idx buf 2;
    if negb (frag =? 0) then no_value
    else
      '(target, pos) ← udp_target buf;
      if zlen buf <? pos + 2 then no_value
      else
        a ← idx buf pos;
        b ← idx buf (pos + 1);
        data ← slice buf (pos + 2) (zlen buf);
        Done (target, (be_u16 a b, data)).

Definition build_udp_reply (src : SocketAddr) (data : list Z) : list Z :=
  [0; 0; 0] ++
  (match sock_ip src with V4 o => ATYP_V4 :: o | V6 o => ATYP_V6 :: o end) ++
  be_bytes 2 (sock_port src) ++ data.

(** ** Facts *)

Lemma idx_known {E A} (l : list A) i x : zget l i = Some x -> @idx E A l i = Done x.
Proof. unfold idx. by intros ->. Qed.

(** How a client writes a target. *)
Definition target_bytes (t : Target) (raw : list Z) : list Z :=
  match t with
  | TIp (V4 o) => ATYP_V4 :: o
  | TIp (V6 o) => ATYP_V6 :: o
  | TDomain _ => ATYP_DOMAIN :: zlen raw :: raw
  end.

(** [raw] is what the client spelled the name with. *)
Definition target_spelled (t : Target) (raw : list Z) : Prop :=
  match t with TIp ip => ip_ok ip | TDomain name => bytes_ok raw /\ zlen raw <= 255 /\ name = from_utf8_lossy raw end.

Lemma read_target_bytes t raw port rest out we re :
  target_spelled t raw -> 0 <= port <= u16_max ->
  exists atyp body, target_bytes t raw = atyp :: body /\
    read_target (mkTcpStream (body ++ be_bytes 2 port ++ rest) out we re) atyp
    = Done (t, port, mkTcpStream rest out we re).
Proof.
  intros Ht Hp. unfold read_target.
  assert (Hport : forall (t : Target) (sock : tcp), sock = mkTcpStream (be_bytes 2 port ++ rest) out we re ->
    ('(port, sock) ← read_exact sock 2; a ← idx port 0; b ← idx port 1; Done (t, be_u16 a b, sock))
    = @Done AetherError _ (t, port, mkTcpStream rest out we re)).
  { intros t' sock ->. rewrite be_bytes_2, read_exact_app by done. cbn [mbind outcome_bind]. simpl.
    rewrite be_u16_bytes; [done | unfold u16_max in Hp; lia]. }
  destruct t as [[o|o]|name]; cbn [target_bytes target_spelled] in *.
  - destruct Ht as [Hl _]. exists ATYP_V4, o. split; [done|]. unfold target_body. simpl.
    rewrite (read_exact_app o) by (unfold zlen; lia). cbn [mbind outcome_bind]. by apply Hport.
  - destruct Ht as [Hl _]. exists ATYP_V6, o. split; [done|]. unfold target_body. simpl.
    rewrite (read_exact_app o) by (unfold zlen; lia). cbn [mbind outcome_bind]. by apply Hport.
  - destruct Ht as (_ & _ & ->). exists ATYP_DOMAIN, (zlen raw :: raw). split; [done|]. unfold target_body.
    change (ATYP_DOMAIN =? ATYP_V4) with false. change (ATYP_DOMAIN =? ATYP_V6) with false.
    change (ATYP_DOMAIN =? ATYP_DOMAIN) with true. cbv iota.
    change ((zlen raw :: raw) ++ be_bytes 2 port ++ rest) with ([zlen raw] ++ raw ++ be_bytes 2 port ++ rest).
    rewrite (read_exact_app [zlen raw]) by done. cbn [mbind outcome_bind]. 
    change (@idx AetherError Z [zlen raw] 0) with (@Done AetherError Z (zlen raw)). cbn [mbind outcome_bind].
    rewrite (read_exact_app raw) by done. cbn [mbind outcome_bind]. by apply Hport.
Qed.

(** A request as a client writes it: greeting, then command and target. *)
Definition request_bytes (methods : list Z) (cmd rsv : Z) (t : Target) (raw : list Z) (port : Z) : list Z :=
  [VER; zlen methods] ++ methods ++ [VER; cmd; rsv] ++ target_bytes t raw ++ be_bytes 2 port.

Lemma read_request_bytes methods cmd rsv t raw port rest out re :
  target_spelled t raw -> 0 <= port <= u16_max ->
  read_request (mkTcpStream (request_bytes methods cmd rsv t raw port ++ rest) out None re)
  = Done (cmd, t, port, mkTcpStream rest (out ++ [VER; 0]) None re).
Proof.
  intros Ht Hp. unfold read_request, handshake, request_bytes.
  replace (([VER; zlen methods] ++ methods ++ [VER; cmd; rsv] ++ target_bytes t raw ++ be_bytes 2 port) ++ rest)
    with ([VER; zlen methods] ++ methods ++ [VER; cmd; rsv] ++ target_bytes t raw ++ be_bytes 2 port ++ rest)
    by (by rewrite <- !app_assoc).
  rewrite (read_exact_app [VER; zlen methods]) by done. cbn [mbind outcome_bind].
  change (@idx AetherError Z [VER; zlen methods] 0) with (@Done AetherError Z VER). cbn [mbind outcome_bind].
  change (negb (VER =? VER)) with false. cbv iota.
  change (@idx AetherError Z [VER; zlen methods] 1) with (@Done AetherError Z (zlen methods)).
  cbn [mbind outcome_bind]. rewrite (read_exact_app methods) by done. cbn [mbind outcome_bind].
  unfold write_all. cbn [write_error incoming outgoing read_end mbind outcome_bind].
  destruct (read_target_bytes t raw port rest (out ++ [VER; 0]) None re Ht Hp) as (atyp & body & -> & Hr).
  change ([VER; cmd; rsv] ++ (atyp :: body) ++ be_bytes 2 port ++ rest)
    with ([VER; cmd; rsv; atyp] ++ body ++ be_bytes 2 port ++ rest).
  rewrite (read_exact_app [VER; cmd; rsv; atyp]) by done. cbn [mbind outcome_bind].
  rewrite !(idx_known _ 0 VER), !(idx_known _ 3 atyp), !(idx_known _ 1 cmd) by done.
  cbn [mbind outcome_bind]. change (negb (VER =? VER)) with false. cbv iota.
  rewrite Hr. done.
Qed.

(** ** Totality *)

Lemma wp_handshake sock :
  bytes_ok (incoming sock) ->
  wp (handshake sock)
    (fun sock' => exists methods, exchanged sock sock' ([VER; zlen methods] ++ methods) [VER; 0]) (fun _ => True).
Proof.
  intros Hb. unfold handshake.
  apply wp_bind, wp_read_exact; [lia|]. intros got t1 Hlen H1.
  destruct (zlen_2_inv _ Hlen) as (a & n & ->). simpl.
  pose proof (exchanged_bytes_ok _ _ _ _ H1 Hb) as [Hn _].
  apply Forall_cons_iff in Hn as [_ Hn]. apply Forall_cons_iff in Hn as [Hn _]. unfold byte_ok in Hn.
  dest_if; [done|]. assert (a = VER) as -> by bool_lia.
  apply wp_bind, wp_read_exact; [lia|]. intros methods t2 Hm H2. subst n.
  apply wp_write_all. intros t3 H3. exists methods.
  pose proof (exchanged_trans _ _ _ _ _ _ _ (exchanged_trans _ _ _ _ _ _ _ H1 H2) H3) as Hx.
  by rewrite app_nil_r in Hx.
Qed.

Lemma wp_target_body sock atyp :
  bytes_ok (incoming sock) ->
  wp (target_body sock atyp)
    (fun '(t, sock') => exists raw body, target_spelled t raw /\ target_bytes t raw = atyp :: body /\
       exchanged sock sock' body []) (fun _ => True).
Proof.
  intros Hb. unfold target_body. dest_if; [|dest_if; [|dest_if; [|done]]].
  - assert (atyp = ATYP_V4) as -> by lia.
    apply wp_bind, wp_read_exact; [lia|]. intros o t1 Hlen H1. simpl.
    apply exchanged_bytes_ok in H1 as Ho; [|done]. exists [], o.
    split; [split; [unfold zlen in Hlen; lia | apply Ho]|done].
  - assert (atyp = ATYP_V6) as -> by lia.
    apply wp_bind, wp_read_exact; [lia|]. intros o t1 Hlen H1. simpl.
    apply exchanged_bytes_ok in H1 as Ho; [|done]. exists [], o.
    split; [split; [unfold zlen in Hlen; lia | apply Ho]|done].
  - assert (atyp = ATYP_DOMAIN) as -> by lia.
    apply wp_bind, wp_read_exact; [lia|]. intros got t1 Hlen H1.
    destruct (zlen_1_inv _ Hlen) as (n & ->). simpl.
    pose proof (exchanged_bytes_ok _ _ _ _ H1 Hb) as [Hn Hb1].
    apply Forall_cons_iff in Hn as [Hn _]. unfold byte_ok in Hn.
    apply wp_bind, wp_read_exact; [lia|]. intros name t2 Hname H2. simpl.
    pose proof (exchanged_bytes_ok _ _ _ _ H2 Hb1) as [Hraw _].
    exists name, (n :: name). split; [split; [done|split; [lia|done]]|]. split; [by subst n|].
    exact (exchanged_trans _ _ _ _ _ _ _ H1 H2).
Qed.

Lemma wp_read_request sock :
  bytes_ok (incoming sock) ->
  wp (read_request sock)
    (fun '(cmd, t, port, sock') => exists methods rsv raw,
       target_spelled t raw /\ 0 <= port <= u16_max /\
       exchanged sock sock' (request_bytes methods cmd rsv t raw port) [VER; 0]) (fun _ => True).
Proof.
  intros Hb. unfold read_request, read_target.
  apply wp_bind. eapply wp_mono; [apply wp_handshake, Hb| |done]. intros t1 (methods & H1).
  pose proof (exchanged_bytes_ok _ _ _ _ H1 Hb) as [_ Hb1].
  apply wp_bind, wp_read_exact; [lia|]. intros got t2 Hlen H2.
  pose proof (exchanged_bytes_ok _ _ _ _ H2 Hb1) as [_ Hb2].
  destruct (zlen_4_inv _ Hlen) as (v & cmd & rsv & atyp & ->). simpl.
  dest_if; [done|]. assert (v = VER) as -> by bool_lia.
  apply wp_bind, wp_bind. eapply wp_mono; [apply wp_target_body, Hb2| |done].
  intros [t t3] (raw & body & Ht & Hbody & H3).
  pose proof (exchanged_bytes_ok _ _ _ _ H3 Hb2) as [_ Hb3].
  apply wp_bind, wp_read_exact; [lia|]. intros pb t4 Hpb H4.
  pose proof (exchanged_bytes_ok _ _ _ _ H4 Hb3) as [Hpbok _].
  destruct (zlen_2_inv _ Hpb) as (a & b & ->). simpl.
  apply Forall_cons_iff in Hpbok as [Ha Hbb]. apply Forall_cons_iff in Hbb as [Hbb _].
  exists methods, rsv, raw. split; [done|].
  split; [clear -Ha Hbb; unfold byte_ok, be_u16, u16_max in *; lia|].
  pose proof (exchanged_trans _ _ _ _ _ _ _ (exchanged_trans _ _ _ _ _ _ _
    (exchanged_trans _ _ _ _ _ _ _ H1 H2) H3) H4) as Hx.
  unfold request_bytes. rewrite Hbody, be_u16_be_bytes by done.
  rewrite !app_nil_r, <- !app_assoc in Hx. exact Hx.
Qed.

(** ** Datagrams: facts *)

(** A datagram as a client frames it. *)
Definition datagram_bytes (t : Target) (raw : list Z) (port : Z) (data : list Z) : list Z :=
  [0; 0; 0] ++ target_bytes t raw ++ be_bytes 2 port ++ data.

Lemma udp_target_bytes t raw rest :
  target_spelled t raw ->
  udp_target ([0; 0; 0] ++ target_bytes t raw ++ rest) = Done (t, 3 + zlen (target_bytes t raw)).
Proof.
  intros Ht. pose proof (zlen_nonneg rest). unfold udp_target.
  destruct t as [[o|o]|name]; cbn [target_bytes target_spelled] in *.
  - destruct Ht as [Hl _]. assert (Hz : zlen o = 4) by (unfold zlen; lia).
    rewrite (idx_known _ 3 ATYP_V4) by done. cbn [mbind outcome_bind]. rewrite Z.eqb_refl.
    rewrite (proj2 (Z.ltb_ge _ _)) by (autorewrite with bytes; lia).
    change ([0; 0; 0] ++ (ATYP_V4 :: o) ++ rest) with ([0; 0; 0; ATYP_V4] ++ o ++ rest).
    rewrite slice_app_mid by (autorewrite with bytes; lia). cbn [mbind outcome_bind].
    do 2 f_equal. autorewrite with bytes. lia.
  - destruct Ht as [Hl _]. assert (Hz : zlen o = 16) by (unfold zlen; lia).
    rewrite (idx_known _ 3 ATYP_V6) by done. cbn [mbind outcome_bind].
    change (ATYP_V6 =? ATYP_V4) with false. rewrite Z.eqb_refl. cbv iota.
    rewrite (proj2 (Z.ltb_ge _ _)) by (autorewrite with bytes; lia).
    change ([0; 0; 0] ++ (ATYP_V6 :: o) ++ rest) with ([0; 0; 0; ATYP_V6] ++ o ++ rest).
    rewrite slice_app_mid by (autorewrite with bytes; lia). cbn [mbind outcome_bind].
    do 2 f_equal. autorewrite with bytes. lia.
  - destruct Ht as (_ & _ & ->).
    rewrite (idx_known _ 3 ATYP_DOMAIN) by done. cbn [mbind outcome_bind].
    change (ATYP_DOMAIN =? ATYP_V4) with false. change (ATYP_DOMAIN =? ATYP_V6) with false.
    rewrite Z.eqb_refl. cbv iota.
    change (zget ([0; 0; 0] ++ (ATYP_DOMAIN :: zlen raw :: raw) ++ rest) 4) with (Some (zlen raw)).
    cbn [oget mbind outcome_bind].
    rewrite (proj2 (Z.ltb_ge _ _)) by (autorewrite with bytes; lia).
    change ([0; 0; 0] ++ (ATYP_DOMAIN :: zlen raw :: raw) ++ rest)
      with ([0; 0; 0; ATYP_DOMAIN; zlen raw] ++ raw ++ rest).
    rewrite slice_app_mid by (autorewrite with bytes; lia). cbn [mbind outcome_bind].
    do 2 f_equal. autorewrite with bytes. lia.
Qed.

Lemma parse_udp_request_bytes t raw port data :
  target_spelled t raw -> 0 <= port <= u16_max ->
  parse_udp_request (datagram_bytes t raw port data) = Done (t, (port, data)).
Proof.
  intros Ht Hp. unfold parse_udp_request, datagram_bytes.
  set (tb := target_bytes t raw). set (buf := [0; 0; 0] ++ tb ++ be_bytes 2 port ++ data).
  pose proof (zlen_nonneg data).
  assert (Htb : 1 <= zlen tb).
  { unfold tb, target_bytes. destruct t as [[o|o]|]; rewrite zlen_cons;
      match goal with |- context [zlen ?l] => pose proof (zlen_nonneg l) end; lia. }
  assert (Hlen : zlen buf = 5 + zlen tb + zlen data) by (unfold buf; autorewrite with bytes; lia).
  rewrite (proj2 (Z.ltb_ge _ _)) by lia.
  rewrite (idx_known _ 2 0) by done. cbn [mbind outcome_bind]. change (negb (0 =? 0)) with false. cbv iota.
  assert (Hut : udp_target buf = Done (t, 3 + zlen tb)) by (by apply udp_target_bytes).
  rewrite Hut. cbn [mbind outcome_bind].
  rewrite (proj2 (Z.ltb_ge _ _)) by lia.
  assert (Hbuf : buf = ([0; 0; 0] ++ tb) ++ (port / 256) `mod` 256 :: port `mod` 256 :: data)
    by (unfold buf; rewrite be_bytes_2, <- !app_assoc; done).
  assert (Hpre : zlen ([0; 0; 0] ++ tb) = 3 + zlen tb) by (autorewrite with bytes; lia).
  rewrite (idx_known buf (3 + zlen tb) ((port / 256) `mod` 256)) by (rewrite Hbuf, <- Hpre; by apply zget_app_mid).
  cbn [mbind outcome_bind].
  rewrite (idx_known buf (3 + zlen tb + 1) (port `mod` 256))
    by (rewrite Hbuf, <- Hpre, zget_app_plus by lia; done).
  cbn [mbind outcome_bind].
  replace (slice buf (3 + zlen tb + 2) (zlen buf)) with (@Done unit (list Z) data).
  - cbn [mbind outcome_bind]. rewrite be_u16_bytes; [done | unfold u16_max in Hp; lia].
  - symmetry. rewrite Hlen. replace buf with (([0; 0; 0] ++ tb ++ be_bytes 2 port) ++ data ++ [])
      by (unfold buf; by rewrite app_nil_r, <- !app_assoc).
    apply slice_app_mid; autorewrite with bytes; lia.
Qed.

Lemma parse_udp_request_total buf :
  bytes_ok buf ->
  wp (parse_udp_request buf) (fun '(_, (port, data)) => 0 <= port <= u16_max /\ bytes_ok data) (fun _ => True).
Proof.
  intros Hb. unfold parse_udp_request. dest_if; [done|].
  apply wp_bind, wp_idx; [lia|]. intros frag _. dest_if; [done|].
  assert (Ht : wp (udp_target buf) (fun '(_, pos) => 4 <= pos) (fun _ => True)).
  { unfold udp_target. apply wp_bind, wp_idx; [lia|]. intros atyp _. dest_if.
    { dest_if; [done|]. apply wp_bind, wp_slice; [lia..|]. simpl. lia. }
    dest_if. { dest_if; [done|]. apply wp_bind, wp_slice; [lia..|]. simpl. lia. }
    dest_if; [|done]. apply wp_bind, wp_oget; [|done]. intros n Hn.
    pose proof (bytes_ok_zget _ _ _ Hb Hn) as Hbyte. unfold byte_ok in Hbyte.
    dest_if; [done|]. apply wp_bind, wp_slice; [lia..|]. simpl. lia. }
  apply wp_bind. eapply wp_mono; [exact Ht| |done]. intros [t pos] Hpos. cbv beta iota.
  dest_if; [done|].
  apply wp_bind, wp_idx; [lia|]. intros a Ha. apply wp_bind, wp_idx; [lia|]. intros b Hbb.
  apply wp_bind, wp_slice; [lia..|]. simpl.
  pose proof (bytes_ok_zget _ _ _ Hb Ha) as Ha'. pose proof (bytes_ok_zget _ _ _ Hb Hbb) as Hb'.
  split; [clear -Ha' Hb'; unfold byte_ok, be_u16, u16_max in *; lia | auto with bytes].
Qed.
