(* ===== verification/Socks.v ===== *)
(** * The SOCKS5 listener: connections (src/native/aether/aether/src/socks.rs)

    [handle_client] and the handlers it calls for a CONNECT: sniffing, the
    routing decision, the gateway proxy, the tunnel and direct connections.
    The handlers run in a monad over the client's stream, the gateway flag and
    the log of what was asked of the outside; the outside's answers are the
    [surroundings]. *)

From stdpp Require Import base list option.
From Stdlib Require Import ZArith Lia.
From S2P Require Import Prelude RustStr StrFacts Net Error Streams Sysprofile Sniff Routing SocksWire.

Definition UA_REGISTER : str := lit "WARP for Android".

(** ** Addresses *)

Definition normalize_ip (ip : IpAddr) : IpAddr :=
  match ip with
  | V6 o => match to_ipv4_mapped o with Some v4 => V4 v4 | None => V6 o end
  | other => other
  end.

Definition direct_target_allowed (client address : IpAddr) : bool :=
  let address := normalize_ip address in
  if is_loopback address || is_unspecified address then is_loopback (normalize_ip client) else true.

Definition should_use_gateway (port : Z) : bool := (port =? 80) || (port =? 443).

(** ** The gateway's answer *)

Definition crlf : str := [13; 10].

Definition build_proxy_connect (target : str) (port : Z) : list Z :=
  let authority :=
    if contains_char target 58 && negb (starts_with target (lit "["))
    then lit "[" ++ target ++ lit "]:" ++ show_uint port
    else target ++ lit ":" ++ show_uint port in
  utf8 (lit "CONNECT " ++ authority ++ lit " HTTP/1.1" ++ crlf ++ lit "Host: " ++ authority ++ crlf ++
        lit "User-Agent: " ++ UA_REGISTER ++ crlf ++ crlf).

Definition proxy_connect_succeeded (head : list Z) : option bool :=
  let text := from_utf8_lossy head in
  '(line, _) ← split_once_str crlf text;
  word ← split_whitespace line !! 1%nat;
  status ← parse_uint u16_max word;
  Some ((200 <=? status) && (status <? 300)).

(** The position after the first blank line. *)
Fixpoint find_head_end (buffer : list Z) : option Z :=
  match buffer with
  | [] => None
  | _ :: rest =>
      if starts_with buffer [13; 10; 13; 10] then Some 4
      else match find_head_end rest with Some at_ => Some (1 + at_) | None => None end
  end.

Definition GATEWAY_HEAD_LIMIT : Z := 8192.

(** ** Routing *)

Section socks.
Context `{UnicodeData} `{RuleLibs}.

Definition decide_route (set : RuleSet) (target : Target) (sniffed : option str) (port : Z) : Action :=
  match sniffed with
  | Some name =>
      match decide_rules set (Domain name) port with
      | Proxy => decide_rules set (host_of target) port
      | decided => decided
      end
  | None => decide_rules set (host_of target) port
  end.

Definition sniff_enabled (env : environment) : bool :=
  match env (lit "AETHER_ROUTE_SNIFF") with
  | Some v => negb (str_eqb v (lit "0") || str_eqb v (lit "off") || str_eqb v (lit "false"))
  | None => true
  end.

(** ** The outside *)

Inductive effect :=
| DnsResolve (name : str)
| OpenTcp (dst : SocketAddr)
| TunnelSend (data : list Z)
| TunnelClose
| RelayTunneled
| LookupHost (host : str) (port : Z)
| TcpConnect (address : SocketAddr)
| DirectWrite (data : list Z)
| RelayDirect.

(** What the outside answers; the answer to [open_tcp] and to a send may
    depend on how much has happened before. *)
Record surroundings := mkSurroundings {
  peer_addr : IoErrorKind + SocketAddr;
  sniff_ready : option Z;
  dns_resolve : str -> AetherError + IpAddr;
  open_tcp : nat -> SocketAddr -> option AetherError;
  tunnel_send : nat -> list Z -> option AetherError;
  gateway_opens_late : bool;
  gateway_chunks : list (list Z);
  gateway_closes : bool;
  lookup_host : IoErrorKind + list SocketAddr;
  tcp_connect : SocketAddr -> option IoErrorKind;
  direct_deadline : option nat;
  direct_write : option IoErrorKind;
}.

Record server := mkServer {
  client : tcp;
  GATEWAY_HEALTHY : bool;
  log : list effect;
}.

Definition io (A : Type) : Type := server -> aresult A * server.

#[global] Instance io_ret : MRet io := fun A a s => (Done a, s).
#[global] Instance io_bind : MBind io := fun A B f m s =>
  match m s with
  | (Done a, s) => f a s
  | (Fail e, s) => (Fail e, s)
  | (Panic, s) => (Panic, s)
  | (Diverge, s) => (Diverge, s)
  end.

Definition fail {A} (e : AetherError) : io A := fun s => (Fail e, s).

(** The result of an operation as a value, as [match] on a [Result] sees it. *)
Definition attempt {A} (m : io A) : io (AetherError + A) := fun s =>
  match m s with
  | (Done a, s) => (Done (inr a), s)
  | (Fail e, s) => (Done (inl e), s)
  | (Panic, s) => (Panic, s)
  | (Diverge, s) => (Diverge, s)
  end.

Definition lift {A} (m : aresult A) : io A := fun s => (m, s).
Definition of_sum {A} (r : AetherError + A) : io A :=
  match r with inr a => mret a | inl e => fail e end.
Definition of_option (r : option AetherError) : io unit :=
  match r with None => mret tt | Some e => fail e end.

Definition note (e : effect) : io unit := fun s =>
  (Done tt, mkServer (client s) (GATEWAY_HEALTHY s) (log s ++ [e])).

Definition happened : io nat := fun s => (Done (length (log s)), s).

(** [write_all] on the client's stream. *)
Definition say (data : list Z) : io unit := fun s =>
  match write_all (client s) data with
  | Done t => (Done tt, mkServer t (GATEWAY_HEALTHY s) (log s))
  | Fail e => (Fail e, s)
  | Panic => (Panic, s)
  | Diverge => (Diverge, s)
  end.

Context (env : environment) (routes : RuleSet) (GATEWAY_PROXY : option SocketAddr) (w : surroundings).

Definition success_reply : list Z := reply_bound_bytes (sock UNSPECIFIED_V4 0).

Definition answer_success (replied : bool) : io unit :=
  if replied then mret tt else say success_reply.

(** [let _ = reply(...)], unless the client was answered before. *)
Definition answer_failure (replied : bool) (code : Z) : io unit :=
  if replied then mret tt else _ ← attempt (say (reply_bytes code)); mret tt.

(** [gateway_proxy] and [retire_gateway] *)
Definition gateway_proxy : io (option SocketAddr) := fun s =>
  (Done (if GATEWAY_HEALTHY s then GATEWAY_PROXY else None), s).

Definition retire_gateway : io unit := fun s =>
  (Done tt, mkServer (client s) false (log s)).

(** ** Sniffing *)

(** At most [PEEK_BUDGET] of the bytes the kernel has; nothing within the
    window is an empty head, and a closed or failed stream is [None]. *)
Definition read_sniff_head : io (option (list Z)) := fun s =>
  match sniff_ready w with
  | None => (Done (Some []), s)
  | Some n =>
      let t := client s in
      match incoming t with
      | [] => (Done None, s)
      | _ =>
          let n := Z.max 1 (Z.min n PEEK_BUDGET) in
          (Done (Some (ztake n (incoming t))),
           mkServer (mkTcpStream (zdrop n (incoming t)) (outgoing t) (write_error t) (read_end t))
             (GATEWAY_HEALTHY s) (log s))
      end
  end.

Record sniffed := mkSniffed { head : list Z; replied : bool; named : option str }.

Definition sniff_name (head : list Z) : aresult (option str) :=
  match head with
  | [] => Done None
  | _ =>
      match hostname head with
      | Done name => Done (Some name)
      | Fail _ => Done None
      | Panic => Panic
      | Diverge => Diverge
      end
  end.

Definition sniffs (target : Target) : bool :=
  match target with TIp _ => true | TDomain _ => false end && sniff_enabled env && has_domain_rules routes.

(** The first part of [handle_connect]; [None] ends the connection. *)
Definition sniff_phase (target : Target) : io (option sniffed) :=
  if sniffs target then
    _ ← say success_reply;
    head ← read_sniff_head;
    match head with
    | None => mret None
    | Some head => named ← lift (sniff_name head); mret (Some (mkSniffed head true named))
    end
  else mret (Some (mkSniffed [] false None)).

(** ** Direct connections *)

Fixpoint connect_loop (client : IpAddr) (addresses : list SocketAddr) (last_error : option IoErrorKind)
    : io (option IoErrorKind) :=
  match addresses with
  | [] => mret (Some (default NotFound last_error))
  | address :: rest =>
      if negb (direct_target_allowed client (sock_ip address)) then
        connect_loop client rest (Some PermissionDenied)
      else
        _ ← note (TcpConnect address);
        match tcp_connect w address with
        | None => mret None
        | Some error => connect_loop client rest (Some error)
        end
  end.

(** [None] is a connection, [Some] the error; under the deadline only the
    first addresses are tried. *)
Definition connect_direct (host : str) (port : Z) (client : IpAddr) : io (option IoErrorKind) :=
  _ ← note (LookupHost host port);
  match lookup_host w with
  | inl e => mret (Some e)
  | inr addresses =>
      connect_loop client
        (match direct_deadline w with Some n => take n addresses | None => addresses end) None
  end.

(** The connection stands: the head goes out, then the client is answered. *)
Definition start_direct (head : list Z) (replied : bool) : io unit :=
  let go : io unit := _ ← answer_success replied; note RelayDirect in
  match head with
  | [] => go
  | _ =>
      _ ← note (DirectWrite head);
      match direct_write w with Some _ => mret tt | None => go end
  end.

Definition handle_direct (target : Target) (port : Z) (head : list Z) (replied : bool) : io unit :=
  client ← of_sum (match peer_addr w with inr a => inr (sock_ip a) | inl e => inl (Io e) end);
  failed ← connect_direct (show_target target) port client;
  match direct_deadline w, failed with
  | Some _, Some _ => answer_failure replied REP_GENERAL
  | None, Some error =>
      answer_failure replied (if bool_decide (error = PermissionDenied) then REP_NOT_ALLOWED else REP_GENERAL)
  | _, None => start_direct head replied
  end.

(** ** Tunnelled connections *)

Definition open (dst : SocketAddr) : io unit :=
  n ← happened;
  _ ← note (OpenTcp dst);
  of_option (open_tcp w n dst).

Definition send (data : list Z) : io unit :=
  n ← happened;
  _ ← note (TunnelSend data);
  of_option (tunnel_send w n data).

Definition refused (authority : str) (port : Z) (status : str) : AetherError :=
  Other (lit "gateway refused " ++ authority ++ lit ":" ++ show_uint port ++ lit " (" ++ status ++ lit ")").

Fixpoint gateway_answer (proxy : SocketAddr) (authority : str) (port : Z) (chunks : list (list Z))
    (head : list Z) : io (list Z) :=
  match chunks with
  | [] =>
      fail (Other (lit "gateway " ++ show_socket_addr proxy ++
        (if gateway_closes w then lit " closed the connection" else lit " did not answer in time")))
  | chunk :: chunks =>
      let head := head ++ chunk in
      match find_head_end head with
      | Some at_ =>
          accepted ← of_sum (match proxy_connect_succeeded head with
                             | Some ok => inr ok
                             | None => inl (Other (lit "gateway " ++ show_socket_addr proxy ++
                                                   lit " sent a malformed response"))
                             end);
          if negb accepted then
            text ← lift (slice head 0 at_);
            let status := trim (default (lit "no status") (lines (from_utf8_lossy text) !! 0%nat)) in
            _ ← note TunnelClose;
            fail (refused authority port status)
          else lift (slice head at_ (zlen head))
      | None =>
          if zlen head >? GATEWAY_HEAD_LIMIT then
            _ ← note TunnelClose;
            fail (Other (lit "gateway " ++ show_socket_addr proxy ++ lit " sent an oversized response head"))
          else gateway_answer proxy authority port chunks head
      end
  end.

(** The bytes past the gateway's head. *)
Definition open_through_gateway (proxy : SocketAddr) (authority : str) (port : Z) : io (list Z) :=
  _ ← (if gateway_opens_late w
       then _ ← note (OpenTcp proxy);
            fail (Other (lit "gateway " ++ show_socket_addr proxy ++ lit " did not accept a connection"))
       else open proxy);
  _ ← send (build_proxy_connect authority port);
  gateway_answer proxy authority port (gateway_chunks w) [].

Definition resolve (target : Target) : io IpAddr :=
  match target with
  | TIp ip => mret ip
  | TDomain name =>
      match parse_ip name with
      | Some ip => mret ip
      | None => _ ← note (DnsResolve name); of_sum (dns_resolve w name)
      end
  end.

(** Resolve and open; a failure is answered with a general failure. *)
Definition open_resolved (target : Target) (port : Z) : io (list Z) :=
  ip ← attempt (resolve target);
  match ip with
  | inl e => _ ← attempt (say (reply_bytes REP_GENERAL)); fail e
  | inr ip =>
      r ← attempt (open (sock ip port));
      match r with
      | inl e => _ ← attempt (say (reply_bytes REP_GENERAL)); fail e
      | inr _ => mret []
      end
  end.

Definition open_proxied (target : Target) (port : Z) : io (list Z) :=
  proxy ← gateway_proxy;
  match (if should_use_gateway port then proxy else None) with
  | Some proxy =>
      r ← attempt (open_through_gateway proxy (show_target target) port);
      match r with
      | inr leftover => mret leftover
      | inl _ => _ ← retire_gateway; open_resolved target port
      end
  | None => open_resolved target port
  end.

(** [if !head.is_empty() && ...is_err()] and the same for the leftover. *)
Definition send_head (head : list Z) : io (AetherError + unit) :=
  match head with [] => mret (inr tt) | _ => attempt (send head) end.

Definition pass_leftover (leftover : list Z) : io (AetherError + unit) :=
  match leftover with [] => mret (inr tt) | _ => attempt (say leftover) end.

(** A proxied connection: what was sniffed goes up first, what came after the
    gateway's head goes down first. *)
Definition connect_tunneled (target : Target) (port : Z) (head : list Z) (replied : bool) : io unit :=
  leftover ← open_proxied target port;
  _ ← answer_success replied;
  sent ← send_head head;
  match sent with
  | inl _ => mret tt
  | inr _ =>
      wrote ← pass_leftover leftover;
      match wrote with
      | inl _ => mret tt
      | inr _ => note RelayTunneled
      end
  end.

(** [handle_connect] from the routing decision on. *)
Definition connect_routed (target : Target) (port : Z) (sn : sniffed) : io unit :=
  match decide_route routes target (named sn) port with
  | Block => answer_failure (replied sn) REP_NOT_ALLOWED
  | Direct => handle_direct target port (head sn) (replied sn)
  | Proxy => connect_tunneled target port (head sn) (replied sn)
  end.

Definition handle_connect (target : Target) (port : Z) : io unit :=
  sn ← sniff_phase target;
  match sn with
  | None => mret tt
  | Some sn => connect_routed target port sn
  end.

(** [handle_client], with the UDP handler of [SocksUdp] as [udp_associate]; a
    handshake that does not finish in time is an error like any other. *)
Definition handle_client (udp_associate : Target -> Z -> io unit) : io unit := fun s =>
  match read_request (client s) with
  | Done (cmd, target, port, sock) =>
      let s := mkServer sock (GATEWAY_HEALTHY s) (log s) in
      (if cmd =? CMD_CONNECT then handle_connect target port
       else if cmd =? CMD_UDP_ASSOCIATE then udp_associate target port
       else
         _ ← say (reply_bytes REP_NOT_SUPPORTED);
         fail (Other (lit "unsupported socks command"))) s
  | Fail e => (Fail e, s)
  | Panic => (Panic, s)
  | Diverge => (Diverge, s)
  end.
End socks.

(** ** Addresses of this machine *)

(** Connecting to an address of this machine, a loopback or unspecified one,
    IPv4-mapped or not, is a right of its own clients. *)
Definition local_only (client address : IpAddr) : Prop :=
  is_loopback (normalize_ip address) = true \/ is_unspecified (normalize_ip address) = true ->
  is_loopback (normalize_ip client) = true.

Lemma direct_target_allowed_local client address :
  direct_target_allowed client address = true -> local_only client address.
Proof.
  unfold direct_target_allowed, local_only.
  destruct (is_loopback (normalize_ip address)), (is_unspecified (normalize_ip address)); cbn;
    intros Ha [?|?]; done.
Qed.
