(* ===== verification/SocksFacts.v ===== *)
(** * The SOCKS5 listener: what a connection may do

    Facts about [Socks.handle_connect]: which effects each routing decision
    allows, and that no byte of the client's stream is lost on the way. *)

From stdpp Require Import base list option.
From Stdlib Require Import ZArith Lia.
From S2P Require Import Prelude RustStr StrFacts Net Error Streams Sysprofile Sniff Routing SocksWire Socks.

Create HintDb socks.

(** ** Effects *)

(** [s'] comes from [s] by effects that all satisfy [ok]. *)
Definition effects (ok : effect -> Prop) (s s' : server) : Prop :=
  exists es, log s' = log s ++ es /\ Forall ok es.

Lemma effects_refl ok s s' : log s' = log s -> effects ok s s'.
Proof. exists []. by rewrite app_nil_r. Qed.

Lemma effects_trans ok s1 s2 s3 : effects ok s1 s2 -> effects ok s2 s3 -> effects ok s1 s3.
Proof.
  intros (e1 & H1 & F1) (e2 & H2 & F2). exists (e1 ++ e2).
  rewrite H2, H1, app_assoc. split; [done|]. by apply Forall_app.
Qed.

(** [m] ends, and everything it asks of the outside satisfies [ok]. *)
Definition only {A} (ok : effect -> Prop) (m : io A) : Prop :=
  forall s, match m s with (Done _, s') | (Fail _, s') => effects ok s s' | _ => False end.

Section only_rules.
Context (ok : effect -> Prop).

Lemma only_ret {A} (a : A) : only ok (mret a).
Proof. intros s. by apply effects_refl. Qed.

Lemma only_fail {A} e : only ok (@fail A e).
Proof. intros s. by apply effects_refl. Qed.

Lemma only_bind {A B} (m : io A) (f : A -> io B) :
  only ok m -> (forall a, only ok (f a)) -> only ok (m ≫= f).
Proof.
  intros Hm Hf s. specialize (Hm s). unfold mbind, io_bind.
  destruct (m s) as [[a|e| |] s1]; try done.
  specialize (Hf a s1). destruct (f a s1) as [[b|e| |] s2]; eauto using effects_trans.
Qed.

Lemma only_bind_ret {A B} (a : A) (f : A -> io B) : only ok (f a) -> only ok (mret a ≫= f).
Proof. intros Hf s. exact (Hf s). Qed.

Lemma only_bind_fail {A B} e (f : A -> io B) : only ok (fail e ≫= f).
Proof. intros s. by apply effects_refl. Qed.

Lemma only_attempt {A} (m : io A) : only ok m -> only ok (attempt m).
Proof. intros Hm s. specialize (Hm s). unfold attempt. by destruct (m s) as [[]]. Qed.

Lemma only_note e : ok e -> only ok (note e).
Proof. intros He s. exists [e]. split; [done|]. by constructor. Qed.

Lemma only_happened : only ok happened.
Proof. intros s. by apply effects_refl. Qed.

Lemma only_say data : only ok (say data).
Proof.
  intros s. unfold say, write_all. by destruct (write_error (client s)); apply effects_refl.
Qed.

Lemma only_of_sum {A} (r : AetherError + A) : only ok (of_sum r).
Proof. destruct r; [apply only_fail | apply only_ret]. Qed.

Lemma only_of_option r : only ok (of_option r).
Proof. destruct r; [apply only_fail | apply only_ret]. Qed.

Lemma only_if {A} (b : bool) (m n : io A) : only ok m -> only ok n -> only ok (if b then m else n).
Proof. by destruct b. Qed.

Lemma only_answer replied : only ok (answer_success replied).
Proof. unfold answer_success. destruct replied; [apply only_ret | apply only_say]. Qed.

Lemma only_answer_failure replied code : only ok (answer_failure replied code).
Proof.
  unfold answer_failure. apply only_if; [apply only_ret|]. apply only_bind; [apply only_attempt, only_say|].
  intros _. apply only_ret.
Qed.

Lemma only_lift {A} (m : aresult A) : terminates m -> only ok (lift m).
Proof. intros Hm s. unfold lift. destruct m; simpl in Hm; try done; by apply effects_refl. Qed.
End only_rules.

#[export] Hint Resolve only_ret only_fail only_attempt only_happened only_say only_of_sum only_of_option
  only_if only_lift only_answer : socks.
#[export] Hint Extern 1 (only _ (_ ≫= _)) => (apply only_bind; [|intros ?]) : socks.

(** ** What each decision allows *)

(** Nothing for a blocked target; for a direct one only the system's own
    resolver and connections, to this machine's loopback only for a client on
    it; for a proxied one only the tunnel. *)
Definition permitted (w : surroundings) (action : Action) (e : effect) : Prop :=
  match e with
  | DnsResolve _ | OpenTcp _ | TunnelSend _ | TunnelClose | RelayTunneled => action = Proxy
  | LookupHost _ _ | DirectWrite _ | RelayDirect => action = Direct
  | TcpConnect a =>
      action = Direct /\ exists p, peer_addr w = inr p /\ local_only (sock_ip p) (sock_ip a)
  end.

Lemma find_head_end_spec buffer at_ :
  find_head_end buffer = Some at_ ->
  4 <= at_ <= zlen buffer /\ exists pre, ztake at_ buffer = pre ++ [13; 10; 13; 10].
Proof.
  revert at_. induction buffer as [|b rest IH]; intros at_ Hf; [done|]. cbn [find_head_end] in Hf.
  destruct (starts_with (b :: rest) [13; 10; 13; 10]) eqn:Hs.
  - injection Hf as <-.
    assert (Hp : exists k, b :: rest = [13; 10; 13; 10] ++ k).
    { destruct rest as [|c [|d [|e k]]]; cbn [starts_with] in Hs; rewrite ?andb_false_r in Hs; try done.
      exists k. repeat (apply andb_prop in Hs as [?%Z.eqb_eq Hs]). subst. done. }
    destruct Hp as [k ->]. split; [autorewrite with bytes; pose proof (zlen_nonneg k); lia|]. by exists [].
  - destruct (find_head_end rest) as [n|] eqn:E; [|done]. injection Hf as <-.
    destruct (IH n eq_refl) as [Hn (pre & Hpre)]. split; [rewrite zlen_cons; lia|].
    exists (b :: pre). unfold ztake in *. replace (Z.to_nat (1 + n)) with (S (Z.to_nat n)) by lia.
    cbn [take app]. by rewrite Hpre.
Qed.

Lemma slice_from {E} (l : list Z) n : 0 <= n <= zlen l -> @slice E Z l n (zlen l) = Done (zdrop n l).
Proof.
  intros Hn. pose proof (@slice_app_mid E (ztake n l) (zdrop n l) [] n (zlen l)) as Hs.
  rewrite app_nil_r, ztake_zdrop in Hs. apply Hs; [by rewrite zlen_ztake | rewrite zlen_zdrop; lia].
Qed.

Lemma slice_terminates {E A} (l : list A) a b : 0 <= a <= b -> b <= zlen l -> terminates (@slice E A l a b).
Proof. intros. by apply wp_slice. Qed.

(** The effects of opening a tunnelled connection, short of relaying. *)
Definition opening (ok : effect -> Prop) : Prop :=
  (forall name, ok (DnsResolve name)) /\ (forall dst, ok (OpenTcp dst)) /\
  (forall data, ok (TunnelSend data)) /\ ok TunnelClose.

Section handlers.
Context `{UnicodeData} `{RuleLibs}.
Context (env : environment) (routes : RuleSet) (GATEWAY_PROXY : option SocketAddr) (w : surroundings).

Section opening.
Context (ok : effect -> Prop) (Hok : opening ok).

Lemma gateway_answer_only proxy authority port chunks head :
  only ok (gateway_answer w proxy authority port chunks head).
Proof.
  destruct Hok as (_ & _ & _ & Hclose).
  revert head. induction chunks as [|c chunks IH]; intros head; cbn [gateway_answer]; [auto with socks|].
  destruct (find_head_end (head ++ c)) as [n|] eqn:Hn.
  - apply find_head_end_spec in Hn as [Hn _].
    apply only_bind; [auto with socks|]. intros accepted. apply only_if.
    + apply only_bind; [apply only_lift, slice_terminates; lia|]. intros text.
      apply only_bind; [by apply only_note|]. intros _. auto with socks.
    + apply only_lift, slice_terminates; lia.
  - apply only_if; [|apply IH]. apply only_bind; [by apply only_note|]. auto with socks.
Qed.

Lemma open_only dst : only ok (open w dst).
Proof.
  apply only_bind; [auto with socks|]. intros n. apply only_bind; [apply only_note, Hok | auto with socks].
Qed.

Lemma send_only data : only ok (send w data).
Proof.
  apply only_bind; [auto with socks|]. intros n. apply only_bind; [apply only_note, Hok | auto with socks].
Qed.

#[local] Hint Resolve gateway_answer_only open_only send_only : socks.

Lemma open_through_gateway_only proxy authority port :
  only ok (open_through_gateway w proxy authority port).
Proof.
  apply only_bind; [|intros _; apply only_bind; auto with socks].
  apply only_if; [|auto with socks]. apply only_bind; [apply only_note, Hok | auto with socks].
Qed.

Lemma resolve_only target : only ok (resolve w target).
Proof.
  destruct target as [ip|name]; cbn [resolve]; [auto with socks|].
  destruct (parse_ip name); [auto with socks|]. apply only_bind; [apply only_note, Hok | auto with socks].
Qed.

#[local] Hint Resolve open_through_gateway_only resolve_only : socks.

Lemma open_resolved_only target port : only ok (open_resolved w target port).
Proof.
  apply only_bind; [auto with socks|]. intros [e|ip].
  - apply only_bind; auto with socks.
  - apply only_bind; [auto with socks|]. intros [e|[]]; [apply only_bind|]; auto with socks.
Qed.

#[local] Hint Resolve open_resolved_only : socks.

Lemma open_proxied_only target port : only ok (open_proxied GATEWAY_PROXY w target port).
Proof.
  apply only_bind.
  { intros s. by apply effects_refl. }
  intros proxy. destruct (if should_use_gateway port then proxy else None) as [p|]; [|auto with socks].
  apply only_bind; [auto with socks|]. intros [e|leftover]; [|auto with socks].
  apply only_bind; [|auto with socks]. intros s. by apply effects_refl.
Qed.

End opening.

Lemma opening_permitted : opening (permitted w Proxy).
Proof. by repeat split. Qed.

#[local] Hint Resolve send_only open_proxied_only opening_permitted : socks.

Lemma connect_loop_only p addresses last :
  peer_addr w = inr p -> only (permitted w Direct) (connect_loop w (sock_ip p) addresses last).
Proof.
  intros Hp. revert last. induction addresses as [|a rest IH]; intros last; cbn [connect_loop]; [auto with socks|].
  destruct (direct_target_allowed (sock_ip p) (sock_ip a)) eqn:Ha; cbn [negb]; [|apply IH].
  apply only_bind.
  { apply only_note. split; [done|]. exists p. split; [done|]. by apply direct_target_allowed_local. }
  intros _. destruct (tcp_connect w a); [apply IH | auto with socks].
Qed.

Lemma start_direct_only head replied : only (permitted w Direct) (start_direct w head replied).
Proof.
  assert (Hgo : only (permitted w Direct) (_ ← answer_success replied; note RelayDirect)).
  { apply only_bind; [auto with socks|]. intros _. by apply only_note. }
  destruct head as [|b head]; [done|]. apply only_bind; [by apply only_note|]. intros _.
  by destruct (direct_write w); [apply only_ret|].
Qed.

Lemma handle_direct_only target port head replied :
  only (permitted w Direct) (handle_direct w target port head replied).
Proof.
  unfold handle_direct. destruct (peer_addr w) as [e|p] eqn:Hp; cbn [of_sum].
  { apply only_bind_fail. }
  apply only_bind_ret, only_bind.
  { apply only_bind; [by apply only_note|]. intros _.
    destruct (lookup_host w); [auto with socks | by apply connect_loop_only]. }
  intros [e|]; destruct (direct_deadline w); auto using start_direct_only, only_answer_failure.
Qed.

Lemma connect_routed_only target port sn :
  only (permitted w (decide_route routes target (named sn) port))
    (connect_routed routes GATEWAY_PROXY w target port sn).
Proof.
  unfold connect_routed. destruct (decide_route routes target (named sn) port).
  - apply only_bind; [auto with socks|]. intros leftover.
    apply only_bind; [auto with socks|]. intros _.
    apply only_bind; [unfold send_head; destruct (head sn); auto with socks|]. intros [e|_]; [auto with socks|].
    apply only_bind; [unfold pass_leftover; destruct leftover; auto with socks|]. intros [e|_]; [auto with socks|]. by apply only_note.
  - apply handle_direct_only.
  - apply only_answer_failure.
Qed.

(** ** Sniffing *)

Lemma hostname_total buf : bytes_ok buf -> terminates (hostname buf).
Proof.
  intros Hb. unfold terminates, hostname.
  pose proof (tls_sni_ok buf Hb) as Ht. pose proof (http_host_ok buf) as Hh.
  destruct (tls_sni buf); simpl in Ht; try done. eapply wp_mono; [exact Hh|done|done].
Qed.

(** The name a connection is routed by: the one the bytes that came within the
    window announce, when names matter and the client gave an address. *)
Definition announced (target : Target) (s : server) : option str :=
  if sniffs env routes target then
    match sniff_ready w with
    | Some n =>
        match hostname (ztake (Z.max 1 (Z.min n PEEK_BUDGET)) (incoming (client s))) with
        | Done name => Some name
        | _ => None
        end
    | None => None
    end
  else None.

(** After the sniffing phase: the head is cut off the client's stream. *)
Definition sniff_done (target : Target) (s s' : server) (sn : sniffed) : Prop :=
  log s' = log s /\ GATEWAY_HEALTHY s' = GATEWAY_HEALTHY s /\
  exchanged (client s) (client s') (head sn) (if replied sn then success_reply else []) /\
  (replied sn = false -> head sn = []) /\ replied sn = sniffs env routes target /\
  named sn = announced target s.

Lemma sniff_phase_spec target s :
  bytes_ok (incoming (client s)) ->
  match sniff_phase env routes w target s with
  | (Done (Some sn), s') => sniff_done target s s' sn
  | (Done None, s') | (Fail _, s') => log s' = log s
  | _ => False
  end.
Proof.
  intros Hb. unfold sniff_phase, sniff_done, announced. destruct (sniffs env routes target) eqn:Hsn.
  2: { simpl. split; [done|]. split; [done|]. split; [by split; [|rewrite app_nil_r]|].
       split; [done|]. by split. }
  unfold mbind, io_bind, say, write_all. destruct (write_error (client s)) as [e|] eqn:Hw; [done|].
  unfold read_sniff_head. destruct (sniff_ready w) as [n|].
  2: { simpl. split; [done|]. split; [done|]. split; [done|]. split; [done|]. by split. }
  cbn [client incoming]. destruct (incoming (client s)) as [|b rest] eqn:Hin; [done|]. rewrite <- Hin in *.
  set (k := Z.max 1 (Z.min n PEEK_BUDGET)). cbn [outgoing write_error read_end].
  set (head := ztake k (incoming (client s))).
  assert (Hx : forall t, t = mkTcpStream (zdrop k (incoming (client s)))
                              (outgoing (client s) ++ success_reply) None (read_end (client s)) ->
                exchanged (client s) t head success_reply).
  { intros t ->. split; [|done]. unfold head. simpl. by rewrite ztake_zdrop. }
  assert (Hname : sniff_name head = Done match hostname head with Done name => Some name | _ => None end).
  { unfold sniff_name. pose proof (hostname_total head (bytes_ok_ztake _ _ Hb)) as Ht.
    destruct head as [|x xs] eqn:Hh; [by vm_compute|]. by destruct (hostname (x :: xs)). }
  unfold lift. rewrite Hname. simpl.
  split; [done|]. split; [done|]. split; [by apply Hx|]. done.
Qed.

(** ** Routing *)

Lemma handle_connect_effects target port s :
  bytes_ok (incoming (client s)) ->
  match handle_connect env routes GATEWAY_PROXY w target port s with
  | (Done _, s') | (Fail _, s') =>
      effects (permitted w (decide_route routes target (announced target s) port)) s s'
  | _ => False
  end.
Proof.
  intros Hb. pose proof (sniff_phase_spec target s Hb) as Hs. unfold handle_connect.
  unfold mbind, io_bind.
  destruct (sniff_phase env routes w target s) as [[[sn|]|e| |] s1]; try done.
  2, 3: by apply effects_refl.
  destruct Hs as (Hlog & _ & _ & _ & _ & <-).
  pose proof (connect_routed_only target port sn s1) as Hgo.
  destruct (connect_routed _ _ _ _ _ sn s1) as [[r|e| |] s2]; try done;
    (destruct Hgo as (es & Hes & Hf); exists es; by rewrite Hes, Hlog).
Qed.

(** ** Streams *)

(** The bytes sent on the tunnel connection opened last. *)
Definition channel (es : list effect) : list Z :=
  fold_left (fun sent e => match e with OpenTcp _ => [] | TunnelSend d => sent ++ d | _ => sent end) es [].

Definition direct_bytes (es : list effect) : list Z :=
  flat_map (fun e => match e with DirectWrite d => d | _ => [] end) es.

Lemma channel_open es dst : channel (es ++ [OpenTcp dst]) = [].
Proof. unfold channel. by rewrite fold_left_app. Qed.

Lemma channel_send es d : channel (es ++ [TunnelSend d]) = channel es ++ d.
Proof. unfold channel. by rewrite fold_left_app. Qed.

(** [leftover] is what the gateway sent after an accepting head. *)
Definition gateway_accepted (leftover : list Z) : Prop :=
  exists k h, concat (take k (gateway_chunks w)) = h ++ leftover /\
    proxy_connect_succeeded (h ++ leftover) = Some true /\ exists pre, h = pre ++ [13; 10; 13; 10].

Lemma gateway_answer_spec proxy authority port seen chunks s :
  gateway_chunks w = seen ++ chunks ->
  match gateway_answer w proxy authority port chunks (concat seen) s with
  | (Done leftover, s') => s' = s /\ gateway_accepted leftover
  | (_, s') => client s' = client s
  end.
Proof.
  revert seen s. induction chunks as [|c chunks IH]; intros seen s Hw; cbn [gateway_answer]; [done|].
  assert (Hc : concat seen ++ c = concat (seen ++ [c])) by (by rewrite concat_app; cbn; rewrite app_nil_r).
  rewrite Hc. set (h := concat (seen ++ [c])). destruct (find_head_end h) as [n|] eqn:Hn.
  - apply find_head_end_spec in Hn as (Hn & pre & Hpre). unfold mbind, io_bind.
    destruct (proxy_connect_succeeded h) as [[]|] eqn:Hp; cbn [of_sum mret io_ret negb]; [| |done].
    + unfold lift. rewrite slice_from by lia. split; [done|]. exists (length (seen ++ [c])), (ztake n h).
      rewrite ztake_zdrop, Hw. replace (seen ++ c :: chunks) with ((seen ++ [c]) ++ chunks) by (by rewrite <- app_assoc).
      rewrite take_app_length. split; [done|]. split; [done|]. by exists pre.
    + unfold lift. destruct (slice h 0 n); done.
  - destruct (zlen h >? GATEWAY_HEAD_LIMIT); [done|]. apply IH. by rewrite Hw, <- app_assoc.
Qed.

(** How a tunnelled connection starts: plainly, or with the gateway's
    handshake. *)
Definition opened (target : Target) (port : Z) (greeting leftover : list Z) : Prop :=
  (greeting = [] /\ leftover = []) \/
  (greeting = build_proxy_connect (show_target target) port /\ gateway_accepted leftover).

Lemma open_spec dst s :
  match open w dst s with
  | (Done _, s') => client s' = client s /\ log s' = log s ++ [OpenTcp dst]
  | (_, s') => client s' = client s
  end.
Proof. unfold open, mbind, io_bind. cbn. by destruct (open_tcp w _ dst). Qed.

Lemma send_spec data s :
  match send w data s with
  | (Done _, s') => client s' = client s /\ log s' = log s ++ [TunnelSend data]
  | (_, s') => client s' = client s
  end.
Proof. unfold send, mbind, io_bind. cbn. by destruct (tunnel_send w _ data). Qed.

Lemma resolve_client target s : client (resolve w target s).2 = client s.
Proof.
  destruct target as [ip|name]; [done|]. cbn [resolve]. destruct (parse_ip name); [done|].
  unfold mbind, io_bind. cbn. by destruct (dns_resolve w name).
Qed.

Lemma open_resolved_spec target port s :
  match open_resolved w target port s with
  | (Done leftover, s') => client s' = client s /\ leftover = [] /\ channel (log s') = []
  | _ => True
  end.
Proof.
  unfold open_resolved, mbind, io_bind, attempt.
  pose proof (resolve_client target s) as Hr. destruct (resolve w target s) as [[ip|e| |] s1]; try done.
  2: { unfold say, write_all. by destruct (write_error (client s1)). }
  cbn in Hr. pose proof (open_spec (sock ip port) s1) as Ho.
  destruct (open w (sock ip port) s1) as [[[]|e| |] s2]; try done.
  - destruct Ho as [Hc Hl]. simpl. rewrite Hl, channel_open. by rewrite Hc, Hr.
  - unfold say, write_all. by destruct (write_error (client s2)).
Qed.

Lemma open_through_gateway_spec proxy target port s :
  match open_through_gateway w proxy (show_target target) port s with
  | (Done leftover, s') =>
      client s' = client s /\ channel (log s') = build_proxy_connect (show_target target) port /\
      gateway_accepted leftover
  | (_, s') => client s' = client s
  end.
Proof.
  unfold open_through_gateway, mbind, io_bind. destruct (gateway_opens_late w); [done|].
  pose proof (open_spec proxy s) as Ho. destruct (open w proxy s) as [[[]|e| |] s1]; try done.
  destruct Ho as [Hc1 Hl1]. set (req := build_proxy_connect _ _).
  pose proof (send_spec req s1) as Hs. destruct (send w req s1) as [[[]|e| |] s2]; try congruence.
  destruct Hs as [Hc2 Hl2].
  pose proof (gateway_answer_spec proxy (show_target target) port [] (gateway_chunks w) s2 eq_refl) as Hg.
  cbn [concat] in Hg.
  destruct (gateway_answer _ _ _ _ _ _ s2) as [[leftover|e| |] s3]; try congruence.
  destruct Hg as [-> Hg]. rewrite Hl2, channel_send, Hl1, channel_open, Hc2. done.
Qed.

Lemma open_proxied_spec target port s :
  match open_proxied GATEWAY_PROXY w target port s with
  | (Done leftover, s') => client s' = client s /\ opened target port (channel (log s')) leftover
  | _ => True
  end.
Proof.
  assert (Hres : forall s1, client s1 = client s ->
    match open_resolved w target port s1 with
    | (Done leftover, s') => client s' = client s /\ opened target port (channel (log s')) leftover
    | _ => True
    end).
  { intros s1 Hc. pose proof (open_resolved_spec target port s1) as Hr.
    destruct (open_resolved w target port s1) as [[leftover|e| |] s2]; try done.
    destruct Hr as (Hc2 & -> & Hch). rewrite Hc2, Hch. split; [done | by left]. }
  unfold open_proxied. unfold mbind at 1, io_bind at 1. cbn [gateway_proxy].
  destruct (if should_use_gateway port then _ else None) as [proxy|]; [|by apply Hres].
  unfold mbind, io_bind, attempt.
  pose proof (open_through_gateway_spec proxy target port s) as Hg.
  destruct (open_through_gateway _ _ _ _ s) as [[leftover|e| |] s1]; try done.
  - destruct Hg as (Hc & Hch & Hacc). simpl. split; [done|]. rewrite Hch. by right.
  - by apply Hres.
Qed.

(** Everything short of relaying. *)
Definition quiet (e : effect) : Prop := e <> RelayTunneled /\ e <> RelayDirect.

Lemma opening_quiet : opening quiet.
Proof. by repeat split. Qed.

Lemma quiet_not_relay es : Forall quiet es -> ~ (In RelayTunneled es) /\ ~ (In RelayDirect es).
Proof.
  rewrite List.Forall_forall. intros Hq. split; intros Hin; by destruct (Hq _ Hin).
Qed.

Lemma say_spec data s :
  match say data s with
  | (Done _, s') => exchanged (client s) (client s') [] data /\ log s' = log s
  | (Fail _, s') => log s' = log s
  | _ => False
  end.
Proof. unfold say, write_all. by destruct (write_error (client s)). Qed.

Lemma answer_success_spec replied s :
  match answer_success replied s with
  | (Done _, s') => exchanged (client s) (client s') [] (if replied then [] else success_reply) /\ log s' = log s
  | (Fail _, s') => log s' = log s
  | _ => False
  end.
Proof.
  destruct replied; [|apply say_spec]. split; [|done]. split; [done | by rewrite app_nil_r].
Qed.

Lemma answer_failure_spec replied code s :
  match answer_failure replied code s with (Done _, s') => log s' = log s | _ => False end.
Proof.
  unfold answer_failure. destruct replied; [done|]. unfold mbind, io_bind, attempt.
  pose proof (say_spec (reply_bytes code) s) as Hy. destruct (say (reply_bytes code) s) as [[]]; try done. apply Hy.
Qed.

Lemma send_head_spec head s :
  match send_head w head s with
  | (Done r, s') => effects quiet s s' /\
      (r = inr tt -> client s' = client s /\ channel (log s') = channel (log s) ++ head)
  | _ => False
  end.
Proof.
  unfold send_head. destruct head as [|b head].
  { split; [by apply effects_refl|]. by rewrite app_nil_r. }
  unfold attempt. pose proof (send_only quiet opening_quiet (b :: head) s) as Hn.
  pose proof (send_spec (b :: head) s) as Hy.
  destruct (send w (b :: head) s) as [[[]|e| |] s1]; try done.
  destruct Hy as [Hc Hl]. by rewrite Hl, channel_send.
Qed.

Lemma pass_leftover_spec leftover s :
  match pass_leftover leftover s with
  | (Done r, s') => log s' = log s /\ (r = inr tt -> exchanged (client s) (client s') [] leftover)
  | _ => False
  end.
Proof.
  unfold pass_leftover. destruct leftover as [|b leftover].
  { split; [done|]. intros _. split; [done | by rewrite app_nil_r]. }
  unfold attempt. pose proof (say_spec (b :: leftover) s) as Hy.
  destruct (say (b :: leftover) s) as [[[]|e| |] s1]; try done. by destruct Hy.
Qed.

Lemma effects_quiet_not s s' : effects quiet s s' -> exists es, log s' = log s ++ es /\
  ~ (In RelayTunneled es) /\ ~ (In RelayDirect es).
Proof. intros (es & Hl & Hq%quiet_not_relay). by exists es. Qed.

Lemma effects_quiet_done s s' (Q : Prop) :
  effects quiet s s' -> exists es, log s' = log s ++ es /\ ~ (In RelayDirect es) /\ (In RelayTunneled es -> Q).
Proof. intros (es & Hl & Ht & Hd)%effects_quiet_not. by exists es. Qed.

(** The relay starts with the sniffed head sent on the open connection and the
    client answered. *)
Definition relaying_tunnel (target : Target) (port : Z) (head said : list Z) (s s' : server) : Prop :=
  exists greeting leftover, opened target port greeting leftover /\
    channel (log s') = greeting ++ head /\ exchanged (client s) (client s') [] (said ++ leftover).

Lemma connect_tunneled_spec target port head replied s :
  match connect_tunneled GATEWAY_PROXY w target port head replied s with
  | (Done _, s') => exists es, log s' = log s ++ es /\ ~ (In RelayDirect es) /\
      (In RelayTunneled es ->
       relaying_tunnel target port head (if replied then [] else success_reply) s s')
  | (Fail _, s') => effects quiet s s'
  | _ => False
  end.
Proof.
  unfold connect_tunneled, mbind, io_bind.
  pose proof (open_proxied_only quiet opening_quiet target port s) as Ho.
  pose proof (open_proxied_spec target port s) as Hs.
  destruct (open_proxied GATEWAY_PROXY w target port s) as [[leftover|e| |] s1]; try done.
  destruct Hs as [Hc1 Hopen].
  pose proof (answer_success_spec replied s1) as Hr. rewrite Hc1 in Hr.
  destruct (answer_success replied s1) as [[[]|e| |] s2]; try done.
  2: { eapply effects_trans; [exact Ho | by apply effects_refl]. }
  destruct Hr as [Hx2 Hl2].
  pose proof (send_head_spec head s2) as Hsend.
  destruct (send_head w head s2) as [[r3|e| |] s3]; try done. destruct Hsend as [Hq3 Hr3].
  assert (Hq : effects quiet s s3).
  { eapply effects_trans; [exact Ho|]. eapply effects_trans; [by apply effects_refl | exact Hq3]. }
  destruct r3 as [e|[]]; [by apply effects_quiet_done|]. destruct (Hr3 eq_refl) as [Hc3 Hch3].
  pose proof (pass_leftover_spec leftover s3) as Hdown.
  destruct (pass_leftover leftover s3) as [[r4|e| |] s4]; try done. destruct Hdown as [Hl4 Hx4].
  destruct r4 as [e|[]].
  { apply effects_quiet_done. eapply effects_trans; [exact Hq | by apply effects_refl]. }
  apply effects_quiet_not in Hq as (es & Hes & Ht & Hd). simpl.
  exists (es ++ [RelayTunneled]). split; [by rewrite Hl4, Hes, app_assoc|].
  split; [rewrite in_app_iff; cbn; naive_solver|]. intros _.
  exists (channel (log s2)), leftover. rewrite Hl2. split; [done|]. split.
  - cbn [log]. unfold channel at 1. rewrite fold_left_app. cbn. fold (channel (log s4)).
    by rewrite Hl4, Hch3, Hl2.
  - specialize (Hx4 eq_refl). rewrite Hc3 in Hx4. exact (exchanged_trans _ _ _ _ _ _ _ Hx2 Hx4).
Qed.

(** ** Direct connections *)

Definition dialing (e : effect) : Prop :=
  match e with LookupHost _ _ | TcpConnect _ => True | _ => False end.

Lemma connect_direct_spec target port p s :
  match connect_direct w target port p s with
  | (Done _, s') => client s' = client s /\ effects dialing s s'
  | _ => False
  end.
Proof.
  assert (Hloop : forall l last s, match connect_loop w p l last s with
    | (Done _, s') => client s' = client s /\ effects dialing s s'
    | _ => False
    end).
  { induction l as [|a l IH]; intros last s1; cbn [connect_loop]; [by split; [|apply effects_refl]|].
    destruct (negb _); [apply IH|]. unfold mbind, io_bind. cbn [note].
    set (s2 := mkServer _ _ _). assert (Hs2 : effects dialing s1 s2) by (exists [TcpConnect a]; by repeat constructor).
    destruct (tcp_connect w a) as [e|]; [|done]. specialize (IH (Some e) s2).
    destruct (connect_loop w p l (Some e) s2) as [[r| | |] s3]; try done. destruct IH as [Hc He].
    split; [done|]. eapply effects_trans; eauto. }
  unfold connect_direct, mbind, io_bind. cbn [note].
  set (s1 := mkServer _ _ _). assert (Hs1 : effects dialing s s1) by (exists [LookupHost target port]; by repeat constructor).
  destruct (lookup_host w) as [e|l]; [done|].
  specialize (Hloop (match direct_deadline w with Some n => take n l | None => l end) None s1).
  destruct (connect_loop _ _ _ None s1) as [[r| | |] s2]; try done. destruct Hloop as [Hc He].
  split; [done|]. eapply effects_trans; eauto.
Qed.

Lemma dialing_silent es :
  Forall dialing es -> direct_bytes es = [] /\ ~ (In RelayTunneled es) /\ ~ (In RelayDirect es).
Proof.
  intros Hd. split; [by induction Hd as [|e es He Hd IH]; [|destruct e]|].
  rewrite List.Forall_forall in Hd. split; intros Hin; by specialize (Hd _ Hin).
Qed.

Lemma dialing_quiet es : Forall dialing es -> Forall quiet es.
Proof. intros Hd. eapply List.Forall_impl; [|exact Hd]. by intros []. Qed.

(** The relay starts with the sniffed head written to the connection and the
    client answered. *)
Definition relaying_direct (head said : list Z) (s s' : server) : Prop :=
  exists es, log s' = log s ++ es /\ direct_bytes es = head /\ exchanged (client s) (client s') [] said.

Lemma start_direct_spec head replied s :
  match start_direct w head replied s with
  | (Done _, s') => exists es, log s' = log s ++ es /\ ~ (In RelayTunneled es) /\
      (In RelayDirect es -> relaying_direct head (if replied then [] else success_reply) s s')
  | (Fail _, s') => effects quiet s s'
  | _ => False
  end.
Proof.
  assert (Hgo : forall (pre : list effect) s1, client s1 = client s -> log s1 = log s ++ pre -> Forall quiet pre ->
    direct_bytes pre = head ->
    match (_ ← answer_success replied; note RelayDirect) s1 with
    | (Done _, s') => exists es, log s' = log s ++ es /\ ~ (In RelayTunneled es) /\
        (In RelayDirect es -> relaying_direct head (if replied then [] else success_reply) s s')
    | (Fail _, s') => effects quiet s s'
    | _ => False
    end).
  { intros pre s1 Hc Hl Hq Hd. apply quiet_not_relay in Hq as Hn. unfold mbind, io_bind. pose proof (answer_success_spec replied s1) as Hr.
    destruct (answer_success replied s1) as [[[]|e| |] s2]; try done; [|exists pre; by rewrite Hr].
    destruct Hr as [Hx Hl2]. simpl.
    exists (pre ++ [RelayDirect]). split; [by rewrite Hl2, Hl, app_assoc|].
    split; [rewrite in_app_iff; cbn; naive_solver|]. intros _. exists (pre ++ [RelayDirect]).
    split; [cbn; by rewrite Hl2, Hl, app_assoc|]. rewrite Hc in Hx.
    split; [|done]. unfold direct_bytes in *. rewrite flat_map_app, Hd. cbn. by rewrite app_nil_r. }
  unfold start_direct. destruct head as [|b head].
  { apply (Hgo []); [done | by rewrite app_nil_r | constructor | done]. }
  unfold mbind at 1, io_bind at 1. cbn [note].
  set (s1 := mkServer _ _ _). destruct (direct_write w).
  - exists [DirectWrite (b :: head)]. split; [done|]. split; by intros [?|[]].
  - apply (Hgo [DirectWrite (b :: head)] s1); [done|done|by repeat constructor|]. cbn. by rewrite app_nil_r.
Qed.

Lemma handle_direct_spec target port head replied s :
  match handle_direct w target port head replied s with
  | (Done _, s') => exists es, log s' = log s ++ es /\ ~ (In RelayTunneled es) /\
      (In RelayDirect es -> relaying_direct head (if replied then [] else success_reply) s s')
  | (Fail _, s') => effects quiet s s'
  | _ => False
  end.
Proof.
  unfold handle_direct, mbind, io_bind.
  destruct (peer_addr w) as [e|p]; cbn [of_sum]; [by apply effects_refl|]. cbn [mret io_ret].
  pose proof (connect_direct_spec (show_target target) port (sock_ip p) s) as Hd.
  destruct (connect_direct w (show_target target) port (sock_ip p) s) as [[failed| | |] s1]; try done.
  destruct Hd as (Hc & es1 & Hl1 & Hd1). apply dialing_quiet in Hd1 as Hq1.
  apply dialing_silent in Hd1 as (Hb1 & Ht1 & Hr1).
  destruct failed as [error|].
  - assert (Hans : forall code, match answer_failure replied code s1 with
      | (Done _, s') => exists es, log s' = log s ++ es /\ ~ (In RelayTunneled es) /\
          (In RelayDirect es -> relaying_direct head (if replied then [] else success_reply) s s')
      | (Fail _, s') => effects quiet s s'
      | _ => False
      end); [|destruct (direct_deadline w); apply Hans].
    intros code. pose proof (answer_failure_spec replied code s1) as Hy.
    destruct (answer_failure replied code s1) as [[r| | |] s2]; try done.
    exists es1. rewrite Hy. by split.
  - pose proof (start_direct_spec head replied s1) as Hs.
    assert (Hgoal : match start_direct w head replied s1 with
      | (Done _, s') => exists es, log s' = log s ++ es /\ ~ (In RelayTunneled es) /\
          (In RelayDirect es -> relaying_direct head (if replied then [] else success_reply) s s')
      | (Fail _, s') => effects quiet s s'
      | _ => False
      end); [|by destruct (direct_deadline w)].
    destruct (start_direct w head replied s1) as [[r| | |] s2]; try done.
    2: { eapply effects_trans; [by exists es1 | exact Hs]. }
    destruct Hs as (es & Hl & Ht & Hr). exists (es1 ++ es). rewrite Hl, Hl1, app_assoc, !in_app_iff.
    split; [done|]. split; [naive_solver|]. intros [?|Hin]; [done|].
    destruct (Hr Hin) as (es2 & He2 & Hb2 & Hx). exists (es1 ++ es2).
    rewrite He2, Hl1, app_assoc. split; [done|]. unfold direct_bytes in *. rewrite flat_map_app, Hb1.
    split; [done | by rewrite Hc in Hx].
Qed.

(** ** The whole handler *)

(** What stands when the relay of a connection starts. *)
Definition relay_ready (target : Target) (port : Z) (s s' : server) (es : list effect) : Prop :=
  (In RelayTunneled es ->
     exists head greeting leftover, opened target port greeting leftover /\
       channel (log s') = greeting ++ head /\
       exchanged (client s) (client s') head (success_reply ++ leftover)) /\
  (In RelayDirect es ->
     exists head, direct_bytes es = head /\ exchanged (client s) (client s') head success_reply).

Lemma connect_routed_spec target port sn s :
  match connect_routed routes GATEWAY_PROXY w target port sn s with
  | (Done _, s') => exists es, log s' = log s ++ es /\
      (In RelayTunneled es ->
       relaying_tunnel target port (head sn) (if replied sn then [] else success_reply) s s') /\
      (In RelayDirect es -> relaying_direct (head sn) (if replied sn then [] else success_reply) s s')
  | (Fail _, s') => effects quiet s s'
  | _ => False
  end.
Proof.
  unfold connect_routed. destruct (decide_route routes target (named sn) port).
  - pose proof (connect_tunneled_spec target port (head sn) (replied sn) s) as Ht.
    destruct (connect_tunneled _ _ _ _ _ _ s) as [[r| | |] s1]; try done.
    destruct Ht as (es & Hl & Hd & Hr). by exists es.
  - pose proof (handle_direct_spec target port (head sn) (replied sn) s) as Ht.
    destruct (handle_direct _ _ _ _ _ s) as [[r| | |] s1]; try done.
    destruct Ht as (es & Hl & Hd & Hr). by exists es.
  - pose proof (answer_failure_spec (replied sn) REP_NOT_ALLOWED s) as Ht.
    destruct (answer_failure _ _ s) as [[r| | |] s1]; try done. exists []. by rewrite app_nil_r.
Qed.

Lemma answered_once (r : bool) (l : list Z) :
  (if r then success_reply else []) ++ (if r then [] else success_reply) ++ l = success_reply ++ l.
Proof. by destruct r. Qed.

Lemma handle_connect_stream target port s :
  bytes_ok (incoming (client s)) ->
  match handle_connect env routes GATEWAY_PROXY w target port s with
  | (Done _, s') => exists es, log s' = log s ++ es /\ relay_ready target port s s' es
  | (Fail _, s') => effects quiet s s'
  | _ => False
  end.
Proof.
  intros Hb. pose proof (sniff_phase_spec target s Hb) as Hs. unfold handle_connect, mbind, io_bind.
  destruct (sniff_phase env routes w target s) as [[[sn|]|e| |] s1]; try done.
  2: { exists []. rewrite app_nil_r. by split. }
  2: { by apply effects_refl. }
  destruct Hs as (Hlog & _ & Hx & _). pose proof (connect_routed_spec target port sn s1) as Hc.
  destruct (connect_routed _ _ _ _ _ sn s1) as [[r| | |] s2]; try done.
  2: { eapply effects_trans; [by apply effects_refl | exact Hc]. }
  destruct Hc as (es & Hl & Ht & Hd). exists es. rewrite Hl, Hlog. split; [done|]. split.
  - intros (greeting & leftover & Ho & Hch & Hx2)%Ht. exists (head sn), greeting, leftover.
    split; [done|]. split; [done|].
    pose proof (exchanged_trans _ _ _ _ _ _ _ Hx Hx2) as Hxx. by rewrite app_nil_r, answered_once in Hxx.
  - intros (es2 & Hl2 & Hb2 & Hx2)%Hd. exists (head sn).
    rewrite Hl2 in Hl. apply app_inv_head in Hl as <-. split; [done|].
    pose proof (exchanged_trans _ _ _ _ _ _ _ Hx Hx2) as Hxx.
    rewrite app_nil_r in Hxx. rewrite <- (app_nil_r (if replied sn then [] else _)), answered_once in Hxx.
    by rewrite app_nil_r in Hxx.
Qed.
End handlers.

(** ** Properties *)

(** C12: a connection only ever does what the rules decided for it: a blocked
    target causes no traffic at all; a direct one never enters the tunnel and
    reaches this machine's loopback only for a client on this machine; a
    proxied one never leaves the tunnel, not even to look up its name.  The
    decision is the rules' for the target and for the name the client announces:
    the one in the first bytes it sent within the window, when it gave an
    address, sniffing is on and there are rules on names.  The handler ends on
    any input without panic. *)
Theorem connect_follows_route `{UnicodeData} `{RuleLibs} (env : environment) (routes : RuleSet)
    (GATEWAY_PROXY : option SocketAddr) (w : surroundings) (target : Target) (port : Z) (s : server) :
  bytes_ok (incoming (client s)) ->
  match handle_connect env routes GATEWAY_PROXY w target port s with
  | (Done _, s') | (Fail _, s') =>
      effects (permitted w (decide_route routes target (announced env routes w target s) port)) s s'
  | _ => False
  end.
Proof. apply handle_connect_effects. Qed.

(** C13: when a connection is relayed, the client was told so exactly once and
    no byte of it was lost: what was read to sniff the name was sent first on
    the connection opened last (after the gateway's handshake, if it goes
    through the gateway), the rest is still on the client's stream, and what
    the gateway sent past its accepting answer went down to the client.  A
    connection that fails is never relayed. *)
Theorem connect_keeps_stream `{UnicodeData} `{RuleLibs} (env : environment) (routes : RuleSet)
    (GATEWAY_PROXY : option SocketAddr) (w : surroundings) (target : Target) (port : Z) (s : server) :
  bytes_ok (incoming (client s)) ->
  match handle_connect env routes GATEWAY_PROXY w target port s with
  | (Done _, s') => exists es, log s' = log s ++ es /\ relay_ready w target port s s' es
  | (Fail _, s') => effects quiet s s'
  | _ => False
  end.
Proof. apply handle_connect_stream. Qed.

(** A connection to an address that names itself in its first bytes, routed by
    that name. *)
Definition sample_routes : RuleSet :=
  rules_parse (H := ascii_only) (lit "ads.example") (lit "private").

Definition sample_hello : list Z := utf8 (lit "GET / HTTP/1.1" ++ crlf ++ lit "Host: tracker.ads.example" ++ crlf ++ crlf).

Definition sample_client (data : list Z) : server := mkServer (mkTcpStream data [] None None) true [].

Definition sample_world (refuses : bool) : surroundings :=
  mkSurroundings (inr (SockV4 [127; 0; 0; 1] 50000)) (Some 4096) (fun _ => inl NoCleanEndpoint)
    (fun _ _ => if refuses then Some NoCleanEndpoint else None) (fun _ _ => None) false [] false
    (inl NotFound) (fun _ => None) None None.

Definition sample_connect (refuses : bool) (data : list Z) : aresult unit * server :=
  handle_connect (H := ascii_only) (fun _ => None) sample_routes None (sample_world refuses)
    (TIp (V4 [93; 184; 216; 34])) 80 (sample_client data).

Lemma connect_follows_route_witness :
  (sample_connect false sample_hello).1 = Done tt /\ log (sample_connect false sample_hello).2 = [] /\
  announced (H := ascii_only) (fun _ => None) sample_routes (sample_world false)
    (TIp (V4 [93; 184; 216; 34])) (sample_client sample_hello) = Some (lit "tracker.ads.example") /\
  effects (permitted (sample_world false) Block)
    (sample_client sample_hello) (sample_connect false sample_hello).2.
Proof.
  split; [by vm_compute|]. split; [by vm_compute|]. split; [by vm_compute|].
  pose proof (connect_follows_route (H := ascii_only) (fun _ => None) sample_routes None (sample_world false)
    (TIp (V4 [93; 184; 216; 34])) 80 (sample_client sample_hello)
    (bool_decide_unpack (bytes_ok sample_hello) I)) as Hc.
  change (handle_connect _ _ _ _ _ _ _) with (sample_connect false sample_hello) in Hc.
  replace (decide_route _ _ _ _) with Block in Hc by (by vm_compute).
  by destruct (sample_connect false sample_hello) as [[]].
Defined.

Lemma connect_keeps_stream_witness :
  let r := sample_connect false [1; 2; 3] in
  log r.2 = [OpenTcp (SockV4 [93; 184; 216; 34] 80); TunnelSend [1; 2; 3]; RelayTunneled] /\
  match r with
  | (Done _, s') => exists es, log s' = [] ++ es /\
      relay_ready (sample_world false) (TIp (V4 [93; 184; 216; 34])) 80 (sample_client [1; 2; 3]) s' es
  | (Fail _, s') => effects quiet (sample_client [1; 2; 3]) s'
  | _ => False
  end.
Proof.
  intros r. split; [by vm_compute|].
  apply (connect_keeps_stream (H := ascii_only) (fun _ => None) sample_routes None (sample_world false)
    (TIp (V4 [93; 184; 216; 34])) 80 (sample_client [1; 2; 3])).
  repeat constructor; unfold byte_ok; lia.
Defined.

(** A client whose name was sniffed has been told that it is connected; when
    the tunnel then refuses the connection it is sent a failure reply all the
    same, ten bytes its application takes for data. *)
Example second_reply_after_sniffing :
  let r := sample_connect true [1; 2; 3] in
  r.1 = Fail NoCleanEndpoint /\ outgoing (client r.2) = success_reply ++ reply_bytes REP_GENERAL.
Proof. by vm_compute. Qed.
