(* ===== verification/SocksUdp.v ===== *)
(** * The SOCKS5 listener: UDP associations (src/native/aether/aether/src/socks.rs)

    [handle_udp_associate], which carries a client's datagrams through the
    tunnel or directly, and [handle_udp_over_connector], which carries DNS
    lookups over TCP.  Each [select!] loop is a fold over the events that
    reach it. *)

From stdpp Require Import base list option.
From Stdlib Require Import ZArith Lia.
From S2P Require Import Prelude RustStr StrFacts Net Error Streams Sysprofile Routing SocksWire Socks.

Definition expected_udp_source (control_peer : SocketAddr) (requested : Target) : IpAddr :=
  match requested with
  | TIp ip => if negb (is_unspecified ip) then normalize_ip ip else normalize_ip (sock_ip control_peer)
  | TDomain _ => normalize_ip (sock_ip control_peer)
  end.

Definition udp_source_allowed (expected_ip : IpAddr) (latched : option SocketAddr) (from : SocketAddr) : bool :=
  match latched with
  | Some known => bool_decide (known = from)
  | None => bool_decide (normalize_ip (sock_ip from) = normalize_ip expected_ip)
  end.

(** ** Through the tunnel *)

(** What reaches the loop; a client's datagram comes with what the resolver of
    the tunnel and the system's resolver say of a name in it. *)
Inductive udp_event :=
| FromClient (datagram : list Z) (from : SocketAddr)
    (tunnel_dns : str -> option IpAddr) (system_dns : str -> Z -> option SocketAddr)
| RelayFailed
| FromTunnel (src : SocketAddr) (data : list Z)
| TunnelGone
| FromOutside (from : SocketAddr) (datagram : list Z)
| OutsideFailed
| ControlData
| ControlClosed.

Inductive udp_emission :=
| ToTunnel (dst : SocketAddr) (payload : list Z)
| ToOutside (addr : SocketAddr) (payload : list Z)
| ToClient (packet : list Z) (to : SocketAddr).

Record assoc := mkAssoc { latched : option SocketAddr; refusals : Z }.

Section associate.
Context `{UnicodeData} `{RuleLibs}.
Context (routes : RuleSet) (control_peer : SocketAddr) (expected_ip : IpAddr).

(** An accepted datagram: blocked, sent out directly, or through the tunnel. *)
Definition forward_datagram (datagram : list Z) (tunnel_dns : str -> option IpAddr)
    (system_dns : str -> Z -> option SocketAddr) : outcome False (list udp_emission) :=
  match parse_udp_request datagram with
  | Done (dst, (dst_port, payload)) =>
      match decide_rules routes (host_of dst) dst_port with
      | Block => Done []
      | Direct =>
          let outside :=
            match dst with
            | TIp ip => Some (sock ip dst_port)
            | TDomain name => system_dns name dst_port
            end in
          match outside with
          | Some addr =>
              if negb (direct_target_allowed (sock_ip control_peer) (sock_ip addr)) then Done []
              else Done [ToOutside addr payload]
          | None => Done []
          end
      | Proxy =>
          match dst with
          | TIp ip => Done [ToTunnel (sock ip dst_port) payload]
          | TDomain name =>
              match tunnel_dns name with
              | Some ip => Done [ToTunnel (sock ip dst_port) payload]
              | None => Done []
              end
          end
      end
  | Fail _ => Done []
  | Panic => Panic
  | Diverge => Diverge
  end.

Definition answer_client (st : assoc) (src : SocketAddr) (data : list Z) : list udp_emission :=
  match latched st with Some c => [ToClient (build_udp_reply src data) c] | None => [] end.

(** One turn: the state, what is sent, and whether the loop ends. *)
Definition assoc_turn (st : assoc) (e : udp_event) : outcome False (assoc * list udp_emission * bool) :=
  match e with
  | FromClient datagram from tunnel_dns system_dns =>
      let datagram := ztake 65535 datagram in
      if negb (udp_source_allowed expected_ip (latched st) from) then
        Done (mkAssoc (latched st) (refusals st + 1), [], false)
      else
        let st := mkAssoc (match latched st with None => Some from | known => known end) (refusals st) in
        out ← forward_datagram datagram tunnel_dns system_dns;
        Done (st, out, false)
  | RelayFailed | TunnelGone | ControlClosed => Done (st, [], true)
  | FromTunnel src data => Done (st, answer_client st src data, false)
  | FromOutside from datagram => Done (st, answer_client st from (ztake 65535 datagram), false)
  | OutsideFailed | ControlData => Done (st, [], false)
  end.

Fixpoint assoc_loop (st : assoc) (events : list udp_event) : outcome False (list udp_emission) :=
  match events with
  | [] => Done []
  | e :: events =>
      '(st, out, stop) ← assoc_turn st e;
      if (stop : bool) then Done out
      else rest ← assoc_loop st events; Done (out ++ rest)
  end.
End associate.

(** [handle_udp_associate]: [relay_addr] is the relay socket's address, and
    [open_udp] and [direct_bind] answer the two sockets it opens. *)
Definition handle_udp_associate `{UnicodeData} `{RuleLibs} (routes : RuleSet) (sock : tcp)
    (control_peer relay_addr : IoErrorKind + SocketAddr) (open_udp direct_bind : option AetherError)
    (requested : Target) (events : list udp_event) : aresult (tcp * list udp_emission) :=
  match control_peer with
  | inl e => Fail (Io e)
  | inr control_peer =>
      let expected_ip := expected_udp_source control_peer requested in
      match relay_addr with
      | inl e => Fail (Io e)
      | inr relay_addr =>
          sock ← reply_bound sock relay_addr;
          match open_udp, direct_bind with
          | Some e, _ => Fail e
          | None, Some e => Fail e
          | None, None =>
              match assoc_loop routes control_peer expected_ip (mkAssoc None 0) events with
              | Done out => Done (sock, out)
              | Fail f => match f : False with end
              | Panic => Panic
              | Diverge => Diverge
              end
          end
      end
  end.

(** ** The association serves one client *)

Section associate_facts.
Context `{UnicodeData} `{RuleLibs}.
Context (routes : RuleSet) (control_peer : SocketAddr) (expected_ip : IpAddr).

Definition event_ok (e : udp_event) : Prop :=
  match e with FromClient d _ _ _ => bytes_ok d | _ => True end.

Definition ends_loop (e : udp_event) : bool :=
  match e with RelayFailed | TunnelGone | ControlClosed => true | _ => false end.

Fixpoint until_end (events : list udp_event) : list udp_event :=
  match events with
  | [] => []
  | e :: events => if ends_loop e then [] else e :: until_end events
  end.

(** What an event sends on behalf of the client [c]. *)
Definition serve (c : SocketAddr) (e : udp_event) : list udp_emission :=
  match e with
  | FromClient d from tunnel_dns system_dns =>
      if decide (from = c) then
        match forward_datagram routes control_peer (ztake 65535 d) tunnel_dns system_dns with
        | Done out => out
        | _ => []
        end
      else []
  | FromTunnel src data => [ToClient (build_udp_reply src data) c]
  | FromOutside from d => [ToClient (build_udp_reply from (ztake 65535 d)) c]
  | _ => []
  end.

(** The specification: up to the end of the loop, the first datagram from the
    expected address settles the client, and the rest is on its behalf. *)
Fixpoint association (events : list udp_event) : list udp_emission :=
  match events with
  | [] => []
  | e :: rest =>
      if ends_loop e then []
      else
        match e with
        | FromClient _ from _ _ =>
            if udp_source_allowed expected_ip None from then flat_map (serve from) (until_end events)
            else association rest
        | _ => association rest
        end
  end.

(** [c] sent [payload] for a target and port the rules decide [action] for. *)
Definition sent_by (events : list udp_event) (c : SocketAddr) (action : Action) (p : Z) (payload : list Z) : Prop :=
  exists d tunnel_dns system_dns t, In (FromClient d c tunnel_dns system_dns) events /\
    parse_udp_request (ztake 65535 d) = Done (t, (p, payload)) /\ decide_rules routes (host_of t) p = action.

(** What may be sent on behalf of [c]: datagrams of its own, each where the
    rules allow it, and answers to it. *)
Definition emission_for (events : list udp_event) (c : SocketAddr) (e : udp_emission) : Prop :=
  match e with
  | ToTunnel dst payload => sent_by events c Proxy (sock_port dst) payload
  | ToOutside addr payload =>
      local_only (sock_ip control_peer) (sock_ip addr) /\
      exists p, sent_by events c Direct p payload
  | ToClient packet to => to = c /\ exists src data, packet = build_udp_reply src data
  end.

Lemma forward_datagram_spec d tunnel_dns system_dns c events :
  bytes_ok d -> In (FromClient d c tunnel_dns system_dns) events ->
  exists out, forward_datagram routes control_peer (ztake 65535 d) tunnel_dns system_dns = Done out /\
    Forall (emission_for events c) out.
Proof.
  intros Hb Hin. unfold forward_datagram.
  pose proof (parse_udp_request_total (ztake 65535 d) (bytes_ok_ztake _ _ Hb)) as Ht.
  destruct (parse_udp_request (ztake 65535 d)) as [[t [port payload]]|[]| |] eqn:Hp; simpl in Ht; try done.
  2: { exists []. by split. }
  destruct (decide_rules routes (host_of t) port) eqn:Ha.
  - destruct t as [ip|name].
    + eexists. split; [done|]. constructor; [|done]. exists d, tunnel_dns, system_dns, (TIp ip).
      by rewrite sock_port_sock.
    + destruct (tunnel_dns name) as [ip|]; [|exists []; by split].
      eexists. split; [done|]. constructor; [|done]. exists d, tunnel_dns, system_dns, (TDomain name).
      by rewrite sock_port_sock.
  - set (outside := match t with TIp ip => Some (sock ip port) | TDomain name => system_dns name port end).
    destruct outside as [addr|]; [|exists []; by split].
    destruct (direct_target_allowed (sock_ip control_peer) (sock_ip addr)) eqn:Hd; cbn [negb].
    + eexists. split; [done|]. constructor; [|done]. split; [by apply direct_target_allowed_local|].
      by exists port, d, tunnel_dns, system_dns, t.
    + exists []. by split.
  - exists []. by split.
Qed.

Lemma assoc_loop_latched c n events :
  Forall event_ok events ->
  assoc_loop routes control_peer expected_ip (mkAssoc (Some c) n) events
  = Done (flat_map (serve c) (until_end events)).
Proof.
  revert n. induction events as [|e events IH]; intros n Hok; [done|].
  apply Forall_cons_iff in Hok as [He Hok]. cbn [assoc_loop until_end].
  destruct e as [d from td sd| |src data| |from d| | |]; cbn [assoc_turn mbind outcome_bind ends_loop flat_map];
    try (rewrite IH by done; done); try done.
  cbn [latched udp_source_allowed refusals]. cbn [serve]. destruct (decide (from = c)) as [->|Hne].
  - rewrite bool_decide_eq_true_2 by done. cbn [negb].
    destruct (forward_datagram_spec d td sd c [FromClient d c td sd] He ltac:(by left)) as (out & -> & _).
    cbn [mbind outcome_bind]. by rewrite IH.
  - rewrite bool_decide_eq_false_2 by congruence. cbn [negb mbind outcome_bind]. by rewrite IH.
Qed.

Lemma assoc_loop_association n events :
  Forall event_ok events ->
  assoc_loop routes control_peer expected_ip (mkAssoc None n) events = Done (association events).
Proof.
  revert n. induction events as [|e events IH]; intros n Hok; [done|].
  pose proof Hok as [He Hok']%Forall_cons_iff. cbn [assoc_loop association].
  destruct e as [d from td sd| |src data| |from d| | |]; cbn [assoc_turn mbind outcome_bind ends_loop];
    try (rewrite IH by done; done); try done.
  cbn [latched refusals]. destruct (udp_source_allowed expected_ip None from) eqn:Ha; cbn [negb].
  - destruct (forward_datagram_spec d td sd from [FromClient d from td sd] He ltac:(by left)) as (out & Hf & _).
    rewrite Hf. cbn [mbind outcome_bind]. rewrite assoc_loop_latched by done. cbn [mbind outcome_bind until_end ends_loop flat_map].
    cbn [serve]. rewrite decide_True by done. by rewrite Hf.
  - cbn [mbind outcome_bind]. by rewrite IH.
Qed.

Lemma serve_allowed c events l :
  Forall event_ok l -> incl l events -> Forall (emission_for events c) (flat_map (serve c) l).
Proof.
  intros Hok Hincl. induction Hok as [|e l He Hok IH]; [constructor|].
  assert (Hin : In e events) by (apply Hincl; by left).
  cbn [flat_map]. apply Forall_app. split; [|apply IH; intros x Hx; apply Hincl; by right].
  destruct e as [d from td sd| |src data| |from d| | |]; cbn [serve]; try constructor; try done.
  - destruct (decide (from = c)) as [->|]; [|constructor].
    destruct (forward_datagram_spec d td sd c events He Hin) as (out & -> & Hout). done.
  - split; [done|]. by eexists _, _.
  - split; [done|]. by eexists _, _.
Qed.

Lemma until_end_incl events : incl (until_end events) events.
Proof.
  induction events as [|e events IH]; [intros x []|]. cbn [until_end]. destruct (ends_loop e); [by intros ? []|].
  intros x [<-|Hx]; [by left | right; by apply IH].
Qed.

Lemma until_end_ok events : Forall event_ok events -> Forall event_ok (until_end events).
Proof.
  rewrite !List.Forall_forall. intros Hok x Hx. by apply Hok, until_end_incl.
Qed.

Lemma association_allowed all events :
  Forall event_ok events -> incl events all ->
  association events = [] \/
  exists c, normalize_ip (sock_ip c) = normalize_ip expected_ip /\
    Forall (emission_for all c) (association events).
Proof.
  intros Hok. induction Hok as [|e events He Hok IH]; intros Hincl; [by left|].
  cbn [association]. destruct (ends_loop e) eqn:Hend; [by left|].
  assert (Hrest : incl events all) by (intros x Hx; apply Hincl; by right).
  destruct e as [d from td sd| |src data| |from d| | |]; try (by apply IH).
  destruct (udp_source_allowed expected_ip None from) eqn:Ha; [|by apply IH]. right. exists from.
  split; [by apply bool_decide_eq_true in Ha|]. apply serve_allowed.
  - apply until_end_ok. by constructor.
  - intros x Hx. apply Hincl. by apply until_end_incl.
Qed.
End associate_facts.

(** ** DNS over a TCP connector *)

Definition DNS_PORT : Z := 53.
Definition DNS_MAX_IN_FLIGHT : Z := 32.

(** The bound of the channel the answers come back on. *)
Definition ANSWERS_CAPACITY : Z := 64.

(** A DNS message on a stream is preceded by its length. *)
Definition dns_over_stream (stream : tcp) (query : list Z) : aresult (list Z * tcp) :=
  if zlen query >? u16_max then Fail (Io (OtherIo None))
  else
    stream ← write_all stream (be_bytes 2 (u16 (zlen query)) ++ query);
    '(len, stream) ← read_exact stream 2;
    a ← idx len 0;
    b ← idx len 1;
    read_exact stream (be_u16 a b).

(** [LookupEnds] is the end of a spawned lookup, which gives back its permit
    and queues its answer, if there is one; while the channel is full it does
    not end. *)
Inductive connector_event :=
| DnsClient (datagram : list Z) (from : SocketAddr)
| DnsRelayFailed
| LookupEnds (answer : option (SocketAddr * list Z))
| AnswerReady
| DnsControlData
| DnsControlClosed.

Inductive connector_emission :=
| SpawnLookup (resolver : SocketAddr) (payload : list Z)
| AnswerClient (packet : list Z) (to : SocketAddr).

Record connector := mkConnector {
  cn_client : option SocketAddr;
  cn_refused : Z;
  dropped_udp : Z;
  in_flight : Z;
  answers : list (SocketAddr * list Z);
}.

Definition connector_start : connector := mkConnector None 0 0 0 [].

Section connector.
Context (expected_ip : IpAddr).

(** A datagram of the association's client. *)
Definition connector_datagram (st : connector) (datagram : list Z)
    : outcome False (connector * list connector_emission) :=
  match parse_udp_request datagram with
  | Done (dst, (dst_port, payload)) =>
      if negb (dst_port =? DNS_PORT) then
        Done (mkConnector (cn_client st) (cn_refused st) (dropped_udp st + 1) (in_flight st) (answers st), [])
      else
        match dst with
        | TDomain _ => Done (st, [])
        | TIp ip =>
            if in_flight st >=? DNS_MAX_IN_FLIGHT then Done (st, [])
            else
              Done (mkConnector (cn_client st) (cn_refused st) (dropped_udp st) (in_flight st + 1) (answers st),
                    [SpawnLookup (sock ip dst_port) payload])
        end
  | Fail _ => Done (st, [])
  | Panic => Panic
  | Diverge => Diverge
  end.

Definition connector_turn (st : connector) (e : connector_event)
    : outcome False (connector * list connector_emission * bool) :=
  match e with
  | DnsClient datagram from =>
      let datagram := ztake 65535 datagram in
      if negb (udp_source_allowed expected_ip (cn_client st) from) then
        Done (mkConnector (cn_client st) (cn_refused st + 1) (dropped_udp st) (in_flight st) (answers st), [], false)
      else
        let st := mkConnector (match cn_client st with None => Some from | known => known end)
                    (cn_refused st) (dropped_udp st) (in_flight st) (answers st) in
        '(st, out) ← connector_datagram st datagram;
        Done (st, out, false)
  | LookupEnds answer =>
      if (in_flight st >? 0) && (zlen (answers st ++ option_list answer) <=? ANSWERS_CAPACITY) then
        Done (mkConnector (cn_client st) (cn_refused st) (dropped_udp st) (in_flight st - 1)
                (answers st ++ option_list answer), [], false)
      else Done (st, [], false)
  | AnswerReady =>
      match answers st with
      | [] => Done (st, [], false)
      | (src, answer) :: answers =>
          Done (mkConnector (cn_client st) (cn_refused st) (dropped_udp st) (in_flight st) answers,
                match cn_client st with Some c => [AnswerClient (build_udp_reply src answer) c] | None => [] end,
                false)
      end
  | DnsControlData => Done (st, [], false)
  | DnsRelayFailed | DnsControlClosed => Done (st, [], true)
  end.

(** The states reached and what was sent on the way. *)
Inductive connector_reaches : connector -> list connector_emission -> Prop :=
| connector_reaches_start : connector_reaches connector_start []
| connector_reaches_turn st sent e st' out stop :
    connector_reaches st sent -> (match e with DnsClient d _ => bytes_ok d | _ => True end) ->
    connector_turn st e = Done (st', out, stop) -> connector_reaches st' (sent ++ out).

(** ** The connector's bounds *)

Definition is_lookup (e : connector_emission) : bool :=
  match e with SpawnLookup _ _ => true | AnswerClient _ _ => false end.

Definition connector_inv (st : connector) (sent : list connector_emission) : Prop :=
  0 <= in_flight st <= DNS_MAX_IN_FLIGHT /\
  in_flight st + zlen (answers st) + zlen (List.filter (fun e => negb (is_lookup e)) sent)
    <= zlen (List.filter is_lookup sent) /\
  zlen (answers st) <= ANSWERS_CAPACITY /\
  (forall c, cn_client st = Some c -> normalize_ip (sock_ip c) = normalize_ip expected_ip) /\
  Forall (fun e => match e with
                   | SpawnLookup r payload => sock_port r = DNS_PORT
                   | AnswerClient packet to => cn_client st = Some to
                   end) sent.

Lemma connector_datagram_spec st d :
  bytes_ok d ->
  exists st' out, connector_datagram st d = Done (st', out) /\
    cn_client st' = cn_client st /\ answers st' = answers st /\
    ((in_flight st' = in_flight st /\ out = []) \/
     (in_flight st < DNS_MAX_IN_FLIGHT /\ in_flight st' = in_flight st + 1 /\
      exists r payload, out = [SpawnLookup r payload] /\ sock_port r = DNS_PORT)).
Proof.
  intros Hb. unfold connector_datagram. pose proof (parse_udp_request_total d Hb) as Ht.
  destruct (parse_udp_request d) as [[t [p payload]]|[]| |]; simpl in Ht; try done.
  2: { exists st, []. split; [done|]. split; [done|]. split; [done|]. by left. }
  destruct (p =? DNS_PORT) eqn:Hp; cbn [negb].
  2: { eexists _, _. split; [done|]. split; [done|]. split; [done|]. by left. }
  destruct t as [ip|name].
  2: { exists st, []. split; [done|]. split; [done|]. split; [done|]. by left. }
  destruct (in_flight st >=? DNS_MAX_IN_FLIGHT) eqn:Hf.
  { exists st, []. split; [done|]. split; [done|]. split; [done|]. by left. }
  eexists _, _. split; [done|]. split; [done|]. split; [done|]. right.
  split; [lia|]. split; [done|]. eexists _, _. split; [done|]. rewrite sock_port_sock. lia.
Qed.

Lemma connector_turn_total st e :
  (match e with DnsClient d _ => bytes_ok d | _ => True end) -> exists r, connector_turn st e = Done r.
Proof.
  intros Hok. destruct e as [d from| |answer| | |]; cbn [connector_turn]; eauto.
  - destruct (negb _); [eauto|].
    destruct (connector_datagram_spec (mkConnector (match cn_client st with None => Some from | known => known end)
      (cn_refused st) (dropped_udp st) (in_flight st) (answers st)) (ztake 65535 d) (bytes_ok_ztake _ _ Hok))
      as (st' & out & -> & _). simpl. eauto.
  - destruct (_ && _); eauto.
  - destruct (answers st) as [|[src a] rest]; eauto.
Qed.

Lemma connector_inv_sent st st' sent out :
  connector_inv st sent -> (cn_client st = None \/ cn_client st' = cn_client st) ->
  Forall (fun e => match e with
                   | SpawnLookup r payload => sock_port r = DNS_PORT
                   | AnswerClient packet to => cn_client st' = Some to
                   end) out ->
  Forall (fun e => match e with
                   | SpawnLookup r payload => sock_port r = DNS_PORT
                   | AnswerClient packet to => cn_client st' = Some to
                   end) (sent ++ out).
Proof.
  intros (_ & _ & _ & _ & Hs) Hc Hout. apply Forall_app. split; [|done].
  eapply List.Forall_impl; [|exact Hs]. intros [r payload|packet to] He; [done|].
  destruct Hc as [Hc|Hc]; congruence.
Qed.

Lemma filter_app_zlen {A} (f : A -> bool) l k :
  zlen (List.filter f (l ++ k)) = zlen (List.filter f l) + zlen (List.filter f k).
Proof. by rewrite List.filter_app, zlen_app. Qed.

Lemma connector_inv_quiet st st' sent :
  connector_inv st sent -> cn_client st' = cn_client st -> 0 <= in_flight st' <= DNS_MAX_IN_FLIGHT ->
  in_flight st' + zlen (answers st') <= in_flight st + zlen (answers st) ->
  zlen (answers st') <= ANSWERS_CAPACITY -> connector_inv st' (sent ++ []).
Proof.
  intros Hinv Hc Hf Hsum Hcap. pose proof (connector_inv_sent st st' sent [] Hinv (or_intror Hc) ltac:(constructor)) as Hs.
  destruct Hinv as (_ & Hcount & _ & Hclient & _). rewrite app_nil_r in *.
  split; [done|]. split; [lia|]. split; [done|]. split; [by rewrite Hc|done].
Qed.

Lemma connector_client_inv st sent d from st' out stop :
  connector_inv st sent -> bytes_ok d ->
  connector_turn st (DnsClient d from) = Done (st', out, stop) -> connector_inv st' (sent ++ out).
Proof.
  intros Hinv Hok Ht. cbn [connector_turn] in Ht. pose proof Hinv as (Hf & Hcount & Hcap & Hclient & _).
  destruct (udp_source_allowed expected_ip (cn_client st) from) eqn:Ha; cbn [negb] in Ht.
  2: { injection Ht as <- <- _. by apply (connector_inv_quiet st). }
  set (st1 := mkConnector _ _ _ _ _) in Ht.
  destruct (connector_datagram_spec st1 (ztake 65535 d) (bytes_ok_ztake _ _ Hok)) as (st2 & o & Hd & Hc & Han & Hcase).
  rewrite Hd in Ht. cbn [mbind outcome_bind] in Ht. injection Ht as <- <- _.
  assert (Hnew : cn_client st = None \/ cn_client st2 = cn_client st)
    by (rewrite Hc; cbn [st1 cn_client]; destruct (cn_client st); [by right | by left]).
  assert (Hc2 : forall c, cn_client st2 = Some c -> normalize_ip (sock_ip c) = normalize_ip expected_ip).
  { intros c. rewrite Hc. cbn [st1 cn_client]. destruct (cn_client st) as [k|]; intros [= <-]; [by apply Hclient|].
    by apply bool_decide_eq_true in Ha. }
  cbn [st1 in_flight answers] in *.
  split; [destruct Hcase as [[-> _]|(? & -> & _)]; lia|].
  rewrite !filter_app_zlen, Han. split.
  { destruct Hcase as [[-> ->]|(Hl & -> & r & payload & -> & _)]; cbn [List.filter is_lookup negb];
      rewrite ?zlen_cons, ?zlen_nil; lia. }
  split; [done|]. split; [done|]. apply (connector_inv_sent st); [done|done|].
  destruct Hcase as [[_ ->]|(_ & _ & r & payload & -> & Hr)]; by repeat constructor.
Qed.

Lemma connector_answer_inv st sent st' out stop :
  connector_inv st sent -> connector_turn st AnswerReady = Done (st', out, stop) -> connector_inv st' (sent ++ out).
Proof.
  intros Hinv Ht. pose proof Hinv as (Hf & Hcount & Hcap & Hclient & _). cbn [connector_turn] in Ht.
  destruct (answers st) as [|[src a] rest] eqn:Hans; injection Ht as <- <- _.
  { apply (connector_inv_quiet st); try done; rewrite ?Hans; lia. }
  rewrite zlen_cons in Hcount, Hcap. split; [done|]. rewrite !filter_app_zlen. cbn [in_flight answers cn_client]. split.
  { destruct (cn_client st); cbn [List.filter is_lookup negb]; rewrite ?zlen_cons, ?zlen_nil; lia. }
  split; [lia|]. split; [done|]. apply (connector_inv_sent st); [done | by right|].
  cbn [cn_client]. destruct (cn_client st); by repeat constructor.
Qed.

Lemma connector_turn_inv st sent e st' out stop :
  connector_inv st sent -> (match e with DnsClient d _ => bytes_ok d | _ => True end) ->
  connector_turn st e = Done (st', out, stop) -> connector_inv st' (sent ++ out).
Proof.
  intros Hinv Hok Ht. pose proof Hinv as (Hf & _ & Hcap & _).
  destruct e as [d from| |answer| | |].
  - by apply (connector_client_inv st sent d from st' out stop).
  - injection Ht as <- <- _. by apply (connector_inv_quiet st).
  - cbn [connector_turn] in Ht. destruct ((in_flight st >? 0) && _) eqn:Hg; injection Ht as <- <- _.
    + apply (connector_inv_quiet st); cbn [in_flight answers]; try done; try bool_lia.
      rewrite zlen_app. destruct answer; unfold zlen; simpl; lia.
    + by apply (connector_inv_quiet st).
  - by apply (connector_answer_inv st sent st' out stop).
  - injection Ht as <- <- _. by apply (connector_inv_quiet st).
  - injection Ht as <- <- _. by apply (connector_inv_quiet st).
Qed.

Lemma connector_reaches_inv st sent : connector_reaches st sent -> connector_inv st sent.
Proof.
  induction 1 as [|st sent e st' out stop _ IH Hok Ht].
  - repeat split; try done; try (cbn; lia).
  - by apply (connector_turn_inv st sent e st' out stop).
Qed.
End connector.

Lemma dns_over_stream_answered query answer rest out re :
  zlen query <= u16_max -> zlen answer <= u16_max ->
  dns_over_stream (mkTcpStream (be_bytes 2 (zlen answer) ++ answer ++ rest) out None re) query
  = Done (answer, mkTcpStream rest (out ++ be_bytes 2 (zlen query) ++ query) None re).
Proof.
  intros Hq Ha. pose proof (zlen_nonneg query). pose proof (zlen_nonneg answer). unfold u16_max in *.
  unfold dns_over_stream. rewrite Z.gtb_ltb, (proj2 (Z.ltb_ge _ _)) by (unfold u16_max; lia).
  unfold write_all, u16. rewrite Z.mod_small by lia.
  cbn [write_error incoming outgoing read_end mbind outcome_bind].
  rewrite (be_bytes_2 (zlen answer)), read_exact_app by done. cbn [mbind outcome_bind].
  rewrite (idx_known _ 0 ((zlen answer / 256) `mod` 256)), (idx_known _ 1 (zlen answer `mod` 256)) by done.
  cbn [mbind outcome_bind]. by rewrite be_u16_bytes, read_exact_app by lia.
Qed.

(** ** Properties *)

(** C14: a UDP association serves exactly one client: after the client is told
    the relay's address, the first datagram from the expected source settles
    it, and from then on precisely its datagrams are forwarded, each once and
    in order, into the tunnel or outside as the rules decide (this machine's
    loopback only for a local client, blocked ones never), and every answer
    goes to it and to nobody else; no datagram ends or crashes the loop. *)
Theorem udp_association_one_client `{UnicodeData} `{RuleLibs} (routes : RuleSet) (sock : tcp)
    (control_peer relay_addr : IoErrorKind + SocketAddr) (open_udp direct_bind : option AetherError)
    (requested : Target) (events : list udp_event) :
  Forall event_ok events ->
  match handle_udp_associate routes sock control_peer relay_addr open_udp direct_bind requested events with
  | Done (sock', out) => exists p relay, control_peer = inr p /\ relay_addr = inr relay /\
      exchanged sock sock' [] (reply_bound_bytes relay) /\
      out = association routes p (expected_udp_source p requested) events /\
      (out = [] \/ exists c, normalize_ip (sock_ip c) = normalize_ip (expected_udp_source p requested) /\
                     Forall (emission_for routes p events c) out)
  | Fail _ => True
  | _ => False
  end.
Proof.
  intros Hok. unfold handle_udp_associate, reply_bound, write_all.
  destruct control_peer as [e|p]; [done|]. destruct relay_addr as [e|relay]; [done|].
  destruct (write_error sock); [done|]. cbn [mbind outcome_bind].
  destruct open_udp; [done|]. destruct direct_bind; [done|].
  rewrite assoc_loop_association by done. exists p, relay. do 2 (split; [done|]). split; [done|]. split; [done|].
  apply association_allowed; [done | apply incl_refl].
Qed.

Definition sample_datagram (o : list Z) (payload : list Z) : list Z := datagram_bytes (TIp (V4 o)) [] 53 payload.

Definition sample_events : list udp_event :=
  let from d a := FromClient d a (fun _ => None) (fun _ _ => None) in
  [from (sample_datagram [9; 9; 9; 9] [1]) (SockV4 [10; 0; 0; 7] 4000);
   from (sample_datagram [9; 9; 9; 9] [2]) (SockV4 [127; 0; 0; 1] 4000);
   from (sample_datagram [9; 9; 9; 9] [3]) (SockV4 [127; 0; 0; 1] 4001);
   from (sample_datagram [192; 168; 1; 1] [4]) (SockV4 [127; 0; 0; 1] 4000);
   FromTunnel (SockV4 [9; 9; 9; 9] 53) [5]; ControlClosed].

(** Only the local client at port 4000 is served; the private target goes out
    directly. *)
Lemma udp_association_one_client_witness :
  match handle_udp_associate (H := ascii_only) (rules_parse (H := ascii_only) [] (lit "private"))
      (mkTcpStream [] [] None None) (inr (SockV4 [127; 0; 0; 1] 50000)) (inr (SockV4 [127; 0; 0; 1] 9))
      None None (TIp UNSPECIFIED_V4) sample_events with
  | Done (_, out) =>
      out = [ToTunnel (SockV4 [9; 9; 9; 9] 53) [2]; ToOutside (SockV4 [192; 168; 1; 1] 53) [4];
             ToClient (build_udp_reply (SockV4 [9; 9; 9; 9] 53) [5]) (SockV4 [127; 0; 0; 1] 4000)]
  | _ => False
  end.
Proof.
  pose proof (udp_association_one_client (H := ascii_only) (rules_parse (H := ascii_only) [] (lit "private"))
    (mkTcpStream [] [] None None) (inr (SockV4 [127; 0; 0; 1] 50000)) (inr (SockV4 [127; 0; 0; 1] 9))
    None None (TIp UNSPECIFIED_V4) sample_events
    ltac:(unfold sample_events; repeat (apply Forall_cons_2); try exact I; try apply List.Forall_nil;
          apply (bool_decide_unpack _); vm_compute; exact I)) as Ht.
  destruct (handle_udp_associate _ _ _ _ _ _ _ _) as [[sock' out]|e| |] eqn:E; try done.
  destruct Ht as (p & relay & [= <-] & _ & _ & -> & _). by vm_compute.
Defined.

(** C15: the connector that carries only DNS never has more than 32 lookups in
    flight nor more than 64 answers waiting, whatever clients send and however
    lookups end; it looks up only at port 53, answers only the client it
    settled on, which is at the expected address, and never answers more often
    than it looked up.  A lookup frames its query with its length and returns
    exactly the answer framed the same way. *)
Theorem dns_connector_bounded (expected_ip : IpAddr) (st : connector) (sent : list connector_emission) :
  connector_reaches expected_ip st sent ->
  connector_inv expected_ip st sent /\
  (forall e, match e with DnsClient d _ => bytes_ok d | _ => True end ->
     exists r, connector_turn expected_ip st e = Done r) /\
  (forall query answer rest out re, zlen query <= u16_max -> zlen answer <= u16_max ->
     dns_over_stream (mkTcpStream (be_bytes 2 (zlen answer) ++ answer ++ rest) out None re) query
     = Done (answer, mkTcpStream rest (out ++ be_bytes 2 (zlen query) ++ query) None re)).
Proof.
  intros Hr. split; [by apply connector_reaches_inv|]. split.
  - intros e. by apply connector_turn_total.
  - intros. by apply dns_over_stream_answered.
Qed.

Lemma dns_connector_bounded_witness :
  exists st sent, connector_reaches (V4 [127; 0; 0; 1]) st sent /\
    sent = [SpawnLookup (SockV4 [9; 9; 9; 9] 53) [7]] /\ connector_inv (V4 [127; 0; 0; 1]) st sent.
Proof.
  eexists _, _.
  assert (Hr : connector_reaches (V4 [127; 0; 0; 1])
    (mkConnector (Some (SockV4 [127; 0; 0; 1] 4000)) 0 0 1 []) ([] ++ [SpawnLookup (SockV4 [9; 9; 9; 9] 53) [7]])).
  { eapply (connector_reaches_turn _ connector_start []
      (DnsClient (sample_datagram [9; 9; 9; 9] [7]) (SockV4 [127; 0; 0; 1] 4000))).
    - constructor.
    - apply (bool_decide_unpack _). by vm_compute.
    - by vm_compute. }
  split; [exact Hr|]. split; [done|]. exact (proj1 (dns_connector_bounded _ _ _ Hr)).
Defined.
