(* ===== verification/SocksPair.v ===== *)
(** * The engine's SOCKS5 client against its SOCKS5 server

    [Upstream] dials out through a SOCKS5 proxy and [SocksWire] is one: chained
    engines speak to each other, so the two codecs must agree. *)

From stdpp Require Import base list option.
From Stdlib Require Import ZArith Lia.
From S2P Require Import Prelude RustStr StrFacts Net Error Streams Routing Upstream SocksWire.

(** What a client that connects to [target] writes up to the server's reply. *)
Definition client_request (u : Upstream.Upstream) (target : SocketAddr) : list Z :=
  Upstream.greeting u ++ Upstream.encode_request Upstream.CMD_CONNECT target.

(** What the server writes to a client it connects. *)
Definition server_answer (bound : SocketAddr) : list Z := [VER; 0] ++ reply_bound_bytes bound.

Lemma client_request_bytes u target :
  client_request u target
  = request_bytes [match Upstream.user u with Some _ => Upstream.AUTH_USERPASS | None => Upstream.AUTH_NONE end]
      CMD_CONNECT 0 (TIp (sock_ip target)) [] (sock_port target).
Proof.
  unfold client_request, Upstream.greeting, Upstream.encode_request, Upstream.encode_address, request_bytes.
  by destruct (sock_ip target).
Qed.

Lemma build_udp_reply_relay src data : build_udp_reply src data = Upstream.relay_send data src.
Proof.
  unfold build_udp_reply, Upstream.relay_send, Upstream.encode_udp_header, Upstream.encode_address.
  rewrite <- !app_assoc. by destruct (sock_ip src).
Qed.

Lemma relay_send_datagram target payload :
  Upstream.relay_send payload target = datagram_bytes (TIp (sock_ip target)) [] (sock_port target) payload.
Proof. rewrite <- build_udp_reply_relay. unfold build_udp_reply, datagram_bytes. by destruct (sock_ip target). Qed.

Lemma server_answer_accepted bound rest :
  server_answer bound ++ rest
  = Upstream.server_accepts Upstream.AUTH_NONE ++ [Upstream.VER; Upstream.REP_OK; 0] ++
    Upstream.encode_address bound ++ rest.
Proof.
  unfold server_answer, reply_bound_bytes, Upstream.server_accepts, Upstream.encode_address.
  destruct (sock_ip bound); cbn [app]; by rewrite <- ?app_assoc.
Qed.

Lemma encode_address_sock a : Upstream.encode_address a = Upstream.encode_address (sock (sock_ip a) (sock_port a)).
Proof. unfold Upstream.encode_address. by rewrite sock_ip_sock, sock_port_sock. Qed.

Lemma skipped_authentication u target name rest re :
  Upstream.user u = Some name ->
  Upstream.socks_connect u target (mkTcpStream ([VER; 0] ++ rest) [] None re)
  = Fail (Other (lit "the upstream proxy skipped authentication even though credentials are configured")).
Proof.
  intros Hu. unfold Upstream.socks_connect, Upstream.socks_greet, write_all. rewrite Hu.
  cbn [write_error incoming outgoing read_end mbind outcome_bind].
  rewrite (read_exact_app [VER; 0]) by done. by cbn.
Qed.

(** C16: the engine's own SOCKS5 client and server understand each other.  What
    the client writes for a target is read by the server as a CONNECT to that
    address and port with nothing left over, and the server's answer makes the
    client succeed with the bound address; a client with credentials refuses
    the server, which authenticates nobody.  A datagram the client frames
    reaches the server with its target and payload, and the server's answer
    reaches the client with its source and data. *)
Theorem socks_client_server_agree (u : Upstream.Upstream) (target bound : SocketAddr)
    (rest out payload : list Z) (re : option IoErrorKind) (room : Z) :
  sock_ok target -> sock_ok bound -> 0 <= room ->
  read_request (mkTcpStream (client_request u target ++ rest) out None re)
    = Done (CMD_CONNECT, TIp (sock_ip target), sock_port target, mkTcpStream rest (out ++ [VER; 0]) None re) /\
  match Upstream.user u with
  | None =>
      Upstream.socks_connect u target (mkTcpStream (server_answer bound ++ rest) [] None re)
      = Done (sock (sock_ip bound) (sock_port bound), mkTcpStream rest (client_request u target) None re)
  | Some _ =>
      exists e, Upstream.socks_connect u target (mkTcpStream (server_answer bound ++ rest) [] None re) = Fail e
  end /\
  parse_udp_request (Upstream.relay_send payload target)
    = Done (TIp (sock_ip target), (sock_port target, payload)) /\
  Upstream.relay_recv room (build_udp_reply bound payload)
    = Done (ztake room payload, sock (sock_ip bound) (sock_port bound)).
Proof.
  intros [Hti Htp] Hb Hroom. split; [|split; [|split]].
  - rewrite client_request_bytes. by apply read_request_bytes.
  - destruct (Upstream.user u) as [name|] eqn:Hu.
    + eexists. unfold server_answer. rewrite <- app_assoc. by apply (skipped_authentication _ _ name).
    + rewrite server_answer_accepted, encode_address_sock. destruct Hb as [Hbi Hbp].
      rewrite (Upstream.socks_connect_accepted u target Upstream.AUTH_NONE 0 _ (sock (sock_ip bound) (sock_port bound)));
        [done | by right | by constructor].
  - rewrite relay_send_datagram. by apply parse_udp_request_bytes.
  - rewrite build_udp_reply_relay. by apply Upstream.relay_recv_sent.
Qed.

Lemma socks_client_server_agree_witness :
  read_request (mkTcpStream (client_request (Upstream.mkUpstream Upstream.Socks5 (lit "h") 1080 None None)
                               Upstream.sample_target ++ [42]) [] None None)
  = Done (CMD_CONNECT, TIp (V4 [162; 159; 192; 1]), 2408, mkTcpStream [42] [VER; 0] None None).
Proof.
  apply (socks_client_server_agree (Upstream.mkUpstream Upstream.Socks5 (lit "h") 1080 None None)
    Upstream.sample_target Upstream.sample_target [42] [] [] None 0); [apply Upstream.sample_target_ok..|lia].
Defined.
