(* ===== verification/AetherNoize.v ===== *)
(** * WireGuard obfuscation (src/native/aether/aether/src/aethernoize.rs)

    The decoy datagrams sent around a WireGuard handshake.  An operation that
    sends them is a function to the list of datagrams it hands to the socket,
    in order: their sending is not checked by the source, and the pauses
    between them have no effect on what is sent.  Random values come from a
    generator ([Rand]), [CPS_COUNTER] is part of the state, the wall clock is
    an argument, and the [regex] and [hex] crates are the class [CpsSyntax].
    [u16] and [u32] arithmetic wraps, as in a release build. *)

From stdpp Require Import base list option.
From Stdlib Require Import ZArith Lia.
From S2P Require Import Prelude Rand RustStr StrFacts.

Record AetherNoizeConfig := mkNoise {
  i1 : option str; i2 : option str; i3 : option str; i4 : option str; i5 : option str;
  jc : Z; jc_before_hs : Z; jc_after_i1 : Z; jc_after_hs : Z;
  jmin : Z; jmax : Z;
  junk_interval : Z; handshake_delay : Z;        (* milliseconds *)
  allow_zero_size : bool;
}.

Definition off : AetherNoizeConfig := mkNoise None None None None None 0 0 0 0 0 0 0 0 false.

Definition light : AetherNoizeConfig := mkNoise
  (Some (lit "<b 0d0a0d0a><t><r 20-32>")) (Some (lit "<rc 24-48>")) None None None
  4 2 1 1 48 190 3 5 false.

Definition balanced : AetherNoizeConfig := mkNoise
  (Some (lit "<b 0d0a0d0a><t><rc 20-40>")) (Some (lit "<b 504f5354><rd 10-20><rc 20-30>"))
  (Some (lit "<r 30-50>")) None None
  6 3 2 1 64 256 2 8 false.

Definition aggressive : AetherNoizeConfig := mkNoise
  (Some (lit "<b 0d0a0d0a><t><rc 40-64>")) (Some (lit "<b 504f5354><t><rd 15-30><rc 30-50>"))
  (Some (lit "<b 474554><rc 40-60>")) (Some (lit "<r 60-100>")) (Some (lit "<c><rd 20-40>"))
  10 4 3 3 80 384 1 12 false.

Definition firewall : AetherNoizeConfig := mkNoise
  (Some (lit "<b 0d0a0d0a><t><rc 24-44>")) (Some (lit "<b 504f5354><c><rd 12-24><rc 24-36>"))
  (Some (lit "<b 474554><r 30-50>")) None None
  7 3 2 2 64 300 2 10 false.

Definition gfw : AetherNoizeConfig := mkNoise
  (Some (lit "<b 16030100><c><rc 48-72>")) (Some (lit "<b 0d0a0d0a><t><rd 20-40><rc 36-60>"))
  (Some (lit "<b 474554202f20485454502f312e31><rc 40-64>"))
  (Some (lit "<b 504f5354><c><r 64-110>")) (Some (lit "<rd 24-48><rc 32-56>"))
  12 5 3 4 96 420 1 16 true.

Definition is_enabled (cfg : AetherNoizeConfig) : bool :=
  (0 <? jc cfg) || match i1 cfg with Some _ => true | None => false end.

Definition from_profile (name : str) : AetherNoizeConfig :=
  let n := to_ascii_lowercase (trim name) in
  if str_eqb n (lit "off") || str_eqb n (lit "none") then off
  else if str_eqb n (lit "light") then light
  else if str_eqb n (lit "firewall") then firewall
  else if str_eqb n (lit "gfw") then gfw
  else if str_eqb n (lit "aggressive") || str_eqb n (lit "heavy") then aggressive
  else balanced.

(** [captures_iter] is the two groups of every match of the tag pattern: lower
    case letters after an opening angle bracket, then, white space skipped,
    everything up to the closing one.  [hex_decode] is [hex::decode]. *)
Class CpsSyntax := {
  captures_iter : str -> list (str * str);
  hex_decode : str -> option (list Z);
}.

Record noise (R : Type) := mkState { rng : R; cps_counter : Z }.
Arguments mkState {R}.
Arguments rng {R}.
Arguments cps_counter {R}.

Definition ALPHA : list Z := lit "abcdefghijklmnopqrstuvwxyzABCDEFGHIJKLMNOPQRSTUVWXYZ".
Definition DIGITS : list Z := lit "0123456789".

(** [chars[random_range(0..chars.len())]]. *)
Definition char_of (chars : list Z) (word : Z) : Z :=
  default 0 (zget chars (word `mod` zlen chars)).

Section Noise.
Context {R : Type} `{Rng R}.

Definition with_rng (s : noise R) (r : R) : noise R := mkState r (cps_counter s).

Definition parse_range (data : str) (r : R) : opt (Z * R) :=
  let single := Done (Z.min (default 0 (parse_uint u64_max (trim data))) 2048, r) in
  match split 45 data with
  | lo :: hi :: _ =>
      let lo := default 0 (parse_uint u64_max (trim lo)) in
      let hi := default 0 (parse_uint u64_max (trim hi)) in
      if (lo <? hi) && (0 <? lo) then
        '(n, r) ← pick r lo hi;
        Done (Z.min n 2048, r)
      else single
  | _ => single
  end.

(** A tag of random bytes: [f] shapes a draw. *)
Definition random_tag (f : Z -> Z) (data : str) (s : noise R) : opt (list Z * noise R) :=
  '(len, r) ← parse_range data (rng s);
  let '(b, r) := draws f (Z.to_nat len) r in
  Done (b, with_rng s r).

Definition cps_tag `{CpsSyntax} (unix_secs : Z) (tag data : str) (s : noise R)
  : opt (list Z * noise R) :=
  let data := trim data in
  if str_eqb tag (lit "b") then
    let hex_str := List.filter (fun c => negb (is_whitespace c)) data in
    let clean := match strip_prefix hex_str (lit "0x") with
                 | Some c => c
                 | None => default hex_str (strip_prefix hex_str (lit "0X"))
                 end in
    Done (default [] (hex_decode clean), s)
  else if str_eqb tag (lit "t") then Done (be_bytes 4 (u32 unix_secs), s)
  else if str_eqb tag (lit "c") then
    Done (be_bytes 4 (cps_counter s), mkState (rng s) (u32 (cps_counter s + 1)))
  else if str_eqb tag (lit "r") then random_tag u8 data s
  else if str_eqb tag (lit "rc") then random_tag (char_of ALPHA) data s
  else if str_eqb tag (lit "rd") then random_tag (char_of DIGITS) data s
  else Done ([], s).

Fixpoint cps_tags `{CpsSyntax} (unix_secs : Z) (caps : list (str * str)) (s : noise R)
  : opt (list Z * noise R) :=
  match caps with
  | [] => Done ([], s)
  | (tag, data) :: caps =>
      '(b, s) ← cps_tag unix_secs tag data s;
      '(rest, s) ← cps_tags unix_secs caps s;
      Done (b ++ rest, s)
  end.

Definition parse_cps `{CpsSyntax} (unix_secs : Z) (spec : str) (s : noise R)
  : opt (list Z * noise R) :=
  cps_tags unix_secs (captures_iter spec) s.

Definition SA_PROPOSAL : list Z :=
  [0x00; 0x00; 0x00; 0x14; 0x01; 0x01; 0x00; 0x04; 0x03; 0x00; 0x00; 0x08; 0x01; 0x00; 0x00;
   0x0c; 0x00; 0x00; 0x00; 0x00].

Definition wrap_ikev2 (payload : list Z) (r : R) : list Z * R :=
  if zlen payload =? 0 then (payload, r)
  else
    let '(initiator_spi, r) :=
      if 8 <=? zlen payload then (ztake 8 payload, r) else fill_bytes 8 r in
    let '(responder_spi, r) := fill_bytes 8 r in
    let total_length := u32 (28 + 24 + u32 (zlen payload)) in
    let sa_payload_length := u16 (24 + u16 (zlen payload)) in
    (initiator_spi ++ responder_spi ++ [0x21; 0x20; 0x22; 0x08] ++ [0; 0; 0; 0] ++
     be_bytes 4 total_length ++ [0x00; 0x00] ++ be_bytes 2 sa_payload_length ++
     SA_PROPOSAL ++ payload, r).

(** The sizes [generate_junk] chooses between, [None] being its early returns. *)
Definition junk_sizes (cfg : AetherNoizeConfig) : option (Z * Z) :=
  if (jmin cfg =? 0) && (jmax cfg =? 0) then None
  else if (jmax cfg =? 0) && negb (allow_zero_size cfg) then
    Some (Z.max (jmin cfg) 1, Z.max (jmin cfg) 1)
  else if negb (allow_zero_size cfg) then Some (Z.max (jmin cfg) 1, Z.max (jmax cfg) (jmin cfg))
  else Some (jmin cfg, Z.max (jmax cfg) (jmin cfg)).

Definition empty_junk (cfg : AetherNoizeConfig) : list Z :=
  if allow_zero_size cfg then [] else [0].

Definition generate_junk (cfg : AetherNoizeConfig) (r : R) : opt (list Z * R) :=
  match junk_sizes cfg with
  | None => Done (empty_junk cfg, r)
  | Some (min_size, max_size) =>
      '(size, r) ← (if max_size =? min_size then Done (min_size, r)
                    else pick r min_size max_size);
      if size =? 0 then Done (empty_junk cfg, r)
      else Done (fill_bytes size r)
  end.

(** [for _ in 0..n]: [n] packets of junk. *)
Fixpoint junk_run (cfg : AetherNoizeConfig) (n : nat) (r : R) : opt (list (list Z) * R) :=
  match n with
  | O => Done ([], r)
  | S n =>
      '(j, r) ← generate_junk cfg r;
      '(js, r) ← junk_run cfg n r;
      Done (j :: js, r)
  end.

(** The signature packets [i2] to [i5]: those that are set and not empty. *)
Fixpoint signatures `{CpsSyntax} (unix_secs : Z) (sigs : list (option str)) (s : noise R)
  : opt (list (list Z) * noise R) :=
  match sigs with
  | [] => Done ([], s)
  | None :: sigs => signatures unix_secs sigs s
  | Some spec :: sigs =>
      '(pkt, s) ← parse_cps unix_secs spec s;
      '(rest, s) ← signatures unix_secs sigs s;
      Done ((if zlen pkt =? 0 then [] else [pkt]) ++ rest, s)
  end.

(** The first packet: [i1], wrapped as IKEv2. *)
Definition first_signature `{CpsSyntax} (unix_secs : Z) (cfg : AetherNoizeConfig) (s : noise R)
  : opt (list (list Z) * noise R) :=
  match i1 cfg with
  | None => Done ([], s)
  | Some spec =>
      '(payload, s) ← parse_cps unix_secs spec s;
      if zlen payload =? 0 then Done ([], s)
      else
        let '(framed, r) := wrap_ikev2 payload (rng s) in
        Done ([framed], with_rng s r)
  end.

Definition apply_obfuscation `{CpsSyntax} (unix_secs : Z) (cfg : AetherNoizeConfig) (s : noise R)
  : opt (list (list Z) * noise R) :=
  if negb (is_enabled cfg) then Done ([], s)
  else
    '(first, s) ← first_signature unix_secs cfg s;
    '(after_i1, r) ← junk_run cfg (Z.to_nat (jc_after_i1 cfg)) (rng s);
    '(before_hs, r) ← junk_run cfg (Z.to_nat (jc_before_hs cfg)) r;
    '(sigs, s) ← signatures unix_secs [i2 cfg; i3 cfg; i4 cfg; i5 cfg] (with_rng s r);
    Done (first ++ after_i1 ++ before_hs ++ sigs, s).

Definition send_post_handshake_junk (cfg : AetherNoizeConfig) (r : R)
  : opt (list (list Z) * R) :=
  junk_run cfg (Z.to_nat (jc_after_hs cfg)) r.

(** The first byte of a keepalive decoy is moved out of the message types. *)
Definition disguise (junk : list Z) : list Z :=
  match junk with
  | first :: rest =>
      (if (1 <=? first) && (first <=? 4) then u8 (first + 0x40) else first) :: rest
  | [] => []
  end.

(** The jitter drawn after each packet only delays the next one. *)
Fixpoint keepalive_run (cfg : AetherNoizeConfig) (n : nat) (r : R) : opt (list (list Z) * R) :=
  match n with
  | O => Done ([], r)
  | S n =>
      '(j, r) ← generate_junk cfg r;
      '(_, r) ← pick r 0 8;
      '(js, r) ← keepalive_run cfg n r;
      Done (disguise j :: js, r)
  end.

Definition send_keepalive_junk (cfg : AetherNoizeConfig) (r : R) : opt (list (list Z) * R) :=
  if negb (is_enabled cfg) then Done ([], r)
  else
    let base := Z.max (jc_before_hs cfg) 1 in
    '(extra, r) ← pick r 0 base;
    keepalive_run cfg (Z.to_nat (base + extra)) r.

End Noise.

(** ** Facts *)

(** The counts and sizes are [usize] values. *)
Definition noise_ok (cfg : AetherNoizeConfig) : Prop :=
  0 <= jc_before_hs cfg /\ 0 <= jc_after_i1 cfg /\ 0 <= jc_after_hs cfg /\
  0 <= jmin cfg /\ 0 <= jmax cfg.

(** A decoy has the sizes configured, and is empty only where that is
    allowed. *)
Definition junk_ok (cfg : AetherNoizeConfig) (j : list Z) : Prop :=
  bytes_ok j /\ jmin cfg <= zlen j <= Z.max 1 (Z.max (jmin cfg) (jmax cfg)) /\
  (j = [] -> allow_zero_size cfg = true).

(** No WireGuard message has this first byte. *)
Definition not_wireguard (j : list Z) : Prop :=
  match j with b :: _ => ~ 1 <= b <= 4 | [] => True end.

(** An IKEv2 header whose length field is the length of the message, around
    a security association payload whose length field is its own. *)
Definition ike_message (p : list Z) : Prop :=
  52 < zlen p /\ zsub p 16 20 = [0x21; 0x20; 0x22; 0x08] /\
  zsub p 24 28 = be_bytes 4 (zlen p) /\ zsub p 30 32 = be_bytes 2 (zlen p - 28).

Lemma be_bytes_4_u32 z : be_bytes 4 (u32 z) = be_bytes 4 z.
Proof.
  unfold u32. cbn. repeat (apply (f_equal2 cons); [Z.div_mod_to_equations; lia|]). done.
Qed.

Lemma be_bytes_2_u16 a z : be_bytes 2 (u16 (a + u16 z)) = be_bytes 2 (a + z).
Proof.
  unfold u16. rewrite !be_bytes_2.
  repeat (apply (f_equal2 cons); [Z.div_mod_to_equations; lia|]). done.
Qed.

Section Facts.
Context {R : Type} `{Rng R}.

Lemma generate_junk_spec cfg (r : R) :
  noise_ok cfg -> wp (generate_junk cfg r) (fun v => junk_ok cfg v.1) (fun _ => False).
Proof.
  intros (_ & _ & _ & Hmin & Hmax). unfold generate_junk.
  assert (Hempty : jmin cfg = 0 -> junk_ok cfg (empty_junk cfg)).
  { intros Hz. unfold junk_ok, empty_junk.
    destruct (allow_zero_size cfg); split; try by repeat (constructor || done).
    - rewrite zlen_nil. split; [lia|done].
    - change (zlen [0]) with 1. split; [lia|done]. }
  destruct (junk_sizes cfg) as [[lo hi]|] eqn:Es; [|apply Hempty; revert Es; unfold junk_sizes; repeat dest_if; try done; bool_lia].
  assert (Hs : jmin cfg <= lo <= hi /\ hi <= Z.max 1 (Z.max (jmin cfg) (jmax cfg)) /\
               (lo = 0 -> jmin cfg = 0))
    by (revert Es; unfold junk_sizes; repeat dest_if; intros [= <- <-]; bool_lia).
  apply wp_bind.
  assert (Hsize : forall size r', lo <= size <= hi ->
            wp (if size =? 0 then Done (empty_junk cfg, r') else Done (fill_bytes size r'))
               (fun v : list Z * R => junk_ok cfg v.1) (fun _ : unit => False)).
  { intros size r' Hr. destruct (Z.eqb_spec size 0) as [->|Hnz]; cbn; [apply Hempty; lia|].
    destruct (fill_bytes_spec size r') as [Hl Hb]; [lia|].
    split_and!; try done; try lia. intros E. rewrite E in Hl. cbn in Hl. done. }
  destruct (Z.eqb_spec hi lo) as [->|Hne]; [cbn; apply Hsize; lia|].
  apply wp_pick; [lia|]. intros n r' Hn. by apply Hsize.
Qed.

Lemma junk_run_spec cfg n (r : R) :
  noise_ok cfg ->
  wp (junk_run cfg n r) (fun v => length v.1 = n /\ Forall (junk_ok cfg) v.1) (fun _ => False).
Proof.
  intros Hc. revert r. induction n as [|n IH]; intros r; [by cbn|]. cbn [junk_run].
  apply wp_bind. eapply wp_mono; [by apply generate_junk_spec| |done]. intros [j r'] Hj.
  apply wp_bind. eapply wp_mono; [apply IH| |done]. intros [js r''] [Hl Hjs]. cbn in *.
  split; [lia|by constructor].
Qed.

Lemma disguise_ok cfg j : junk_ok cfg j -> junk_ok cfg (disguise j) /\ not_wireguard (disguise j).
Proof.
  intros (Hb & Hl & He). destruct j as [|b j]; [done|]. inversion Hb as [|? ? Hbb Hbj]; subst.
  unfold junk_ok. cbn [disguise not_wireguard]. rewrite zlen_cons in *. unfold byte_ok in Hbb.
  split_and!; try done; try lia.
  - constructor; [|done]. unfold byte_ok, u8. dest_if; [apply Z.mod_pos_bound; lia|lia].
  - dest_if; [|bool_lia]. unfold u8. rewrite Z.mod_small; bool_lia.
Qed.

(** The bytes of a wrapped payload, whatever the SPIs are. *)
Lemma wrap_ikev2_ike payload (r : R) :
  payload <> [] -> ike_message (wrap_ikev2 payload r).1.
Proof.
  intros Hp. assert (Hl : 0 < zlen payload)
    by (destruct payload; [done|rewrite zlen_cons; pose proof (zlen_nonneg payload); lia]).
  unfold wrap_ikev2. rewrite (proj2 (Z.eqb_neq _ _)) by lia.
  assert (Hspi : exists spi r', (if 8 <=? zlen payload then (ztake 8 payload, r) else fill_bytes 8 r)
                                = (spi, r') /\ zlen spi = 8).
  { dest_if; [eexists _, _; split; [done|apply zlen_ztake; bool_lia]|].
    destruct (fill_bytes 8 r) as [spi r'] eqn:E'. exists spi, r'. split; [done|].
    pose proof (proj1 (fill_bytes_spec 8 r ltac:(lia))) as Hf. by rewrite E' in Hf. }
  destruct Hspi as (spi & r1 & -> & Hspi).
  pose proof (proj1 (fill_bytes_spec 8 r1 ltac:(lia))) as Hrsp.
  destruct (fill_bytes 8 r1) as [rsp r2]. cbn [fst] in *.
  replace (28 + 24 + u32 (zlen payload)) with (52 + u32 (zlen payload)) by lia.
  rewrite be_bytes_2_u16.
  assert (H4 : be_bytes 4 (u32 (52 + u32 (zlen payload))) = be_bytes 4 (52 + zlen payload)).
  { rewrite be_bytes_4_u32, <- (be_bytes_4_u32 (52 + u32 _)), <- (be_bytes_4_u32 (52 + zlen payload)).
    f_equal. unfold u32. by rewrite Z.add_mod_idemp_r. }
  rewrite H4. set (out := spi ++ _).
  assert (Hout : zlen out = 52 + zlen payload)
    by (unfold out, SA_PROPOSAL; rewrite !zlen_app, !zlen_be_bytes, Hspi, Hrsp, ?zlen_cons, ?zlen_nil; lia).
  unfold ike_message. rewrite Hout. split; [lia|].
  replace (52 + zlen payload - 28) with (24 + zlen payload) by lia.
  unfold out. split_and!.
  - rewrite (app_assoc spi rsp). apply zsub_app_mid; rewrite ?zlen_app, ?zlen_cons, ?zlen_nil; lia.
  - rewrite (app_assoc spi rsp), (app_assoc (spi ++ rsp)), (app_assoc ((spi ++ rsp) ++ _)).
    apply zsub_app_mid; rewrite ?zlen_app, ?zlen_be_bytes, ?zlen_cons, ?zlen_nil; lia.
  - rewrite (app_assoc spi rsp), (app_assoc (spi ++ rsp)), (app_assoc ((spi ++ rsp) ++ _)),
      (app_assoc (((spi ++ rsp) ++ _) ++ _)), (app_assoc ((((spi ++ rsp) ++ _) ++ _) ++ _)).
    apply zsub_app_mid; rewrite ?zlen_app, ?zlen_be_bytes, ?zlen_cons, ?zlen_nil; lia.
Qed.

End Facts.

Section Obfuscation.
Context {R : Type} `{Rng R} `{CpsSyntax}.

Lemma parse_range_total data (r : R) :
  wp (parse_range data r) (fun v => v.1 <= 2048) (fun _ => False).
Proof.
  unfold parse_range. destruct (split 45 data) as [|lo [|hi l]]; try (cbn; lia).
  dest_if; [|cbn; lia]. apply wp_bind, wp_pick; [bool_lia|]. cbn. lia.
Qed.

Lemma cps_tag_total secs tag data (s : noise R) :
  wp (cps_tag secs tag data s) (fun _ => True) (fun _ => False).
Proof.
  unfold cps_tag, random_tag. repeat dest_if; try done;
    (apply wp_bind; eapply wp_mono; [apply parse_range_total| |done]; intros [len r] _;
     by destruct (draws _ _ r)).
Qed.

Lemma parse_cps_total secs spec (s : noise R) :
  wp (parse_cps secs spec s) (fun _ => True) (fun _ => False).
Proof.
  unfold parse_cps. generalize (captures_iter spec). intros caps. revert s.
  induction caps as [|[tag data] caps IH]; intros s; [done|]. cbn [cps_tags].
  apply wp_bind. eapply wp_mono; [apply cps_tag_total| |done]. intros [b s'] _.
  apply wp_bind. eapply wp_mono; [apply IH| |done]. by intros [rest s''] _.
Qed.

Lemma signatures_spec secs sigs (s : noise R) :
  wp (signatures secs sigs s)
     (fun v => (length v.1 <= length sigs)%nat /\ Forall (fun p => p <> []) v.1) (fun _ => False).
Proof.
  revert s. induction sigs as [|[spec|] sigs IH]; intros s; cbn [signatures length]; [done| |].
  - apply wp_bind. eapply wp_mono; [apply parse_cps_total| |done]. intros [pkt s'] _.
    apply wp_bind. eapply wp_mono; [apply IH| |done]. intros [rest s''] [Hl Hf]. cbn in *.
    destruct pkt as [|b pkt]; [change (zlen [] =? 0) with true; cbn; split; [lia|done]|].
    change (zlen (b :: pkt) =? 0) with false. cbn. split; [lia|by constructor].
  - eapply wp_mono; [apply IH| |done]. cbn. intros v [? ?]. split; [lia|done].
Qed.

Lemma first_signature_spec secs cfg (s : noise R) :
  wp (first_signature secs cfg s)
     (fun v => (length v.1 <= 1)%nat /\ Forall ike_message v.1) (fun _ => False).
Proof.
  unfold first_signature. destruct (i1 cfg) as [spec|]; [|split; [cbn; lia|constructor]].
  apply wp_bind. eapply wp_mono; [apply parse_cps_total| |done]. intros [payload s'] _.
  destruct payload as [|b payload]; [split; [cbn; lia|constructor]|]. change (zlen (b :: payload) =? 0) with false. cbn iota.
  pose proof (wrap_ikev2_ike (b :: payload) (rng s') ltac:(done)) as Hike.
  destruct (wrap_ikev2 (b :: payload) (rng s')) as [framed r]. cbn in *.
  split; [lia|by apply Forall_singleton].
Qed.

Lemma keepalive_run_spec cfg n (r : R) :
  noise_ok cfg ->
  wp (keepalive_run cfg n r)
     (fun v => length v.1 = n /\ Forall (fun j => junk_ok cfg j /\ not_wireguard j) v.1)
     (fun _ => False).
Proof.
  intros Hc. revert r. induction n as [|n IH]; intros r; [by cbn|]. cbn [keepalive_run].
  apply wp_bind. eapply wp_mono; [by apply generate_junk_spec| |done]. intros [j r'] Hj.
  apply wp_bind, wp_pick; [lia|]. intros pause r'' _.
  apply wp_bind. eapply wp_mono; [apply IH| |done]. intros [js r3] [Hl Hjs]. cbn in *.
  split; [lia|]. constructor; [by apply disguise_ok|done].
Qed.

(** What [apply_obfuscation] sends: at most one IKEv2 message, the decoys, and
    at most four signature packets. *)
Definition obfuscation_sent (cfg : AetherNoizeConfig) (pkts : list (list Z)) : Prop :=
  exists first junk sigs,
    pkts = first ++ junk ++ sigs /\
    (length first <= 1)%nat /\ Forall ike_message first /\
    zlen junk = jc_after_i1 cfg + jc_before_hs cfg /\ Forall (junk_ok cfg) junk /\
    (length sigs <= 4)%nat /\ Forall (fun p => p <> []) sigs.

Lemma apply_obfuscation_spec cfg secs (s : noise R) :
  noise_ok cfg ->
  wp (apply_obfuscation secs cfg s)
     (fun v => if is_enabled cfg then obfuscation_sent cfg v.1 else v.1 = []) (fun _ => False).
Proof.
  intros Hc. pose proof Hc as (Hbefore & Hafter & _).
  unfold apply_obfuscation. destruct (is_enabled cfg); [|by cbn]. cbn [negb].
  apply wp_bind. eapply wp_mono; [apply first_signature_spec| |done].
  intros [first s1] [Hf1 Hf2]. cbn [fst] in *.
  apply wp_bind. eapply wp_mono; [by apply junk_run_spec| |done]. intros [a r1] [Ha1 Ha2].
  apply wp_bind. eapply wp_mono; [by apply junk_run_spec| |done]. intros [b r2] [Hb1 Hb2].
  apply wp_bind. eapply wp_mono; [apply signatures_spec| |done]. intros [sg s2] [Hs1 Hs2].
  cbn in *. exists first, (a ++ b), sg. rewrite <- app_assoc.
  split_and!; try done; [|by apply Forall_app].
  unfold zlen. rewrite length_app. lia.
Qed.

Lemma send_keepalive_junk_spec cfg (r : R) :
  noise_ok cfg ->
  wp (send_keepalive_junk cfg r)
     (fun v => Forall (fun j => junk_ok cfg j /\ not_wireguard j) v.1 /\
               if is_enabled cfg
               then Z.max (jc_before_hs cfg) 1 <= zlen v.1 <= 2 * Z.max (jc_before_hs cfg) 1
               else v.1 = [])
     (fun _ => False).
Proof.
  intros Hc. pose proof Hc as (Hbefore & _).
  unfold send_keepalive_junk. destruct (is_enabled cfg); [|by cbn]. cbn [negb].
  apply wp_bind, wp_pick; [lia|]. intros extra r' Hx.
  eapply wp_mono; [by apply keepalive_run_spec| |done]. intros [js r''] [Hl Hjs]. cbn in *.
  split; [done|]. unfold zlen. lia.
Qed.

Lemma send_post_handshake_junk_spec cfg (r : R) :
  noise_ok cfg ->
  wp (send_post_handshake_junk cfg r)
     (fun v => zlen v.1 = jc_after_hs cfg /\ Forall (junk_ok cfg) v.1) (fun _ => False).
Proof.
  intros Hc. pose proof Hc as (_ & _ & Hpost & _).
  unfold send_post_handshake_junk. eapply wp_mono; [by apply junk_run_spec| |done].
  intros [js r'] [Hl Hjs]. cbn in *. split; [unfold zlen; lia|done].
Qed.

(** Obfuscation sends what its configuration says and never fails.  With any random
    numbers and any template syntax, a disabled configuration sends nothing;
    an enabled one sends, before a handshake, at most one IKEv2 message whose
    length fields are right, exactly the configured number of decoys of the
    configured sizes, then at most four non-empty signature packets.  The
    decoys around a keepalive are between one and two times the configured
    number and none of them can be taken for a WireGuard message.  Every
    profile name selects a configuration for which this holds, with decoys of
    at most 420 bytes. *)
Lemma obfuscation_wellformed cfg secs (s : noise R) name :
  noise_ok cfg ->
  wp (apply_obfuscation secs cfg s)
     (fun v => if is_enabled cfg then obfuscation_sent cfg v.1 else v.1 = []) (fun _ => False) /\
  wp (send_keepalive_junk cfg (rng s))
     (fun v => Forall (fun j => junk_ok cfg j /\ not_wireguard j) v.1 /\
               if is_enabled cfg
               then Z.max (jc_before_hs cfg) 1 <= zlen v.1 <= 2 * Z.max (jc_before_hs cfg) 1
               else v.1 = [])
     (fun _ => False) /\
  wp (send_post_handshake_junk cfg (rng s))
     (fun v => zlen v.1 = jc_after_hs cfg /\ Forall (junk_ok cfg) v.1) (fun _ => False) /\
  noise_ok (from_profile name) /\ Z.max (jmin (from_profile name)) (jmax (from_profile name)) <= 420.
Proof.
  intros Hc. split; [by apply apply_obfuscation_spec|].
  split; [by apply send_keepalive_junk_spec|]. split; [by apply send_post_handshake_junk_spec|].
  unfold from_profile, noise_ok. repeat dest_if; cbn; lia.
Qed.

End Obfuscation.

(** ** A witness *)

(** The tag pattern read by a scanner. *)
Fixpoint scan_tags (fuel : nat) (s : str) : list (str * str) :=
  match fuel with
  | O => []
  | S fuel =>
      match split_once 60 s with
      | None => []
      | Some (_, rest) =>
          let after := trim_start_by is_ascii_lower rest in
          let name := take (length rest - length after) rest in
          match name, split_once 62 after with
          | _ :: _, Some (data, rest) => (name, trim_start_by is_whitespace data) :: scan_tags fuel rest
          | _, _ => scan_tags fuel rest
          end
      end
  end.

Definition scanner : CpsSyntax :=
  {| captures_iter s := scan_tags (length s) s; hex_decode := hex_pairs |}.

Example light_first_packet :
  let syntax := scanner in
  exists v, parse_cps 1700000000 (lit "<b 0d0a0d0a><t><rd 3-5>") (mkState 5 1) = Done v /\
            take 8 v.1 = [13; 10; 13; 10; 101; 83; 241; 0] /\ 11 <= zlen v.1 <= 13.
Proof.
  eexists. split; [vm_compute; reflexivity|]. split; [done|]. vm_compute. split; discriminate.
Qed.

Lemma obfuscation_wellformed_witness :
  let syntax := scanner in
  wp (apply_obfuscation 1700000000 gfw (mkState 5 1)) (fun v => obfuscation_sent gfw v.1) (fun _ => False).
Proof.
  cbv zeta. refine (proj1 (@obfuscation_wellformed Z lcg scanner gfw 1700000000 (mkState 5 1) [] _)).
  unfold noise_ok. cbn. lia.
Defined.
