(* ===== verification/WireGuard.v ===== *)
(** * The WireGuard tunnel (src/native/aether/aether/src/wireguard.rs)

    [WgTunnel::run] is four tasks over one socket and one noise session: the
    socket reader, the uplink writer, the session timer and the health check.
    They share the session (behind a lock), the time of the last valid
    datagram and two flags.  Here each task is a program counter with its
    local variables, each section between two points where another task may
    run is one definition, and [step] interleaves them.

    A section that cannot run is [None]: nothing has arrived, a pause is not
    over, the lock is taken, or the socket has no room ([NotSent WouldBlock]
    from a [send().await], which then stays pending).  Three tasks take and
    release the lock within one section; the health check keeps it across the
    [await] of its own write, which is what [locked] says.
    Pauses between decoys and the wait of at most 20 ms in [deliver_inbound]
    are not sections of their own: any time may pass between two sections.

    [boringtun]'s session is the class [Tunn]; the channels are those of
    [Channel]; the socket's answers, the clock and the packets of the network
    stack are choices of [step].  Instants and durations are nanoseconds. *)

From stdpp Require Import base list option.
From Stdlib Require Import ZArith Lia.
From S2P Require Import Prelude Rand RustStr Octets Error Channel Net Sysprofile Masque AetherNoize.

Definition from_millis (n : Z) : Z := n * 1000000.
Definition from_secs (n : Z) : Z := n * 1000000000.

Definition TIMER_TICK : Z := from_millis 250.
Definition MAX_ENCAP_BATCH : Z := 64.
Definition UPLINK_REPORT_INTERVAL : Z := from_secs 15.
Definition WG_MSG_TYPE_MIN : Z := 1.
Definition WG_MSG_TYPE_MAX : Z := 4.
Definition MAX_TRANSIENT_RECV_ERRORS : Z := 64.
Definition TRANSIENT_RECV_BACKOFF : Z := from_millis 50.
Definition INBOUND_HANDOFF_BUDGET : Z := from_millis 20.
Definition ENCAP_ERRORS_BEFORE_REKEY : Z := 24.
Definition REKEY_MIN_GAP : Z := from_secs 3.
Definition STALE_STRIKES_BEFORE_DEATH : Z := 2.
Definition WG_HEALTHCHECK_INTERVAL : Z := from_secs 3.
Definition WG_HEALTHCHECK_JITTER : Z := from_millis 500.

(** ** The session *)

Record SessionKeys := mkKeys {
  private_key : list Z;
  peer_public : list Z;
  preshared : option (list Z);
  keepalive : Z;
}.

Inductive TunnResult :=
| TunnDone
| TunnErr (e : Z)
| WriteToNetwork (pkt : list Z)
| WriteToTunnelV4 (pkt : list Z)
| WriteToTunnelV6 (pkt : list Z).

(** [boringtun::noise::Tunn]: a call may read the clock, so it is given the
    time.  [tunn_queued] is a view of what it has left to hand out. *)
Class Tunn (T : Type) := {
  tunn_new : Z -> SessionKeys -> T;
  encapsulate : Z -> T -> list Z -> TunnResult * T;
  decapsulate : Z -> T -> list Z -> TunnResult * T;
  update_timers : Z -> T -> TunnResult * T;
  tunn_queued : T -> nat;
}.

(** A WireGuard message: a type from 1 to 4 and three reserved zero bytes. *)
Definition wg_message (p : list Z) : Prop :=
  exists ty rest, p = ty :: 0 :: 0 :: 0 :: rest /\ WG_MSG_TYPE_MIN <= ty <= WG_MSG_TYPE_MAX.

(** What the crate documents: what it asks to be sent is a WireGuard message,
    and the calls with an empty datagram after such a request come to an end. *)
Class TunnLaws (T : Type) `{Tunn T} := {
  encapsulate_message now t p pkt t' :
    encapsulate now t p = (WriteToNetwork pkt, t') -> wg_message pkt;
  decapsulate_message now t p pkt t' :
    decapsulate now t p = (WriteToNetwork pkt, t') -> wg_message pkt;
  timers_message now t pkt t' :
    update_timers now t = (WriteToNetwork pkt, t') -> wg_message pkt;
  decapsulate_queue now t pkt t' :
    decapsulate now t [] = (WriteToNetwork pkt, t') -> (tunn_queued t' < tunn_queued t)%nat;
}.

(** ** Datagrams *)

(** [pkt[1..4].copy_from_slice(id)], the guards being the same both ways. *)
Definition set_reserved (id pkt : list Z) : list Z :=
  match pkt with
  | ty :: _ :: _ :: _ :: rest =>
      if (ty <? WG_MSG_TYPE_MIN) || (WG_MSG_TYPE_MAX <? ty) then pkt
      else ty :: id ++ rest
  | _ => pkt
  end.

Definition inject_client_id (client_id pkt : list Z) : list Z := set_reserved client_id pkt.
Definition strip_client_id (pkt : list Z) : list Z := set_reserved [0; 0; 0] pkt.

Definition is_transient_socket_error (kind : IoErrorKind) : bool :=
  match kind with
  | ConnectionRefused | ConnectionReset | ConnectionAborted | HostUnreachable
  | NetworkUnreachable | Interrupted | WouldBlock | TimedOut => true
  | _ => false
  end.

(** ** Handing a packet to the network stack *)

Inductive timed_status := TimedSent | TimedClosed | TimedOutWaiting.

(** [tokio::time::timeout(budget, tx.send(pkt))]. *)
Class PatientSender (Tx A : Type) := {
  send_within : Tx -> Z -> A -> timed_status * Tx;
}.

Definition deliver_inbound {Tx} `{Sender Tx (list Z)} `{PatientSender Tx (list Z)}
  (tx : Tx) (pkt : list Z) : bool * Tx :=
  match try_send tx pkt with
  | (SendOk, tx) => (true, tx)
  | (SendFull, tx) =>
      match send_within tx INBOUND_HANDOFF_BUDGET pkt with
      | (TimedSent, tx) => (true, tx)
      | (TimedClosed, tx) => (false, tx)
      | (TimedOutWaiting, tx) => (true, tx)
      end
  | (SendClosed, tx) => (false, tx)
  end.

(** ** The data-plane probe *)

(** [build_dns_query]; [id] is its random value. *)
Definition build_dns_query (id : Z) : list Z :=
  be_bytes 2 id ++ [1; 0] ++ [0; 1] ++ [0; 0; 0; 0; 0; 0] ++
  dns_labels [lit "cloudflare"; lit "com"] ++ [0] ++ [0; 1] ++ [0; 1].

Definition ipv4_checksum {E} (header : list Z) : outcome E Z :=
  sum ← fold_carry 3 (checksum_words 0 header);
  Done (u16 (Z.lnot (u16 sum))).

Definition build_dataplane_probe {R} `{Rng R} (src : list Z) (r : R) : opt (list Z * R) :=
  let '(dns_id, r) := draw r in
  let dns := build_dns_query (u16 dns_id) in
  let udp_len := 8 + zlen dns in
  let total_len := 20 + udp_len in
  let '(id, r) := draw r in
  let pkt :=
    [0x45] ++ [0] ++ be_bytes 2 (u16 total_len) ++ be_bytes 2 (u16 id) ++ [0; 0] ++
    [64] ++ [17] ++ [0; 0] ++ src ++ [8; 8; 8; 8] in
  header ← slice pkt 0 20;
  csum ← ipv4_checksum header;
  let pkt := OctetsMut.store pkt 10 (be_bytes 2 csum) in
  '(sport, r) ← pick r 20000 59999;
  Done (pkt ++ be_bytes 2 sport ++ be_bytes 2 53 ++ be_bytes 2 (u16 udp_len) ++ [0; 0] ++ dns, r).

(** [health_check_pause] from a random word. *)
Definition health_check_pause (word : Z) : Z :=
  let jitter := WG_HEALTHCHECK_JITTER / 1000000 in
  let offset := word `mod` (jitter * 2 + 1) in
  WG_HEALTHCHECK_INTERVAL - WG_HEALTHCHECK_JITTER + from_millis offset.

Definition wg_stale_timeout (env : environment) : Z :=
  let secs :=
    match (v ← env (lit "AETHER_WG_STALE_SECS"); parse_uint u64_max v) with
    | Some v => if 0 <? v then Z.min v 86400 else 20
    | None => 20
    end in
  from_secs secs.

(** ** The tasks *)

(** The fields of [WgTunnel] that [run] does not change, with the stale
    timeout it reads once. *)
Record WgTunnel := mkTunnel {
  noise_cfg : AetherNoizeConfig;
  client_id : list Z;
  local_ipv4 : list Z;
  keys : SessionKeys;
  stale_timeout : Z;
}.

(** What the socket did with a datagram handed to it. *)
Inductive sent_status := Sent | NotSent (kind : IoErrorKind).

Inductive sock_recv := SockData (data : list Z) | SockErr (kind : IoErrorKind).

(** A datagram of the session, or a decoy. *)
Inductive datagram := Message (d : list Z) | Decoy (d : list Z).

Record Uplink := mkUplink {
  up_pkts : Z; up_bytes : Z; up_waits : Z;
  up_wait_micros : Z; up_wait_worst_micros : Z;
  last_uplink_report : Z;
}.

Record send_local := mkSendLocal {
  encap_errors : Z;
  obfuscation_settled : bool;
  post_hs_junk_sent : bool;
  uplink : Uplink;
}.

(** What an execution records: packets offered by the network stack, calls of
    the writer to the session with their results, datagrams it has handed to
    the socket, valid datagrams, replaced sessions and health checks (their
    time, the silence they saw and the handshake request they left). *)
Inductive event :=
| EvOffered (pkt : list Z)
| EvEncap (pkt : list Z) (r : TunnResult)
| EvWrote (d : list Z) (st : sent_status)
| EvValid (at_ : Z)
| EvFresh (at_ : Z)
| EvCheck (at_ idle : Z) (requested : bool).

(** Waiting for a datagram, pausing after an error, waiting for the lock with
    a datagram, and what follows the section under the lock. *)
Inductive recv_task :=
| RecvWait (transient_errors : Z)
| RecvPause (transient_errors until : Z)
| RecvLock (data : list Z)
| RecvStamp (progressed : bool) (to_network to_tunnel : list (list Z))
| RecvWrite (to_network to_tunnel : list (list Z))
| RecvEnded.

Inductive send_task :=
| SendWait (l : send_local)
| SendEncap (l : send_local) (batch : list (list Z))
| SendSettle (l : send_local) (wire : list (list Z))
| SendJunk (l : send_local) (junk wire : list (list Z))
| SendWrite (l : send_local) (wire : list (list Z)) (began : Z) (waited : bool)
| SendFull (l : send_local) (pkt : list Z) (wire : list (list Z)) (began : Z)
| SendTail (l : send_local) (junk : list (list Z))
| SendEnded.

Inductive timer_task :=
| TimerWait (last_rekey due : Z)
| TimerLock (last_rekey : Z) (want_rekey : bool)
| TimerFlag (last_rekey : Z) (unrecoverable : bool) (outgoing : list (list Z))
| TimerWrite (last_rekey : Z) (junk outgoing : list (list Z)).

Inductive health_task :=
| HealthWait (strikes due : Z)
| HealthProbe (strikes : Z)
| HealthLock (strikes : Z) (probe : list Z)
| HealthSend (strikes : Z) (d : list Z)
| HealthEnded (e : AetherError).

Section Tasks.
Context {T R : Type} `{Tunn T} `{Rng R} `{CpsSyntax}.
Variable w : WgTunnel.

(** *** The socket reader *)

(** The packets a datagram yields: those for the network, those for the
    tunnel, and whether the session made sense of it. *)
Fixpoint drain_session (fuel : nat) (now : Z) (t : T) (data : list Z)
  (to_network : list (list Z)) (progressed : bool)
  : outcome unit (T * list (list Z) * list (list Z) * bool) :=
  match fuel with
  | O => Diverge
  | S fuel =>
      match decapsulate now t data with
      | (TunnDone, t) => Done (t, to_network, [], true)
      | (TunnErr _, t) => Done (t, to_network, [], progressed)
      | (WriteToNetwork pkt, t) =>
          drain_session fuel now t [] (to_network ++ [inject_client_id (client_id w) pkt]) true
      | (WriteToTunnelV4 pkt, t) | (WriteToTunnelV6 pkt, t) =>
          Done (t, to_network, [pkt], true)
      end
  end.

(** One turn per packet the session has queued after the datagram, and two
    more. *)
Definition recv_fuel (now : Z) (t : T) (data : list Z) : nat :=
  S (S (tunn_queued (decapsulate now t data).2)).

(** What the reader does with an answer of [recv]. *)
Definition recv_turn (now : Z) (transient_errors : Z) (r : sock_recv) : recv_task :=
  match r with
  | SockData [] => RecvWait transient_errors
  | SockData data => RecvLock (strip_client_id data)
  | SockErr kind =>
      if is_transient_socket_error kind then
        let transient_errors := transient_errors + 1 in
        if MAX_TRANSIENT_RECV_ERRORS <? transient_errors then RecvEnded
        else RecvPause transient_errors (now + TRANSIENT_RECV_BACKOFF)
      else RecvEnded
  end.

(** The section under the lock. *)
Definition recv_section (now : Z) (t : T) (data : list Z) : outcome unit (T * recv_task) :=
  '(t, net, tun, progressed) ← drain_session (recv_fuel now t data) now t data [] false;
  Done (t, RecvStamp progressed net tun).

(** *** The uplink writer *)

(** The packets already queued, up to the size of a batch. *)
Fixpoint fill_batch {Rx} `{Receiver Rx (list Z)} (room : nat) (rx : Rx) (batch : list (list Z))
  : list (list Z) * Rx :=
  match room with
  | O => (batch, rx)
  | S room =>
      match try_recv rx with
      | (Received pkt, rx) => fill_batch room rx (batch ++ [pkt])
      | (_, rx) => (batch, rx)
      end
  end.

Definition note_encap_ok (l : send_local) : send_local :=
  mkSendLocal 0 (obfuscation_settled l) (post_hs_junk_sent l) (uplink l).

Definition note_encap_err (l : send_local) : send_local :=
  mkSendLocal (Z.min (encap_errors l + 1) u32_max)
    (obfuscation_settled l) (post_hs_junk_sent l) (uplink l).

(** A call of the writer to the session, recorded. *)
Definition encapsulate_noted (now : Z) (t : T) (ip_packet : list Z) : TunnResult * T * list event :=
  let '(r, t) := encapsulate now t ip_packet in (r, t, [EvEncap ip_packet r]).

(** One packet under the lock: the session, the counters, the request for a
    new handshake, the datagram and what was recorded. *)
Definition encap_one (now : Z) (t : T) (l : send_local) (rekey : bool) (ip_packet : list Z)
  : T * send_local * bool * option (list Z) * list event :=
  let '(r, t, evs) := encapsulate_noted now t ip_packet in
  match r with
  | TunnDone => (t, note_encap_ok l, rekey, None, evs)
  | TunnErr _ =>
      let l := note_encap_err l in
      (t, l, rekey || (ENCAP_ERRORS_BEFORE_REKEY <=? encap_errors l), None, evs)
  | WriteToNetwork pkt =>
      (t, note_encap_ok l, rekey, Some (inject_client_id (client_id w) pkt), evs)
  | WriteToTunnelV4 _ | WriteToTunnelV6 _ => (t, l, rekey, None, evs)
  end.

Fixpoint encap_batch (now : Z) (t : T) (l : send_local) (rekey : bool) (batch : list (list Z))
  : T * send_local * bool * list (list Z) * list event :=
  match batch with
  | [] => (t, l, rekey, [], [])
  | pkt :: batch =>
      let '(t, l, rekey, d, evs) := encap_one now t l rekey pkt in
      let '(t, l, rekey, ds, more) := encap_batch now t l rekey batch in
      (t, l, rekey, option_list d ++ ds, evs ++ more)
  end.

(** The obfuscation before the first datagrams of a tunnel. *)
Definition settle (unix_secs : Z) (l : send_local) (obf_sent : bool) (s : noise R)
  : opt (send_local * bool * list (list Z) * noise R) :=
  if obfuscation_settled l then Done (l, obf_sent, [], s)
  else
    let l := mkSendLocal (encap_errors l) true (post_hs_junk_sent l) (uplink l) in
    if negb obf_sent && is_enabled (noise_cfg w) then
      '(junk, s) ← apply_obfuscation unix_secs (noise_cfg w) s;
      Done (l, true, junk, s)
    else Done (l, obf_sent, [], s).

Definition note_write (now : Z) (l : send_local) (len began : Z) (waited : bool) : send_local :=
  let u := uplink l in
  let micros := (now - began) / 1000 in
  let u := mkUplink (saturating_add (up_pkts u) 1) (saturating_add (up_bytes u) len)
             (up_waits u) (up_wait_micros u) (up_wait_worst_micros u) (last_uplink_report u) in
  let u :=
    if waited then
      mkUplink (up_pkts u) (up_bytes u) (saturating_add (up_waits u) 1)
        (saturating_add (up_wait_micros u) micros) (Z.max (up_wait_worst_micros u) micros)
        (last_uplink_report u)
    else u in
  mkSendLocal (encap_errors l) (obfuscation_settled l) (post_hs_junk_sent l) u.

(** The report, which is a log line and a reset, and the decoys after the
    first burst. *)
Definition send_finish (now : Z) (l : send_local) (s : noise R)
  : opt (send_local * list (list Z) * noise R) :=
  let u := uplink l in
  let u := if UPLINK_REPORT_INTERVAL <=? now - last_uplink_report u
           then mkUplink 0 0 0 0 0 now else u in
  if (0 <? jc_after_hs (noise_cfg w)) && negb (post_hs_junk_sent l) then
    '(junk, r) ← send_post_handshake_junk (noise_cfg w) (rng s);
    Done (mkSendLocal (encap_errors l) (obfuscation_settled l) true u, junk, with_rng s r)
  else
    Done (mkSendLocal (encap_errors l) (obfuscation_settled l) (post_hs_junk_sent l) u, [], s).

(** *** The session timer *)

(** The section under the lock: the session, when it was last replaced,
    whether it is beyond repair, and what to send. *)
Definition timer_section (now : Z) (t : T) (last_rekey : Z) (want_rekey : bool)
  : T * Z * bool * list (list Z) :=
  let '(t, want_rekey, outgoing) :=
    match update_timers now t with
    | (WriteToNetwork pkt, t) => (t, want_rekey, [inject_client_id (client_id w) pkt])
    | (TunnErr _, t) => (t, true, [])
    | (_, t) => (t, want_rekey, [])
    end in
  if want_rekey && (REKEY_MIN_GAP <=? now - last_rekey) then
    match encapsulate now (tunn_new now (keys w)) [] with
    | (WriteToNetwork pkt, t) =>
        (t, now, false, outgoing ++ [inject_client_id (client_id w) pkt])
    | (_, t) => (t, now, true, outgoing)
    end
  else (t, last_rekey, false, outgoing).

Definition timer_junk (outgoing : list (list Z)) (s : noise R) : opt (list (list Z) * noise R) :=
  if negb (zlen outgoing =? 0) && is_enabled (noise_cfg w) then
    '(junk, r) ← send_keepalive_junk (noise_cfg w) (rng s);
    Done (junk, with_rng s r)
  else Done ([], s).

(** *** The health check *)

Definition EXPIRED : AetherError :=
  Other (lit "wireguard session expired and could not be re-handshaked").
Definition STALE : AetherError :=
  Other (lit "wireguard tunnel stale: no valid data from peer").

(** After the pause: the request for a new handshake, and the next state. *)
Definition health_check (now last_valid_rx : Z) (session_dead rekey_now : bool) (strikes : Z)
  : bool * health_task :=
  if session_dead then (rekey_now, HealthEnded EXPIRED)
  else
    let idle := saturating_sub now last_valid_rx in
    let rekey_now := rekey_now || (stale_timeout w / 2 <=? idle) in
    if stale_timeout w <=? idle then
      let strikes := Z.min (strikes + 1) u32_max in
      if STALE_STRIKES_BEFORE_DEATH <=? strikes then (rekey_now, HealthEnded STALE)
      else (rekey_now, HealthProbe strikes)
    else (rekey_now, HealthProbe 0).

(** [send_dataplane_probe]: what to send, and the error of [encapsulate]. *)
Definition dataplane_datagram (now : Z) (t : T) (probe : list Z) : outcome Z (option (list Z)) * T :=
  match encapsulate now t probe with
  | (WriteToNetwork pkt, t) => (Done (Some (inject_client_id (client_id w) pkt)), t)
  | (TunnErr e, t) => (Fail e, t)
  | (_, t) => (Done None, t)
  end.

End Tasks.

(** ** The tunnel *)

Record tunnel (T Tx Rx R : Type) := mkState {
  now : Z;
  tunn : T;
  locked : bool;
  last_valid_rx : Z;
  rekey_now : bool;
  session_dead : bool;
  obf_sent : bool;
  inbound : Tx;
  outbound : Rx;
  wire : list datagram;
  randomness : noise R;
  recv_t : recv_task;
  send_t : send_task;
  timer_t : timer_task;
  health_t : health_task;
}.
Arguments mkState {T Tx Rx R}.
Arguments now {T Tx Rx R}.
Arguments tunn {T Tx Rx R}.
Arguments locked {T Tx Rx R}.
Arguments last_valid_rx {T Tx Rx R}.
Arguments rekey_now {T Tx Rx R}.
Arguments session_dead {T Tx Rx R}.
Arguments obf_sent {T Tx Rx R}.
Arguments inbound {T Tx Rx R}.
Arguments outbound {T Tx Rx R}.
Arguments wire {T Tx Rx R}.
Arguments randomness {T Tx Rx R}.
Arguments recv_t {T Tx Rx R}.
Arguments send_t {T Tx Rx R}.
Arguments timer_t {T Tx Rx R}.
Arguments health_t {T Tx Rx R}.

(** A datagram handed to the socket is on the wire or lost. *)
Definition put_on_wire (st : sent_status) (d : datagram) (l : list datagram) : list datagram :=
  match st with Sent => l ++ [d] | NotSent _ => l end.

(** [send(..).await]: pending while the socket has no room. *)
Definition await_send (st : sent_status) (d : datagram) (l : list datagram) : option (list datagram) :=
  match st with NotSent WouldBlock => None | _ => Some (put_on_wire st d l) end.

(** The writer's datagram leaves its hands: the wire, and what is recorded. *)
Definition uplink_write (st : sent_status) (d : list Z) (l : list datagram)
  : list datagram * list event :=
  (put_on_wire st (Message d) l, [EvWrote d st]).

Section Run.
Context {T Tx Rx R : Type} `{Tunn T} `{Sender Tx (list Z)} `{PatientSender Tx (list Z)}
        `{Receiver Rx (list Z)} `{Rng R} `{CpsSyntax}.
Variable w : WgTunnel.

Abbreviation state := (tunnel T Tx Rx R).

(** Only what a section changes is given; the rest is [s]'s. *)
Definition recv_to (s : state) (t : T) (rx : Z) (tx : Tx) (l : list datagram) (r : recv_task) : state :=
  mkState (now s) t (locked s) rx (rekey_now s) (session_dead s) (obf_sent s) tx (outbound s) l
    (randomness s) r (send_t s) (timer_t s) (health_t s).
Definition send_to (s : state) (t : T) (rekey obf : bool) (rx : Rx) (l : list datagram)
  (n : noise R) (r : send_task) : state :=
  mkState (now s) t (locked s) (last_valid_rx s) rekey (session_dead s) obf (inbound s) rx l n
    (recv_t s) r (timer_t s) (health_t s).
Definition timer_to (s : state) (t : T) (rekey dead : bool) (l : list datagram) (n : noise R)
  (r : timer_task) : state :=
  mkState (now s) t (locked s) (last_valid_rx s) rekey dead (obf_sent s) (inbound s) (outbound s) l n
    (recv_t s) (send_t s) r (health_t s).
Definition health_to (s : state) (t : T) (lk rekey : bool) (l : list datagram) (n : noise R)
  (r : health_task) : state :=
  mkState (now s) t lk (last_valid_rx s) rekey (session_dead s) (obf_sent s) (inbound s) (outbound s)
    l n (recv_t s) (send_t s) (timer_t s) r.

(** One section of the reader, [r] being what the socket has for it, if
    anything, and [st] what it does with a reply. *)
Definition recv_step (s : state) (r : option sock_recv) (st : sent_status)
  : option (state * list event) :=
  let same := recv_to s (tunn s) (last_valid_rx s) (inbound s) in
  match recv_t s with
  | RecvWait te =>
      match r with
      | Some r => Some (same (wire s) (recv_turn (now s) te r), [])
      | None => None
      end
  | RecvPause te until =>
      if until <=? now s then Some (same (wire s) (RecvWait te), []) else None
  | RecvLock data =>
      if locked s then None
      else
        match recv_section w (now s) (tunn s) data with
        | Done (t, k) => Some (recv_to s t (last_valid_rx s) (inbound s) (wire s) k, [])
        | _ => None
        end
  | RecvStamp progressed net tun =>
      if progressed
      then Some (recv_to s (tunn s) (now s) (inbound s) (wire s) (RecvWrite net tun), [EvValid (now s)])
      else Some (same (wire s) (RecvWrite net tun), [])
  | RecvWrite (d :: net) tun =>
      match await_send st (Message d) (wire s) with
      | Some l => Some (same l (RecvWrite net tun), [])
      | None => None
      end
  | RecvWrite [] (pkt :: tun) =>
      let '(ok, tx) := deliver_inbound (inbound s) pkt in
      Some (recv_to s (tunn s) (last_valid_rx s) tx (wire s)
              (if ok : bool then RecvWrite [] tun else RecvEnded), [])
  | RecvWrite [] [] => Some (same (wire s) (RecvWait 0), [])
  | RecvEnded => None
  end.

(** One section of the writer; [st] is what the socket does with the datagram
    and [writable] the answer of [writable()], if there is one. *)
Definition send_step (s : state) (unix_secs : Z) (st : sent_status) (writable : option bool)
  : option (state * list event) :=
  let same := send_to s (tunn s) (rekey_now s) (obf_sent s) (outbound s) in
  match send_t s with
  | SendWait l =>
      match try_recv (outbound s) with
      | (Received first, rx) =>
          let '(batch, rx) := fill_batch (Z.to_nat MAX_ENCAP_BATCH - 1) rx [first] in
          Some (send_to s (tunn s) (rekey_now s) (obf_sent s) rx (wire s) (randomness s)
                  (SendEncap l batch), [])
      | (RecvEmpty, _) => None
      | (RecvDisconnected, rx) =>
          Some (send_to s (tunn s) (rekey_now s) (obf_sent s) rx (wire s) (randomness s) SendEnded, [])
      end
  | SendEncap l batch =>
      if locked s then None
      else
        let '(t, l, rekey, ds, evs) := encap_batch w (now s) (tunn s) l (rekey_now s) batch in
        Some (send_to s t rekey (obf_sent s) (outbound s) (wire s) (randomness s)
                (if zlen ds =? 0 then SendWait l else SendSettle l ds), evs)
  | SendSettle l ds =>
      match settle w unix_secs l (obf_sent s) (randomness s) with
      | Done (l, obf, junk, n) =>
          Some (send_to s (tunn s) (rekey_now s) obf (outbound s) (wire s) n (SendJunk l junk ds), [])
      | _ => None
      end
  | SendJunk l (j :: junk) ds =>
      match await_send st (Decoy j) (wire s) with
      | Some wire => Some (same wire (randomness s) (SendJunk l junk ds), [])
      | None => None
      end
  | SendJunk l [] ds => Some (same (wire s) (randomness s) (SendWrite l ds (now s) false), [])
  | SendWrite l (d :: ds) began waited =>
      match st with
      | NotSent WouldBlock => Some (same (wire s) (randomness s) (SendFull l d ds began), [])
      | _ =>
          let '(wire, evs) := uplink_write st d (wire s) in
          Some (same wire (randomness s)
                  (SendWrite (note_write (now s) l (zlen d) began waited) ds (now s) false), evs)
      end
  | SendFull l d ds began =>
      match writable with
      | None => None
      | Some true => Some (same (wire s) (randomness s) (SendWrite l (d :: ds) began true), [])
      | Some false =>
          let '(wire, evs) := uplink_write (NotSent WouldBlock) d (wire s) in
          Some (same wire (randomness s)
                  (SendWrite (note_write (now s) l (zlen d) began true) ds (now s) false), evs)
      end
  | SendWrite l [] _ _ =>
      match send_finish w (now s) l (randomness s) with
      | Done (l, junk, n) => Some (same (wire s) n (SendTail l junk), [])
      | _ => None
      end
  | SendTail l (j :: junk) =>
      match await_send st (Decoy j) (wire s) with
      | Some wire => Some (same wire (randomness s) (SendTail l junk), [])
      | None => None
      end
  | SendTail l [] => Some (same (wire s) (randomness s) (SendWait l), [])
  | SendEnded => None
  end.

(** One section of the timer; [next] is the next tick of its interval, which
    is never more than a period away. *)
Definition timer_step (s : state) (st : sent_status) (next : Z) : option (state * list event) :=
  let same := timer_to s (tunn s) (rekey_now s) (session_dead s) in
  match timer_t s with
  | TimerWait last due =>
      if due <=? now s
      then Some (timer_to s (tunn s) false (session_dead s) (wire s) (randomness s)
                   (TimerLock last (rekey_now s)), [])
      else None
  | TimerLock last want =>
      if locked s then None
      else
        let '(t, last', unrecoverable, outgoing) := timer_section w (now s) (tunn s) last want in
        Some (timer_to s t (rekey_now s) (session_dead s) (wire s) (randomness s)
                (TimerFlag last' unrecoverable outgoing),
              if last' =? last then [] else [EvFresh (now s)])
  | TimerFlag last unrecoverable outgoing =>
      match timer_junk w outgoing (randomness s) with
      | Done (junk, n) =>
          Some (timer_to s (tunn s) (rekey_now s) (session_dead s || unrecoverable) (wire s) n
                  (TimerWrite last junk outgoing), [])
      | _ => None
      end
  | TimerWrite last (j :: junk) outgoing =>
      match await_send st (Decoy j) (wire s) with
      | Some wire => Some (same wire (randomness s) (TimerWrite last junk outgoing), [])
      | None => None
      end
  | TimerWrite last [] (d :: outgoing) =>
      match await_send st (Message d) (wire s) with
      | Some wire => Some (same wire (randomness s) (TimerWrite last [] outgoing), [])
      | None => None
      end
  | TimerWrite last [] [] =>
      Some (same (wire s) (randomness s) (TimerWait last (Z.min next (now s + TIMER_TICK))), [])
  end.

(** The next turn of the health check: the lock is free again and the pause
    starts. *)
Definition health_again (s : state) (t : T) (l : list datagram) (strikes : Z) : state :=
  let '(word, r) := draw (rng (randomness s)) in
  health_to s t false (rekey_now s) l (with_rng (randomness s) r)
    (HealthWait strikes (now s + health_check_pause word)).

(** One section of the health check, which holds the lock until its probe has
    left the socket. *)
Definition health_step (s : state) (st : sent_status) : option (state * list event) :=
  match health_t s with
  | HealthWait strikes due =>
      if due <=? now s then
        let '(rekey, k) :=
          health_check w (now s) (last_valid_rx s) (session_dead s) (rekey_now s) strikes in
        Some (health_to s (tunn s) (locked s) rekey (wire s) (randomness s) k,
              if session_dead s then []
              else [EvCheck (now s) (saturating_sub (now s) (last_valid_rx s)) rekey])
      else None
  | HealthProbe strikes =>
      match build_dataplane_probe (local_ipv4 w) (rng (randomness s)) with
      | Done (probe, r) =>
          Some (health_to s (tunn s) (locked s) (rekey_now s) (wire s) (with_rng (randomness s) r)
                  (HealthLock strikes probe), [])
      | _ => None
      end
  | HealthLock strikes probe =>
      if locked s then None
      else
        match dataplane_datagram w (now s) (tunn s) probe with
        | (Done (Some d), t) =>
            Some (health_to s t true (rekey_now s) (wire s) (randomness s) (HealthSend strikes d), [])
        | (_, t) => Some (health_again s t (wire s) strikes, [])
        end
  | HealthSend strikes d =>
      match await_send st (Message d) (wire s) with
      | Some wire => Some (health_again s (tunn s) wire strikes, [])
      | None => None
      end
  | HealthEnded _ => None
  end.

(** The end of [run]: the first task to finish ends the others. *)
Definition run_result (s : state) : option (aresult unit) :=
  match recv_t s, send_t s, health_t s with
  | RecvEnded, _, _ => Some (Done tt)
  | _, SendEnded, _ => Some (Done tt)
  | _, _, HealthEnded e => Some (Fail e)
  | _, _, _ => None
  end.

(** The interleavings: a task runs one section, time passes, the network stack
    offers a packet or reads some. *)
Inductive step : state -> list event -> state -> Prop :=
| step_recv s r st s' evs : recv_step s r st = Some (s', evs) -> step s evs s'
| step_send s secs st wr s' evs : send_step s secs st wr = Some (s', evs) -> step s evs s'
| step_timer s st next s' evs : timer_step s st next = Some (s', evs) -> step s evs s'
| step_health s st s' evs : health_step s st = Some (s', evs) -> step s evs s'
| step_time s d :
    0 <= d ->
    step s [] (mkState (now s + d) (tunn s) (locked s) (last_valid_rx s) (rekey_now s) (session_dead s)
      (obf_sent s) (inbound s) (outbound s) (wire s) (randomness s)
      (recv_t s) (send_t s) (timer_t s) (health_t s))
| step_offer s pkt rx :
    rx_queue rx = rx_queue (outbound s) ++ [pkt] ->
    step s [EvOffered pkt] (mkState (now s) (tunn s) (locked s) (last_valid_rx s) (rekey_now s) (session_dead s)
      (obf_sent s) (inbound s) rx (wire s) (randomness s)
      (recv_t s) (send_t s) (timer_t s) (health_t s))
| step_taken s tx :
    step s [] (mkState (now s) (tunn s) (locked s) (last_valid_rx s) (rekey_now s) (session_dead s)
      (obf_sent s) tx (outbound s) (wire s) (randomness s)
      (recv_t s) (send_t s) (timer_t s) (health_t s)).

(** Tasks run only while none of them has ended. *)
Inductive steps : state -> list event -> state -> Prop :=
| steps_refl s : steps s [] s
| steps_snoc s tr s1 evs s2 :
    steps s tr s1 -> run_result s1 = None -> step s1 evs s2 -> steps s (tr ++ evs) s2.

(** The state [run] starts from: a session, the packets already queued, and a
    first pause. *)
Definition start (at_ : Z) (t : T) (obf : bool) (tx : Tx) (rx : Rx) (n : noise R) (word : Z) : state :=
  mkState at_ t false at_ false false obf tx rx [] n
    (RecvWait 0)
    (SendWait (mkSendLocal 0 false false (mkUplink 0 0 0 0 0 at_)))
    (TimerWait (if REKEY_MIN_GAP <=? at_ then at_ - REKEY_MIN_GAP else at_) at_)
    (HealthWait 0 (at_ + health_check_pause word)).

End Run.
