(* ===== verification/WgFacts.v ===== *)
(** * Properties of the WireGuard tunnel

    Invariants of the executions of [WireGuard.step], by induction on the
    sequence of sections the tasks run: the order of the uplink, what the wire
    carries, when a session is replaced and when the tunnel is given up. *)

From stdpp Require Import base list option.
From Stdlib Require Import ZArith Lia Sorted.
From S2P Require Import Prelude Rand RustStr Octets Error Channel Net Sysprofile Masque AetherNoize.
From S2P Require Import WireGuard.

(** ** Datagrams *)

Lemma strip_inject id p : length id = 3%nat -> wg_message p ->
  strip_client_id (inject_client_id id p) = p /\
  zsub (inject_client_id id p) 1 4 = id /\ zlen (inject_client_id id p) = zlen p.
Proof.
  intros Hl (ty & rest & -> & Hty). destruct id as [|a [|b [|c [|]]]]; try done.
  unfold strip_client_id, inject_client_id. cbn [set_reserved app].
  assert ((ty <? WG_MSG_TYPE_MIN) || (WG_MSG_TYPE_MAX <? ty) = false) as E
    by (unfold WG_MSG_TYPE_MIN, WG_MSG_TYPE_MAX in *; lia).
  rewrite !E. cbn [set_reserved app]. rewrite E.
  split_and!; [done|by destruct rest|by rewrite !zlen_cons].
Qed.

(** ** Executions *)

(** What a trace holds of each kind. *)
Definition offered (tr : list event) : list (list Z) :=
  omap (fun e => match e with EvOffered p => Some p | _ => None end) tr.
Definition encapsulated (tr : list event) : list (list Z) :=
  omap (fun e => match e with EvEncap p _ => Some p | _ => None end) tr.
Definition answers (tr : list event) : list TunnResult :=
  omap (fun e => match e with EvEncap _ r => Some r | _ => None end) tr.
Definition written (tr : list event) : list (list Z) :=
  omap (fun e => match e with EvWrote d _ => Some d | _ => None end) tr.
Definition fresh_times (tr : list event) : list Z :=
  omap (fun e => match e with EvFresh t => Some t | _ => None end) tr.
Definition valid_times (tr : list event) : list Z :=
  omap (fun e => match e with EvValid t => Some t | _ => None end) tr.
Definition is_check (e : event) : bool := match e with EvCheck _ _ _ => true | _ => false end.
Definition no_check (tr : list event) : Prop := Forall (fun e => is_check e = false) tr.

(** What the writer records says nothing of the other tasks. *)
Definition of_uplink (e : event) : Prop :=
  match e with EvEncap _ _ | EvWrote _ _ => True | _ => False end.

Lemma uplink_silent evs : Forall of_uplink evs ->
  offered evs = [] /\ fresh_times evs = [] /\ valid_times evs = [] /\ no_check evs.
Proof.
  induction 1 as [|[] evs He _ (Ho & Hf & Hv & Hn)]; try done; [by repeat constructor|..];
    unfold offered, fresh_times, valid_times, no_check in *; cbn; by auto.
Qed.

Lemma noted_uplink batch rs : Forall of_uplink (zip_with EvEncap batch rs).
Proof. revert rs. induction batch; intros []; cbn; by constructor. Qed.

(** ** The session as the writer uses it *)

Section Calls.
Context {T : Type} `{Tunn T}.
Variable w : WgTunnel.

(** One call after the other. *)
Fixpoint calls (now : Z) (t : T) (batch : list (list Z)) : list TunnResult * T :=
  match batch with
  | [] => ([], t)
  | p :: batch =>
      let '(r, t) := encapsulate now t p in
      let '(rs, t) := calls now t batch in (r :: rs, t)
  end.

Definition datagram_of (r : TunnResult) : option (list Z) :=
  match r with WriteToNetwork pkt => Some (inject_client_id (client_id w) pkt) | _ => None end.

(** The refusals in a row after a result, and whether one of the results makes
    them too many. *)
Definition refused (n : Z) (r : TunnResult) : Z :=
  match r with
  | TunnErr _ => Z.min (n + 1) u32_max
  | TunnDone | WriteToNetwork _ => 0
  | _ => n
  end.

Fixpoint asks_for_rekey (n : Z) (rs : list TunnResult) : bool :=
  match rs with
  | [] => false
  | r :: rs =>
      match r with TunnErr _ => ENCAP_ERRORS_BEFORE_REKEY <=? refused n r | _ => false end ||
      asks_for_rekey (refused n r) rs
  end.

Lemma encap_batch_calls now (t : T) l rekey batch t' l' rekey' ds evs :
  encap_batch w now t l rekey batch = (t', l', rekey', ds, evs) ->
  exists rs, calls now t batch = (rs, t') /\ length rs = length batch /\
    ds = omap datagram_of rs /\ evs = zip_with EvEncap batch rs /\
    l' = mkSendLocal (fold_left refused rs (encap_errors l)) (obfuscation_settled l)
           (post_hs_junk_sent l) (uplink l) /\
    rekey' = rekey || asks_for_rekey (encap_errors l) rs.
Proof.
  revert t l rekey t' l' rekey' ds evs.
  induction batch as [|p batch IH]; intros t l rekey t' l' rekey' ds evs; cbn [encap_batch calls].
  { intros [= <- <- <- <- <-]. exists []. cbn. rewrite orb_false_r. by destruct l. }
  unfold encap_one, encapsulate_noted. destruct (encapsulate now t p) as [r t1].
  destruct r; cbn zeta iota;
    destruct (encap_batch w now t1 _ _ batch) as [[[[t2 l2] k2] ds2] evs2] eqn:E2; intros [= <- <- <- <- <-];
    destruct (IH _ _ _ _ _ _ _ _ E2) as (rs & -> & Hl & -> & -> & -> & ->);
    (eexists; split; [reflexivity|]); cbn -[Z.min u32_max ENCAP_ERRORS_BEFORE_REKEY];
    rewrite ?orb_assoc; by rewrite Hl.
Qed.

End Calls.

Section Steps.
Context {T Tx Rx R : Type} `{Tunn T} `{Sender Tx (list Z)} `{PatientSender Tx (list Z)}
        `{Receiver Rx (list Z)} `{Rng R} `{CpsSyntax}.
Variable w : WgTunnel.

Abbreviation state := (tunnel T Tx Rx R).
Implicit Types s : state.

Lemma steps_inv (P : list event -> state -> Prop) s0 tr s :
  P [] s0 ->
  (forall tr s evs s', P tr s -> run_result s = None -> step w s evs s' -> P (tr ++ evs) s') ->
  steps w s0 tr s -> P tr s.
Proof. intros Hinit Hstep. induction 1; eauto. Qed.

(** A section changes the task it belongs to and nothing of the others. *)
Lemma recv_step_shape s r st s' evs :
  recv_step w s r st = Some (s', evs) ->
  exists t rx tx l k, s' = recv_to s t rx tx l k /\
    ((evs = [] /\ rx = last_valid_rx s) \/ (evs = [EvValid (now s)] /\ rx = now s)).
Proof.
  unfold recv_step. intros E. repeat case_match; simplify_eq; do 5 eexists; eauto.
Qed.

Lemma send_step_shape s secs st wr s' evs :
  send_step w s secs st wr = Some (s', evs) ->
  exists t rekey obf rx l n k, s' = send_to s t rekey obf rx l n k /\ Forall of_uplink evs.
Proof.
  assert (Hb : forall t l k batch t' l' k' ds evs,
             encap_batch w (now s) t l k batch = (t', l', k', ds, evs) -> Forall of_uplink evs).
  { intros * E. destruct (encap_batch_calls _ _ _ _ _ _ _ _ _ _ _ E) as (rs & _ & _ & _ & -> & _).
    apply noted_uplink. }
  unfold send_step. intros E. repeat case_match; unfold uplink_write in *; simplify_eq;
    do 7 eexists; (split; [reflexivity|]); by eauto || by repeat constructor.
Qed.

Lemma timer_step_shape s st next s' evs :
  timer_step w s st next = Some (s', evs) ->
  exists t rekey dead l n k, s' = timer_to s t rekey dead l n k /\
    (evs = [] \/ evs = [EvFresh (now s)]).
Proof.
  unfold timer_step. intros E. repeat case_match; simplify_eq; do 6 eexists; eauto.
Qed.

Lemma health_step_shape s st s' evs :
  health_step w s st = Some (s', evs) ->
  exists t lk rekey l n k, s' = health_to s t lk rekey l n k /\
    (evs = [] \/ exists idle rq, evs = [EvCheck (now s) idle rq]).
Proof.
  unfold health_step, health_again. intros E. repeat case_match; simplify_eq; do 6 eexists; eauto.
Qed.

End Steps.

(** Takes apart a step: the five kinds, the frame of a section substituted
    where the section itself does not matter. *)
Ltac step_cases Hst :=
  inversion Hst as
    [? r st ? ? E|? secs st wr ? ? E|? st next ? ? E|? st ? ? E|? dt Hdt|? pkt rx Hrx|? tx]; subst; clear Hst.
Ltac frame_recv E := apply recv_step_shape in E as (? & ? & ? & ? & ? & -> & [[-> ->]|[-> ->]]); cbn.
Ltac frame_send E :=
  apply send_step_shape in E as (? & ? & ? & ? & ? & ? & ? & -> & (Ho & Hfr & Hva & Hnc)%uplink_silent); cbn.
Ltac frame_timer E := apply timer_step_shape in E as (? & ? & ? & ? & ? & ? & -> & [->| ->]); cbn.
Ltac frame_health E := apply health_step_shape in E as (? & ? & ? & ? & ? & ? & -> & [->|(? & ? & ->)]); cbn.

(** ** The uplink *)

Section Uplink.
Context {T Tx Rx R : Type} `{Tunn T} `{Sender Tx (list Z)} `{PatientSender Tx (list Z)}
        `{ReceiverLaws Rx (list Z)} `{Rng R} `{CpsSyntax}.
Variable w : WgTunnel.

Abbreviation state := (tunnel T Tx Rx R).
Implicit Types s : state.

Lemma fill_batch_spec room (rx : Rx) batch b rx' :
  fill_batch room rx batch = (b, rx') ->
  exists taken, b = batch ++ taken /\ rx_queue rx = taken ++ rx_queue rx' /\
                (length taken <= room)%nat.
Proof.
  revert rx batch. induction room as [|room IH]; intros rx batch; cbn.
  { intros [= <- <-]. exists []. by rewrite app_nil_r. }
  destruct (try_recv rx) as [[pkt| |] rx1] eqn:E; intros Hf.
  - destruct (IH _ _ Hf) as (taken & -> & Hq & Hl). exists (pkt :: taken).
    rewrite <- app_assoc. split_and!; [done| |cbn; lia].
    rewrite (try_recv_got _ _ _ E), Hq. done.
  - simplify_eq. exists []. destruct (try_recv_empty _ _ E) as [-> ->].
    rewrite app_nil_r. split_and!; [done|done|cbn; lia].
  - simplify_eq. exists []. destruct (try_recv_gone _ _ E) as [-> ->].
    rewrite app_nil_r. split_and!; [done|done|cbn; lia].
Qed.

(** The packets the writer holds and has not given to the session. *)
Definition held (k : send_task) : list (list Z) :=
  match k with SendEncap _ batch => batch | _ => [] end.

(** The datagrams it has and has not handed to the socket. *)
Definition unsent (k : send_task) : list (list Z) :=
  match k with
  | SendSettle _ ds | SendJunk _ _ ds | SendWrite _ ds _ _ => ds
  | SendFull _ d ds _ => d :: ds
  | _ => []
  end.

Lemma noted_projections batch rs : length rs = length batch ->
  let evs := zip_with EvEncap batch rs in
  encapsulated evs = batch /\ answers evs = rs /\ written evs = [].
Proof.
  revert rs. induction batch as [|p batch IH]; intros [|r rs]; cbn; try done. intros [= Hl].
  destruct (IH rs Hl) as (He & Ha & Hw). unfold encapsulated, answers, written in *. cbn.
  by rewrite He, Ha, Hw.
Qed.

Lemma send_step_fifo s secs st wr s' evs :
  send_step w s secs st wr = Some (s', evs) ->
  held (send_t s) ++ rx_queue (outbound s) =
    encapsulated evs ++ held (send_t s') ++ rx_queue (outbound s') /\
  unsent (send_t s) ++ omap (datagram_of w) (answers evs) = written evs ++ unsent (send_t s') /\
  (zlen (held (send_t s)) <= MAX_ENCAP_BATCH -> zlen (held (send_t s')) <= MAX_ENCAP_BATCH).
Proof.
  unfold send_step.
  destruct (send_t s) as [l|l batch|l ds|l [|j junk] ds|l [|d ds] b wt|l d ds b|l [|j junk]|] eqn:Es;
    intros E; cbn [held unsent].
  - destruct (try_recv (outbound s)) as [[pkt| |] rx] eqn:Er; [|done|].
    + destruct (fill_batch _ rx [pkt]) as [batch rx'] eqn:Ef. simplify_eq. cbn [send_to send_t outbound held].
      destruct (fill_batch_spec _ _ _ _ _ Ef) as (taken & -> & Hq & Hl).
      rewrite (try_recv_got _ _ _ Er), Hq. split_and!; [done|done|]. intros _.
      unfold zlen, MAX_ENCAP_BATCH in *. rewrite length_app. cbn [length] in *. lia.
    + simplify_eq. cbn. destruct (try_recv_gone _ _ Er) as [-> ->].
      split_and!; [done|done|]. unfold zlen. cbn. lia.
  - destruct (locked s); [done|].
    destruct (encap_batch w (now s) (tunn s) l (rekey_now s) batch) as [[[[t' l'] k'] ds] ev] eqn:Eb.
    simplify_eq. destruct (encap_batch_calls _ _ _ _ _ _ _ _ _ _ _ Eb) as (rs & _ & Hl & -> & -> & _ & _).
    destruct (noted_projections batch rs Hl) as (-> & -> & ->). cbn [send_to send_t outbound].
    set (ds := omap (datagram_of w) rs).
    assert (held (if zlen ds =? 0 then SendWait l' else SendSettle l' ds) = []) as -> by (by dest_if).
    assert (unsent (if zlen ds =? 0 then SendWait l' else SendSettle l' ds) = ds) as ->.
    { dest_if; [|done]. destruct ds; [done|]. rewrite zlen_cons in *. pose proof (zlen_nonneg ds). lia. }
    split_and!; [done|done|]. unfold zlen. cbn. lia.
  - destruct (settle w secs l (obf_sent s) (randomness s)) as [[[[l' o'] junk] n]| | |]; simplify_eq.
    by rewrite app_nil_r.
  - simplify_eq. by rewrite app_nil_r.
  - destruct (await_send st (Decoy j) (wire s)); simplify_eq. by rewrite app_nil_r.
  - destruct (send_finish w (now s) l (randomness s)) as [[[l' junk] n]| | |]; simplify_eq. done.
  - destruct st as [|[]]; cbn in E; simplify_eq; cbn; by rewrite app_nil_r.
  - destruct wr as [[]|]; cbn in E; simplify_eq; cbn; by rewrite app_nil_r.
  - simplify_eq. done.
  - destruct (await_send st (Decoy j) (wire s)); simplify_eq. done.
  - done.
Qed.

Definition uplink_ok (q0 : list (list Z)) (tr : list event) s : Prop :=
  q0 ++ offered tr = encapsulated tr ++ held (send_t s) ++ rx_queue (outbound s) /\
  omap (datagram_of w) (answers tr) = written tr ++ unsent (send_t s) /\
  zlen (held (send_t s)) <= MAX_ENCAP_BATCH.

(** Sections that leave the writer and its queue alone. *)
Lemma uplink_frame q0 tr evs s s' :
  offered evs = [] -> encapsulated evs = [] -> answers evs = [] -> written evs = [] ->
  send_t s' = send_t s -> rx_queue (outbound s') = rx_queue (outbound s) ->
  uplink_ok q0 tr s -> uplink_ok q0 (tr ++ evs) s'.
Proof.
  unfold uplink_ok, offered, encapsulated, answers, written. rewrite !omap_app.
  by intros -> -> -> -> -> ->; rewrite !app_nil_r.
Qed.

Lemma uplink_inv s0 tr s :
  held (send_t s0) = [] -> unsent (send_t s0) = [] -> steps w s0 tr s ->
  uplink_ok (rx_queue (outbound s0)) tr s.
Proof.
  intros Hs0 Hu0. apply (steps_inv w (uplink_ok (rx_queue (outbound s0)))).
  { unfold uplink_ok. rewrite Hs0, Hu0. cbn. rewrite app_nil_r. split_and!; [done|done|].
    unfold zlen, MAX_ENCAP_BATCH. cbn. lia. }
  clear tr s. intros tr s evs s' IH _ Hst. step_cases Hst.
  - frame_recv E; by eapply uplink_frame.
  - destruct (send_step_fifo _ _ _ _ _ _ E) as (Hf & Hd & Hb). destruct IH as (IH1 & IH2 & IH3).
    frame_send E. unfold uplink_ok, offered, encapsulated, answers, written in *.
    rewrite !omap_app, Ho, app_nil_r, IH1, Hf, IH2, <- !app_assoc. split_and!; [done|by rewrite Hd|by apply Hb].
  - frame_timer E; by eapply uplink_frame.
  - frame_health E; by eapply uplink_frame.
  - cbn. by eapply uplink_frame.
  - destruct IH as (IH1 & IH2 & IH3). unfold uplink_ok, offered, encapsulated, answers, written in *.
    rewrite !omap_app, (app_assoc _ (omap _ tr)), IH1. cbn. rewrite Hrx, !app_nil_r, <- !app_assoc. done.
  - by eapply uplink_frame.
Qed.

End Uplink.

(** ** The wire *)

Section Wire.
Context {T Tx Rx R : Type} `{TunnLaws T} `{Sender Tx (list Z)} `{PatientSender Tx (list Z)}
        `{Receiver Rx (list Z)} `{Rng R} `{CpsSyntax}.
Variable w : WgTunnel.

Abbreviation state := (tunnel T Tx Rx R).
Implicit Types s : state.

(** A message of the session, with the client id in its reserved bytes. *)
Definition stamped (d : list Z) : Prop :=
  exists p, wg_message p /\ d = inject_client_id (client_id w) p.

Lemma drain_session_spec fuel now (t : T) data acc pr :
  (match decapsulate now t data with (WriteToNetwork _, t') => S (S (tunn_queued t')) | _ => 1 end
     <= fuel)%nat ->
  Forall stamped acc ->
  exists t' net tun pr',
    drain_session w fuel now t data acc pr = Done (t', net, tun, pr') /\
    Forall stamped net /\ (length tun <= 1)%nat /\ (net <> acc -> pr' = true).
Proof.
  revert t data acc pr. induction fuel as [|fuel IH]; intros t data acc pr Hf Hacc.
  { destruct (decapsulate now t data) as [[] ?]; lia. }
  cbn [drain_session]. destruct (decapsulate now t data) as [[|e|pkt|pkt|pkt] t'] eqn:E;
    try (do 4 eexists; split_and!; [reflexivity|done|cbn; lia|done]).
  apply decapsulate_message in E.
  destruct (IH t' [] (acc ++ [inject_client_id (client_id w) pkt]) true)
    as (t2 & net & tun & pr' & Hd & Hn & Ht & Hp).
  { destruct (decapsulate now t' []) as [[] t2] eqn:E2; try lia.
    apply decapsulate_queue in E2. lia. }
  { apply Forall_app. split; [done|]. apply Forall_singleton. by exists pkt. }
  rewrite Hd. do 4 eexists. split_and!; [reflexivity|done|done|]. intros _.
  clear - Hd. revert t' acc Hd.
  assert (G : forall fuel (t : T) data acc v, drain_session w fuel now t data acc true = Done v -> v.2 = true).
  { clear. induction fuel as [|fuel IH]; intros t data acc v; cbn; [done|].
    destruct (decapsulate now t data) as [[] ?]; try (intros [= <-]; done). apply IH. }
  intros t' acc Hd. apply (G _ _ _ _ _ Hd).
Qed.

Lemma calls_stamped now (t : T) batch rs t' :
  calls now t batch = (rs, t') -> Forall stamped (omap (datagram_of w) rs).
Proof.
  revert t rs t'. induction batch as [|p batch IH]; intros t rs t'; cbn; [by intros [= <- <-]|].
  destruct (encapsulate now t p) as [r t1] eqn:E. destruct (calls now t1 batch) as [rs' t2] eqn:Ec.
  intros [= <- <-]. cbn. destruct r; cbn; try by eapply IH.
  constructor; [|by eapply IH]. apply encapsulate_message in E. by eexists.
Qed.

Lemma encap_batch_stamped now (t : T) l rekey batch t' l' rekey' ds evs :
  encap_batch w now t l rekey batch = (t', l', rekey', ds, evs) -> Forall stamped ds.
Proof.
  intros E. destruct (encap_batch_calls _ _ _ _ _ _ _ _ _ _ _ E) as (rs & Hc & _ & -> & _).
  by eapply calls_stamped.
Qed.

Lemma recv_section_stamped now (t : T) data t' k :
  recv_section w now t data = Done (t', k) ->
  exists pr net tun, k = RecvStamp pr net tun /\ Forall stamped net.
Proof.
  unfold recv_section.
  destruct (drain_session_spec (recv_fuel now t data) now t data [] false)
    as (t1 & net & tun & pr & -> & Hn & _); [|by constructor|intros [= <- <-]; by eauto].
  unfold recv_fuel. destruct (decapsulate now t data) as [[] ?]; cbn; lia.
Qed.

Lemma timer_section_stamped now (t : T) last want t' last' dead out :
  timer_section w now t last want = (t', last', dead, out) -> Forall stamped out.
Proof.
  unfold timer_section. intros E.
  destruct (update_timers now t) as [r t1] eqn:Eu.
  set (first := match r with WriteToNetwork pkt => [inject_client_id (client_id w) pkt] | _ => [] end).
  assert (Hfirst : Forall stamped first).
  { destruct r; cbn; try constructor; [|constructor]. apply timers_message in Eu. by eexists. }
  assert (Hout : out = first \/ exists pkt t2 k, encapsulate now k [] = (WriteToNetwork pkt, t2) /\
                   out = first ++ [inject_client_id (client_id w) pkt]).
  { destruct r; cbn in E; unfold first; repeat case_match; simplify_eq; eauto 8. }
  destruct Hout as [->|(pkt & t2 & k & Ee & ->)]; [done|].
  apply Forall_app. split; [done|]. apply Forall_singleton.
  apply encapsulate_message in Ee. by eexists.
Qed.

(** The datagrams of the session that are still to be written. *)
Definition unwritten s : list (list Z) :=
  match recv_t s with RecvStamp _ net _ | RecvWrite net _ => net | _ => [] end ++
  unsent (send_t s) ++
  match timer_t s with TimerFlag _ _ out | TimerWrite _ _ out => out | _ => [] end ++
  match health_t s with HealthSend _ d => [d] | _ => [] end.

Definition messages (l : list datagram) : list (list Z) :=
  omap (fun d => match d with Message m => Some m | Decoy _ => None end) l.

Definition wire_ok s : Prop :=
  Forall stamped (messages (wire s)) /\ Forall stamped (unwritten s).

Lemma messages_put_message st d l :
  Forall stamped (messages l) -> stamped d -> Forall stamped (messages (put_on_wire st (Message d) l)).
Proof.
  intros Hl Hd. destruct st; [|done]. unfold messages. cbn. rewrite omap_app. cbn.
  apply Forall_app. split; [done|]. by apply Forall_singleton.
Qed.

Lemma messages_put_decoy st d l : messages (put_on_wire st (Decoy d) l) = messages l.
Proof. destruct st; [|done]. unfold messages. cbn. rewrite omap_app. cbn. by rewrite app_nil_r. Qed.

Lemma messages_await_message st d l l' :
  await_send st (Message d) l = Some l' ->
  Forall stamped (messages l) -> stamped d -> Forall stamped (messages l').
Proof.
  unfold await_send. intros E Hl Hd. pose proof (messages_put_message st d l Hl Hd).
  destruct st as [|[]]; by simplify_eq.
Qed.

Lemma messages_await_decoy st d l l' :
  await_send st (Decoy d) l = Some l' -> messages l' = messages l.
Proof.
  unfold await_send. intros E. rewrite <- (messages_put_decoy st d l). destruct st as [|[]]; by simplify_eq.
Qed.

(** The parts of [unwritten], one per task. *)
Lemma wire_ok_parts s :
  wire_ok s <->
  Forall stamped (messages (wire s)) /\
  Forall stamped (match recv_t s with RecvStamp _ net _ | RecvWrite net _ => net | _ => [] end) /\
  Forall stamped (unsent (send_t s)) /\
  Forall stamped (match timer_t s with TimerFlag _ _ out | TimerWrite _ _ out => out | _ => [] end) /\
  Forall stamped (match health_t s with HealthSend _ d => [d] | _ => [] end).
Proof. unfold wire_ok, unwritten. by rewrite !Forall_app. Qed.

Lemma recv_step_wire s r st s' evs :
  wire_ok s -> recv_step w s r st = Some (s', evs) -> wire_ok s'.
Proof.
  rewrite !wire_ok_parts. intros (Hw & Hr & Hs & Ht & Hh) E. unfold recv_step in E.
  destruct (recv_t s) as [te|te u|data|p net tun|[|d net] tun|] eqn:Er; try done.
  - destruct r as [r|]; simplify_eq. cbn. split_and!; try done.
    unfold recv_turn. by repeat case_match.
  - destruct (u <=? now s); by simplify_eq.
  - destruct (locked s); [done|].
    destruct (recv_section w (now s) (tunn s) data) as [[t k]| | |] eqn:Et; simplify_eq.
    apply recv_section_stamped in Et as (pr & net & tun & -> & Hn). done.
  - destruct p; by simplify_eq.
  - destruct tun as [|pkt tun]; [by simplify_eq|].
    destruct (deliver_inbound (inbound s) pkt) as [ok tx]. simplify_eq. by destruct ok.
  - destruct (await_send st (Message d) (wire s)) eqn:Ea; simplify_eq. inversion Hr; subst.
    cbn. split_and!; try done. by eapply messages_await_message.
Qed.

Lemma send_step_wire s secs st wr s' evs :
  wire_ok s -> send_step w s secs st wr = Some (s', evs) -> wire_ok s'.
Proof.
  rewrite !wire_ok_parts. intros (Hw & Hr & Hs & Ht & Hh) E. unfold send_step in E.
  destruct (send_t s) as [l|l batch|l ds|l [|j junk] ds|l [|d ds] b wt|l d ds b|l [|j junk]|] eqn:Es; try done.
  - destruct (try_recv (outbound s)) as [[pkt| |] rx]; [|done|by simplify_eq].
    destruct (fill_batch _ rx [pkt]) as [batch rx']. by simplify_eq.
  - destruct (locked s); [done|].
    destruct (encap_batch w (now s) (tunn s) l (rekey_now s) batch) as [[[[t' l'] k'] ds] ev] eqn:Eb.
    simplify_eq. cbn. split_and!; try done. dest_if; [done|]. by eapply encap_batch_stamped.
  - destruct (settle w secs l (obf_sent s) (randomness s)) as [[[[l' o'] junk] n]| | |]; by simplify_eq.
  - by simplify_eq.
  - destruct (await_send st (Decoy j) (wire s)) eqn:Ea; simplify_eq. cbn [send_to timer_to wire].
    by rewrite (messages_await_decoy _ _ _ _ Ea).
  - destruct (send_finish w (now s) l (randomness s)) as [[[l' junk] n]| | |]; by simplify_eq.
  - cbn in Hs. inversion Hs; subst. destruct st as [|[]]; cbn in E; simplify_eq; try done.
    split_and!; try done. by apply (messages_put_message Sent).
  - cbn in Hs. inversion Hs; subst. destruct wr as [[]|]; cbn in E; by simplify_eq.
  - by simplify_eq.
  - destruct (await_send st (Decoy j) (wire s)) eqn:Ea; simplify_eq. cbn [send_to timer_to wire].
    by rewrite (messages_await_decoy _ _ _ _ Ea).
Qed.

Lemma timer_step_wire s st next s' evs :
  wire_ok s -> timer_step w s st next = Some (s', evs) -> wire_ok s'.
Proof.
  rewrite !wire_ok_parts. intros (Hw & Hr & Hs & Ht & Hh) E. unfold timer_step in E.
  destruct (timer_t s) as [last due|last want|last un out|last [|j junk] out] eqn:Es; try done.
  - destruct (due <=? now s); by simplify_eq.
  - destruct (locked s); [done|].
    destruct (timer_section w (now s) (tunn s) last want) as [[[t' last'] dead] out] eqn:Et.
    simplify_eq. cbn. split_and!; try done. by eapply timer_section_stamped.
  - destruct (timer_junk w out (randomness s)) as [[junk n]| | |]; by simplify_eq.
  - destruct out as [|d out]; [by simplify_eq|].
    destruct (await_send st (Message d) (wire s)) eqn:Ea; simplify_eq. inversion Ht; subst.
    cbn. split_and!; try done. by eapply messages_await_message.
  - destruct (await_send st (Decoy j) (wire s)) eqn:Ea; simplify_eq. cbn [send_to timer_to wire].
    by rewrite (messages_await_decoy _ _ _ _ Ea).
Qed.

Lemma health_step_wire s st s' evs :
  wire_ok s -> health_step w s st = Some (s', evs) -> wire_ok s'.
Proof.
  rewrite !wire_ok_parts. intros (Hw & Hr & Hs & Ht & Hh) E. unfold health_step, health_again in E.
  destruct (health_t s) as [strikes due|strikes|strikes probe|strikes d|e]; [| | | |done].
  - destruct (due <=? now s); [|done].
    destruct (health_check _ _ _ _ _ _) as [rekey k] eqn:Ec. simplify_eq. cbn. split_and!; try done.
    unfold health_check in Ec. by repeat case_match; simplify_eq.
  - destruct (build_dataplane_probe _ _) as [[probe r]| | |]; by simplify_eq.
  - destruct (locked s); [done|]. unfold dataplane_datagram in E.
    destruct (draw (rng (randomness s))) as [word r].
    destruct (encapsulate (now s) (tunn s) probe) as [[] t'] eqn:Ee; simplify_eq; cbn; try done.
    split_and!; try done. apply Forall_singleton. apply encapsulate_message in Ee. by eexists.
  - destruct (await_send st (Message d) (wire s)) eqn:Ea; [|done].
    destruct (draw (rng (randomness s))) as [word r]. simplify_eq. inversion Hh; subst.
    cbn. split_and!; try done. by eapply messages_await_message.
Qed.

Lemma wire_inv s0 tr s : wire_ok s0 -> steps w s0 tr s -> wire_ok s.
Proof.
  intros Hok. apply (steps_inv w (fun _ s => wire_ok s)); [done|]. clear tr s.
  intros tr s evs s' IH _ Hst. step_cases Hst;
    eauto using recv_step_wire, send_step_wire, timer_step_wire, health_step_wire.
Qed.

End Wire.

(** ** Replacing the session *)

(** Increasing, two neighbours at least [gap] apart. *)
Definition spaced (gap : Z) (l : list Z) : Prop := StronglySorted (fun a b => a + gap <= b) l.

Lemma spaced_snoc gap l x :
  spaced gap l -> Forall (fun a => a + gap <= x) l -> spaced gap (l ++ [x]).
Proof.
  unfold spaced. induction l as [|a l IH]; intros Hs Hf; cbn; [repeat constructor|].
  inversion Hs; subst. inversion Hf; subst. constructor; [by apply IH|].
  apply Forall_app. split; [done|]. by apply Forall_singleton.
Qed.

Section Life.
Context {T Tx Rx R : Type} `{Tunn T} `{Sender Tx (list Z)} `{PatientSender Tx (list Z)}
        `{Receiver Rx (list Z)} `{Rng R} `{CpsSyntax}.
Variable w : WgTunnel.

Abbreviation state := (tunnel T Tx Rx R).
Implicit Types s : state.

(** Whether the tick is to replace the session: it was asked to, or the
    session reports an error. *)
Definition asked (now : Z) (t : T) (want : bool) : bool :=
  want || match (update_timers now t).1 with TunnErr _ => true | _ => false end.

(** A tick that is asked to, and is far enough from the last replacement,
    starts a new session and sends its handshake, or reports that it could not;
    any other tick keeps the session. *)
Lemma timer_section_spec now (t : T) last want t' last' dead out :
  timer_section w now t last want = (t', last', dead, out) ->
  if asked now t want && (REKEY_MIN_GAP <=? now - last) then
    last' = now /\
    match encapsulate now (tunn_new now (keys w)) [] with
    | (WriteToNetwork pkt, t2) =>
        t' = t2 /\ dead = false /\ List.last out [] = inject_client_id (client_id w) pkt /\ out <> []
    | (_, t2) => t' = t2 /\ dead = true
    end
  else last' = last /\ dead = false /\ t' = (update_timers now t).2.
Proof.
  unfold timer_section, asked. destruct (update_timers now t) as [r t1].
  destruct (encapsulate now (tunn_new now (keys w)) []) as [[] t2];
    destruct r, want; cbn [fst snd orb andb]; try destruct (REKEY_MIN_GAP <=? now - last);
    intros [= <- <- <- <-]; split_and!; try done; rewrite ?last_last; done.
Qed.

Definition last_rekey s : Z :=
  match timer_t s with
  | TimerWait l _ | TimerLock l _ | TimerFlag l _ _ | TimerWrite l _ _ => l
  end.

Definition beyond_repair s : bool :=
  session_dead s || match timer_t s with TimerFlag _ un _ => un | _ => false end.

(** A session that is started anew at [at_] does not give a handshake. *)
Definition cannot_start (at_ : Z) : Prop :=
  match (encapsulate at_ (tunn_new at_ (keys w)) []).1 with WriteToNetwork _ => False | _ => True end.

Lemma timer_step_rekey s st next s' evs :
  timer_step w s st next = Some (s', evs) ->
  now s' = now s /\
  ((evs = [] /\ last_rekey s' = last_rekey s /\ beyond_repair s' = beyond_repair s) \/
   (evs = [EvFresh (now s)] /\ last_rekey s' = now s /\ last_rekey s + REKEY_MIN_GAP <= now s /\
    (beyond_repair s' = beyond_repair s \/ cannot_start (now s)))).
Proof.
  unfold timer_step, last_rekey, beyond_repair.
  destruct (timer_t s) as [last due|last want|last un out|last [|j junk] [|d out]] eqn:Es; intros E;
    try (try destruct (due <=? now s); try destruct (await_send _ _ _); simplify_eq; cbn;
         rewrite ?orb_false_r; by eauto).
  - destruct (locked s); [done|].
    destruct (timer_section w (now s) (tunn s) last want) as [[[t' last'] dead] out] eqn:Et.
    apply timer_section_spec in Et. simplify_eq. cbn. split; [done|].
    destruct (asked (now s) (tunn s) want && (REKEY_MIN_GAP <=? now s - last)) eqn:Ea.
    + right. destruct Et as [-> Et]. apply andb_prop in Ea as [_ Hg].
      unfold REKEY_MIN_GAP, from_secs in *.
      rewrite (proj2 (Z.eqb_neq _ _)) by lia. split_and!; [done|done|lia|].
      unfold cannot_start. destruct (encapsulate (now s) (tunn_new (now s) (keys w)) []) as [[] t2]; cbn;
        try (by right). left. destruct Et as (_ & -> & _). done.
    + left. destruct Et as (-> & -> & _). rewrite Z.eqb_refl. done.
  - destruct (timer_junk w out (randomness s)) as [[junk n]| | |]; simplify_eq. cbn.
    rewrite orb_false_r. eauto.
Qed.

Definition rekey_inv (tr : list event) s : Prop :=
  spaced REKEY_MIN_GAP (fresh_times tr) /\ Forall (fun t => t <= last_rekey s) (fresh_times tr) /\
  last_rekey s <= now s /\ (beyond_repair s = true -> Exists cannot_start (fresh_times tr)).

Lemma fresh_app tr evs : fresh_times (tr ++ evs) = fresh_times tr ++ fresh_times evs.
Proof. apply omap_app. Qed.

Lemma rekey_step tr s evs s' : rekey_inv tr s -> step w s evs s' -> rekey_inv (tr ++ evs) s'.
Proof.
  unfold rekey_inv. intros (Hs & Hf & Hn & Hd) Hst. rewrite fresh_app.
  step_cases Hst.
  - frame_recv E; rewrite app_nil_r; done.
  - frame_send E; rewrite Hfr, app_nil_r; done.
  - destruct (timer_step_rekey _ _ _ _ _ E) as [Hnow [(-> & Hl & Hb)|(-> & Hl & Hg & Hb)]]; cbn;
      rewrite ?app_nil_r, ?Hnow, Hl, ?Hb; [done|]. split_and!.
    + apply spaced_snoc; [done|]. eapply List.Forall_impl; [|done]. cbn. lia.
    + apply Forall_app. split; [|by apply Forall_singleton].
      eapply List.Forall_impl; [|done]. cbn. unfold REKEY_MIN_GAP, from_secs in *. lia.
    + lia.
    + intros Hr. apply Exists_app. destruct Hb as [Hb|Hb]; [left|right; by constructor].
      apply Hd. by rewrite <- Hb.
  - frame_health E; rewrite app_nil_r; done.
  - cbn. rewrite app_nil_r. unfold last_rekey in *. cbn. split_and!; try done. lia.
  - cbn. by rewrite app_nil_r.
  - cbn. by rewrite app_nil_r.
Qed.

Lemma rekey_invariant s0 tr s : rekey_inv [] s0 -> steps w s0 tr s -> rekey_inv tr s.
Proof. intros Hinit. apply (steps_inv w rekey_inv); [done|]. eauto using rekey_step. Qed.

(** ** Giving up *)

(** A health check at [at_] that saw a silence of at least the stale timeout,
    asked for a new handshake, and was not contradicted by any datagram
    before it. *)
Definition saw_silence (before : list event) (e : event) (at_ : Z) : Prop :=
  exists idle, e = EvCheck at_ idle true /\ stale_timeout w <= idle /\
               Forall (fun v => v + idle <= at_) (valid_times before).

Definition struck (tr : list event) (t1 : Z) : Prop :=
  exists tr1 e tr2, tr = tr1 ++ e :: tr2 /\ saw_silence tr1 e t1 /\ no_check tr2.

(** Two neighbouring health checks saw the silence, one pause apart. *)
Definition struck_twice (tr : list event) : Prop :=
  exists tr1 e1 tr2 e2 t1 t2,
    tr = tr1 ++ e1 :: tr2 ++ [e2] /\ no_check tr2 /\
    saw_silence tr1 e1 t1 /\ saw_silence (tr1 ++ e1 :: tr2) e2 t2 /\
    t1 + (WG_HEALTHCHECK_INTERVAL - WG_HEALTHCHECK_JITTER) <= t2.

Definition strikes_ok (tr : list event) (k limit : Z) : Prop :=
  k = 0 \/ (k = 1 /\ exists t1, struck tr t1 /\ t1 <= limit).

Definition health_inv (tr : list event) s : Prop :=
  Forall (fun v => v <= last_valid_rx s) (valid_times tr) /\ last_valid_rx s <= now s /\
  match health_t s with
  | HealthWait k due => strikes_ok tr k (due - (WG_HEALTHCHECK_INTERVAL - WG_HEALTHCHECK_JITTER))
  | HealthProbe k | HealthLock k _ | HealthSend k _ => strikes_ok tr k (now s)
  | HealthEnded e =>
      (e = STALE /\ struck_twice tr) \/ (e = EXPIRED /\ session_dead s = true)
  end.

Lemma valid_app tr evs : valid_times (tr ++ evs) = valid_times tr ++ valid_times evs.
Proof. apply omap_app. Qed.

Lemma strikes_mono tr evs k limit limit' :
  no_check evs -> limit <= limit' -> strikes_ok tr k limit -> strikes_ok (tr ++ evs) k limit'.
Proof.
  intros Hn Hl [->|(-> & t1 & (tr1 & e & tr2 & -> & Hs & Hq) & Ht)]; [by left|right].
  split; [done|]. exists t1. split; [|lia]. exists tr1, e, (tr2 ++ evs).
  rewrite <- app_assoc. split_and!; [done|done|by apply Forall_app].
Qed.

(** Sections that are not of the health check keep its invariant. *)
Lemma health_frame tr evs s s' :
  no_check evs -> health_t s' = health_t s -> now s <= now s' -> run_result s = None ->
  Forall (fun v => v <= last_valid_rx s') (valid_times (tr ++ evs)) -> last_valid_rx s' <= now s' ->
  health_inv tr s -> health_inv (tr ++ evs) s'.
Proof.
  intros Hn Hh Hnow Hrun Hv Hl (_ & _ & Hk). split_and!; [done|done|]. rewrite Hh.
  destruct (health_t s) eqn:E; [eapply strikes_mono, Hk; done || lia..|].
  unfold run_result in Hrun. rewrite E in Hrun. by destruct (recv_t s), (send_t s).
Qed.

Lemma health_check_step tr s strikes due :
  0 <= stale_timeout w -> health_inv tr s -> health_t s = HealthWait strikes due -> due <= now s ->
  forall rekey k,
    health_check w (now s) (last_valid_rx s) (session_dead s) (rekey_now s) strikes = (rekey, k) ->
    let evs := if session_dead s then []
               else [EvCheck (now s) (saturating_sub (now s) (last_valid_rx s)) rekey] in
    health_inv (tr ++ evs) (health_to s (tunn s) (locked s) rekey (wire s) (randomness s) k).
Proof.
  intros Hstale (Hv & Hl & Hk) Hh Hdue rekey k Hc. rewrite Hh in Hk. unfold health_check in Hc.
  destruct (session_dead s) eqn:Ed; cbn zeta iota in *.
  { simplify_eq. rewrite app_nil_r. split_and!; [done|done|]. right. done. }
  set (idle := saturating_sub (now s) (last_valid_rx s)) in *.
  assert (Hidle : idle = now s - last_valid_rx s) by (unfold idle, saturating_sub; lia).
  assert (Hsil : forall e, stale_timeout w <= idle -> e = EvCheck (now s) idle true ->
                 saw_silence tr e (now s)).
  { intros e Hi ->. exists idle. split_and!; [done|done|].
    eapply List.Forall_impl; [|done]. cbn. lia. }
  split_and!.
  { rewrite valid_app. cbn. by rewrite app_nil_r. }
  { done. }
  cbn [health_to health_t]. destruct (Z.leb_spec (stale_timeout w) idle) as [Hi|Hi].
  - assert (rekey = true) as ->.
    { assert (stale_timeout w / 2 <= idle) by (Z.div_mod_to_equations; lia).
      destruct (Z.leb_spec STALE_STRIKES_BEFORE_DEATH (Z.min (strikes + 1) u32_max));
        injection Hc as <- _; apply orb_true_iff; right; lia. }
    destruct Hk as [->|(-> & t1 & (tr1 & e & tr2 & -> & Hs & Hq) & Ht)];
      vm_compute (_ <=? _) in Hc; injection Hc as _ <-.
    + right. split; [done|]. exists (now s). split; [|done].
      exists tr, (EvCheck (now s) idle true), []. split_and!; [done|by apply Hsil|constructor].
    + left. split; [done|]. exists tr1, e, tr2, (EvCheck (now s) idle true), t1, (now s).
      rewrite <- app_assoc. split_and!; [done|done|done|by apply Hsil|lia].
  - injection Hc as _ <-. by left.
Qed.

Lemma health_again_inv tr s t l k :
  health_inv tr s -> strikes_ok tr k (now s) -> health_inv tr (health_again s t l k).
Proof.
  intros (Hv & Hl & _) Hk. unfold health_again. destruct (draw (rng (randomness s))) as [word r].
  split_and!; [done|done|]. cbn. rewrite <- (app_nil_r tr). eapply strikes_mono; [constructor| |done].
  unfold health_check_pause, from_millis.
  pose proof (Z.mod_pos_bound word (WG_HEALTHCHECK_JITTER / 1000000 * 2 + 1)).
  change (WG_HEALTHCHECK_JITTER / 1000000 * 2 + 1) with 1001 in *. lia.
Qed.

Lemma health_step_inv tr s st s' evs :
  0 <= stale_timeout w -> health_inv tr s -> health_step w s st = Some (s', evs) ->
  health_inv (tr ++ evs) s'.
Proof.
  intros Hstale Hi E. pose proof Hi as (Hv & Hl & Hk). unfold health_step in E.
  destruct (health_t s) as [strikes due|strikes|strikes probe|strikes d|e] eqn:Eh; [| | | |done].
  - destruct (Z.leb_spec due (now s)); [|done].
    destruct (health_check _ _ _ _ _ _) as [rekey k] eqn:Ec. simplify_eq.
    by eapply health_check_step.
  - destruct (build_dataplane_probe _ _) as [[probe r]| | |]; simplify_eq. by rewrite app_nil_r.
  - destruct (locked s); [done|].
    destruct (dataplane_datagram _ _ _ _) as [[[d|]| | |] t]; simplify_eq; rewrite app_nil_r; [done|..];
      by apply health_again_inv.
  - destruct (await_send st (Message d) (wire s)); simplify_eq. rewrite app_nil_r. by apply health_again_inv.
Qed.

Lemma health_invariant s0 tr s :
  0 <= stale_timeout w -> health_inv [] s0 -> steps w s0 tr s -> health_inv tr s.
Proof.
  intros Hstale Hinit. apply (steps_inv w health_inv); [done|]. clear tr s.
  intros tr s evs s' Hi Hrun Hst. pose proof Hi as (Hv & Hl & _). step_cases Hst.
  - frame_recv E; apply (health_frame tr _ s); try done; rewrite ?valid_app; cbn; rewrite ?app_nil_r;
      try done; try by constructor.
    apply Forall_app. split; [|by apply Forall_singleton]. eapply List.Forall_impl; [|done]. cbn. lia.
  - frame_send E. apply (health_frame tr _ s); try done. rewrite valid_app, Hva, app_nil_r. done.
  - frame_timer E; apply (health_frame tr _ s); try done; rewrite ?valid_app; cbn; rewrite ?app_nil_r;
      try done; by constructor.
  - by eapply health_step_inv.
  - apply (health_frame tr _ s); try done; cbn; try lia; [constructor|by rewrite app_nil_r].
  - apply (health_frame tr _ s); try done; [by constructor|]. rewrite valid_app. cbn. by rewrite app_nil_r.
  - apply (health_frame tr _ s); try done; [constructor|by rewrite app_nil_r].
Qed.

End Life.
