(* ===== verification/WgProgress.v ===== *)
(** * The tasks of the WireGuard tunnel always move on

    When each task of [WireGuard.step] has to wait and for what, who holds the
    lock, and a way out of every state: the tasks can always be run until each
    of them waits for the outside again. *)

From stdpp Require Import base list option.
From Stdlib Require Import ZArith Lia.
From S2P Require Import Prelude Rand RustStr Octets Error Channel Net Sysprofile Masque AetherNoize.
From S2P Require Import WireGuard WgFacts.

(** ** The probe *)

Section Probe.
Context {R : Type} `{Rng R}.

(** The probe is the one of the HTTP tunnels, for the values drawn. *)
Lemma dataplane_probe_eq src (r : R) :
  exists dns_id id sport r',
    20000 <= sport < 60000 /\
    build_dataplane_probe src r =
      (pkt ← build_dns_probe_packet dns_id id sport src; Done (pkt, r')).
Proof.
  unfold build_dataplane_probe. destruct (draw r) as [a r1], (draw r1) as [b r2].
  destruct (@pick R _ unit r2 20000 59999) as [[sport r3]| | |] eqn:Ep;
    try (unfold pick, random_range in Ep; destruct (draw r2); done).
  assert (20000 <= sport < 60000).
  { assert (Hw := wp_pick (E := unit) r2 20000 59999 (fun v => 20000 <= v.1 < 60000) (fun _ => False)
                    ltac:(lia) ltac:(cbn; lia)). by rewrite Ep in Hw. }
  exists (u16 a), (u16 b), sport, r3. split; [done|].
  unfold build_dns_probe_packet. change (build_dns_query (u16 a)) with (probe_dns_query (u16 a)).
  set (pkt := [69] ++ _). destruct (slice pkt 0 20) as [header| | |]; try done. cbn [mbind outcome_bind].
  change (@ipv4_checksum unit header) with (@ipv4_header_checksum unit header).
  by destruct (@ipv4_header_checksum unit header) as [csum| | |].
Qed.

Lemma dataplane_probe_done src (r : R) :
  length src = 4%nat -> bytes_ok src -> exists v, build_dataplane_probe src r = Done v.
Proof.
  intros Hl Hb. destruct (dataplane_probe_eq src r) as (a & b & sport & r' & _ & ->).
  destruct (probe_packet_wellformed a b sport src Hl Hb) as (h & p & -> & _). by eexists.
Qed.

End Probe.

(** What [WgTunnel] holds by its types. *)
Definition tunnel_ok (w : WgTunnel) : Prop :=
  noise_ok (noise_cfg w) /\ length (client_id w) = 3%nat /\
  length (local_ipv4 w) = 4%nat /\ bytes_ok (local_ipv4 w) /\ 0 <= stale_timeout w.

Section Progress.
Context {T Tx Rx R : Type} `{TunnLaws T} `{Sender Tx (list Z)} `{PatientSender Tx (list Z)}
        `{ReceiverLaws Rx (list Z)} `{Rng R} `{CpsSyntax}.
Variable w : WgTunnel.
Hypothesis Hw : tunnel_ok w.

Abbreviation state := (tunnel T Tx Rx R).
Implicit Types s : state.

(** ** What each task waits for *)

(** The socket is full, so a [send().await] is pending. *)
Definition no_room (st : sent_status) : Prop := st = NotSent WouldBlock.

(** The reader: a datagram, the end of its backoff, the lock, or room. *)
Definition recv_waits s (r : option sock_recv) (st : sent_status) : Prop :=
  match recv_t s with
  | RecvWait _ => r = None
  | RecvPause _ until => now s < until
  | RecvLock _ => locked s = true
  | RecvWrite (_ :: _) _ => no_room st
  | RecvEnded => True
  | _ => False
  end.

(** The writer: a packet of the network stack, the lock, or room. *)
Definition send_waits s (st : sent_status) (writable : option bool) : Prop :=
  match send_t s with
  | SendWait _ => (try_recv (outbound s)).1 = RecvEmpty /\ rx_queue (outbound s) = []
  | SendEncap _ _ => locked s = true
  | SendJunk _ (_ :: _) _ | SendTail _ (_ :: _) => no_room st
  | SendFull _ _ _ _ => writable = None
  | SendEnded => True
  | _ => False
  end.

(** The timer: its tick, the lock, or room. *)
Definition timer_waits s (st : sent_status) : Prop :=
  match timer_t s with
  | TimerWait _ due => now s < due
  | TimerLock _ _ => locked s = true
  | TimerWrite _ (_ :: _) _ | TimerWrite _ [] (_ :: _) => no_room st
  | _ => False
  end.

(** The health check: its pause, the lock, or room. *)
Definition health_waits s (st : sent_status) : Prop :=
  match health_t s with
  | HealthWait _ due => now s < due
  | HealthLock _ _ => locked s = true
  | HealthSend _ _ => no_room st
  | HealthProbe _ => False
  | HealthEnded _ => True
  end.

Lemma await_send_None st d l : await_send st d l = None <-> no_room st.
Proof. unfold await_send, no_room. by destruct st as [|[]]. Qed.

Lemma recv_section_done now (t : T) data : exists t' pr net tun,
  recv_section w now t data = Done (t', RecvStamp pr net tun).
Proof.
  unfold recv_section.
  destruct (drain_session_spec w (recv_fuel now t data) now t data [] false)
    as (t' & net & tun & pr & -> & _); [|by constructor|by eauto].
  unfold recv_fuel. destruct (decapsulate now t data) as [[] ?]; cbn; lia.
Qed.

Lemma settle_done secs l obf (n : noise R) : exists v, settle w secs l obf n = Done v.
Proof.
  unfold settle. destruct (obfuscation_settled l); [by eexists|].
  destruct (negb obf && is_enabled (noise_cfg w)); [|by eexists].
  pose proof (apply_obfuscation_spec (noise_cfg w) secs n (proj1 Hw)) as Hj.
  destruct (apply_obfuscation secs (noise_cfg w) n) as [[junk n']| | |]; try done. by eexists.
Qed.

Lemma send_finish_done now l (n : noise R) : exists v, send_finish w now l n = Done v.
Proof.
  unfold send_finish. dest_if; [|by eexists].
  pose proof (send_post_handshake_junk_spec (noise_cfg w) (rng n) (proj1 Hw)) as Hj.
  destruct (send_post_handshake_junk _ _) as [[junk r]| | |]; try done. by eexists.
Qed.

Lemma timer_junk_done out (n : noise R) : exists v, timer_junk w out n = Done v.
Proof.
  unfold timer_junk. dest_if; [|by eexists].
  pose proof (send_keepalive_junk_spec (noise_cfg w) (rng n) (proj1 Hw)) as Hj.
  destruct (send_keepalive_junk _ _) as [[junk r]| | |]; try done. by eexists.
Qed.

Lemma probe_done (r : R) : exists v, build_dataplane_probe (local_ipv4 w) r = Done v.
Proof. destruct Hw as (_ & _ & Hip & Hb & _). by apply dataplane_probe_done. Qed.

Lemma recv_step_None s r st : recv_step w s r st = None <-> recv_waits s r st.
Proof.
  unfold recv_step, recv_waits. destruct (recv_t s) as [te|te u|data|[] net tun|[|d net] [|pkt tun]|]; try done.
  - by destruct r.
  - destruct (Z.leb_spec u (now s)); split; try done; lia.
  - destruct (locked s); [done|].
    by destruct (recv_section_done (now s) (tunn s) data) as (? & ? & ? & ? & ->).
  - by destruct (deliver_inbound (inbound s) pkt).
  - rewrite <- (await_send_None st (Message d) (wire s)). by destruct (await_send _ _ _).
  - rewrite <- (await_send_None st (Message d) (wire s)). by destruct (await_send _ _ _).
Qed.

Lemma send_step_None s secs st wr : send_step w s secs st wr = None <-> send_waits s st wr.
Proof.
  unfold send_step, send_waits.
  destruct (send_t s) as [l|l batch|l ds|l [|j junk] ds|l [|d ds] b wt|l d ds b|l [|j junk]|]; try done.
  - destruct (try_recv (outbound s)) as [[pkt| |] rx] eqn:Er; cbn.
    + by destruct (fill_batch _ rx [pkt]) as [batch rx']; split; [|intros []].
    + destruct (try_recv_empty _ _ Er) as [-> _]. done.
    + by split; [|intros []].
  - destruct (locked s); [done|].
    by destruct (encap_batch _ _ _ _ _ _) as [[[[? ?] ?] ?] ?].
  - by destruct (settle_done secs l (obf_sent s) (randomness s)) as [[[[? ?] ?] ?] ->].
  - rewrite <- (await_send_None st (Decoy j) (wire s)). by destruct (await_send _ _ _).
  - by destruct (send_finish_done (now s) l (randomness s)) as [[[? ?] ?] ->].
  - by destruct st as [|[]].
  - by destruct wr as [[]|].
  - rewrite <- (await_send_None st (Decoy j) (wire s)). by destruct (await_send _ _ _).
Qed.

Lemma timer_step_None s st next : timer_step w s st next = None <-> timer_waits s st.
Proof.
  unfold timer_step, timer_waits.
  destruct (timer_t s) as [last due|last want|last un out|last [|j junk] [|d out]]; try done.
  - destruct (Z.leb_spec due (now s)); split; try done; lia.
  - destruct (locked s); [done|]. by destruct (timer_section _ _ _ _ _) as [[[? ?] ?] ?].
  - by destruct (timer_junk_done out (randomness s)) as [[? ?] ->].
  - rewrite <- (await_send_None st (Message d) (wire s)). by destruct (await_send _ _ _).
  - rewrite <- (await_send_None st (Decoy j) (wire s)). by destruct (await_send _ _ _).
  - rewrite <- (await_send_None st (Decoy j) (wire s)). by destruct (await_send _ _ _).
Qed.

Lemma health_step_None s st : health_step w s st = None <-> health_waits s st.
Proof.
  unfold health_step, health_waits. destruct (health_t s) as [k due|k|k probe|k d|e]; try done.
  - destruct (Z.leb_spec due (now s)); [|split; done || lia].
    destruct (health_check _ _ _ _ _ _). split; done || lia.
  - by destruct (probe_done (rng (randomness s))) as [[? ?] ->].
  - destruct (locked s); [done|]. by destruct (dataplane_datagram _ _ _ _) as [[[]| | |] ?].
  - rewrite <- (await_send_None st (Message d) (wire s)). by destruct (await_send _ _ _).
Qed.

(** ** The lock *)

(** Only a health check that waits for the socket holds the lock across
    sections. *)
Definition lock_ok s : Prop := locked s = true <-> exists k d, health_t s = HealthSend k d.

Lemma health_step_lock s st s' evs :
  lock_ok s -> health_step w s st = Some (s', evs) -> lock_ok s'.
Proof.
  assert (Hno : forall s, locked s = false -> (forall k d, health_t s <> HealthSend k d) -> lock_ok s).
  { intros s1 Hf Hn. split; [by rewrite Hf|]. intros (k & d & E). by destruct (Hn k d). }
  intros Hl. unfold health_step, health_again.
  destruct (health_t s) as [k due|k|k probe|k d|e] eqn:Eh; [| | | |done].
  1-3: assert (locked s = false) as El
    by (destruct (locked s) eqn:El; [|done]; apply Hl in El as (? & ? & El); congruence).
  - destruct (due <=? now s); [|done]. destruct (health_check _ _ _ _ _ _) as [rekey k'] eqn:Ec.
    intros [= <- <-]. apply Hno; [done|]. unfold health_check in Ec.
    by repeat case_match; simplify_eq.
  - destruct (build_dataplane_probe _ _) as [[probe r]| | |]; [|done..]. intros [= <- <-]. by apply Hno.
  - rewrite El. destruct (draw (rng (randomness s))) as [word r].
    destruct (dataplane_datagram _ _ _ _) as [[[d|]| | |] t]; intros [= <- <-]; try by apply Hno.
    split; [by eauto|done].
  - destruct (await_send _ _ _); [|done]. destruct (draw (rng (randomness s))) as [word r].
    intros [= <- <-]. by apply Hno.
Qed.

Lemma lock_inv s0 tr s : lock_ok s0 -> steps w s0 tr s -> lock_ok s.
Proof.
  intros Hinit. apply (steps_inv w (fun _ s => lock_ok s)); [done|]. clear tr s.
  intros tr s evs s' IH _ Hst. step_cases Hst;
    [by frame_recv E|by frame_send E|by frame_timer E|by eapply health_step_lock|done..].
Qed.

(** ** A way on *)

Definition leads s s' : Prop := exists tr, steps w s tr s'.

Lemma leads_refl s : leads s s.
Proof. exists []. constructor. Qed.

Lemma leads_trans s1 s2 s3 : leads s1 s2 -> leads s2 s3 -> leads s1 s3.
Proof.
  intros [tr1 Ht1] [tr2 Ht2]. induction Ht2 as [|s tr s' evs s'' _ IH Hr Hs]; [by eexists|].
  destruct (IH Ht1) as [tr3 Ht3]. exists (tr3 ++ evs). by econstructor.
Qed.

Lemma leads_step s s1 s2 evs : run_result s = None -> step w s evs s1 -> leads s1 s2 -> leads s s2.
Proof.
  intros Hr Hs Hl. eapply leads_trans, Hl. exists ([] ++ evs). eapply steps_snoc; [constructor|done|done].
Qed.

(** What the tasks other than the named one, and the lock, keep. *)
Definition kept_by_recv s s' : Prop :=
  locked s' = locked s /\ outbound s' = outbound s /\
  send_t s' = send_t s /\ timer_t s' = timer_t s /\ health_t s' = health_t s.
Definition kept_by_send s s' : Prop :=
  locked s' = locked s /\ recv_t s' = recv_t s /\ timer_t s' = timer_t s /\ health_t s' = health_t s.
Definition kept_by_timer s s' : Prop :=
  locked s' = locked s /\ outbound s' = outbound s /\
  recv_t s' = recv_t s /\ send_t s' = send_t s /\ health_t s' = health_t s.

Lemma running s : run_result s = None <->
  recv_t s <> RecvEnded /\ send_t s <> SendEnded /\ forall e, health_t s <> HealthEnded e.
Proof.
  unfold run_result. split.
  - destruct (recv_t s), (send_t s), (health_t s); done.
  - intros (? & ? & Hh). destruct (recv_t s), (send_t s), (health_t s) as [| | | |e]; try done.
    all: by destruct (Hh e).
Qed.

Lemma kept_recv_trans s1 s2 s3 : kept_by_recv s1 s2 -> kept_by_recv s2 s3 -> kept_by_recv s1 s3.
Proof. intros (? & ? & ? & ? & ?) (? & ? & ? & ? & ?). split_and!; congruence. Qed.
Lemma kept_send_trans s1 s2 s3 : kept_by_send s1 s2 -> kept_by_send s2 s3 -> kept_by_send s1 s3.
Proof. intros (? & ? & ? & ?) (? & ? & ? & ?). split_and!; congruence. Qed.
Lemma kept_timer_trans s1 s2 s3 : kept_by_timer s1 s2 -> kept_by_timer s2 s3 -> kept_by_timer s1 s3.
Proof. intros (? & ? & ? & ? & ?) (? & ? & ? & ? & ?). split_and!; congruence. Qed.

(** The health check gives the lock back. *)
Definition health_back s s' : Prop :=
  leads s s' /\ locked s' = false /\ (exists k due, health_t s' = HealthWait k due) /\
  outbound s' = outbound s /\ recv_t s' = recv_t s /\ send_t s' = send_t s /\ timer_t s' = timer_t s.

Lemma health_back_again s t l k : health_step w s Sent = Some (health_again s t l k, []) ->
  run_result s = None -> health_back s (health_again s t l k).
Proof.
  intros E Hr. split; [by eapply leads_step, leads_refl; [|eapply step_health]|].
  unfold health_again. destruct (draw (rng (randomness s))). cbn. by eauto 10.
Qed.

Lemma health_back_step s s1 s' evs : health_step w s Sent = Some (s1, evs) -> run_result s = None ->
  health_back s1 s' -> health_back s s'.
Proof.
  intros E Hr (Hl & Hk & Hh & Ho & Hrest). split; [by eapply leads_step; [|eapply step_health|]|].
  apply health_step_shape in E as (? & ? & ? & ? & ? & ? & -> & _). done.
Qed.

Lemma health_back_send s k d : health_t s = HealthSend k d -> run_result s = None -> exists s', health_back s s'.
Proof.
  intros E Hr. eexists. apply health_back_again; [|done]. unfold health_step. rewrite E. reflexivity.
Qed.

Lemma health_back_lock s k probe : health_t s = HealthLock k probe -> locked s = false ->
  run_result s = None -> exists s', health_back s s'.
Proof.
  intros E El Hr. destruct (dataplane_datagram w (now s) (tunn s) probe) as [d t] eqn:Ed.
  assert (Hstep : health_step w s Sent = Some (match d with
    | Done (Some d) => health_to s t true (rekey_now s) (wire s) (randomness s) (HealthSend k d)
    | _ => health_again s t (wire s) k end, [])).
  { unfold health_step. rewrite E, El, Ed. by destruct d as [[]| | |]. }
  destruct d as [[d|]| | |]; [|by eexists; apply health_back_again..].
  destruct (health_back_send (health_to s t true (rekey_now s) (wire s) (randomness s) (HealthSend k d)) k d)
    as [s' Hs']; [done| |exists s'; by eapply health_back_step].
  apply running in Hr as (? & ? & _). by apply running.
Qed.

Lemma health_returns s : run_result s = None -> lock_ok s -> exists s', health_back s s'.
Proof.
  intros Hr Hl. destruct (health_t s) as [k due|k|k probe|k d|e] eqn:Eh.
  1-3: assert (locked s = false) as El
    by (destruct (locked s) eqn:El; [|done]; apply Hl in El as (? & ? & El); congruence).
  - exists s. split; [apply leads_refl|by eauto 10].
  - destruct (probe_done (rng (randomness s))) as [[probe r] Ep].
    destruct (health_back_lock (health_to s (tunn s) (locked s) (rekey_now s) (wire s)
      (with_rng (randomness s) r) (HealthLock k probe)) k probe) as [s' Hs']; [done|done| |].
    { apply running in Hr as (? & ? & _). by apply running. }
    exists s'. eapply health_back_step; [|done|done]. unfold health_step. by rewrite Eh, Ep.
  - by eapply health_back_lock.
  - by eapply health_back_send.
  - apply running in Hr as (_ & _ & Hr). by destruct (Hr e).
Qed.

(** The reader returns to its wait, or is over. *)
Definition recv_back s s' : Prop :=
  leads s s' /\ kept_by_recv s s' /\ (recv_t s' = RecvEnded \/ exists te, recv_t s' = RecvWait te).

Lemma recv_back_step s s1 s' evs r : recv_step w s r Sent = Some (s1, evs) -> run_result s = None ->
  recv_back s1 s' -> recv_back s s'.
Proof.
  intros E Hr (Hl & Hk & Ht). split; [by eapply leads_step; [|eapply step_recv|]|]. split; [|done].
  eapply kept_recv_trans, Hk.
  apply recv_step_shape in E as (? & ? & ? & ? & ? & -> & _). done.
Qed.

Lemma recv_running s s1 : kept_by_recv s s1 -> run_result s = None -> recv_t s1 <> RecvEnded ->
  run_result s1 = None.
Proof. rewrite !running. intros (_ & _ & -> & _ & ->) (_ & ? & ?) ?. done. Qed.

Lemma recv_back_write net tun s : recv_t s = RecvWrite net tun -> run_result s = None ->
  exists s', recv_back s s'.
Proof.
  revert s. induction net as [|d net IH]; [|intros s E Hr].
  - induction tun as [|pkt tun IH]; intros s E Hr.
    + eexists. eapply (recv_back_step s _ _ _ None);
        [unfold recv_step; rewrite E; reflexivity|done|].
      split; [apply leads_refl|]. split; [done|]. by eauto.
    + destruct (deliver_inbound (inbound s) pkt) as [ok tx] eqn:Ed.
      set (s1 := recv_to s (tunn s) (last_valid_rx s) tx (wire s) (if ok then RecvWrite [] tun else RecvEnded)).
      assert (Hstep : recv_step w s None Sent = Some (s1, [])) by (unfold recv_step; by rewrite E, Ed).
      destruct ok.
      * destruct (IH s1 eq_refl) as [s' Hs']; [by apply (recv_running s)|].
        exists s'. by eapply recv_back_step.
      * exists s1. eapply recv_back_step; [done|done|].
        split; [apply leads_refl|]. split; [done|]. by left.
  - set (s1 := recv_to s (tunn s) (last_valid_rx s) (inbound s) (wire s ++ [Message d]) (RecvWrite net tun)).
    destruct (IH s1 eq_refl) as [s' Hs']; [by apply (recv_running s)|].
    exists s'. eapply (recv_back_step s s1 _ [] None); [|done|done]. unfold recv_step. by rewrite E.
Qed.

Lemma recv_back_stamp s p net tun : recv_t s = RecvStamp p net tun -> run_result s = None ->
  exists s', recv_back s s'.
Proof.
  intros E Hr. destruct (recv_step w s None Sent) as [[s1 evs]|] eqn:Es;
    [|apply recv_step_None in Es; unfold recv_waits in Es; by rewrite E in Es].
  destruct (recv_back_write net tun s1) as [s' Hs'].
  - unfold recv_step in Es. rewrite E in Es. by destruct p; simplify_eq.
  - unfold recv_step in Es. rewrite E in Es. destruct p; simplify_eq; by apply (recv_running s).
  - exists s'. by eapply recv_back_step.
Qed.

Lemma recv_returns s : run_result s = None -> locked s = false -> exists s', recv_back s s'.
Proof.
  intros Hr El. destruct (recv_t s) as [te|te u|data|p net tun|net tun|] eqn:Er.
  - exists s. split; [apply leads_refl|]. split; [done|]. by eauto.
  - set (s1 := mkState (now s + Z.max 0 (u - now s)) (tunn s) (locked s) (last_valid_rx s) (rekey_now s)
      (session_dead s) (obf_sent s) (inbound s) (outbound s) (wire s) (randomness s)
      (recv_t s) (send_t s) (timer_t s) (health_t s)).
    exists (recv_to s1 (tunn s1) (last_valid_rx s1) (inbound s1) (wire s1) (RecvWait te)).
    split; [|by split; [|eauto]].
    eapply leads_step; [done|apply (step_time w s (Z.max 0 (u - now s))); lia|].
    eapply leads_step, leads_refl; [done|apply (step_recv w s1 None Sent)].
    unfold recv_step. cbn [s1 recv_t now]. rewrite Er. by rewrite (proj2 (Z.leb_le _ _)) by lia.
  - destruct (recv_section_done (now s) (tunn s) data) as (t' & pr & net & tun & Es).
    set (s1 := recv_to s t' (last_valid_rx s) (inbound s) (wire s) (RecvStamp pr net tun)).
    destruct (recv_back_stamp s1 pr net tun eq_refl) as [s' Hs']; [by apply (recv_running s)|].
    exists s'. eapply (recv_back_step s s1 _ [] None); [|done|done]. unfold recv_step. by rewrite Er, El, Es.
  - by eapply recv_back_stamp.
  - by eapply recv_back_write.
  - apply running in Hr as [Hr _]. done.
Qed.

(** The timer returns to its wait. *)
Definition timer_back s s' : Prop :=
  leads s s' /\ kept_by_timer s s' /\ exists last due, timer_t s' = TimerWait last due.

Lemma timer_back_step s s1 s' evs : timer_step w s Sent (now s) = Some (s1, evs) -> run_result s = None ->
  timer_back s1 s' -> timer_back s s'.
Proof.
  intros E Hr (Hl & Hk & Ht). split; [by eapply leads_step; [|eapply step_timer|]|]. split; [|done].
  eapply kept_timer_trans, Hk.
  apply timer_step_shape in E as (? & ? & ? & ? & ? & ? & -> & _). done.
Qed.

Lemma timer_running s s1 : kept_by_timer s s1 -> run_result s = None -> run_result s1 = None.
Proof. rewrite !running. by intros (_ & _ & -> & -> & ->). Qed.

Lemma timer_back_write last junk out s : timer_t s = TimerWrite last junk out -> run_result s = None ->
  exists s', timer_back s s'.
Proof.
  revert s. induction junk as [|j junk IH]; [induction out as [|d out IH]|]; intros s E Hr.
  - eexists. eapply timer_back_step; [unfold timer_step; rewrite E; reflexivity|done|].
    split; [apply leads_refl|]. split; [done|]. by eauto.
  - set (s1 := timer_to s (tunn s) (rekey_now s) (session_dead s) (wire s ++ [Message d]) (randomness s)
      (TimerWrite last [] out)).
    destruct (IH s1 eq_refl) as [s' Hs']; [by apply (timer_running s)|].
    exists s'. eapply (timer_back_step s s1); [|done|done]. unfold timer_step. by rewrite E.
  - set (s1 := timer_to s (tunn s) (rekey_now s) (session_dead s) (wire s ++ [Decoy j]) (randomness s)
      (TimerWrite last junk out)).
    destruct (IH s1 eq_refl) as [s' Hs']; [by apply (timer_running s)|].
    exists s'. eapply (timer_back_step s s1); [|done|done]. unfold timer_step. by rewrite E.
Qed.

Lemma timer_back_flag last un out s : timer_t s = TimerFlag last un out -> run_result s = None ->
  exists s', timer_back s s'.
Proof.
  intros E Hr. destruct (timer_junk_done out (randomness s)) as [[junk n] Ej].
  set (s1 := timer_to s (tunn s) (rekey_now s) (session_dead s || un) (wire s) n (TimerWrite last junk out)).
  destruct (timer_back_write last junk out s1 eq_refl) as [s' Hs']; [by apply (timer_running s)|].
  exists s'. eapply (timer_back_step s s1); [|done|done]. unfold timer_step. by rewrite E, Ej.
Qed.

Lemma timer_returns s : run_result s = None -> locked s = false -> exists s', timer_back s s'.
Proof.
  intros Hr El. destruct (timer_t s) as [last due|last want|last un out|last junk out] eqn:Et.
  - exists s. split; [apply leads_refl|]. split; [done|]. by eauto.
  - destruct (timer_section w (now s) (tunn s) last want) as [[[t last'] un] out] eqn:Es.
    set (s1 := timer_to s t (rekey_now s) (session_dead s) (wire s) (randomness s) (TimerFlag last' un out)).
    destruct (timer_back_flag last' un out s1 eq_refl) as [s' Hs']; [by apply (timer_running s)|].
    exists s'. eapply (timer_back_step s s1); [|done|done]. unfold timer_step. by rewrite Et, El, Es.
  - by eapply timer_back_flag.
  - by eapply timer_back_write.
Qed.

(** The writer returns to its wait, taking nothing more from its queue. *)
Definition send_back s s' : Prop :=
  leads s s' /\ kept_by_send s s' /\ outbound s' = outbound s /\ exists l, send_t s' = SendWait l.

Lemma send_back_step s s1 s' evs : send_step w s 0 Sent (Some true) = Some (s1, evs) -> run_result s = None ->
  outbound s1 = outbound s -> send_back s1 s' -> send_back s s'.
Proof.
  intros E Hr Ho (Hl & Hk & Ho' & Ht). split; [by eapply leads_step; [|eapply step_send|]|].
  split; [|by rewrite Ho', Ho]. eapply kept_send_trans, Hk.
  apply send_step_shape in E as (? & ? & ? & ? & ? & ? & ? & -> & _). done.
Qed.

Lemma send_running s s1 : kept_by_send s s1 -> run_result s = None -> send_t s1 <> SendEnded ->
  run_result s1 = None.
Proof. rewrite !running. by intros (_ & -> & _ & ->) (? & _ & ?) ?. Qed.

(** A section of the writer that leads to [k]. *)
Definition send_next s l n (k : send_task) : state :=
  send_to s (tunn s) (rekey_now s) (obf_sent s) (outbound s) l n k.

Lemma send_back_next s l n k evs : k <> SendEnded ->
  send_step w s 0 Sent (Some true) = Some (send_next s l n k, evs) -> run_result s = None ->
  (run_result (send_next s l n k) = None -> exists s', send_back (send_next s l n k) s') ->
  exists s', send_back s s'.
Proof.
  intros Hk E Hr Hgo. destruct Hgo as [s' Hs']; [by apply (send_running s)|].
  exists s'. by eapply send_back_step.
Qed.

Lemma send_back_tail l junk s : send_t s = SendTail l junk -> run_result s = None ->
  exists s', send_back s s'.
Proof.
  revert s. induction junk as [|j junk IH]; intros s E Hr.
  - eapply send_back_next; [|unfold send_step; rewrite E; reflexivity|done|]; [done|]. intros _.
    eexists. split; [apply leads_refl|]. split; [done|]. cbn. by eauto.
  - eapply send_back_next; [|unfold send_step; rewrite E; reflexivity|done|]; [done|].
    by apply IH.
Qed.

Lemma send_back_write ds l b wt s : send_t s = SendWrite l ds b wt -> run_result s = None ->
  exists s', send_back s s'.
Proof.
  revert l b wt s. induction ds as [|d ds IH]; intros l b wt s E Hr.
  - destruct (send_finish_done (now s) l (randomness s)) as [[[l' junk] n] Ef].
    eapply (send_back_next s (wire s) n (SendTail l' junk)); [done|unfold send_step; by rewrite E, Ef|done|].
    by eapply send_back_tail.
  - eapply send_back_next; [|unfold send_step; rewrite E; reflexivity|done|]; [done|]. by eapply IH.
Qed.

Lemma send_back_junk junk l ds s : send_t s = SendJunk l junk ds -> run_result s = None ->
  exists s', send_back s s'.
Proof.
  revert s. induction junk as [|j junk IH]; intros s E Hr;
    (eapply send_back_next; [|unfold send_step; rewrite E; reflexivity|done|]; [done|]);
    [by eapply send_back_write|by apply IH].
Qed.

Lemma send_back_settle l ds s : send_t s = SendSettle l ds -> run_result s = None ->
  exists s', send_back s s'.
Proof.
  intros E Hr. destruct (settle_done 0 l (obf_sent s) (randomness s)) as [[[[l' obf] junk] n] Es].
  set (s1 := send_to s (tunn s) (rekey_now s) obf (outbound s) (wire s) n (SendJunk l' junk ds)).
  destruct (send_back_junk junk l' ds s1 eq_refl) as [s' Hs']; [by apply (send_running s)|].
  exists s'. eapply (send_back_step s s1); [|done|done|done]. unfold send_step. by rewrite E, Es.
Qed.

Lemma send_returns s : run_result s = None -> locked s = false -> exists s', send_back s s'.
Proof.
  intros Hr El. destruct (send_t s) as [l|l batch|l ds|l junk ds|l ds b wt|l d ds b|l junk|] eqn:Es.
  - exists s. split; [apply leads_refl|]. split; [done|]. by eauto.
  - destruct (encap_batch w (now s) (tunn s) l (rekey_now s) batch) as [[[[t l'] rekey] ds] evs] eqn:Eb.
    set (s1 := send_to s t rekey (obf_sent s) (outbound s) (wire s) (randomness s)
                 (if zlen ds =? 0 then SendWait l' else SendSettle l' ds)).
    assert (Hstep : send_step w s 0 Sent (Some true) = Some (s1, evs))
      by (unfold send_step; by rewrite Es, El, Eb).
    assert (Hk : (exists l, send_t s1 = SendWait l) \/ send_t s1 = SendSettle l' ds)
      by (cbn [s1 send_to send_t]; destruct (zlen ds =? 0); by eauto).
    assert (exists s', send_back s1 s') as [s' Hs'].
    { destruct Hk as [[l2 Hk]|Hk]; [exists s1; split; [apply leads_refl|]; split; [done|]; by eauto|].
      eapply send_back_settle; [done|]. apply (send_running s); [done|done|]. by rewrite Hk. }
    exists s'. by eapply send_back_step.
  - by eapply send_back_settle.
  - by eapply send_back_junk.
  - by eapply send_back_write.
  - eapply send_back_next; [|unfold send_step; rewrite Es; reflexivity|done|]; [done|].
    by eapply send_back_write.
  - by eapply send_back_tail.
  - apply running in Hr as (_ & Hr & _). done.
Qed.

(** A waiting writer empties its queue, batch by batch, unless its channel
    has been closed. *)
Lemma send_drains n : forall s, (length (rx_queue (outbound s)) <= n)%nat ->
  run_result s = None -> locked s = false -> (exists l, send_t s = SendWait l) ->
  exists s', leads s s' /\ kept_by_send s s' /\
    (send_t s' = SendEnded \/ (rx_queue (outbound s') = [] /\ exists l, send_t s' = SendWait l)).
Proof.
  induction n as [|n IH]; intros s Hn Hr El [l Es].
  { exists s. split; [apply leads_refl|]. split; [done|]. right. split; [|by eauto].
    destruct (rx_queue (outbound s)); [done|cbn in Hn; lia]. }
  destruct (try_recv (outbound s)) as [[pkt| |] rx] eqn:Er.
  - destruct (fill_batch (Z.to_nat MAX_ENCAP_BATCH - 1) rx [pkt]) as [batch rx'] eqn:Ef.
    set (s1 := send_to s (tunn s) (rekey_now s) (obf_sent s) rx' (wire s) (randomness s) (SendEncap l batch)).
    assert (Hstep : send_step w s 0 Sent (Some true) = Some (s1, []))
      by (unfold send_step; by rewrite Es, Er, Ef).
    assert (Hr1 : run_result s1 = None) by (by apply (send_running s)).
    destruct (send_returns s1 Hr1 El) as (s2 & Hl2 & Hk2 & Ho2 & l2 & Es2).
    destruct (IH s2) as (s3 & Hl3 & Hk3 & Hs3).
    + rewrite Ho2. cbn. destruct (fill_batch_spec _ _ _ _ _ Ef) as (taken & _ & Hq & _).
      rewrite (try_recv_got _ _ _ Er), Hq, length_cons, length_app in Hn. lia.
    + apply (send_running s1); [done|done|]. by rewrite Es2.
    + destruct Hk2 as [-> _]. done.
    + by eauto.
    + exists s3. split; [|split; [|done]].
      * eapply leads_step; [done|by eapply step_send|]. by eapply leads_trans.
      * eapply kept_send_trans, Hk3. by eapply (kept_send_trans _ s1).
  - exists s. split; [apply leads_refl|]. split; [done|]. right. split; [|by eauto].
    by destruct (try_recv_empty _ _ Er).
  - set (s1 := send_to s (tunn s) (rekey_now s) (obf_sent s) rx (wire s) (randomness s) SendEnded).
    exists s1. split; [|split; [done|by left]].
    eapply leads_step, leads_refl; [done|apply (step_send w s 0 Sent None)].
    unfold send_step. by rewrite Es, Er.
Qed.

(** Every task waits for the outside, the lock is free and nothing is queued. *)
Definition quiet s : Prop :=
  locked s = false /\ rx_queue (outbound s) = [] /\ (exists te, recv_t s = RecvWait te) /\
  (exists l, send_t s = SendWait l) /\ (exists last due, timer_t s = TimerWait last due) /\
  (exists k due, health_t s = HealthWait k due).

Lemma tasks_return s : run_result s = None -> lock_ok s ->
  exists s', leads s s' /\ (run_result s' <> None \/ quiet s').
Proof.
  intros Hr Hl. destruct (health_returns s Hr Hl) as (s1 & Hl1 & Hk1 & Hh1 & _ & Er1 & Es1 & _).
  assert (Hr1 : run_result s1 = None).
  { apply running in Hr as (? & ? & _). apply running. rewrite Er1, Es1.
    destruct Hh1 as (? & ? & ->). done. }
  destruct (timer_returns s1 Hr1 Hk1) as (s2 & Hl2 & Hk2 & Ht2).
  assert (Hr2 : run_result s2 = None) by (by eapply timer_running).
  destruct Hk2 as (E2 & _ & _ & _ & Eh2). rewrite Hk1 in E2.
  destruct (recv_returns s2 Hr2 E2) as (s3 & Hl3 & Hk3 & Hrv3). pose proof Hk3 as (E3 & _ & _ & Et3 & Eh3).
  assert (Hl03 : leads s s3) by (eapply leads_trans; [done|]; by eapply leads_trans).
  destruct Hrv3 as [Hend|Hrv3].
  { exists s3. split; [done|]. left. intros Hc. apply running in Hc as [Hc _]. done. }
  assert (Hr3 : run_result s3 = None) by (apply (recv_running s2); [done|done|]; by destruct Hrv3 as [? ->]).
  destruct (send_returns s3 Hr3) as (s4 & Hl4 & Hk4 & _ & Hs4); [by rewrite E3|].
  assert (Hr4 : run_result s4 = None) by (apply (send_running s3); [done|done|]; by destruct Hs4 as [? ->]).
  destruct (send_drains _ s4 (le_n _) Hr4) as (s5 & Hl5 & Hk5 & Hs5); [by destruct Hk4 as [-> _]; rewrite E3|done|].
  exists s5. split; [eapply leads_trans, Hl5; by eapply leads_trans|].
  destruct Hs5 as [Hend|[Hq Hs5]]; [left; intros Hc; by apply running in Hc as (_ & Hc & _)|right].
  destruct (kept_send_trans _ _ _ Hk4 Hk5) as (El & Erv & Etm & Ehl).
  split_and!; [by rewrite El, E3|done|by rewrite Erv|done|by rewrite Etm, Et3|by rewrite Ehl, Eh3, Eh2].
Qed.

End Progress.
