(* ===== verification/WgCorrect.v ===== *)
(** * What the WireGuard tunnel promises

    The theorems about [WgTunnel::run], each for every session, every socket,
    every schedule of the four tasks and every clock, and a small session to
    evaluate them with. *)

From stdpp Require Import base list option.
From Stdlib Require Import ZArith Lia.
From S2P Require Import Prelude Rand RustStr Octets Error Channel Net Sysprofile Masque AetherNoize.
From S2P Require Import WireGuard WgFacts WgProgress.

(** ** The theorems *)

Section Theorems.
Context {T Tx Rx R : Type} `{TunnLaws T} `{Sender Tx (list Z)} `{PatientSender Tx (list Z)}
        `{ReceiverLaws Rx (list Z)} `{Rng R} `{CpsSyntax}.

Abbreviation state := (tunnel T Tx Rx R).


(** C7: the uplink is a queue, and its batches are invisible.  However the tasks
    interleave, the packets the network stack offered are, in order and each
    once, the ones the session was called with, the ones the writer holds and
    the ones still queued, and the writer holds at most 64; the datagrams those
    calls returned are, in order and each once, the ones handed to the socket
    and the ones still to be handed to it.  A batch is its packets one call
    after the other: the session, the datagrams, the count of refusals in a row
    and the request for a handshake are those of the calls. *)
Theorem wg_uplink_fifo w at_ t obf (tx : Tx) (rx : Rx) (n : noise R) word tr (s : state) :
  steps w (start at_ t obf tx rx n word) tr s ->
  rx_queue rx ++ offered tr = encapsulated tr ++ held (send_t s) ++ rx_queue (outbound s) /\
  zlen (held (send_t s)) <= MAX_ENCAP_BATCH /\
  omap (datagram_of w) (answers tr) = written tr ++ unsent (send_t s) /\
  forall now (t : T) l rekey batch t' l' rekey' ds evs,
    encap_batch w now t l rekey batch = (t', l', rekey', ds, evs) ->
    let rs := (calls now t batch).1 in
    t' = (calls now t batch).2 /\ ds = omap (datagram_of w) rs /\
    encapsulated evs = batch /\ answers evs = rs /\
    encap_errors l' = fold_left refused rs (encap_errors l) /\
    rekey' = rekey || asks_for_rekey (encap_errors l) rs.
Proof.
  intros Hs. destruct (uplink_inv w (start at_ t obf tx rx n word) tr s eq_refl eq_refl Hs) as (Hq & Hd & Hl).
  split; [done|]. split; [done|]. split; [done|]. intros * E.
  destruct (encap_batch_calls _ _ _ _ _ _ _ _ _ _ _ E) as (rs & -> & Hlen & -> & -> & -> & ->).
  by destruct (noted_projections batch rs Hlen) as (-> & -> & _).
Qed.

(** C8: every message of the session is on the wire with the client id in its
    reserved bytes, whichever of the four tasks wrote it, and stripping the id,
    which is what is done to every datagram received, gives back exactly the
    message the session produced. *)
Theorem wg_wire_stamped w at_ t obf (tx : Tx) (rx : Rx) (n : noise R) word tr (s : state) d :
  tunnel_ok w -> steps w (start at_ t obf tx rx n word) tr s -> Message d ∈ wire s ->
  exists p, wg_message p /\ d = inject_client_id (client_id w) p /\
            strip_client_id d = p /\ zsub d 1 4 = client_id w /\ zlen d = zlen p.
Proof.
  intros (_ & Hid & _) Hs Hd.
  assert (Hw : wire_ok w s) by (eapply wire_inv; [|done]; split; constructor).
  destruct Hw as [Hw _]. rewrite list.Forall_forall in Hw.
  destruct (Hw d) as (p & Hp & ->); [by apply list_elem_of_omap; exists (Message d)|].
  exists p. destruct (strip_inject _ _ Hid Hp) as (Hs1 & Hs2 & Hs3). done.
Qed.

(** C9: a session is replaced in place at most once in three seconds, over the
    whole life of the tunnel, and a tick replaces it exactly when it was asked
    to (by the writer, by the health check or by the session's own error) and
    the last replacement is old enough; it then sends the handshake of the new
    session, or the session is marked as beyond repair. *)
Theorem wg_rekey_spaced w at_ t obf (tx : Tx) (rx : Rx) (n : noise R) word tr (s : state) :
  steps w (start at_ t obf tx rx n word) tr s ->
  spaced REKEY_MIN_GAP (fresh_times tr) /\
  forall now (t : T) last want t' last' dead out,
    timer_section w now t last want = (t', last', dead, out) ->
    if asked now t want && (REKEY_MIN_GAP <=? now - last) then
      last' = now /\
      match encapsulate now (tunn_new now (keys w)) [] with
      | (WriteToNetwork pkt, t2) =>
          t' = t2 /\ dead = false /\ List.last out [] = inject_client_id (client_id w) pkt /\ out <> []
      | (_, t2) => t' = t2 /\ dead = true
      end
    else last' = last /\ dead = false /\ t' = (update_timers now t).2.
Proof.
  intros Hs. split; [|intros *; apply timer_section_spec].
  eapply (rekey_invariant w) in Hs; [apply Hs|]. split_and!; try constructor; [|done].
  cbn. unfold REKEY_MIN_GAP, from_secs. dest_if; lia.
Qed.

(** C10: the tunnel is given up only for a reason.  If [run] fails, then either
    two neighbouring health checks, at least one pause (2.5 s) apart, each
    found that nothing valid had arrived for the stale timeout, and each had
    asked for a new handshake; or the session had been replaced at a time at
    which a new session of these keys does not give a handshake to send. *)
Theorem wg_death_justified w at_ t obf (tx : Tx) (rx : Rx) (n : noise R) word tr (s : state) e :
  0 <= stale_timeout w -> steps w (start at_ t obf tx rx n word) tr s ->
  run_result s = Some (Fail e) ->
  (e = STALE /\ struck_twice w tr) \/
  (e = EXPIRED /\ exists at', at' ∈ fresh_times tr /\
     forall pkt t', encapsulate at' (tunn_new at' (keys w)) [] <> (WriteToNetwork pkt, t' : T)).
Proof.
  intros Hst Hs Hr.
  assert (Hh : health_inv w tr s).
  { eapply (health_invariant w); [done| |done]. split_and!; [constructor|cbn; lia|by left]. }
  assert (Hk : rekey_inv w tr s).
  { eapply (rekey_invariant w); [|done]. split_and!; try constructor; [|done].
    cbn. unfold REKEY_MIN_GAP, from_secs. dest_if; lia. }
  destruct Hh as (_ & _ & Hh), Hk as (_ & _ & _ & Hk). unfold run_result in Hr.
  assert (health_t s = HealthEnded e) as E
    by (destruct (recv_t s), (send_t s), (health_t s); simplify_eq; done).
  rewrite E in Hh. destruct Hh as [Hh|[-> Hd]]; [by left|right]. split; [done|].
  destruct (proj1 (Exists_exists _ _) (Hk ltac:(unfold beyond_repair; by rewrite Hd))) as (at' & Hin & Hc).
  exists at'. split; [by apply list_elem_of_In|]. intros pkt t' Ec. unfold cannot_start in Hc. by rewrite Ec in Hc.
Qed.

End Theorems.

(** ** A session to evaluate with

    It sends packets as they are behind a data header, answers a handshake
    response with nothing, and hands out the packets it was given while no
    handshake had completed. *)

Record toy := mkToy { toy_up : bool; toy_queue : list (list Z) }.

#[global] Instance toy_tunn : Tunn toy := {
  tunn_new _ _ := mkToy false [];
  encapsulate _ t p :=
    if toy_up t then (WriteToNetwork (4 :: 0 :: 0 :: 0 :: p), t)
    else (WriteToNetwork (1 :: 0 :: 0 :: 0 :: []),
          mkToy false (toy_queue t ++ match p with [] => [] | _ => [p] end));
  decapsulate _ t d :=
    match d with
    | 4 :: _ :: _ :: _ :: p => (WriteToTunnelV4 p, t)
    | [] | 2 :: _ =>
        match toy_queue t with
        | p :: q => (WriteToNetwork (4 :: 0 :: 0 :: 0 :: p), mkToy true q)
        | [] => (TunnDone, mkToy true [])
        end
    | _ => (TunnErr 1, t)
    end;
  update_timers _ t := (TunnDone, t);
  tunn_queued t := length (toy_queue t);
}.

#[global] Instance toy_laws : TunnLaws toy.
Proof.
  assert (Hm : forall ty p, 1 <= ty <= 4 -> wg_message (ty :: 0 :: 0 :: 0 :: p)).
  { intros ty p Hty. exists ty, p. done. }
  split; cbn.
  - intros now [[] q] p pkt t'; cbn; intros [= <- _]; apply Hm; lia.
  - intros now t p pkt t' E. repeat case_match; simplify_eq; apply Hm; lia.
  - done.
  - intros now [up [|p q]] pkt t'; cbn; intros E; simplify_eq. cbn. lia.
Qed.

#[global] Instance chan_patient : PatientSender (chan (list Z)) (list Z) := {
  send_within c _ a := (TimedOutWaiting, c)
}.

Definition toy_wg : WgTunnel :=
  mkTunnel gfw [7; 8; 9] [172; 16; 0; 2] (mkKeys [] [] None 25) (from_secs 20).

Definition toy_start : tunnel toy (chan (list Z)) (chan (list Z)) Z :=
  start (from_secs 100) (mkToy true []) true
    (mk_chan 4 true []) (mk_chan 4 true [[69; 1]; [69; 2]; [69; 3]]) (AetherNoize.mkState 5 1) 0.

Lemma toy_ok : tunnel_ok toy_wg.
Proof. unfold tunnel_ok, noise_ok. cbn. split_and!; try done; repeat constructor; done. Qed.

#[local] Existing Instance scanner.

Section Schedules.
Context {T Tx Rx R : Type} `{Tunn T} `{Sender Tx (list Z)} `{PatientSender Tx (list Z)}
        `{Receiver Rx (list Z)} `{Rng R} `{CpsSyntax}.
Variable w : WgTunnel.

(** A schedule: which task runs, with the socket's answers, or how much time
    passes. *)
Inductive action :=
| ARecv (r : option sock_recv) (st : sent_status)
| ASend (st : sent_status) (writable : option bool)
| ATimer (st : sent_status)
| AHealth (st : sent_status)
| ATime (d : nat).

Definition act (s : tunnel T Tx Rx R) (a : action) : option (tunnel T Tx Rx R * list event) :=
  match a with
  | ARecv r st => recv_step w s r st
  | ASend st wr => send_step w s 0 st wr
  | ATimer st => timer_step w s st (now s + TIMER_TICK)
  | AHealth st => health_step w s st
  | ATime d =>
      Some (mkState (now s + from_secs (Z.of_nat d)) (tunn s) (locked s) (last_valid_rx s) (rekey_now s)
        (session_dead s) (obf_sent s) (inbound s) (outbound s) (wire s) (randomness s)
        (recv_t s) (send_t s) (timer_t s) (health_t s), [])
  end.

Fixpoint schedule (s : tunnel T Tx Rx R) (tr : list event) (l : list action)
  : option (tunnel T Tx Rx R * list event) :=
  match l with
  | [] => Some (s, tr)
  | a :: l =>
      match run_result s, act s a with
      | None, Some (s', evs) => schedule s' (tr ++ evs) l
      | _, _ => None
      end
  end.

Lemma schedule_steps s0 s tr l s' tr' :
  steps w s0 tr s -> schedule s tr l = Some (s', tr') -> steps w s0 tr' s'.
Proof.
  revert s tr. induction l as [|a l IH]; intros s tr Hs; cbn; [by intros [= <- <-]|].
  destruct (run_result s) eqn:Er; [done|]. destruct (act s a) as [[s1 evs]|] eqn:Ea; [|done].
  apply IH. eapply steps_snoc; [done|done|]. destruct a; cbn [act] in Ea; try by econstructor.
  simplify_eq. constructor. unfold from_secs. lia.
Qed.

End Schedules.

Definition toy_run (l : list action) := default (toy_start, []) (schedule toy_wg toy_start [] l).

Lemma toy_steps l s tr : schedule toy_wg toy_start [] l = Some (s, tr) -> steps toy_wg toy_start tr s.
Proof. apply schedule_steps. constructor. Qed.

(** The writer takes the queued packets, gives them to the session and puts
    them on the wire. *)
Definition uplink_schedule : list action := replicate 5 (ASend Sent None).

Example toy_uplink :
  wire (toy_run (replicate 8 (ASend Sent None))).1 =
    [Message [4; 7; 8; 9; 69; 1]; Message [4; 7; 8; 9; 69; 2]; Message [4; 7; 8; 9; 69; 3]].
Proof. vm_compute. done. Qed.

(** The health check has its probe ready and the socket is full: it holds the
    lock, so the writer and the timer wait with it. *)
Definition stuck_schedule : list action :=
  [ASend Sent None; ATimer Sent; ATime 4; AHealth Sent; AHealth Sent; AHealth Sent].


Lemma wg_uplink_fifo_witness :
  let '(s, tr) := toy_run uplink_schedule in
  [[69; 1]; [69; 2]; [69; 3]] ++ offered tr = encapsulated tr ++ held (send_t s) ++ rx_queue (outbound s) /\
  encapsulated tr = [[69; 1]; [69; 2]; [69; 3]].
Proof.
  destruct (toy_run uplink_schedule) as [s tr] eqn:E. split; [|by vm_compute in E; simplify_eq].
  refine (proj1 (wg_uplink_fifo toy_wg (from_secs 100) (mkToy true []) true
    (mk_chan 4 true []) (mk_chan 4 true [[69; 1]; [69; 2]; [69; 3]]) (AetherNoize.mkState 5 1) 0 tr s _)).
  apply (toy_steps uplink_schedule). vm_compute in E |- *. by rewrite E.
Defined.

Lemma wg_wire_stamped_witness :
  strip_client_id [4; 7; 8; 9; 69; 1] = [4; 0; 0; 0; 69; 1] /\ zsub [4; 7; 8; 9; 69; 1] 1 4 = [7; 8; 9].
Proof.
  destruct (toy_run (replicate 8 (ASend Sent None))) as [s tr] eqn:E.
  destruct (wg_wire_stamped toy_wg (from_secs 100) (mkToy true []) true
    (mk_chan 4 true []) (mk_chan 4 true [[69; 1]; [69; 2]; [69; 3]]) (AetherNoize.mkState 5 1) 0 tr s
    [4; 7; 8; 9; 69; 1] toy_ok) as (p & Hp & Hd & Hs & Hz & _).
  - apply (toy_steps (replicate 8 (ASend Sent None))). vm_compute in E |- *. by rewrite E.
  - vm_compute in E. simplify_eq. apply list_elem_of_here.
  - split; [|done]. vm_compute. done.
Defined.

(** The stale timeout twice over: the health check gives up. *)
Definition stale_schedule : list action :=
  [ATime 30; AHealth Sent; ATimer Sent; ATimer Sent; AHealth Sent; AHealth Sent; AHealth Sent;
   ATime 4; AHealth Sent].

Lemma wg_rekey_spaced_witness : spaced REKEY_MIN_GAP (fresh_times (toy_run stale_schedule).2) /\
  fresh_times (toy_run stale_schedule).2 = [from_secs 130].
Proof.
  destruct (toy_run stale_schedule) as [s tr] eqn:E. split; [|by vm_compute in E; simplify_eq].
  refine (proj1 (wg_rekey_spaced toy_wg (from_secs 100) (mkToy true []) true
    (mk_chan 4 true []) (mk_chan 4 true [[69; 1]; [69; 2]; [69; 3]]) (AetherNoize.mkState 5 1) 0 tr s _)).
  apply (toy_steps stale_schedule). vm_compute in E |- *. by rewrite E.
Defined.

Lemma wg_death_justified_witness :
  run_result (toy_run stale_schedule).1 = Some (Fail STALE) /\
  struck_twice toy_wg (toy_run stale_schedule).2.
Proof.
  split; [vm_compute; done|]. destruct (toy_run stale_schedule) as [s tr] eqn:E.
  destruct (wg_death_justified toy_wg (from_secs 100) (mkToy true []) true
    (mk_chan 4 true []) (mk_chan 4 true [[69; 1]; [69; 2]; [69; 3]]) (AetherNoize.mkState 5 1) 0 tr s
    STALE) as [[_ Hd]|[Hc _]].
  - vm_compute. discriminate.
  - apply (toy_steps stale_schedule). vm_compute in E |- *. by rewrite E.
  - vm_compute in E. simplify_eq. vm_compute. done.
  - exact Hd.
  - vm_compute in Hc. discriminate Hc.
Defined.
