(* ===== verification/WgVerify.v ===== *)
(** * Verifying a WireGuard endpoint (src/native/aether/aether/src/wireguard.rs)

    [verify_endpoint_keep_session] and [verify_dataplane]: a handshake with a
    candidate endpoint, then two answered probes through the new session.
    The loops carry the clock.  Each of their turns waits in a [select!], and a
    [turn] says what the outside does there: how long until the socket (or the
    timer) is ready, how long the socket keeps the writes of the turn waiting,
    and what it does with them; [select] is the race of that with the sleep the
    code computes.  A list of turns is a schedule, and a loop that still waits
    at its end is [Diverge].  Each function returns when it ended and what it
    gave.  The rendering of a session error in a message is left out. *)

From stdpp Require Import base list option.
From Stdlib Require Import ZArith Lia.
From S2P Require Import Prelude Rand RustStr Octets Error Channel Net Sysprofile Masque AetherNoize.
From S2P Require Import WireGuard WgFacts WgProgress WgCorrect.

Definition VERIFY_RETRY_DELAYS : list Z := [from_millis 750; from_millis 2000].
Definition DATAPLANE_REQUIRED_SUCCESSES : Z := 2.
Definition DATAPLANE_PROBE_GAP : Z := from_millis 600.

Record turn (A : Type) := mkTurn {
  busy : Z;                      (* the writes before the wait take this long *)
  after : Z;                     (* the wait until something is ready *)
  ready : A;                     (* what is ready *)
  replying : Z;                  (* the writes after the wait take this long *)
  sends : list sent_status;      (* what the socket does with the writes *)
}.
Arguments mkTurn {A}.
Arguments busy {A}.
Arguments after {A}.
Arguments ready {A}.
Arguments replying {A}.
Arguments sends {A}.

Definition answer {A} (tu : turn A) (i : nat) : sent_status := default Sent (sends tu !! i).

(** [select!] with a [sleep(wait)] arm: how long it takes, and what was ready
    before the sleep was over. *)
Definition select {A} (wait : Z) (tu : turn A) : Z * option A :=
  if after tu <=? wait then (after tu, Some (ready tu)) else (wait, None).

(** The arms of the handshake loop besides its sleep. *)
Inductive wake := WokeRecv (r : sock_recv) | WokeTimer.

(** What a verification has done so far: its session, the socket, and the
    results of [decapsulate], newest last. *)
Record verify_state (T : Type) := mkVerify {
  v_tunn : T;
  v_wire : list datagram;
  v_heard : list TunnResult;
}.
Arguments mkVerify {T}.
Arguments v_tunn {T}.
Arguments v_wire {T}.
Arguments v_heard {T}.

Section Verify.
Context {T R : Type} `{Tunn T} `{Rng R} `{CpsSyntax}.
Variable id : list Z.                          (* client_id *)

Definition send_message (st : sent_status) (d : list Z) (v : verify_state T) : verify_state T :=
  mkVerify (v_tunn v) (put_on_wire st (Message d) (v_wire v)) (v_heard v).

(** [sock.send(..).await?] *)
Definition must_send (st : sent_status) (d : list Z) (v : verify_state T) : aresult (verify_state T) :=
  match st with
  | Sent => Done (send_message Sent d v)
  | NotSent kind => Fail (Io kind)
  end.

Definition with_tunn (v : verify_state T) (t : T) : verify_state T :=
  mkVerify t (v_wire v) (v_heard v).

(** [send_dataplane_probe]. *)
Definition send_dataplane_probe (at_ : Z) (st : sent_status) (probe : list Z) (v : verify_state T)
  : aresult unit * verify_state T :=
  match encapsulate at_ (v_tunn v) probe with
  | (WriteToNetwork pkt, t) =>
      match must_send st (inject_client_id id pkt) (with_tunn v t) with
      | Done v => (Done tt, v)
      | Fail e => (Fail e, with_tunn v t)
      | _ => (Panic, with_tunn v t)
      end
  | (TunnErr _, t) => (Fail (Other (lit "dataplane encap")), with_tunn v t)
  | (_, t) => (Done tt, with_tunn v t)
  end.

(** [decapsulate] on a datagram, its result noted. *)
Definition hear (at_ : Z) (data : list Z) (v : verify_state T) : TunnResult * verify_state T :=
  let '(r, t) := decapsulate at_ (v_tunn v) (strip_client_id data) in
  (r, mkVerify t (v_wire v) (v_heard v ++ [r])).

(** The loop of [verify_dataplane], [now] being the time at its top. *)
Fixpoint dataplane_loop (start_ deadline : Z) (probe : list Z) (sched : list (turn sock_recv))
  (now successes last_probe resend : Z) (v : verify_state T) : Z * aresult (Z * verify_state T) :=
  if deadline <=? now then (now, Fail (Other (lit "dataplane timeout")))
  else
    match sched with
    | [] => (now, Diverge)
    | tu :: sched =>
        let '(v, last_probe, resend, from) :=
          if resend <=? now
          then ((send_dataplane_probe now (answer tu 0) probe v).2, now, now + from_millis 700, now + busy tu)
          else (v, last_probe, resend, now) in
        let wait := Z.min (saturating_sub deadline now) (saturating_sub resend now) in
        let '(delay, arm) := select wait tu in
        let now := from + delay in
        match arm with
        | None => dataplane_loop start_ deadline probe sched now successes last_probe resend v
        | Some (SockErr kind) => (now, Fail (Io kind))
        | Some (SockData data) =>
            match hear now data v with
            | (WriteToTunnelV4 _, v) | (WriteToTunnelV6 _, v) =>
                let successes := successes + 1 in
                if DATAPLANE_REQUIRED_SUCCESSES <=? successes
                then (now, Done (now - start_, v))
                else
                  let next_at := Z.max now (last_probe + DATAPLANE_PROBE_GAP) in
                  let v := (send_dataplane_probe now (answer tu 1) probe v).2 in
                  dataplane_loop start_ deadline probe sched (now + replying tu) successes next_at
                    (next_at + from_millis 700) v
            | (WriteToNetwork pkt, v) =>
                dataplane_loop start_ deadline probe sched (now + replying tu) successes last_probe resend
                  (send_message (answer tu 1) (inject_client_id id pkt) v)
            | (_, v) => dataplane_loop start_ deadline probe sched now successes last_probe resend v
            end
        end
    end.

(** What the outside does in [verify_dataplane]: with the first probe, how long
    that takes, and in the turns after it. *)
Record dataplane_env := mkDataplane {
  first_probe : sent_status; first_takes : Z; dataplane_turns : list (turn sock_recv);
}.

Definition verify_dataplane (local_ipv4 : list Z) (at_ start_ deadline : Z) (de : dataplane_env)
  (r : R) (v : verify_state T) : Z * aresult (Z * verify_state T) :=
  match build_dataplane_probe local_ipv4 r with
  | Done (probe, _) =>
      match send_dataplane_probe at_ (first_probe de) probe v with
      | (Done _, v) =>
          dataplane_loop start_ deadline probe (dataplane_turns de) (at_ + first_takes de) 0 at_
            (at_ + from_millis 700) v
      | (Fail e, _) => (at_ + first_takes de, Fail e)
      | _ => (at_, Panic)
      end
  | _ => (at_, Panic)
  end.

(** The end of a handshake: the data check, if it is on. *)
Definition handshaken (data_check : bool) (local_ipv4 : list Z) (at_ start_ deadline : Z)
  (de : dataplane_env) (r : R) (v : verify_state T) : Z * aresult (Z * verify_state T) :=
  if data_check then verify_dataplane local_ipv4 at_ start_ deadline de r v
  else (at_, Done (at_ - start_, v)).

(** The timer arm: a retransmission of the first message when one is due, then
    the session's own timers. *)
Definition verify_tick (start_ now : Z) (init_packet : list Z) (tu : turn wake) (retry_index : nat)
  (v : verify_state T) : aresult (nat * verify_state T) :=
  '(retry_index, v) ←
    match VERIFY_RETRY_DELAYS !! retry_index with
    | Some delay =>
        if delay <=? now - start_
        then v ← must_send (answer tu 0) init_packet v; Done (S retry_index, v)
        else Done (retry_index, v)
    | None => Done (retry_index, v)
    end;
  match update_timers now (v_tunn v) with
  | (WriteToNetwork pkt, t) =>
      v ← must_send (answer tu 1) (inject_client_id id pkt) (with_tunn v t); Done (retry_index, v)
  | (TunnErr _, t) => Fail (Other (lit "wireguard timer failed"))
  | (_, t) => Done (retry_index, with_tunn v t)
  end.

Fixpoint verify_loop (data_check : bool) (local_ipv4 : list Z) (start_ deadline : Z)
  (init_packet : list Z) (de : dataplane_env) (r : R) (sched : list (turn wake)) (now : Z)
  (retry_index : nat) (v : verify_state T) : Z * aresult (Z * verify_state T) :=
  if deadline <=? now then (now, Fail (Other (lit "verify timeout")))
  else
    match sched with
    | [] => (now, Diverge)
    | tu :: sched =>
        let again := verify_loop data_check local_ipv4 start_ deadline init_packet de r sched in
        let remaining := saturating_sub deadline now in
        let '(delay, arm) := select remaining tu in
        let now := now + delay in
        match arm with
        | None => (now, Fail (Other (lit "verify timeout")))
        | Some (WokeRecv (SockErr kind)) => (now, Fail (Io kind))
        | Some (WokeRecv (SockData [])) => again now retry_index v
        | Some (WokeRecv (SockData data)) =>
            match hear now data v with
            | (TunnDone, v) => handshaken data_check local_ipv4 now start_ deadline de r v
            | (WriteToNetwork pkt, v) =>
                match must_send (answer tu 0) (inject_client_id id pkt) v with
                | Done v => handshaken data_check local_ipv4 (now + replying tu) start_ deadline de r v
                | Fail e => (now + replying tu, Fail e)
                | _ => (now, Panic)
                end
            | (_, v) => again now retry_index v
            end
        | Some WokeTimer =>
            match verify_tick start_ now init_packet tu retry_index v with
            | Done (retry_index, v) => again (now + replying tu) retry_index v
            | Fail e => (now + replying tu, Fail e)
            | _ => (now, Panic)
            end
        end
    end.

(** The variable that turns the data check off. *)
Definition data_check_of (env : environment) : bool :=
  match env (lit "AETHER_WG_NO_DATA_CHECK") with Some _ => false | None => true end.

(** [bound] is the answer of [bind_via_upstream], [start_] the time read after
    it, [first] what the socket does with the first message, and [setup] how
    long the decoys, that message and the first tick take. *)
Definition verify_endpoint_keep_session (env : environment) (bound : aresult unit)
  (cfg : AetherNoizeConfig) (k : SessionKeys) (local_ipv4 : list Z) (unix_secs start_ timeout : Z)
  (first : sent_status) (setup : Z) (sched : list (turn wake)) (de : dataplane_env) (s : noise R)
  : Z * aresult (Z * verify_state T) :=
  let data_check := data_check_of env in
  match bound with
  | Done _ =>
      let deadline := start_ + timeout in
      match (if is_enabled cfg then apply_obfuscation unix_secs cfg s else Done ([], s)) with
      | Done (junk, s) =>
          match encapsulate start_ (tunn_new start_ k) [] with
          | (WriteToNetwork pkt, t) =>
              let init_packet := inject_client_id id pkt in
              match must_send first init_packet (mkVerify t (Decoy <$> junk) []) with
              | Done v =>
                  verify_loop data_check local_ipv4 start_ deadline init_packet de (rng s) sched
                    (start_ + setup) 0 v
              | Fail e => (start_ + setup, Fail e)
              | _ => (start_, Panic)
              end
          | _ => (start_ + setup, Fail (Other (lit "handshake init failed")))
          end
      | _ => (start_, Panic)
      end
  | Fail e => (start_, Fail e)
  | Panic => (start_, Panic)
  | Diverge => (start_, Diverge)
  end.

(** [verify_endpoint] drops the session. *)
Definition verify_endpoint (env : environment) (bound : aresult unit) (cfg : AetherNoizeConfig)
  (k : SessionKeys) (local_ipv4 : list Z) (unix_secs start_ timeout : Z)
  (first : sent_status) (setup : Z) (sched : list (turn wake)) (de : dataplane_env) (s : noise R)
  : Z * aresult Z :=
  let '(at_, res) :=
    verify_endpoint_keep_session env bound cfg k local_ipv4 unix_secs start_ timeout first setup sched de s in
  (at_, '(elapsed, _) ← res; Done elapsed).

End Verify.

(** ** Facts *)

Definition is_data (r : TunnResult) : bool :=
  match r with WriteToTunnelV4 _ | WriteToTunnelV6 _ => true | _ => false end.
Definition is_reply (r : TunnResult) : bool :=
  match r with TunnDone | WriteToNetwork _ => true | _ => false end.
Definition count_data (l : list TunnResult) : Z := zlen (List.filter is_data l).

Lemma count_data_app l k : count_data (l ++ k) = count_data l + count_data k.
Proof. unfold count_data. by rewrite List.filter_app, zlen_app. Qed.

(** No write of the turns waits for the socket longer than [stall], and nothing
    takes negative time. *)
Definition prompt {A} (stall : Z) (tu : turn A) : Prop :=
  0 <= busy tu <= stall /\ 0 <= after tu /\ 0 <= replying tu <= stall.

Lemma select_bounds {A} (wait : Z) (tu : turn A) :
  0 <= wait -> 0 <= after tu -> 0 <= (select wait tu).1 <= wait.
Proof. unfold select. intros. destruct (Z.leb_spec (after tu) wait); cbn; lia. Qed.

Section Facts.
Context {T R : Type} `{Tunn T} `{Rng R} `{CpsSyntax}.
Variables (id : list Z) (start_ deadline stall : Z).
Hypothesis Hstall : 0 <= stall.

Lemma send_dataplane_probe_heard at_ st probe (v : verify_state T) :
  v_heard (send_dataplane_probe id at_ st probe v).2 = v_heard v /\
  (send_dataplane_probe id at_ st probe v).1 <> Panic /\
  (send_dataplane_probe id at_ st probe v).1 <> Diverge.
Proof.
  unfold send_dataplane_probe. destruct (encapsulate at_ (v_tunn v) probe) as [[] t]; try done.
  by destruct st.
Qed.

(** A run that starts at [now] and ends at [ended]: it ends well only at once,
    by the deadline and two stalls, and a run that still waits is early. *)
Definition timely (now : Z) (good : Z -> verify_state T -> Prop)
  (res : Z * aresult (Z * verify_state T)) : Prop :=
  now <= res.1 /\
  match res.2 with
  | Done (elapsed, v') => good elapsed v' /\ elapsed = res.1 - start_ /\ res.1 <= deadline + 2 * stall
  | Fail _ => res.1 <= Z.max now (deadline + 2 * stall)
  | Panic => False
  | Diverge => res.1 < deadline
  end.

Lemma timely_later now now' (good good' : Z -> verify_state T -> Prop) res :
  now <= now' <= deadline + 2 * stall -> (forall e v, good' e v -> good e v) ->
  timely now' good' res -> timely now good res.
Proof.
  intros Hn Hg [Hle Hres]. split; [lia|]. destruct (res.2) as [[el v']| | |]; try done; [|lia].
  destruct Hres as (Hgood & He & Hb). split_and!; [by apply Hg|done|done].
Qed.

(** The loop ends well only after two answers, [successes] of them counted
    already. *)
Definition two_answers (successes : Z) (v : verify_state T) (_ : Z) (v' : verify_state T) : Prop :=
  exists more, v_heard v' = v_heard v ++ more /\ 2 <= successes + count_data more.

Lemma two_answers_later successes k (v v1 : verify_state T) r :
  v_heard v1 = v_heard v ++ r -> k <= successes + count_data r ->
  forall e v', two_answers k v1 e v' -> two_answers successes v e v'.
Proof.
  intros E Hk e v' (more & Hh & Hc). exists (r ++ more). split; [by rewrite Hh, E, app_assoc|].
  rewrite count_data_app. lia.
Qed.

Lemma dataplane_loop_spec probe sched : Forall (prompt stall) sched ->
  forall now successes last resend (v : verify_state T), successes < 2 ->
  timely now (two_answers successes v)
    (dataplane_loop id start_ deadline probe sched now successes last resend v).
Proof.
  induction 1 as [|tu sched (Hbusy & Hafter & Hrep) _ IH]; intros now successes last resend v Hs;
    cbn [dataplane_loop]; (destruct (Z.leb_spec deadline now) as [|Hin]; [by split; cbn; lia|]);
    [by split; cbn; lia|].
  set (pre := if resend <=? now then _ else _).
  assert (Hpre : v_heard pre.1.1.1 = v_heard v /\ now <= pre.2 <= now + stall)
    by (unfold pre; dest_if; cbn; [split; [apply send_dataplane_probe_heard|lia]|split; [done|lia]]).
  destruct pre as [[[v1 last1] resend1] from]. cbn [fst snd] in Hpre. destruct Hpre as [Hh1 Hfrom].
  set (wait := Z.min (saturating_sub deadline now) (saturating_sub resend1 now)).
  assert (Hwait : 0 <= wait <= deadline - now) by (unfold wait, saturating_sub; lia).
  pose proof (select_bounds wait tu ltac:(lia) Hafter) as Hsel.
  destruct (select wait tu) as [delay arm]. cbn [fst] in Hsel.
  set (at_ := from + delay). assert (Hat : now <= at_ <= deadline + stall) by (unfold at_; lia).
  assert (Hgo : forall now' k last resend v3 r, v_heard v3 = v_heard v ++ r ->
            k <= successes + count_data r -> k < 2 -> at_ <= now' <= at_ + stall ->
            timely now (two_answers successes v)
              (dataplane_loop id start_ deadline probe sched now' k last resend v3)).
  { intros now' k last2 resend2 v3 r E3 Hk Hk2 Hn.
    eapply (timely_later _ now'); [lia| |by apply IH]. by eapply two_answers_later. }
  destruct arm as [[data|kind]|].
  3: apply (Hgo _ _ _ _ _ []); [by rewrite app_nil_r|change (count_data []) with 0; lia|done|lia].
  2: split; cbn; lia.
  unfold hear. destruct (decapsulate at_ (v_tunn v1) (strip_client_id data)) as [r t1].
  set (v2 := mkVerify t1 (v_wire v1) (v_heard v1 ++ [r])).
  assert (Hh : v_heard v2 = v_heard v ++ [r]) by (cbn; by rewrite Hh1).
  destruct (is_data r) eqn:Hd.
  - assert (Hc : count_data [r] = 1) by (unfold count_data; cbn; by rewrite Hd).
    assert (Hdata : forall last resend, timely now (two_answers successes v)
      (if DATAPLANE_REQUIRED_SUCCESSES <=? successes + 1 then (at_, Done (at_ - start_, v2))
       else dataplane_loop id start_ deadline probe sched (at_ + replying tu) (successes + 1) last resend
              (send_dataplane_probe id at_ (answer tu 1) probe v2).2)).
    { intros last2 resend2. unfold DATAPLANE_REQUIRED_SUCCESSES.
      destruct (Z.leb_spec 2 (successes + 1)).
      - split; cbn; [lia|]. split_and!; [|done|lia]. exists [r]. split; [done|lia].
      - apply (Hgo _ _ _ _ _ [r]); [|lia|lia|lia]. by rewrite (proj1 (send_dataplane_probe_heard _ _ _ _)). }
    destruct r; try done; apply Hdata.
  - assert (Hc : count_data [r] = 0) by (unfold count_data; cbn; by rewrite Hd).
    destruct r; try done; (eapply Hgo; [exact Hh|lia|done|lia]).
Qed.

(** A success heard a reply of the peer, the first one, and with the data check
    two answers after it. *)
Definition replied (data_check : bool) (v : verify_state T) (_ : Z) (v' : verify_state T) : Prop :=
  exists errs reply more,
    v_heard v' = v_heard v ++ errs ++ reply :: more /\
    Forall (fun r => is_reply r = false) errs /\ is_reply reply = true /\
    if data_check then 2 <= count_data more else more = [].

Lemma replied_later data_check (v v1 : verify_state T) l :
  v_heard v1 = v_heard v ++ l -> Forall (fun r => is_reply r = false) l ->
  forall e v', replied data_check v1 e v' -> replied data_check v e v'.
Proof.
  intros E Hl e v' (errs & reply & more & Hh & He & Hr & Hm). exists (l ++ errs), reply, more.
  split; [by rewrite Hh, E, <- !app_assoc|]. split; [by apply Forall_app|done].
Qed.

Variable local_ipv4 : list Z.
Hypothesis Hlen : length local_ipv4 = 4%nat.
Hypothesis Hbytes : bytes_ok local_ipv4.
Variable de : dataplane_env.
Hypothesis Hfirst : 0 <= first_takes de <= stall.
Hypothesis Hturns : Forall (prompt stall) (dataplane_turns de).

Lemma handshaken_ok data_check now at_ (r : R) reply (v v1 : verify_state T) :
  now <= at_ <= deadline + stall -> is_reply reply = true -> v_heard v1 = v_heard v ++ [reply] ->
  timely now (replied data_check v) (handshaken id data_check local_ipv4 at_ start_ deadline de r v1).
Proof.
  intros Hat Hr E. unfold handshaken. destruct data_check.
  2: { split; cbn; [lia|]. split_and!; [|done|lia]. exists [], reply, []. split_and!; [done|constructor|done|done]. }
  unfold verify_dataplane. destruct (dataplane_probe_done local_ipv4 r Hlen Hbytes) as [[probe r'] ->].
  destruct (send_dataplane_probe_heard at_ (first_probe de) probe v1) as (Hh & Hp & Hd).
  destruct (send_dataplane_probe id at_ (first_probe de) probe v1) as [[[]| | |] v2]; try done; cbn [fst snd] in *.
  2: split; cbn; lia.
  eapply (timely_later _ (at_ + first_takes de)); [lia| |by apply (dataplane_loop_spec _ _ Hturns)].
  intros el v' (more & Hm & Hc). exists [], reply, more.
  split_and!; [by rewrite Hm, Hh, E, <- app_assoc|constructor|done|lia].
Qed.

Lemma verify_tick_ok now init_packet tu k (v : verify_state T) :
  match verify_tick id start_ now init_packet tu k v with
  | Done (_, v') => v_heard v' = v_heard v
  | Fail _ => True
  | _ => False
  end.
Proof.
  unfold verify_tick, must_send. destruct (VERIFY_RETRY_DELAYS !! k) as [delay|];
    [destruct (delay <=? now - start_); [destruct (answer tu 0)|]|]; cbn [mbind outcome_bind v_tunn send_message];
    try done; destruct (update_timers now (v_tunn v)) as [[] t]; cbn; try done;
    by destruct (answer tu 1).
Qed.

Lemma verify_loop_spec data_check init_packet (r : R) sched : Forall (prompt stall) sched ->
  forall now k (v : verify_state T),
  timely now (replied data_check v)
    (verify_loop id data_check local_ipv4 start_ deadline init_packet de r sched now k v).
Proof.
  induction 1 as [|tu sched (Hbusy & Hafter & Hrep) _ IH]; intros now k v; cbn [verify_loop];
    (destruct (Z.leb_spec deadline now) as [|Hin]; [by split; cbn; lia|]); [by split; cbn; lia|].
  assert (Hrem : 0 <= saturating_sub deadline now <= deadline - now) by (unfold saturating_sub; lia).
  pose proof (select_bounds (saturating_sub deadline now) tu ltac:(lia) Hafter) as Hsel.
  destruct (select _ tu) as [delay arm]. cbn [fst] in Hsel.
  set (at_ := now + delay). assert (Hat : now <= at_ <= deadline) by (unfold at_; lia).
  assert (Hgo : forall now' k v1 l, v_heard v1 = v_heard v ++ l -> Forall (fun r => is_reply r = false) l ->
     at_ <= now' <= at_ + stall -> timely now (replied data_check v)
       (verify_loop id data_check local_ipv4 start_ deadline init_packet de r sched now' k v1)).
  { intros now' k1 v1 l E Hl Hn. eapply (timely_later _ now'); [lia| |by apply IH]. by eapply replied_later. }
  destruct arm as [[[[|b data]|kind]|]|]; try (split; cbn; lia).
  - apply (Hgo _ _ _ []); [by rewrite app_nil_r|constructor|lia].
  - unfold hear. destruct (decapsulate at_ (v_tunn v) (strip_client_id (b :: data))) as [res t1].
    set (v1 := mkVerify t1 (v_wire v) (v_heard v ++ [res])).
    destruct (is_reply res) eqn:Hr.
    + destruct res; try done; [apply (handshaken_ok _ _ _ _ TunnDone); done || lia|].
      unfold must_send. destruct (answer tu 0); [|split; cbn; lia].
      apply (handshaken_ok _ _ _ _ (WriteToNetwork pkt)); done || lia.
    + destruct res; try done; (eapply Hgo; [reflexivity|by apply Forall_singleton|lia]).
  - pose proof (verify_tick_ok at_ init_packet tu k v) as Htick.
    destruct (verify_tick id start_ at_ init_packet tu k v) as [[k' v']| | |]; try done; [|split; cbn; lia].
    apply (Hgo _ _ _ []); [by rewrite app_nil_r|constructor|lia].
Qed.

End Facts.


(** The session of [WgCorrect] answering a handshake and two probes. *)
Definition answering : list (turn wake) := [mkTurn 0 10 (WokeRecv (SockData [2; 7; 8; 9])) 0 []].
Definition tunnelling : dataplane_env :=
  mkDataplane Sent 0 [mkTurn 0 10 (SockData [4; 7; 8; 9; 69]) 0 []; mkTurn 0 20 (SockData [4; 7; 8; 9; 70]) 0 []].

