(* ===== verification/LastConn.v ===== *)
(** * The last working gateways (src/native/aether/aether/src/lastconn.rs)

    [save] keeps a ring of the gateways that worked on one carrier, newest
    first; [usable_peers] reads it back.  The file system and the [toml] crate
    are parameters: [read] is the text of the file, [decode] and [encode] are
    [toml::from_str] and [toml::to_string_pretty]. *)

From stdpp Require Import base list option.
From Stdlib Require Import ZArith Lia.
From S2P Require Import Prelude RustStr Net.

Definition RECENT_CAP : Z := 8.

Definition CARRIER_MASQUE_H3 : str := lit "masque-h3".
Definition CARRIER_MASQUE_H2 : str := lit "masque-h2".
Definition CARRIER_WIREGUARD : str := lit "wireguard".

Record LastConnection := mkLast {
  peer : str;
  profile : str;
  carrier : str;
  recent : list str;
}.

Class Toml := {
  decode : str -> option LastConnection;
  encode : LastConnection -> option str;
}.

(** The file at the path, [None] when it cannot be read. *)
Definition file := option str.

Definition load `{Toml} (f : file) : option LastConnection :=
  text ← f;
  decode text.

(** [for entry in carried_over]: the new peer first, its older mention
    dropped, up to the cap. *)
Fixpoint push_recent (peer_ : str) (acc carried : list str) : list str :=
  match carried with
  | [] => acc
  | entry :: carried =>
      push_recent peer_
        (if negb (str_eqb entry peer_) && (zlen acc <? RECENT_CAP) then acc ++ [entry] else acc)
        carried
  end.

Definition carried_over (previous : option LastConnection) (carrier_ : str) : list str :=
  match previous with
  | Some c => if str_eqb (carrier c) [] || str_eqb (carrier c) carrier_ then recent c else []
  | None => []
  end.

Definition next_connection (previous : option LastConnection) (peer_ profile_ carrier_ : str)
  : LastConnection :=
  mkLast peer_ profile_ carrier_ (push_recent peer_ [peer_] (carried_over previous carrier_)).

(** [written] tells whether [std::fs::write] succeeded; a failure is logged and
    leaves the file as it was. *)
Definition save `{Toml} (written : bool) (f : file) (peer_ profile_ carrier_ : str) : file :=
  match encode (next_connection (load f) peer_ profile_ carrier_) with
  | Some text => if written then Some text else f
  | None => f
  end.

(** The loop over the entries: [seen] is the set of addresses met. *)
Fixpoint collect_peers (entries : list str) (out : list SocketAddr) : list SocketAddr :=
  match entries with
  | [] => out
  | raw :: entries =>
      collect_peers entries
        (match parse_socket_addr raw with
         | Some addr => if bool_decide (addr ∈ out) then out else out ++ [addr]
         | None => out
         end)
  end.

Definition usable_peers (cached : LastConnection) (carrier_ : str) : list SocketAddr :=
  if negb (str_eqb (carrier cached) []) && negb (str_eqb (carrier cached) carrier_) then []
  else collect_peers (peer cached :: recent cached) [].

(** ** Facts *)

(** What [serde] promises of a record of strings. *)
Class TomlLaws `{Toml} := {
  toml_roundtrip c : exists text, encode c = Some text /\ decode text = Some c;
}.

(** Most recently used first, without repetition. *)
Fixpoint mru (l : list str) : list str :=
  match l with
  | [] => []
  | p :: l => p :: List.filter (fun q => negb (str_eqb q p)) (mru l)
  end.

Lemma filter_other p q l : p ∉ List.filter (fun x => negb (str_eqb x q)) l -> p <> q -> p ∉ l.
Proof.
  intros Hn Hpq Hin. apply Hn. apply list_elem_of_In, List.filter_In. split; [by apply list_elem_of_In|].
  apply negb_true_iff. destruct (str_eqb p q) eqn:E; [|done]. by apply str_eqb_eq in E.
Qed.

Lemma not_in_filter p l : p ∉ List.filter (fun q => negb (str_eqb q p)) l.
Proof.
  intros Hin%list_elem_of_In. apply List.filter_In in Hin as [_ Hn]. by rewrite str_eqb_refl in Hn.
Qed.

Lemma filter_absent p l : p ∉ l -> List.filter (fun q => negb (str_eqb q p)) l = l.
Proof.
  intros Hn. induction l as [|x l IH]; [done|]. apply not_elem_of_cons in Hn as [Hx Hl]. cbn.
  destruct (str_eqb x p) eqn:E; [apply str_eqb_eq in E; congruence|]. cbn. by rewrite IH.
Qed.

Lemma mru_NoDup l : NoDup (mru l).
Proof.
  induction l as [|p l IH]; [constructor|]. cbn. constructor; [apply not_in_filter|].
  apply NoDup_ListNoDup, List.NoDup_filter, NoDup_ListNoDup, IH.
Qed.

(** Cutting a list without repetitions one entry later loses nothing. *)
Lemma take_filter_take p n l :
  NoDup l ->
  take n (List.filter (fun q => negb (str_eqb q p)) (take (S n) l)) =
  take n (List.filter (fun q => negb (str_eqb q p)) l).
Proof.
  revert n. induction l as [|x l IH]; intros n Hd; [done|]. inversion Hd as [|? ? Hx Hl]; subst.
  rewrite firstn_cons. cbn [List.filter]. destruct (str_eqb x p) eqn:E; cbn [negb].
  - apply str_eqb_eq in E as ->. rewrite !filter_absent; [by rewrite take_take, Nat.min_id|done|].
    intros Hin. apply Hx. rewrite <- (take_drop n l). apply elem_of_app. by left.
  - destruct n as [|n]; [done|]. cbn [take]. f_equal. by apply IH.
Qed.

Lemma push_recent_spec p l : forall acc,
  zlen acc <= RECENT_CAP ->
  push_recent p acc l =
    acc ++ take (Z.to_nat (RECENT_CAP - zlen acc)) (List.filter (fun q => negb (str_eqb q p)) l).
Proof.
  unfold RECENT_CAP. induction l as [|x l IH]; intros acc Ha; cbn [push_recent List.filter].
  { by rewrite take_nil, app_nil_r. }
  destruct (str_eqb x p); cbn [negb andb]; [by apply IH|].
  unfold RECENT_CAP. destruct (Z.ltb_spec (zlen acc) 8) as [Hlt|Hge]; cbn [andb].
  - rewrite IH by (rewrite zlen_app; change (zlen [x]) with 1; lia).
    rewrite <- app_assoc, zlen_app. change (zlen [x]) with 1.
    replace (Z.to_nat (8 - zlen acc)) with (S (Z.to_nat (8 - (zlen acc + 1)))) by lia. done.
  - rewrite IH by lia. replace (Z.to_nat (8 - zlen acc)) with O by lia. done.
Qed.

(** One save takes the ring of a history to the ring of the longer one. *)
Lemma push_recent_mru p h :
  push_recent p [p] (take 8 (mru h)) = take 8 (mru (p :: h)).
Proof.
  rewrite push_recent_spec by (unfold RECENT_CAP, zlen; cbn; lia). cbn [mru].
  change (Z.to_nat (RECENT_CAP - zlen [p])) with 7%nat. cbn [app]. rewrite (firstn_cons 7). f_equal.
  apply (take_filter_take p 7), mru_NoDup.
Qed.

Lemma collect_peers_spec entries : forall out,
  NoDup out ->
  NoDup (collect_peers entries out) /\
  (forall a, a ∈ collect_peers entries out <->
             a ∈ out \/ exists raw, raw ∈ entries /\ parse_socket_addr raw = Some a) /\
  exists more, collect_peers entries out = out ++ more /\ sublist more (omap parse_socket_addr entries).
Proof.
  induction entries as [|raw entries IH]; intros out Hd; cbn [collect_peers].
  { split_and!; [done| |exists []; by rewrite app_nil_r].
    intros a. split; [by left|]. intros [?|(raw & Hin & _)]; [done|]. by apply not_elem_of_nil in Hin. }
  destruct (parse_socket_addr raw) as [addr|] eqn:Ep.
  2: { destruct (IH out Hd) as (H1 & H2 & more & H3 & H4).
       split_and!; [done| |exists more; cbn; by rewrite Ep].
       intros a. rewrite H2. setoid_rewrite elem_of_cons. split; intros [?|(r & Hr & Ha)]; eauto.
       destruct Hr as [->|?]; [congruence|eauto]. }
  case_bool_decide as Hin.
  - destruct (IH out Hd) as (H1 & H2 & more & H3 & H4).
    split_and!; [done| |exists more; cbn; rewrite Ep; split; [done|by constructor]].
    intros a. rewrite H2. setoid_rewrite elem_of_cons. split; intros [?|(r & Hr & Ha)]; eauto.
    destruct Hr as [->|?]; [|eauto]. left. congruence.
  - assert (Hd' : NoDup (out ++ [addr])).
    { apply list.NoDup_app. split_and!; [done| |apply NoDup_singleton].
      intros x Hx ->%list_elem_of_singleton. done. }
    destruct (IH _ Hd') as (H1 & H2 & more & H3 & H4).
    split_and!; [done| |exists (addr :: more); cbn; rewrite Ep, H3, <- app_assoc; split; [done|by constructor]].
    intros a. rewrite H2, elem_of_app, list_elem_of_singleton. setoid_rewrite elem_of_cons. split.
    + intros [[?| ->]|(r & Hr & Ha)]; eauto.
    + intros [?|(r & [->|Hr] & Ha)]; [by auto| |by eauto]. left. right. congruence.
Qed.

(** ** Properties *)

(** One save: peer, profile and carrier. *)
Definition saved : Type := str * str * str.

(** The file after some saves, the newest first in the list. *)
Fixpoint after `{Toml} (h : list saved) : file :=
  match h with
  | [] => None
  | (p, pr, c) :: h => save true (after h) p pr c
  end.

(** The peers saved since the carrier last changed, newest first. *)
Fixpoint this_carrier (c : str) (h : list saved) : list str :=
  match h with
  | (p, _, c') :: h => if str_eqb c' c then p :: this_carrier c h else []
  | [] => []
  end.

Lemma load_after `{TomlLaws} h p pr c :
  Forall (fun s : saved => s.2 <> []) ((p, pr, c) :: h) ->
  load (after ((p, pr, c) :: h)) =
    Some (mkLast p pr c (take 8 (mru (this_carrier c ((p, pr, c) :: h))))).
Proof.
  revert p pr c. induction h as [|[[p' pr'] c'] h IH]; intros p pr c Hc;
    inversion Hc as [|? ? Hc1 Hc2]; subst.
  - cbn [after]. unfold save. edestruct toml_roundtrip as (text & -> & Hd). cbn. rewrite Hd. cbn. by rewrite str_eqb_refl.
  - specialize (IH p' pr' c' Hc2). set (older := (p', pr', c') :: h) in *.
    change (after ((p, pr, c) :: older)) with (save true (after older) p pr c). unfold save. rewrite IH.
    edestruct toml_roundtrip as (text & -> & Hd). cbn [load mbind option_bind]. rewrite Hd.
    f_equal. unfold next_connection, carried_over. cbn [carrier recent].
    inversion Hc2 as [|? ? Hc1' _]; subst. cbn [snd] in Hc1'.
    assert (str_eqb c' [] = false) as -> by (destruct (str_eqb c' []) eqn:E; [by apply str_eqb_eq in E|done]).
    unfold older. cbn [orb this_carrier]. rewrite !str_eqb_refl. destruct (str_eqb c' c) eqn:E; [|done].
    apply str_eqb_eq in E as ->. rewrite ?str_eqb_refl, push_recent_mru. done.
Qed.

(** The ring of gateways is a bounded most-recently-used list, per carrier.
    After any sequence of saves the file holds the newest peer and the last
    eight different peers that worked since the carrier changed, newest first;
    reading it back on that carrier offers each address that parses exactly
    once, in that order, and on any other carrier offers nothing. *)
Lemma lastconn_mru `{TomlLaws} h p pr c :
  Forall (fun s : saved => s.2 <> []) ((p, pr, c) :: h) ->
  exists cached,
    load (after ((p, pr, c) :: h)) = Some cached /\ peer cached = p /\ profile cached = pr /\
    recent cached = take 8 (mru (this_carrier c ((p, pr, c) :: h))) /\
    NoDup (usable_peers cached c) /\
    (forall a, a ∈ usable_peers cached c <->
       exists raw, raw ∈ recent cached /\ parse_socket_addr raw = Some a) /\
    sublist (usable_peers cached c) (omap parse_socket_addr (p :: recent cached)) /\
    forall c', c' <> c -> usable_peers cached c' = [].
Proof.
  intros Hc. rewrite load_after by done. eexists. split; [done|]. cbn [peer profile recent].
  split_and!; try done; unfold usable_peers; cbn [carrier peer recent];
    rewrite ?str_eqb_refl; cbn [negb]; rewrite ?andb_false_r;
    set (ring := take 8 _);
    destruct (collect_peers_spec (p :: ring) [] ltac:(constructor)) as (H1 & H2 & more & H3 & H4).
  - done.
  - intros a. rewrite H2. split.
    + intros [Hn|(raw & Hr & Ha)]; [by apply not_elem_of_nil in Hn|]. exists raw. split; [|done].
      apply elem_of_cons in Hr as [->|Hr]; [|done].
      unfold ring. cbn [this_carrier]. rewrite str_eqb_refl. cbn. by apply list_elem_of_here.
    + intros (raw & Hr & Ha). right. exists raw. split; [by apply list_elem_of_further|done].
  - by rewrite H3.
  - intros c' Hne. inversion Hc as [|? ? Hc1 _]; subst. cbn in Hc1.
    destruct (str_eqb c []) eqn:E1; [by apply str_eqb_eq in E1|].
    destruct (str_eqb c c') eqn:E2; [by apply str_eqb_eq in E2|]. done.
Qed.

(** A text format for the witness: the fields, each behind its length. *)
Definition put_field (s : str) : str := zlen s :: s.
Definition get_field (s : str) : str * str :=
  match s with n :: s => (ztake n s, zdrop n s) | [] => ([], []) end.

Fixpoint get_fields (n : nat) (s : str) : list str :=
  match n with O => [] | S n => let '(x, s) := get_field s in x :: get_fields n s end.

Definition lengths : Toml := {|
  encode c := Some (put_field (peer c) ++ put_field (profile c) ++ put_field (carrier c) ++
                    zlen (recent c) :: concat (put_field <$> recent c));
  decode s :=
    let '(p, s) := get_field s in
    let '(pr, s) := get_field s in
    let '(c, s) := get_field s in
    match s with n :: s => Some (mkLast p pr c (get_fields (Z.to_nat n) s)) | [] => None end
|}.

Lemma get_put_field s rest : get_field (put_field s ++ rest) = (s, rest).
Proof. cbn. by rewrite ztake_app_eq, zdrop_app_eq. Qed.

#[local] Instance lengths_laws : @TomlLaws lengths.
Proof.
  split. intros [p pr c r]. eexists. split; [reflexivity|]. cbn [decode lengths peer profile carrier recent].
  rewrite !get_put_field. do 2 f_equal. unfold zlen. rewrite Nat2Z.id.
  rewrite <- (app_nil_r (concat _)). induction r as [|x r IH]; [done|].
  cbn [length get_fields fmap list_fmap concat]. rewrite <- app_assoc, get_put_field. by rewrite IH.
Qed.

Definition sample_history : list saved :=
  [(lit "1.1.1.1:443", [], CARRIER_MASQUE_H3); (lit "1.0.0.1:443", [], CARRIER_MASQUE_H3);
   (lit "1.1.1.1:443", [], CARRIER_MASQUE_H3); (lit "9.9.9.9:500", [], CARRIER_WIREGUARD)].

Lemma lastconn_mru_witness :
  exists cached, @load lengths (@after lengths sample_history) = Some cached /\
    recent cached = [lit "1.1.1.1:443"; lit "1.0.0.1:443"] /\
    NoDup (usable_peers cached CARRIER_MASQUE_H3) /\ usable_peers cached CARRIER_MASQUE_H2 = [].
Proof.
  destruct (@lastconn_mru lengths lengths_laws (tail sample_history) (lit "1.1.1.1:443") [] CARRIER_MASQUE_H3)
    as (cached & Hl & _ & _ & Hr & Hd & _ & _ & Hc).
  { repeat constructor; done. }
  exists cached. split; [exact Hl|]. split; [|split; [done|]].
  - rewrite Hr. vm_compute. done.
  - apply Hc. vm_compute. discriminate.
Defined.
