(* ===== verification/ExitLoc.v ===== *)
(** * Where the tunnel comes out (src/native/aether/aether/src/exitloc.rs)

    The policy on exit countries, the reader of Cloudflare's trace page, and
    the two places that enforce the policy: [settle] when a tunnel comes up and
    [watch] while it lasts.  The network stack is the record [trace_io]: what
    resolving, opening and sending answer, and the chunks then received. *)

From stdpp Require Import base list option.
From Stdlib Require Import ZArith Lia.
From S2P Require Import Prelude RustStr StrFacts Error Net Sysprofile.

Definition TRACE_HOST : str := lit "www.cloudflare.com".
Definition TRACE_PATH : str := lit "/cdn-cgi/trace".
Definition TRACE_PORT : Z := 80.
Definition DEFAULT_INTERVAL_SECS : Z := 60.

Record Policy := mkPolicy { allow : list str; deny : list str; interval : Z (* seconds *) }.

Definition interval_from_env (env : environment) : Z :=
  match (v ← env (lit "AETHER_EXIT_LOC_SECS"); parse_uint u64_max v) with
  | Some v => if 0 <? v then Z.min v 86400 else DEFAULT_INTERVAL_SECS
  | None => DEFAULT_INTERVAL_SECS
  end.

(** The filter on the codes of a list. *)
Definition country_code (c : str) : bool :=
  (zlen (utf8 c) =? 2) && forallb is_ascii_alphabetic c.

Definition policy_parse (env : environment) (raw : str) : option Policy :=
  let spec := trim raw in
  if str_eqb spec [] || eq_ignore_ascii_case spec (lit "any") || eq_ignore_ascii_case spec (lit "off")
  then None
  else
    let negated := starts_with spec (lit "!") in
    let body := trim_start_matches 33 (trim_start_matches 61 (trim_start_matches 33 spec)) in
    let codes :=
      List.filter country_code (map (fun c => to_ascii_uppercase (trim c)) (split 44 body)) in
    match codes with
    | [] => None
    | _ =>
        let '(allow, deny) := if negated then ([], codes) else (codes, []) in
        Some (mkPolicy allow deny (interval_from_env env))
    end.

Definition policy_from_env (env : environment) : option Policy :=
  policy_parse env (default [] (env (lit "AETHER_EXIT_LOC"))).

Definition list_has (l : list str) (s : str) : bool := existsb (str_eqb s) l.

Definition accepts (p : Policy) (loc : str) : bool :=
  let code := to_ascii_uppercase (trim loc) in
  if list_has (deny p) code then false
  else match allow p with [] => true | _ => list_has (allow p) code end.

(** ** The trace page *)

Definition field (body name : str) : option str :=
  let head := name ++ lit "=" in
  value ← hd_error (omap (fun line => strip_prefix line head) (lines body));
  let value := trim value in
  if negb (str_eqb value []) then Some value else None.

Definition parse_trace (body : str) : option str :=
  code ← field body (lit "loc");
  let code := to_ascii_uppercase code in
  if zlen (utf8 code) =? 2 then Some code else None.

Record Exit := mkExit {
  exit_address : option str;
  exit_country : option str;
  exit_colo : option str;
  exit_warp : bool;
  exit_rtt : Z;
}.

Definition parse_exit (body : str) (rtt : Z) : Exit :=
  mkExit (field body (lit "ip")) (parse_trace body) (field body (lit "colo"))
    (bool_decide (field body (lit "warp") = Some (lit "on"))) rtt.

(** What the stack answers to one lookup: the address of the host, the opening
    of the connection, the sending of the request, and the chunks received
    until the connection closes.  [timed_out] is whether the whole of it ran
    into the time limit. *)
Record trace_io := mkIo {
  timed_out : bool;
  resolved : aresult IpAddr;
  opened : SocketAddr -> aresult unit;
  request_sent : list Z -> aresult unit;
  chunks : list (list Z);
}.

Definition TRACE_REQUEST : str :=
  lit "GET " ++ TRACE_PATH ++ lit " HTTP/1.1" ++ [13; 10] ++ lit "Host: " ++ TRACE_HOST ++ [13; 10] ++
  lit "Connection: close" ++ [13; 10] ++ lit "User-Agent: aether" ++ [13; 10; 13; 10].

(** [while let Some(chunk)]: until a location is readable, 8 KiB are passed or
    the connection closes. *)
Fixpoint collect_trace (chunks : list (list Z)) (buf : list Z) : list Z :=
  match chunks with
  | [] => buf
  | chunk :: chunks =>
      let buf := buf ++ chunk in
      if (8192 <? zlen buf) || match parse_trace (from_utf8_lossy buf) with Some _ => true | None => false end
      then buf
      else collect_trace chunks buf
  end.

Definition read_trace (io : trace_io) : aresult str :=
  if timed_out io then Fail (Other (lit "looking up the exit location timed out"))
  else
    ip ← resolved io;
    _ ← opened io (sock ip TRACE_PORT);
    _ ← request_sent io (utf8 TRACE_REQUEST);
    Done (from_utf8_lossy (collect_trace (chunks io) [])).

Definition lookup (io : trace_io) : aresult str :=
  body ← read_trace io;
  ok_or (Other (lit "the trace answer carried no location")) (parse_trace body).

Definition trace_through (io : trace_io) (rtt : Z) : aresult (str * Z) :=
  body ← read_trace io;
  Done (body, rtt).

(** [report] logs and turns an error into [None]. *)
Definition report (io : trace_io) (rtt : Z) : outcome AetherError (option Exit) :=
  match trace_through io rtt with
  | Done (body, rtt) => Done (Some (parse_exit body rtt))
  | Fail _ => Done None
  | Panic => Panic
  | Diverge => Diverge
  end.

Definition UNREADABLE : AetherError :=
  Other (lit "the exit location could not be read, so the policy cannot be honoured").
Definition REJECTED (loc : str) : AetherError :=
  Other (lit "exit location " ++ loc ++ lit " does not satisfy the requested policy").

(** With no policy the report runs on its own and its outcome is not awaited. *)
Definition settle (io : trace_io) (rtt : Z) (policy : option Policy) : aresult unit :=
  match policy with
  | None => Done tt
  | Some policy =>
      exit ← report io rtt;
      match exit with
      | None => Fail UNREADABLE
      | Some exit =>
          let loc := default [] (exit_country exit) in
          if accepts policy loc then Done tt else Fail (REJECTED loc)
      end
  end.

(** [watch], one lookup per interval; [Diverge] is a watch that goes on. *)
Fixpoint watch (lookups : list trace_io) (policy : Policy) : outcome unit AetherError :=
  match lookups with
  | [] => Diverge
  | io :: lookups =>
      match lookup io with
      | Done loc =>
          if accepts policy loc then watch lookups policy
          else Done (Other (lit "exit location changed to " ++ loc))
      | Fail _ => watch lookups policy
      | Panic => Panic
      | Diverge => Diverge
      end
  end.

(** ** Facts *)

Lemma ascii_case x y : ascii_upper x = ascii_upper y <-> ascii_lower x = ascii_lower y.
Proof.
  unfold ascii_upper, ascii_lower, is_ascii_lower, is_ascii_upper. repeat dest_if; bool_lia.
Qed.

(** Upper case compares as lower case does. *)
Lemma to_ascii_case a b :
  str_eqb (to_ascii_uppercase a) (to_ascii_uppercase b) = eq_ignore_ascii_case a b.
Proof.
  unfold eq_ignore_ascii_case, str_eqb. apply bool_decide_ext. revert b.
  induction a as [|x a IH]; intros [|y b]; cbn; try done.
  pose proof (ascii_case x y). specialize (IH b). unfold to_ascii_uppercase, to_ascii_lowercase in IH.
  split; intros [= E1 E2]; f_equal; tauto.
Qed.

Lemma list_has_case codes loc :
  list_has (map to_ascii_uppercase codes) (to_ascii_uppercase loc) =
  existsb (fun c => eq_ignore_ascii_case loc c) codes.
Proof.
  unfold list_has. induction codes as [|c codes IH]; [done|]. cbn. by rewrite to_ascii_case, IH.
Qed.

(** Two letters. *)
Definition two_letters (c : str) : Prop :=
  exists a b, c = [a; b] /\ is_ascii_alphabetic a = true /\ is_ascii_alphabetic b = true.

Lemma letter_facts a :
  is_ascii_alphabetic a = true ->
  65 <= a <= 122 /\ is_whitespace a = false /\ is_ascii_alphabetic (ascii_upper a) = true.
Proof.
  unfold is_ascii_alphabetic, is_ascii_upper, is_ascii_lower, is_whitespace, ascii_upper, is_ascii_lower.
  intros Ha. split; [lia|]. split; [lia|]. dest_if; lia.
Qed.

Lemma two_letters_trim c : two_letters c -> trim c = c.
Proof.
  intros (a & b & -> & Ha & Hb). destruct (letter_facts a Ha) as (_ & Ha' & _), (letter_facts b Hb) as (_ & Hb' & _).
  unfold trim. rewrite trim_start_id by done. by rewrite trim_end_id.
Qed.

Lemma two_letters_code c : two_letters c -> country_code (to_ascii_uppercase c) = true.
Proof.
  intros (a & b & -> & Ha & Hb).
  destruct (letter_facts a Ha) as (Ha1 & _ & Ha2), (letter_facts b Hb) as (Hb1 & _ & Hb2).
  unfold country_code, to_ascii_uppercase. cbn [map forallb]. rewrite Ha2, Hb2.
  assert (forall x, is_ascii_alphabetic x = true -> 0 <= x < 128) as Hr
    by (intros x Hx; destruct (letter_facts x Hx); lia).
  rewrite utf8_ascii by (repeat constructor; by apply Hr). done.
Qed.

(** A list of codes begins and ends with a letter, and its length is not that
    of a keyword. *)
Lemma join_shape codes :
  codes <> [] -> Forall two_letters codes ->
  exists a m b, intercalate [44] codes = a :: m ++ [b] /\
    is_ascii_alphabetic a = true /\ is_ascii_alphabetic b = true /\ (length m `mod` 3 = 0)%nat.
Proof.
  intros Hne. induction codes as [|c codes IH]; intros Hf; [done|]. inversion Hf as [|? ? Hc Hcs]; subst.
  destruct Hc as (a & b & -> & Ha & Hb). destruct codes as [|c' codes].
  { exists a, [], b. done. }
  destruct (IH ltac:(done) Hcs) as (a' & m & b' & E & Ha' & Hb' & Hm).
  exists a, (b :: 44 :: a' :: m), b'. split; [|split_and!; try done].
  - change (intercalate [44] ([a; b] :: c' :: codes)) with ([a; b] ++ [44] ++ intercalate [44] (c' :: codes)).
    by rewrite E.
  - cbn [length]. replace (S (S (S (length m)))) with (length m + 1 * 3)%nat by lia.
    by rewrite Nat.Div0.mod_add.
Qed.

Lemma split_join codes :
  codes <> [] -> Forall two_letters codes -> split 44 (intercalate [44] codes) = codes.
Proof.
  intros Hne. induction codes as [|c codes IH]; intros Hf; [done|]. inversion Hf as [|? ? Hc Hcs]; subst.
  assert (Hn : 44 ∉ c).
  { destruct Hc as (a & b & -> & Ha & Hb). destruct (letter_facts a Ha), (letter_facts b Hb).
    rewrite !elem_of_cons. intros [?|[?|?%not_elem_of_nil]]; lia || done. }
  destruct codes as [|c' codes]; [by apply split_none|].
  change (intercalate [44] (c :: c' :: codes)) with (c ++ 44 :: intercalate [44] (c' :: codes)).
  unfold split. rewrite split_by_sep by done. fold (split 44 c). fold (split 44 (intercalate [44] (c' :: codes))).
  rewrite split_none, IH by done. done.
Qed.

Lemma codes_of codes :
  Forall two_letters codes ->
  List.filter country_code (map (fun c => to_ascii_uppercase (trim c)) codes) = map to_ascii_uppercase codes.
Proof.
  induction 1 as [|c codes Hc Hcs IH]; [done|]. cbn. rewrite two_letters_trim, two_letters_code by done.
  by rewrite IH.
Qed.

Lemma trim_matches_hit c l : trim_start_matches c (c :: l) = trim_start_matches c l.
Proof. unfold trim_start_matches. cbn [trim_start_by]. by rewrite Z.eqb_refl. Qed.

Lemma trim_matches_miss c x l : (c =? x) = false -> trim_start_matches c (x :: l) = x :: l.
Proof. unfold trim_start_matches. cbn [trim_start_by]. by intros ->. Qed.

Lemma policy_parse_list env (negated eq : bool) codes :
  codes <> [] -> Forall two_letters codes ->
  policy_parse env ((if negated then [33] else []) ++ (if eq then [61] else []) ++ intercalate [44] codes) =
  Some (mkPolicy (if negated then [] else map to_ascii_uppercase codes)
                 (if negated then map to_ascii_uppercase codes else []) (interval_from_env env)).
Proof.
  intros Hne Hf. destruct (join_shape codes Hne Hf) as (a & m & b & E & Ha & Hb & Hm).
  destruct (letter_facts a Ha) as (Ha1 & Ha2 & _), (letter_facts b Hb) as (Hb1 & Hb2 & _).
  pose proof (split_join codes Hne Hf) as Hs. rewrite E in Hs |- *.
  set (spec := _ ++ _ ++ a :: m ++ [b]).
  assert (Ht : trim spec = spec).
  { unfold trim, spec. rewrite trim_start_id by (by destruct negated, eq). apply trim_end_id.
    rewrite !rev_app_distr. cbn [rev]. rewrite !rev_app_distr. by destruct negated, eq. }
  assert (Hkey : str_eqb spec [] || eq_ignore_ascii_case spec (lit "any") ||
                 eq_ignore_ascii_case spec (lit "off") = false).
  { assert (Hkw : forall x y z, 97 <= x -> eq_ignore_ascii_case spec [x; y; z] = false).
    { intros x y z Hx. destruct (eq_ignore_ascii_case spec [x; y; z]) eqn:Eq; [|done]. exfalso.
      apply str_eqb_eq in Eq. assert (ascii_lower x = x) as Hlx
        by (unfold ascii_lower, is_ascii_upper; dest_if; bool_lia).
      unfold spec in Eq. destruct negated, eq; cbn in Eq; rewrite Hlx in Eq;
        try (injection Eq as E1 _; vm_compute in E1; lia).
      apply (f_equal length) in Eq. unfold to_ascii_lowercase in Eq.
      cbn [length map] in Eq. rewrite length_map, length_app in Eq. cbn [length] in Eq.
      assert (length m = 1)%nat as Hm1 by lia. by rewrite Hm1 in Hm. }
    change (lit "any") with [97; 110; 121]. change (lit "off") with [111; 102; 102].
    rewrite !Hkw by lia. unfold spec. by destruct negated, eq. }
  unfold policy_parse. rewrite Ht, Hkey. cbn zeta iota.
  assert (Hbody : trim_start_matches 33 (trim_start_matches 61 (trim_start_matches 33 spec)) = a :: m ++ [b]).
  { assert (H33 : (33 =? a) = false) by lia. assert (H61 : (61 =? a) = false) by lia.
    unfold spec. destruct negated, eq; cbn [app];
      rewrite ?(trim_matches_hit 33), ?(trim_matches_miss 33 61), ?(trim_matches_hit 61),
        ?(trim_matches_miss 33 a), ?(trim_matches_miss 61 a), ?(trim_matches_miss 33 a) by done;
      done. }
  rewrite Hbody, Hs, codes_of by done.
  assert (Hneg : starts_with spec (lit "!") = negated).
  { unfold spec. change (lit "!") with [33]. destruct negated; [by destruct eq|].
    destruct eq; [done|]. cbn [app]. rewrite starts_with_one. lia. }
  rewrite Hneg. destruct codes; [done|]. by destruct negated.
Qed.

(** ** Properties *)

(** Which exits a list of codes admits. *)
Definition admits_exit (negated : bool) (codes : list str) (loc : str) : bool :=
  xorb negated (existsb (fun c => eq_ignore_ascii_case (trim loc) c) codes).

Lemma accepts_list env (negated : bool) codes loc :
  codes <> [] ->
  accepts (mkPolicy (if negated then [] else map to_ascii_uppercase codes)
             (if negated then map to_ascii_uppercase codes else []) (interval_from_env env)) loc =
  admits_exit negated codes loc.
Proof.
  intros Hne. unfold accepts, admits_exit. cbn [allow deny]. rewrite <- list_has_case.
  destruct negated; cbn [xorb].
  - by destruct (list_has (map to_ascii_uppercase codes) (to_ascii_uppercase (trim loc))).
  - destruct codes as [|c codes]; [done|]. change (list_has [] _) with false. done.
Qed.

(** A watch passes over failed lookups and accepted exits. *)
Definition still_fine (policy : Policy) (io : trace_io) : Prop :=
  match lookup io with Done loc => accepts policy loc = true | Fail _ => True | _ => False end.

Lemma watch_skips policy pre rest :
  Forall (still_fine policy) pre -> watch (pre ++ rest) policy = watch rest policy.
Proof.
  induction 1 as [|io pre Hio Hpre IH]; [done|]. cbn. unfold still_fine in Hio.
  destruct (lookup io); try done. by rewrite Hio.
Qed.

Lemma collect_trace_prefix cs : forall buf, exists k, collect_trace cs buf = buf ++ concat (take k cs).
Proof.
  induction cs as [|c cs IH]; intros buf; cbn [collect_trace].
  { exists O. by rewrite app_nil_r. }
  dest_if.
  - exists 1%nat. cbn. by rewrite take_0, app_nil_r.
  - destruct (IH (buf ++ c)) as [k ->]. exists (S k). cbn. by rewrite <- app_assoc.
Qed.

(** No list of allowed countries names the empty code. *)
Lemma admits_nowhere codes : Forall two_letters codes -> admits_exit false codes [] = false.
Proof.
  unfold admits_exit. induction 1 as [|c codes (a & b & -> & _) _ IH]; [done|]. cbn in *. done.
Qed.

(** C40: an exit policy does what its text says and is enforced.  A list of
    two-letter codes, plain or after [=], admits exactly the exits it names, in
    any case; after [!] or [!=] exactly the others.  With a policy, a tunnel
    whose trace page names a location settles exactly when that location is
    admitted; one whose page could not be read does not settle; and a list of
    allowed countries refuses a page that names no location.  (A list of
    forbidden ones lets that page pass: [unknown_location_passes_deny_list].)
    A tunnel being watched is given up at the first lookup whose location is
    not admitted, however many failed before.  What is read of the page is a
    beginning of what was received. *)
Theorem exit_policy_enforced env (negated eq : bool) codes :
  codes <> [] -> Forall two_letters codes ->
  exists policy,
    policy_parse env ((if negated then lit "!" else []) ++ (if eq then lit "=" else []) ++
                      intercalate (lit ",") codes) = Some policy /\
    (forall loc, accepts policy loc = admits_exit negated codes loc) /\
    (forall io rtt body loc, read_trace io = Done body -> parse_trace body = Some loc ->
       settle io rtt (Some policy) =
       if admits_exit negated codes loc then Done tt else Fail (REJECTED loc)) /\
    (forall io rtt e, read_trace io = Fail e -> settle io rtt (Some policy) = Fail UNREADABLE) /\
    (forall io rtt body, negated = false -> read_trace io = Done body -> parse_trace body = None ->
       settle io rtt (Some policy) = Fail (REJECTED [])) /\
    (forall pre io post loc,
       Forall (still_fine policy) pre -> lookup io = Done loc ->
       watch (pre ++ io :: post) policy =
       if admits_exit negated codes loc then watch post policy
       else Done (Other (lit "exit location changed to " ++ loc))) /\
    (forall io body, read_trace io = Done body ->
       exists k, body = from_utf8_lossy (concat (take k (chunks io)))).
Proof.
  intros Hne Hf. eexists. split; [by apply policy_parse_list|].
  assert (Hset : forall io rtt body, read_trace io = Done body ->
    settle io rtt (Some (mkPolicy (if negated then [] else map to_ascii_uppercase codes)
             (if negated then map to_ascii_uppercase codes else []) (interval_from_env env))) =
    let loc := default [] (parse_trace body) in
    if admits_exit negated codes loc then Done tt else Fail (REJECTED loc)).
  { intros io rtt body E. unfold settle, report, trace_through. rewrite E. cbn [mbind outcome_bind].
    cbn [exit_country parse_exit]. by rewrite accepts_list. }
  split; [intros; by apply accepts_list|]. split_and!.
  - intros io rtt body loc E El. rewrite (Hset io rtt body E), El. done.
  - intros io rtt e E. unfold settle, report, trace_through. by rewrite E.
  - intros io rtt body -> E El. rewrite (Hset io rtt body E), El. cbv zeta. cbn [default].
    by rewrite admits_nowhere.
  - intros pre io post loc Hp Hl. rewrite watch_skips by done. cbn [watch]. rewrite Hl, accepts_list by done.
    done.
  - intros io body. unfold read_trace. destruct (timed_out io); [done|].
    destruct (resolved io); try done. cbn [mbind outcome_bind].
    destruct (opened io _); try done. cbn [mbind outcome_bind].
    destruct (request_sent io _); try done. cbn [mbind outcome_bind]. intros [= <-].
    destruct (collect_trace_prefix (chunks io) []) as [k ->]. by exists k.
Qed.

(** A trace page in two chunks, cut inside the location line. *)
Definition sample_page : trace_io :=
  mkIo false (Done (V4 [104; 16; 0; 1])) (fun _ => Done tt) (fun _ => Done tt)
    [lit "ip=1.2.3.4" ++ [10] ++ lit "colo=FRA" ++ [10] ++ lit "loc=I"; lit "R" ++ [10] ++ lit "warp=on"].

Lemma exit_policy_enforced_witness :
  exists policy, policy_parse (fun _ => None) (lit "!=IR,az") = Some policy /\
    settle sample_page 5 (Some policy) = Fail (REJECTED (lit "IR")).
Proof.
  destruct (exit_policy_enforced (fun _ => None) true true [lit "IR"; lit "az"]) as (policy & Hp & _ & Hs & _).
  - done.
  - repeat constructor; [by exists 73, 82 | by exists 97, 122].
  - exists policy. split; [exact Hp|]. rewrite (Hs sample_page 5 _ (lit "IR") eq_refl); vm_compute; done.
Defined.

(** A page without a location passes a list of forbidden countries, although
    [lookup] calls the same page an error. *)
Definition page_without_location : trace_io :=
  mkIo false (Done (V4 [104; 16; 0; 1])) (fun _ => Done tt) (fun _ => Done tt) [lit "colo=FRA" ++ [10]].

Example unknown_location_passes_deny_list :
  settle page_without_location 5 (policy_parse (fun _ => None) (lit "!IR")) = Done tt /\
  lookup page_without_location = Fail (Other (lit "the trace answer carried no location")).
Proof. split; vm_compute; done. Qed.
