(* ===== verification/ApiFront.v ===== *)
(** * The camouflaged route to the account API (src/native/aether/aether/src/apifront.rs)

    Requests are written and responses read by hand over a TLS stream whose
    handshake is shaped; [fetch] tries every fingerprint on every address.  The
    TLS library and the sockets are not modelled: [exchange] gets what the
    connection and the handshake answer, and the bytes read. *)

From stdpp Require Import base list option.
From Stdlib Require Import ZArith Lia.
From S2P Require Import Prelude Rand RustStr StrFacts Error Net Sysprofile Fragment.

Definition EDGE_PREFIX : list Z := [141; 101; 113].
Definition EDGE_SAMPLES : Z := 3.
Definition RESOLVED_SAMPLES : nat := 2.
Definition MAX_BODY : Z := 512 * 1024.

Inductive Fingerprint := SplitLegacy | SplitModern | Modern | ChromeLike.

#[global] Instance Fingerprint_eq_dec : EqDecision Fingerprint.
Proof. solve_decision. Defined.

Definition label (f : Fingerprint) : str :=
  match f with
  | SplitLegacy => lit "split-tls12"
  | SplitModern => lit "split-tls13"
  | Modern => lit "plain-tls13"
  | ChromeLike => lit "chrome"
  end.

Definition all_fingerprints : list Fingerprint := [SplitLegacy; SplitModern; Modern; ChromeLike].

Definition fragments (f : Fingerprint) : FragmentConfig :=
  match f with
  | SplitLegacy | SplitModern => mkConfig true 24 48 2 8 true
  | _ => disabled
  end.

Record ApiRequest := mkRequest {
  method : str;
  host : str;
  path : str;
  headers : list (str * str);
  body : option (list Z);
}.

Record ApiResponse := mkResponse { status : Z; text : str; route : SocketAddr * Fingerprint }.

(** ** Addresses *)

Definition random_edge_address {R} `{Rng R} (r : R) : opt (SocketAddr * R) :=
  '(host, r) ← pick r 1 254;
  Done (sock (V4 (EDGE_PREFIX ++ [host])) 443, r).

(** [while list.len() < EDGE_SAMPLES]; [fuel] bounds the draws. *)
Fixpoint edge_samples {R} `{Rng R} (fuel : nat) (r : R) (l : list SocketAddr) : opt (list SocketAddr * R) :=
  if EDGE_SAMPLES <=? zlen l then Done (l, r)
  else
    match fuel with
    | O => Diverge
    | S fuel =>
        '(candidate, r) ← random_edge_address r;
        edge_samples fuel r (if bool_decide (candidate ∈ l) then l else l ++ [candidate])
    end.

Definition is_ipv4 (a : SocketAddr) : bool := match sock_ip a with V4 _ => true | V6 _ => false end.

Definition add_resolved (l : list SocketAddr) (a : SocketAddr) : list SocketAddr :=
  if bool_decide (a ∈ l) then l else l ++ [a].

(** [resolved] is the answer of the system's resolver. *)
Definition candidates {R} `{Rng R} (fuel : nat) (r : R) (resolved : option (list SocketAddr))
  : opt (list SocketAddr * R) :=
  '(l, r) ← edge_samples fuel r [];
  Done (match resolved with
        | Some found => fold_left add_resolved (take RESOLVED_SAMPLES (List.filter is_ipv4 found)) l
        | None => l
        end, r).

(** ** Requests *)

Definition line_end : str := [13; 10].

Definition render_request (q : ApiRequest) : list Z :=
  let head :=
    method q ++ lit " " ++ path q ++ lit " HTTP/1.1" ++ line_end ++
    lit "Host: " ++ host q ++ line_end ++
    concat ((fun h : str * str => h.1 ++ lit ": " ++ h.2 ++ line_end) <$> headers q) ++
    lit "Accept-Encoding: identity" ++ line_end ++
    lit "Content-Length: " ++ show_uint (match body q with Some b => zlen b | None => 0 end) ++ line_end ++
    lit "Connection: close" ++ line_end ++ line_end in
  utf8 head ++ default [] (body q).

(** ** Responses *)

(** [windows(n).position(..)] *)
Fixpoint find_sub (pat l : list Z) : option Z :=
  match l with
  | [] => None
  | _ :: rest =>
      if starts_with l pat then Some 0
      else match find_sub pat rest with Some i => Some (1 + i) | None => None end
  end.

Fixpoint dechunk_loop (fuel : nat) (b : list Z) (cursor : Z) (out : list Z) : opt (list Z) :=
  match fuel with
  | O => Diverge
  | S fuel =>
      if cursor <? zlen b then
        rest ← slice b cursor (zlen b);
        match find_sub line_end rest with
        | None => Done out
        | Some offset =>
            let line_end_ := cursor + offset in
            line ← slice b cursor line_end_;
            let token := trim (default [] (hd_error (split 59 (from_utf8_lossy line)))) in
            match from_str_radix 16 u64_max token with
            | None | Some 0 => Done out
            | Some size =>
                let start := line_end_ + 2 in
                match checked_add start size with
                | Some end_ =>
                    if end_ <=? zlen b then
                      chunk ← slice b start end_;
                      dechunk_loop fuel b (end_ + 2) (out ++ chunk)
                    else Done out
                | None => Done out
                end
            end
        end
      else Done out
  end.

(** A turn moves the cursor by more than one byte. *)
Definition dechunk (b : list Z) : opt (list Z) := dechunk_loop (S (length b)) b 0 [].

Definition truncated : AetherError := Api (lit "truncated response head").
Definition bad_status (line : str) : AetherError := Api (lit "bad status line: " ++ line).

Definition is_chunked `{UnicodeData} (line : str) : bool :=
  let lowered := to_lowercase line in
  starts_with lowered (lit "transfer-encoding:") && contains lowered (lit "chunked").

Definition parse_response `{UnicodeData} (raw : list Z) : aresult (Z * str) :=
  match find_sub [13; 10; 13; 10] raw with
  | None => Fail truncated
  | Some at_ =>
      head ← slice raw 0 at_;
      b ← slice raw (at_ + 4) (zlen raw);
      match split_crlf (from_utf8_lossy head) with
      | [] => Fail (Api (lit "empty response"))
      | status_line :: lines =>
          match (word ← split_whitespace status_line !! 1%nat; parse_uint u16_max word) with
          | None => Fail (bad_status status_line)
          | Some status =>
              if existsb is_chunked lines then
                match dechunk b with
                | Done b => Done (status, from_utf8_lossy b)
                | Fail _ | Panic => Panic
                | Diverge => Diverge
                end
              else Done (status, from_utf8_lossy b)
          end
      end
  end.

(** The loop of reads: until the end of the stream or past the limit. *)
Fixpoint read_body (chunks : list (list Z)) (buffer : list Z) : list Z :=
  match chunks with
  | [] | [] :: _ => buffer
  | chunk :: chunks =>
      let buffer := buffer ++ chunk in
      if MAX_BODY <? zlen buffer then buffer else read_body chunks buffer
  end.

(** What the outside does with one attempt. *)
Record attempt := mkAttempt {
  established : aresult unit;          (* connection, handshake and its protocol *)
  exchanged : list Z -> aresult (list (list Z));   (* the reads after a request *)
}.

Definition exchange `{UnicodeData} (net : SocketAddr -> Fingerprint -> attempt) (q : ApiRequest)
  (address : SocketAddr) (f : Fingerprint) : aresult ApiResponse :=
  let a := net address f in
  _ ← established a;
  chunks ← exchanged a (render_request q);
  '(status, text) ← parse_response (read_body chunks []);
  Done (mkResponse status text (address, f)).

(** ** Trying every route *)

Definition success (r : ApiResponse) : bool := (200 <=? status r) && (status r <? 300).

Fixpoint fetch_loop `{UnicodeData} (net : SocketAddr -> Fingerprint -> attempt) (q : ApiRequest)
  (routes : list (Fingerprint * SocketAddr)) (rejection : option ApiResponse)
  (failure : option AetherError) : aresult ApiResponse :=
  match routes with
  | [] =>
      match rejection with
      | Some r => Done r
      | None => Fail (default (Api (lit "every camouflaged route failed")) failure)
      end
  | (f, address) :: routes =>
      match exchange net q address f with
      | Done r =>
          if success r then Done r
          else
            fetch_loop net q routes
              (match rejection with
               | None => Some r
               | Some _ => if negb (status r =? 403) then Some r else rejection
               end) failure
      | Fail e => fetch_loop net q routes rejection (Some e)
      | Panic => Panic
      | Diverge => Diverge
      end
  end.

(** The order of the two loops. *)
Definition all_routes (addresses : list SocketAddr) : list (Fingerprint * SocketAddr) :=
  flat_map (fun f => (fun a => (f, a)) <$> addresses) all_fingerprints.

Definition fetch `{UnicodeData} (net : SocketAddr -> Fingerprint -> attempt) (q : ApiRequest)
  (addresses : list SocketAddr) : aresult ApiResponse :=
  match addresses with
  | [] => Fail (Api (lit "no camouflaged route to the api was available"))
  | _ => fetch_loop net q (all_routes addresses) None None
  end.

(** ** Facts *)

Lemma find_sub_bound pat l i :
  find_sub pat l = Some i -> 0 <= i /\ i + zlen pat <= zlen l.
Proof.
  revert i. induction l as [|x l IH]; intros i; cbn [find_sub]; [done|].
  destruct (starts_with (x :: l) pat) eqn:Hs.
  - intros [= <-]. split; [lia|]. clear IH. revert Hs. generalize (x :: l). clear.
    induction pat as [|p pat IH]; intros l Hs; [change (0 + 0 <= zlen l); pose proof (zlen_nonneg l); lia|].
    destruct l as [|c l]; [done|]. cbn [starts_with] in Hs. apply andb_prop in Hs as [_ Hs].
    apply IH in Hs. rewrite !zlen_cons. lia.
  - destruct (find_sub pat l) as [j|]; [|done]. intros [= <-]. rewrite zlen_cons.
    destruct (IH j eq_refl). lia.
Qed.

Lemma dechunk_total fuel b cursor out :
  0 <= cursor -> zlen b - cursor < Z.of_nat fuel -> (0 < fuel)%nat ->
  wp (dechunk_loop fuel b cursor out)
     (fun out' => zlen out' <= zlen out + Z.max 0 (zlen b - cursor)) (fun _ => False).
Proof.
  revert cursor out. induction fuel as [|fuel IH]; intros cursor out Hc Hf Hpos; [lia|]. cbn [dechunk_loop].
  destruct (Z.ltb_spec cursor (zlen b)) as [Hlt|]; [|cbn; lia].
  apply wp_bind, wp_slice; [lia|lia|]. destruct (find_sub line_end (zsub b cursor (zlen b))) as [off|] eqn:Ef;
    [|cbn; lia].
  apply find_sub_bound in Ef. rewrite zlen_zsub in Ef by lia. change (zlen line_end) with 2 in Ef.
  apply wp_bind, wp_slice; [lia|lia|].
  destruct (from_str_radix 16 u64_max _) as [size|] eqn:Er; [|cbn; lia].
  pose proof (from_str_radix_range 16 u64_max _ size ltac:(lia) Er) as Hsize.
  destruct size as [|size|size]; [cbn; lia| |lia].
  unfold checked_add. dest_if; [|cbn; lia]. dest_if; [|cbn; lia].
  apply wp_bind, wp_slice; [lia|lia|].
  eapply wp_mono; [apply IH; lia| |done]. cbn. intros out'. rewrite zlen_app, zlen_zsub by lia. lia.
Qed.

(** A chunk on the wire: its size in hexadecimal, its bytes, and line ends. *)
Definition chunk_frame (c : list Z) : list Z := show_hex (zlen c) ++ line_end ++ c ++ line_end.

Lemma hex_digit_value d : 0 <= d < 16 -> digit_value 16 (hex_digit d) = Some d.
Proof.
  intros Hd. destruct d as [|p|p]; [done| |lia]. do 5 (destruct p as [p|p|]; try lia; try done).
Qed.

Lemma hex_digits_value fuel n :
  0 <= n < 16 ^ Z.of_nat fuel -> digits_value 16 0 (hex_digits fuel n) = Some n.
Proof.
  revert n. induction fuel as [|f IH]; intros n Hn; [cbn in *; do 2 f_equal; lia|].
  rewrite Nat2Z.inj_succ, Z.pow_succ_r in Hn by lia.
  cbn [hex_digits]. destruct (Z.ltb_spec n 16) as [|Hge].
  - cbn [digits_value]. rewrite hex_digit_value by lia. f_equal.
  - rewrite digits_value_app, IH by (Z.div_mod_to_equations; lia).
    cbn [digits_value]. rewrite hex_digit_value by (Z.div_mod_to_equations; lia).
    f_equal. Z.div_mod_to_equations. lia.
Qed.

(** What the digits are: letters and digits, so no sign, space, semicolon or
    line end. *)
Definition hex_char (c : Z) : Prop := 48 <= c <= 57 \/ 97 <= c <= 102.

Lemma hex_digits_chars fuel n : 0 <= n -> Forall hex_char (hex_digits fuel n).
Proof.
  revert n. induction fuel as [|f IH]; intros n Hn; [constructor|]. cbn [hex_digits].
  assert (Hd : forall d, 0 <= d < 16 -> hex_char (hex_digit d))
    by (intros d Hd; unfold hex_char, hex_digit; dest_if; bool_lia).
  dest_if; [apply Forall_singleton, Hd; bool_lia|].
  apply Forall_app. split; [apply IH; Z.div_mod_to_equations; lia|].
  apply Forall_singleton, Hd. Z.div_mod_to_equations. lia.
Qed.

Lemma hex_digits_nonempty fuel n : hex_digits (S fuel) n <> [].
Proof. cbn. dest_if; [done|]. by destruct (hex_digits fuel (n / 16)). Qed.

Lemma read_size n :
  0 <= n <= u64_max ->
  from_str_radix 16 u64_max (trim (default [] (hd_error (split 59 (from_utf8_lossy (show_hex n)))))) = Some n.
Proof.
  intros Hn. pose proof (hex_digits_chars 16 n ltac:(lia)) as Hc.
  pose proof (hex_digits_nonempty 15 n) as Hne. fold (show_hex n) in Hc, Hne.
  pose proof (hex_digits_value 16 n ltac:(cbn; unfold u64_max in *; lia)) as Hv. fold (show_hex n) in Hv.
  assert (Hasc : Forall (fun c => 0 <= c < 128) (show_hex n))
    by (eapply List.Forall_impl; [|exact Hc]; unfold hex_char; cbn; lia).
  rewrite <- (utf8_ascii (show_hex n)) at 1 by done.
  rewrite from_utf8_lossy_utf8 by (eapply List.Forall_impl; [|exact Hasc]; unfold is_scalar; cbn; lia).
  rewrite split_none.
  2: { intros Hin. rewrite list.Forall_forall in Hc. specialize (Hc _ Hin). unfold hex_char in Hc. lia. }
  change (default [] (hd_error [show_hex n])) with (show_hex n).
  assert (Hws : Forall (fun c => is_whitespace c = false) (show_hex n))
    by (eapply List.Forall_impl; [|exact Hc]; unfold hex_char, is_whitespace; cbn; lia).
  assert (Ht : trim (show_hex n) = show_hex n).
  { unfold trim. rewrite trim_start_id by (by destruct Hws). apply trim_end_id.
    assert (Hr : Forall (fun c => is_whitespace c = false) (rev (show_hex n))) by (by apply Forall_rev).
    by destruct Hr. }
  rewrite Ht. unfold from_str_radix.
  destruct (show_hex n) as [|c r] eqn:E; [done|].
  assert (Hs : match c :: r with 43 :: r' => r' | _ => c :: r end = c :: r).
  { inversion Hc as [|? ? Hcc _]; subst. unfold hex_char in Hcc.
    destruct c as [|p|p]; try done. do 7 (destruct p as [p|p|]; try done; try lia). }
  rewrite Hs, Hv. destruct (Z.leb_spec n u64_max); [done|lia].
Qed.

Lemma find_line_end l rest :
  Forall hex_char l -> find_sub line_end (l ++ line_end ++ rest) = Some (zlen l).
Proof.
  induction 1 as [|c l Hc Hl IH]; [by destruct rest|]. cbn [app find_sub].
  assert (starts_with (c :: l ++ line_end ++ rest) line_end = false) as ->.
  { change (starts_with (c :: l ++ line_end ++ rest) line_end)
      with ((13 =? c) && starts_with (l ++ line_end ++ rest) [10]).
    unfold hex_char in Hc. by rewrite (proj2 (Z.eqb_neq 13 c)) by lia. }
  rewrite IH. f_equal. rewrite zlen_cons. done.
Qed.

(** One chunk is read and skipped. *)
Lemma dechunk_chunk fuel pre c rest out :
  c <> [] -> zlen (pre ++ chunk_frame c ++ rest) <= u64_max ->
  dechunk_loop (S fuel) (pre ++ chunk_frame c ++ rest) (zlen pre) out =
  dechunk_loop fuel (pre ++ chunk_frame c ++ rest) (zlen (pre ++ chunk_frame c)) (out ++ c).
Proof.
  intros Hne Hmax. set (b := pre ++ chunk_frame c ++ rest) in *. cbn [dechunk_loop].
  set (h := show_hex (zlen c)).
  assert (Hb : b = pre ++ h ++ line_end ++ c ++ line_end ++ rest)
    by (unfold b, chunk_frame; by rewrite <- !app_assoc).
  assert (Hlen : zlen b = zlen pre + zlen h + 2 + zlen c + 2 + zlen rest)
    by (rewrite Hb, !zlen_app; change (zlen line_end) with 2; lia).
  pose proof (zlen_nonneg pre). pose proof (zlen_nonneg h). pose proof (zlen_nonneg rest).
  assert (0 < zlen c) by (destruct c; [done|rewrite zlen_cons; pose proof (zlen_nonneg c); lia]).
  rewrite (proj2 (Z.ltb_lt (zlen pre) (zlen b))) by lia.
  assert (Hrest : @slice unit Z b (zlen pre) (zlen b) = Done (h ++ line_end ++ c ++ line_end ++ rest)).
  { rewrite Hb at 1. rewrite <- (app_nil_r (h ++ line_end ++ c ++ line_end ++ rest)) at 1.
    apply slice_app_mid; [done|]. rewrite Hlen, !zlen_app. change (zlen line_end) with 2. lia. }
  rewrite Hrest. cbn [mbind outcome_bind]. rewrite find_line_end by (apply hex_digits_chars; lia).
  assert (Hline : @slice unit Z b (zlen pre) (zlen pre + zlen h) = Done h)
    by (rewrite Hb; by apply slice_app_mid).
  rewrite Hline. cbn [mbind outcome_bind]. unfold h. rewrite read_size by lia. fold h.
  destruct (zlen c) as [|n|n] eqn:En; [lia| |lia]. rewrite <- En.
  unfold checked_add. rewrite (proj2 (Z.leb_le _ u64_max)) by lia.
  rewrite (proj2 (Z.leb_le _ (zlen b))) by lia.
  assert (Hchunk : @slice unit Z b (zlen pre + zlen h + 2) (zlen pre + zlen h + 2 + zlen c) = Done c).
  { rewrite Hb, (app_assoc h), (app_assoc pre). apply slice_app_mid; [|done].
    rewrite !zlen_app. change (zlen line_end) with 2. lia. }
  rewrite Hchunk. cbn [mbind outcome_bind]. f_equal. unfold chunk_frame. rewrite !zlen_app.
  rewrite En. fold h. change (zlen line_end) with 2. lia.
Qed.

Definition last_chunk : list Z := show_hex 0 ++ line_end.

Lemma dechunk_chunks chunks : forall fuel pre trailer out,
  Forall (fun c => c <> []) chunks -> (length chunks < fuel)%nat ->
  zlen (pre ++ flat_map chunk_frame chunks ++ last_chunk ++ trailer) <= u64_max ->
  dechunk_loop fuel (pre ++ flat_map chunk_frame chunks ++ last_chunk ++ trailer) (zlen pre) out =
  Done (out ++ concat chunks).
Proof.
  induction chunks as [|c chunks IH]; intros fuel pre trailer out Hf Hfuel Hmax.
  - destruct fuel as [|fuel]; [cbn in Hfuel; lia|]. cbn [flat_map app concat]. rewrite app_nil_r.
    cbn [dechunk_loop]. set (b := pre ++ last_chunk ++ trailer).
    assert (Hlen : zlen b = zlen pre + (3 + zlen trailer)) by (unfold b; rewrite !zlen_app; done).
    pose proof (zlen_nonneg pre). pose proof (zlen_nonneg trailer).
    rewrite (proj2 (Z.ltb_lt (zlen pre) (zlen b))) by lia.
    assert (Hrest : @slice unit Z b (zlen pre) (zlen b) = Done (last_chunk ++ trailer)).
    { unfold b at 1. rewrite <- (app_nil_r (last_chunk ++ trailer)) at 1.
      apply slice_app_mid; [done|]. rewrite Hlen, zlen_app. done. }
    rewrite Hrest. cbn [mbind outcome_bind].
    assert (find_sub line_end (last_chunk ++ trailer) = Some 1) as -> by (by destruct trailer).
    assert (Hline : @slice unit Z b (zlen pre) (zlen pre + 1) = Done [48]).
    { change b with (pre ++ [48] ++ line_end ++ trailer). by apply slice_app_mid. }
    rewrite Hline. done.
  - destruct fuel as [|fuel]; [cbn in Hfuel; lia|]. inversion Hf as [|? ? Hc Hcs]; subst.
    cbn [flat_map concat] in *. rewrite <- (app_assoc (chunk_frame c)) in *.
    rewrite dechunk_chunk by done.
    rewrite (app_assoc pre) in Hmax |- *. rewrite IH; [by rewrite <- app_assoc|done|cbn in Hfuel; lia|done].
Qed.

Lemma parse_response_total `{UnicodeData} raw :
  wp (parse_response raw) (fun _ => True) (fun _ => True).
Proof.
  unfold parse_response. destruct (find_sub [13; 10; 13; 10] raw) as [at_|] eqn:Ef; [|done].
  apply find_sub_bound in Ef. change (zlen [13; 10; 13; 10]) with 4 in Ef.
  apply wp_bind, wp_slice; [lia|lia|]. apply wp_bind, wp_slice; [lia|lia|].
  destruct (split_crlf _) as [|status_line lines]; [done|].
  destruct (word ← _ !! _; _) as [st|]; [|done]. destruct (existsb is_chunked lines); [|done].
  set (b := zsub raw (at_ + 4) (zlen raw)).
  pose proof (dechunk_total (S (length b)) b 0 [] ltac:(lia) ltac:(unfold zlen; lia) ltac:(lia)) as Hw.
  unfold dechunk. by destruct (dechunk_loop (S (length b)) b 0 []).
Qed.

(** *** The choice of [fetch] *)

(** The answers and the errors of the attempts, in order. *)
Definition answers `{UnicodeData} net q (routes : list (Fingerprint * SocketAddr)) : list ApiResponse :=
  omap (fun r => match exchange net q r.2 r.1 with Done a => Some a | _ => None end) routes.
Definition errors `{UnicodeData} net q (routes : list (Fingerprint * SocketAddr)) : list AetherError :=
  omap (fun r => match exchange net q r.2 r.1 with Fail e => Some e | _ => None end) routes.

(** The rejection reported: the last that is not a 403, else the first. *)
Definition worst_case (l : list ApiResponse) : option ApiResponse :=
  match list.last (List.filter (fun r => negb (status r =? 403)) l) with
  | Some r => Some r
  | None => hd_error l
  end.

Lemma worst_case_snoc l r :
  worst_case (l ++ [r]) =
  match worst_case l with
  | None => Some r
  | Some _ => if negb (status r =? 403) then Some r else worst_case l
  end.
Proof.
  unfold worst_case. rewrite List.filter_app. cbn [List.filter].
  destruct (status r =? 403); cbn [negb]; [rewrite app_nil_r|rewrite last_snoc].
  - destruct (list.last _) eqn:E; [done|]. by destruct l.
  - destruct (list.last _) eqn:E; [done|]. by destruct l.
Qed.

(** No attempt panics or hangs: what the connection answers is an error or
    data. *)
Definition attempts_end (net : SocketAddr -> Fingerprint -> attempt) : Prop :=
  forall a f, terminates (established (net a f)) /\ forall d, terminates (exchanged (net a f) d).

Lemma exchange_terminates `{UnicodeData} net q a f : attempts_end net -> terminates (exchange net q a f).
Proof.
  intros Hn. destruct (Hn a f) as [He Hx]. unfold exchange, terminates in *.
  apply wp_bind. eapply wp_mono; [exact He| |done]. intros _ _.
  apply wp_bind. eapply wp_mono; [apply Hx| |done]. intros chunks _.
  apply wp_bind. eapply wp_mono; [apply parse_response_total| |done]. by intros [st t] _.
Qed.

Lemma find_app_none {A} (p : A -> bool) l k : List.find p l = None -> List.find p (l ++ k) = List.find p k.
Proof. induction l as [|x l IH]; [done|]. cbn. by destruct (p x). Qed.

(** What [fetch] is to answer. *)
Definition fetch_answer (rs : list ApiResponse) (es : list AetherError) : aresult ApiResponse :=
  match List.find success rs with
  | Some r => Done r
  | None =>
      match worst_case rs with
      | Some r => Done r
      | None => Fail (default (Api (lit "every camouflaged route failed")) (list.last es))
      end
  end.

Lemma fetch_loop_spec `{UnicodeData} net q routes : forall rs es,
  attempts_end net -> List.find success rs = None ->
  fetch_loop net q routes (worst_case rs) (list.last es) =
  fetch_answer (rs ++ answers net q routes) (es ++ errors net q routes).
Proof.
  induction routes as [|[f a] routes IH]; intros rs es Hn Hrs; unfold answers, errors; cbn [fetch_loop omap list_omap].
  { rewrite !app_nil_r. unfold fetch_answer. by rewrite Hrs. }
  cbn [fst snd]. pose proof (exchange_terminates net q a f Hn) as Ht.
  destruct (exchange net q a f) as [r|e| |]; try done.
  - destruct (success r) eqn:Es.
    + unfold fetch_answer. rewrite find_app_none by done. cbn [List.find]. by rewrite Es.
    + specialize (IH (rs ++ [r]) es Hn). rewrite worst_case_snoc, <- app_assoc in IH. apply IH.
      rewrite find_app_none by done. cbn. by rewrite Es.
  - specialize (IH rs (es ++ [e]) Hn Hrs). rewrite last_snoc, <- app_assoc in IH. apply IH.
Qed.

(** ** Properties *)

(** C39: the hand-written HTTP client is safe and exact.  No bytes make the
    response reader panic or loop; a body sent in chunks, of any number and
    sizes and whatever follows the last one, is put together exactly; and
    [fetch] answers with the first success in the order of fingerprints and
    addresses, with the last rejection that is not a 403 (or the first one, if
    all are) when no route succeeds, and with the last error when no route
    answers. *)
Theorem api_fetch_sound `{UnicodeData} net q addresses raw chunks trailer :
  attempts_end net -> addresses <> [] -> Forall (fun c => c <> []) chunks ->
  zlen (flat_map chunk_frame chunks ++ last_chunk ++ trailer) <= u64_max ->
  wp (parse_response raw) (fun _ => True) (fun _ => True) /\
  dechunk (flat_map chunk_frame chunks ++ last_chunk ++ trailer) = Done (concat chunks) /\
  fetch net q addresses =
    fetch_answer (answers net q (all_routes addresses)) (errors net q (all_routes addresses)).
Proof.
  intros Hn Ha Hc Hmax. split; [apply parse_response_total|]. split.
  - unfold dechunk. apply (dechunk_chunks chunks _ [] trailer []); [done| |done].
    rewrite length_app. assert (length chunks <= length (flat_map chunk_frame chunks))%nat; [|lia].
    clear. induction chunks as [|c chunks IH]; [done|]. cbn [flat_map length]. rewrite length_app.
    assert (0 < length (chunk_frame c))%nat
      by (unfold chunk_frame; rewrite !length_app; change (length line_end) with 2%nat; lia). lia.
  - unfold fetch. destruct addresses as [|a l]; [done|].
    apply (fetch_loop_spec net q (all_routes (a :: l)) [] []); done.
Qed.

(** One address that answers 403 to the first fingerprint, fails on the
    second and answers in chunks to the third. *)
Definition sample_net (a : SocketAddr) (f : Fingerprint) : attempt :=
  match f with
  | SplitLegacy => mkAttempt (Done tt)
      (fun _ => Done [lit "HTTP/1.1 403 Forbidden" ++ line_end ++ line_end])
  | SplitModern => mkAttempt (Fail (Api (lit "connect"))) (fun _ => Fail Cancelled)
  | _ => mkAttempt (Done tt)
      (fun _ => Done [lit "HTTP/1.1 200 OK" ++ line_end ++ lit "Transfer-Encoding: chunked" ++ line_end ++ line_end ++
                      chunk_frame (lit "{}") ++ last_chunk])
  end.

Definition sample_edge : SocketAddr := sock (V4 [141; 101; 113; 7]) 443.
Definition sample_request : ApiRequest := mkRequest (lit "GET") (lit "example.invalid") (lit "/") [] None.

Lemma api_fetch_sound_witness :
  let unicode := ascii_only in
  dechunk (chunk_frame (lit "ab") ++ chunk_frame (lit "c") ++ last_chunk) = Done (lit "abc") /\
  fetch sample_net sample_request [sample_edge] =
    Done (mkResponse 200 (lit "{}") (sample_edge, Modern)).
Proof.
  cbv zeta.
  destruct (@api_fetch_sound ascii_only sample_net sample_request [sample_edge] [] [lit "ab"; lit "c"] [])
    as (_ & Hd & Hf).
  - intros a f. by destruct f.
  - done.
  - repeat constructor; done.
  - vm_compute. discriminate.
  - split; [etransitivity; [|exact Hd]; f_equal|]. rewrite Hf. vm_compute. done.
Defined.
