(* ===== verification/Hops.v ===== *)
(** * Nested tunnels (src/native/aether/aether/src/lib.rs)

    The choice of the two hops of a tunnel in a tunnel: endpoints named by
    hand, inner edges to try when they are not, and the packet sizes that fit.
    The environment is the function [lookup]; shuffling draws from a random
    generator. *)

From stdpp Require Import base list option.
From Stdlib Require Import ZArith Lia Permutation.
From S2P Require Import Prelude ListFacts Rand RustStr StrFacts Error Net Sysprofile.

Definition TUNNEL_MTU : Z := 1280.
Definition H2_TUNNEL_MTU : Z := 1500.
Definition WG_EXAMPLE_PORT : Z := 2408.
Definition MIN_DATAGRAM_SIZE : Z := 1200.
Definition MAX_DATAGRAM_SIZE : Z := 1350.
Definition MASQUE_DATAGRAM_OVERHEAD : Z := MAX_DATAGRAM_SIZE - TUNNEL_MTU.
Definition MASQUE_INNER_PORT : Z := 443.

Definition masque_tunnel_mtu (env : environment) (h2 : bool) : Z :=
  match (v ← env (lit "AETHER_MASQUE_MTU"); parse_uint u64_max (trim v)) with
  | Some mtu => if (576 <=? mtu) && (mtu <=? 1500) then mtu else if h2 then H2_TUNNEL_MTU else TUNNEL_MTU
  | None => if h2 then H2_TUNNEL_MTU else TUNNEL_MTU
  end.

(** ** Endpoints named by hand *)

Record WiwEndpoints := mkHops { outer : option SocketAddr; inner : option SocketAddr }.

Definition same_edge (ip : IpAddr) : AetherError :=
  Other (lit "the two hops need separate edges, but both point at " ++ show_ip ip).

Definition checked (h : WiwEndpoints) : aresult WiwEndpoints :=
  match outer h, inner h with
  | Some o, Some i => if bool_decide (sock_ip o = sock_ip i) then Fail (same_edge (sock_ip o)) else Done h
  | _, _ => Done h
  end.

Definition strip_suffix (s pat : str) : option str :=
  if ends_with s pat then Some (take (length s - length pat) s) else None.

Definition no_port (text : str) (address : IpAddr) : AetherError :=
  Other (text ++ lit " carries no port, and the port is required; write it out, as in " ++
         show_socket_addr (sock address WG_EXAMPLE_PORT)).
Definition not_endpoint (text : str) : AetherError :=
  Other (lit "'" ++ text ++
         lit "' is not an endpoint; write an address and a port together, such as 162.159.192.1:" ++
         show_uint WG_EXAMPLE_PORT).

Definition parse_endpoint (raw : str) : aresult SocketAddr :=
  let text := trim raw in
  match parse_socket_addr text with
  | Some peer => Done peer
  | None =>
      let portless :=
        match parse_ip text with
        | Some a => Some a
        | None =>
            rest ← strip_prefix text (lit "[");
            inner ← strip_suffix rest (lit "]");
            parse_ip inner
        end in
      match portless with
      | Some address => Fail (no_port text address)
      | None => Fail (not_endpoint text)
      end
  end.

Definition endpoint_separator (c : Z) : bool := (c =? 44) || (c =? 59) || (c =? 32).

Fixpoint parse_endpoints (parts : list str) : aresult (list SocketAddr) :=
  match parts with
  | [] => Done []
  | part :: parts =>
      if str_eqb (trim part) [] then parse_endpoints parts
      else
        peer ← parse_endpoint part;
        peers ← parse_endpoints parts;
        Done (peer :: peers)
  end.

Definition no_endpoint : AetherError :=
  Other (lit "no endpoint was given; expected one or two addresses").
Definition too_many (n : Z) : AetherError :=
  Other (lit "warp-in-warp has two hops, but " ++ show_uint n ++ lit " addresses were given").

Definition parse_endpoint_list (raw : str) : aresult (list SocketAddr) :=
  peers ← parse_endpoints (split_by endpoint_separator raw);
  if zlen peers =? 0 then Fail no_endpoint
  else if zlen peers <=? 2 then Done peers
  else Fail (too_many (zlen peers)).

Definition env_value (env : environment) (key : str) : option str :=
  value ← env key;
  let value := trim value in
  if negb (str_eqb value []) then Some value else None.

Definition scan_keyword `{UnicodeData} (value : str) : bool :=
  let v := to_lowercase value in
  str_eqb v (lit "auto") || str_eqb v (lit "scan") || str_eqb v (lit "none") ||
  str_eqb v (lit "off") || str_eqb v (lit "0").

Definition wiw_scan_requested `{UnicodeData} (lookup : environment) : bool :=
  match lookup (lit "AETHER_WIW_PEERS") with Some v => scan_keyword v | None => false end.

Definition nested_endpoints_of `{UnicodeData} (lookup : environment) (list_key outer_key inner_key : str)
  : aresult WiwEndpoints :=
  chosen ←
    match lookup list_key with
    | Some l =>
        if negb (scan_keyword l) then
          peers ← parse_endpoint_list l;
          Done (mkHops (peers !! 0%nat) (peers !! 1%nat))
        else Done (mkHops None None)
    | None => Done (mkHops None None)
    end;
  chosen ←
    match lookup outer_key with
    | Some v => p ← parse_endpoint v; Done (mkHops (Some p) (inner chosen))
    | None => Done chosen
    end;
  chosen ←
    match lookup inner_key with
    | Some v => p ← parse_endpoint v; Done (mkHops (outer chosen) (Some p))
    | None => Done chosen
    end;
  checked chosen.

Definition wiw_endpoints_of `{UnicodeData} (lookup : environment) : aresult WiwEndpoints :=
  nested_endpoints_of lookup (lit "AETHER_WIW_PEERS") (lit "AETHER_WIW_OUTER_PEER") (lit "AETHER_WIW_INNER_PEER").

Definition mim_endpoints_of `{UnicodeData} (lookup : environment) : aresult WiwEndpoints :=
  nested_endpoints_of lookup (lit "AETHER_MIM_PEERS") (lit "AETHER_MIM_OUTER_PEER") (lit "AETHER_MIM_INNER_PEER").

Definition wiw_endpoints_with_fallback `{UnicodeData} (lookup : environment) : aresult WiwEndpoints :=
  chosen ← wiw_endpoints_of lookup;
  match outer chosen with
  | Some _ => Done chosen
  | None =>
      let forced := match lookup (lit "AETHER_WG_PEER") with
                    | Some v => Some v
                    | None => lookup (lit "AETHER_PEER")
                    end in
      match forced with
      | None => Done chosen
      | Some forced =>
          peers ← parse_endpoint_list forced;
          checked (mkHops (peers !! 0%nat)
                     (match inner chosen with None => peers !! 1%nat | i => i end))
      end
  end.

(** ** Inner edges to try *)

Definition is_v4 (a : SocketAddr) : bool := match sock_ip a with V4 _ => true | V6 _ => false end.

Definition edge_network (ip : IpAddr) : option (list Z) :=
  match ip with V4 o => Some (take 3 o) | V6 _ => None end.

(** [slice::swap], in range. *)
Definition swap {A} (l : list A) (i j : nat) : list A :=
  match l !! i, l !! j with Some x, Some y => <[i := y]> (<[j := x]> l) | _, _ => l end.

Fixpoint position {A} (p : A -> bool) (l : list A) : option nat :=
  match l with
  | [] => None
  | x :: l => if p x then Some O else S <$> position p l
  end.

Definition spread_hops (found : list SocketAddr) : list SocketAddr :=
  match found with
  | first :: _ :: _ =>
      let network := edge_network (sock_ip first) in
      match position (fun peer => negb (bool_decide (edge_network (sock_ip peer) = network))) found with
      | Some (S i) => swap found 1 (S i)
      | _ => found
      end
  | _ => found
  end.

Definition MASQUE_VERIFIED_GATEWAYS : list str :=
  [lit "162.159.199.1"; lit "162.159.199.2"; lit "162.159.198.2"; lit "162.159.198.1"].
Definition MASQUE_ALT_PORTS : list Z := [1701; 8095; 500; 4500].

Definition truncate {A} (n : Z) (l : list A) : list A := take (Z.to_nat n) l.

(** The closure [push]; [seen] holds exactly what is in [out]. *)
Definition push_edge (outer_ : SocketAddr) (out : list SocketAddr) (ip : IpAddr) (port : Z) : list SocketAddr :=
  let peer := sock ip port in
  if negb (bool_decide (ip = sock_ip outer_)) && negb (bool_decide (peer ∈ out)) then out ++ [peer] else out.

Definition push_all (outer_ : SocketAddr) (out : list SocketAddr) (ips : list IpAddr) (port : Z) : list SocketAddr :=
  fold_left (fun out ip => push_edge outer_ out ip port) ips out.

Definition masque_verified_ladder (outer_ : SocketAddr) (count : Z) : list SocketAddr :=
  if negb (is_v4 outer_) then []
  else
    let network := edge_network (sock_ip outer_) in
    let verified := omap parse_ip MASQUE_VERIFIED_GATEWAYS in
    let out := push_all outer_ []
      (List.filter (fun ip => negb (bool_decide (edge_network ip = network))) verified) MASQUE_INNER_PORT in
    let out := push_all outer_ out verified MASQUE_INNER_PORT in
    let out := fold_left (fun out port => push_all outer_ out verified port) MASQUE_ALT_PORTS out in
    truncate (Z.max count 1) out.

(** [for index in (1..hosts.len()).rev()]; [random_range(0..=index)] is not
    empty. *)
Fixpoint shuffle {R A} `{Rng R} (n : nat) (l : list A) (r : R) : list A * R :=
  match n with
  | O => (l, r)
  | S m =>
      let '(w, r) := draw r in
      shuffle m (swap l n (Z.to_nat (w `mod` (Z.of_nat n + 1)))) r
  end.

(** The IPv6 arm; [fuel] bounds the draws. *)
Fixpoint sibling_v6 {R} `{Rng R} (fuel : nat) (head : list Z) (last count : Z) (r : R)
  (seen : list Z) (out : list SocketAddr) : opt (list SocketAddr * R) :=
  if (zlen out <? count) && (zlen seen <? count * 8) then
    match fuel with
    | O => Diverge
    | S fuel =>
        '(candidate, r) ← pick r 1 65535;
        if (candidate =? last) || bool_decide (candidate ∈ seen)
        then sibling_v6 fuel head last count r seen out
        else sibling_v6 fuel head last count r (seen ++ [candidate])
               (out ++ [sock (V6 (head ++ be_bytes 2 candidate)) MASQUE_INNER_PORT])
    end
  else Done (out, r).

Definition without (x : Z) (l : list Z) : list Z := List.filter (fun h => negb (h =? x)) l.

Definition sibling_candidates {R} `{Rng R} (fuel : nat) (outer_ : SocketAddr) (count : Z) (r : R)
  : opt (list SocketAddr * R) :=
  match sock_ip outer_ with
  | V4 o =>
      let hosts := without (octet o 3) (Z.of_nat <$> seq 1 254) in
      let '(hosts, r) := shuffle (length hosts - 1) hosts r in
      Done ((fun h => sock (V4 (take 3 o ++ [h])) MASQUE_INNER_PORT) <$> take (Z.to_nat count) hosts, r)
  | V6 o => sibling_v6 fuel (take 14 o) (segment o 7) count r [] []
  end.

Fixpoint add_siblings (count : Z) (out : list SocketAddr) (more : list SocketAddr) : list SocketAddr :=
  match more with
  | [] => out
  | peer :: more =>
      if count <=? zlen out then out
      else add_siblings count (add_new out peer) more
  end.

Definition inner_masque_candidates {R} `{Rng R} (fuel : nat) (outer_ : SocketAddr) (count : Z) (verified : bool)
  (r : R) : opt (list SocketAddr * R) :=
  let out :=
    if verified
    then add_all [] (masque_verified_ladder outer_ (Z.max (saturating_sub count 2) 1))
    else [] in
  '(more, r) ← sibling_candidates fuel outer_ count r;
  Done (truncate (Z.max count 1) (add_siblings count out more), r).

(** ** Packet sizes *)

(** [Ord::clamp] of a size between constants. *)
Definition clamp_size (lo hi x : Z) : Z := Z.min hi (Z.max lo x).

Definition mim_inner_budget (outer_mtu : Z) (inner_peer : SocketAddr) (h2 : bool) : Z * Z :=
  if h2 then (MAX_DATAGRAM_SIZE, clamp_size 576 1500 (saturating_sub outer_mtu 100))
  else
    let headers := if is_v4 inner_peer then 28 else 48 in
    let datagram := clamp_size MIN_DATAGRAM_SIZE MAX_DATAGRAM_SIZE (saturating_sub outer_mtu headers) in
    let mtu := clamp_size 576 1500 (saturating_sub datagram MASQUE_DATAGRAM_OVERHEAD) in
    (datagram, mtu).

(** ** Facts *)

Lemma parse_endpoint_total raw : terminates (parse_endpoint raw).
Proof.
  unfold parse_endpoint. destruct (parse_socket_addr (trim raw)); [done|].
  by destruct (match parse_ip (trim raw) with Some a => Some a | None => _ end).
Qed.

Lemma parse_endpoint_list_total raw : terminates (parse_endpoint_list raw).
Proof.
  unfold parse_endpoint_list, terminates. apply wp_bind.
  assert (Hp : forall parts, wp (parse_endpoints parts) (fun _ => True) (fun _ => True)).
  { induction parts as [|p parts IH]; cbn [parse_endpoints]; [done|]. dest_if; [done|].
    apply wp_bind. eapply wp_mono; [apply parse_endpoint_total| |done]. intros peer _.
    apply wp_bind. by eapply wp_mono. }
  eapply wp_mono; [apply Hp| |done]. intros peers _. by repeat dest_if.
Qed.

(** Two hops named by hand are at different addresses. *)
Definition separate (h : WiwEndpoints) : Prop :=
  forall o i, outer h = Some o -> inner h = Some i -> sock_ip o <> sock_ip i.

Lemma checked_exact h h' : checked h = Done h' <-> separate h /\ h' = h.
Proof.
  unfold checked, separate. destruct (outer h) as [o|], (inner h) as [i|]; try (case_bool_decide as E).
  - split; [done|]. intros [Hs _]. by destruct (Hs o i).
  - split; [|by intros [_ ->]]. intros [= <-]. split; [|done]. by intros ? ? [= <-] [= <-].
  - split; [|by intros [_ ->]]. intros [= <-]. split; [|done]. by intros ? ? ? [=].
  - split; [|by intros [_ ->]]. intros [= <-]. split; [|done]. by intros ? ? [=].
  - split; [|by intros [_ ->]]. intros [= <-]. split; [|done]. by intros ? ? [=].
Qed.

Lemma checked_terminates h : terminates (checked h).
Proof. unfold checked. destruct (outer h), (inner h); try done. by case_bool_decide. Qed.

(** *** What the variables say *)

Definition got {E A} (r : outcome E A) : option A := match r with Done a => Some a | _ => None end.

Section Named.
Context `{UnicodeData}.
Variables (lookup : environment) (list_key outer_key inner_key : str).

(** The list, unless it asks for a scan. *)
Definition listed : option str :=
  match lookup list_key with Some l => if scan_keyword l then None else Some l | None => None end.

(** The [i]th endpoint of the list, unless [key] names one. *)
Definition named_hop (key : str) (i : nat) : option SocketAddr :=
  match lookup key with
  | Some v => got (parse_endpoint v)
  | None => l ← listed; peers ← got (parse_endpoint_list l); peers !! i
  end.

Definition named_hops : WiwEndpoints := mkHops (named_hop outer_key 0) (named_hop inner_key 1).

(** Every text that is there is an endpoint, or a list of one or two. *)
Definition readable : Prop :=
  (forall l, listed = Some l -> is_Some (got (parse_endpoint_list l))) /\
  (forall v, lookup outer_key = Some v -> is_Some (got (parse_endpoint v))) /\
  (forall v, lookup inner_key = Some v -> is_Some (got (parse_endpoint v))).

Lemma bind_exact {E A B} (m : outcome E A) (f : A -> outcome E B) b :
  (x ← m; f x) = Done b <-> exists a, m = Done a /\ f a = Done b.
Proof.
  destruct m as [a| | |]; cbn [mbind outcome_bind]; [|by split; [|intros (? & ? & _)]..].
  split; [by eauto|]. by intros (a' & [= <-] & ?).
Qed.

Lemma list_exact h :
  match lookup list_key with
  | Some l => if negb (scan_keyword l)
              then peers ← parse_endpoint_list l; Done (E := AetherError) (mkHops (peers !! 0%nat) (peers !! 1%nat))
              else Done (mkHops None None)
  | None => Done (mkHops None None)
  end = Done h <->
  (forall l, listed = Some l -> is_Some (got (parse_endpoint_list l))) /\
  let at_ i := (l ← listed; peers ← got (parse_endpoint_list l); peers !! i) in
  h = mkHops (at_ 0%nat) (at_ 1%nat).
Proof.
  unfold listed. destruct (lookup list_key) as [l|]; [destruct (scan_keyword l)|]; cbn [negb mbind option_bind].
  1, 3: split; [intros [= <-]; by split|by intros [_ ->]].
  destruct (parse_endpoint_list l) as [peers| | |] eqn:Ep; cbn;
    [|split; [done|]; intros [Hl _]; destruct (Hl l eq_refl) as [? Hp]; by rewrite Ep in Hp..].
  split; [intros [= <-]; split; [|done]; intros ? [= <-]; rewrite Ep; by eexists|by intros [_ ->]].
Qed.

Lemma hop_exact key (fallback : option SocketAddr) (put : option SocketAddr -> WiwEndpoints) c h :
  c = put fallback ->
  match lookup key with Some v => p ← parse_endpoint v; Done (put (Some p)) | None => Done c end = Done h <->
  (forall v, lookup key = Some v -> is_Some (got (parse_endpoint v))) /\
  h = put match lookup key with Some v => got (parse_endpoint v) | None => fallback end.
Proof.
  intros ->. destruct (lookup key) as [v|]; [|split; [intros [= <-]; by split|by intros [_ ->]]].
  destruct (parse_endpoint v) as [p| | |] eqn:Ep; cbn;
    [|split; [done|]; intros [Hv _]; destruct (Hv v eq_refl) as [? Hp]; by rewrite Ep in Hp..].
  split; [intros [= <-]; split; [|done]; intros ? [= <-]; rewrite Ep; by eexists|by intros [_ ->]].
Qed.

(** The hops are read exactly when every text is readable and they are apart,
    and they are then the named ones. *)
Lemma nested_endpoints_exact h :
  nested_endpoints_of lookup list_key outer_key inner_key = Done h <->
  readable /\ separate named_hops /\ h = named_hops.
Proof.
  unfold nested_endpoints_of. rewrite bind_exact. split.
  - intros (h1 & (Hl & ->)%list_exact & E). apply bind_exact in E as (h2 & E2 & E).
    eapply (hop_exact outer_key _ (fun o => mkHops o _)) in E2 as [Ho Eh]; [|reflexivity].
    subst h2. apply bind_exact in E as (h3 & E3 & E).
    eapply (hop_exact inner_key _ (fun i => mkHops _ i)) in E3 as [Hi Eh]; [|reflexivity].
    subst h3. apply checked_exact in E as [Hs ->]. done.
  - intros ((Hl & Ho & Hi) & Hs & ->). eexists. split; [by apply list_exact|].
    apply bind_exact. eexists. split; [by eapply (hop_exact outer_key _ (fun o => mkHops o _))|].
    apply bind_exact. eexists. split; [by eapply (hop_exact inner_key _ (fun i => mkHops _ i))|].
    by apply checked_exact.
Qed.

Lemma nested_endpoints_terminates : terminates (nested_endpoints_of lookup list_key outer_key inner_key).
Proof.
  unfold nested_endpoints_of, terminates. apply wp_bind.
  eapply (wp_mono _ (fun _ => True) _ (fun _ => True)); [|intros h1 _|done].
  { destruct (lookup list_key) as [l|]; [|done]. dest_if; [|done]. apply wp_bind.
    eapply wp_mono; [apply parse_endpoint_list_total| |done]. done. }
  apply wp_bind. eapply (wp_mono _ (fun _ => True) _ (fun _ => True)); [|intros h2 _|done].
  { destruct (lookup outer_key) as [v|]; [|done]. apply wp_bind.
    by eapply wp_mono; [apply parse_endpoint_total|..]. }
  apply wp_bind. eapply (wp_mono _ (fun _ => True) _ (fun _ => True)); [|intros h3 _|done].
  { destruct (lookup inner_key) as [v|]; [|done]. apply wp_bind.
    by eapply wp_mono; [apply parse_endpoint_total|..]. }
  apply checked_terminates.
Qed.

End Named.

Definition wiw_named `{UnicodeData} (lookup : environment) : WiwEndpoints :=
  named_hops lookup (lit "AETHER_WIW_PEERS") (lit "AETHER_WIW_OUTER_PEER") (lit "AETHER_WIW_INNER_PEER").
Definition wiw_readable `{UnicodeData} (lookup : environment) : Prop :=
  readable lookup (lit "AETHER_WIW_PEERS") (lit "AETHER_WIW_OUTER_PEER") (lit "AETHER_WIW_INNER_PEER").
Definition mim_named `{UnicodeData} (lookup : environment) : WiwEndpoints :=
  named_hops lookup (lit "AETHER_MIM_PEERS") (lit "AETHER_MIM_OUTER_PEER") (lit "AETHER_MIM_INNER_PEER").
Definition mim_readable `{UnicodeData} (lookup : environment) : Prop :=
  readable lookup (lit "AETHER_MIM_PEERS") (lit "AETHER_MIM_OUTER_PEER") (lit "AETHER_MIM_INNER_PEER").

(** The older variables, of which the first that is set counts. *)
Definition forced_peers (lookup : environment) : option str :=
  match lookup (lit "AETHER_WG_PEER") with Some v => Some v | None => lookup (lit "AETHER_PEER") end.

(** Without an outer hop of its own WireGuard in WireGuard takes the hops of
    the older variables, keeping an inner hop it has. *)
Definition falls_back `{UnicodeData} (lookup : environment) (h : WiwEndpoints) : Prop :=
  match outer (wiw_named lookup), forced_peers lookup with
  | None, Some forced =>
      exists peers, parse_endpoint_list forced = Done peers /\
        outer h = peers !! 0%nat /\
        inner h = match inner (wiw_named lookup) with Some i => Some i | None => peers !! 1%nat end
  | _, _ => h = wiw_named lookup
  end.

Lemma with_fallback_exact `{UnicodeData} lookup h :
  wiw_endpoints_with_fallback lookup = Done h <->
  wiw_readable lookup /\ separate (wiw_named lookup) /\ falls_back lookup h /\ separate h.
Proof.
  unfold wiw_endpoints_with_fallback, wiw_endpoints_of, falls_back, forced_peers, wiw_readable, wiw_named.
  set (k1 := lit "AETHER_WIW_PEERS"). set (k2 := lit "AETHER_WIW_OUTER_PEER").
  set (k3 := lit "AETHER_WIW_INNER_PEER"). set (c := named_hops lookup k1 k2 k3).
  pose proof (fun h => nested_endpoints_exact lookup k1 k2 k3 h) as He.
  destruct (nested_endpoints_of lookup k1 k2 k3) as [c'| | |] eqn:E; cbn [mbind outcome_bind].
  2-4: split; [done|]; intros (Hr & Hs & _); pose proof (proj2 (He c) (conj Hr (conj Hs eq_refl))) as Hx; done.
  destruct (proj1 (He c') eq_refl) as (Hr & Hs & ->). fold c in Hs |- *.
  destruct (outer c) as [o|] eqn:Eo.
  { split; [intros [= <-]; by split_and!|intros (_ & _ & -> & _); done]. }
  destruct (match lookup (lit "AETHER_WG_PEER") with Some v => Some v | None => _ end) as [forced|].
  2: { split; [intros [= <-]; by split_and!|intros (_ & _ & -> & _); done]. }
  destruct (parse_endpoint_list forced) as [peers| | |]; cbn [mbind outcome_bind];
    [|split; [done|intros (_ & _ & (? & ? & _) & _); done]..].
  rewrite checked_exact. split.
  - intros [Hh ->]. split_and!; [done|done| |done]. exists peers. by destruct (inner c).
  - intros (_ & _ & (peers' & [= <-] & Ho & Hi) & Hh). destruct h as [ho hi]. cbn [outer inner] in Ho, Hi.
    by rewrite Ho, Hi in Hh |- *.
Qed.

Lemma with_fallback_terminates `{UnicodeData} lookup : terminates (wiw_endpoints_with_fallback lookup).
Proof.
  unfold wiw_endpoints_with_fallback, terminates. apply wp_bind.
  eapply wp_mono; [apply nested_endpoints_terminates| |done]. intros h _.
  destruct (outer h) as [o|]; [done|].
  destruct (match lookup (lit "AETHER_WG_PEER") with Some v => Some v | None => _ end) as [v|]; [|done].
  apply wp_bind. eapply wp_mono; [apply parse_endpoint_list_total| |done]. intros peers _.
  apply checked_terminates.
Qed.

Definition transpose (i j k : nat) : nat :=
  if bool_decide (k = i) then j else if bool_decide (k = j) then i else k.

Lemma swap_Permutation {A} (l : list A) i j : swap l i j ≡ₚ l.
Proof.
  unfold swap. destruct (l !! i) as [x|] eqn:Ei; [|done]. destruct (l !! j) as [y|] eqn:Ej; [|done].
  apply Permutation_inj. split; [by rewrite !length_insert|].
  exists (transpose i j). split.
  { intros a b. unfold transpose. repeat case_bool_decide; congruence. }
  intros k. unfold transpose. pose proof (lookup_lt_Some _ _ _ Ei). pose proof (lookup_lt_Some _ _ _ Ej).
  case_bool_decide as Hki; [subst; by rewrite list_lookup_insert_eq by (rewrite length_insert; lia)|].
  rewrite list_lookup_insert_ne by done. case_bool_decide as Hkj; [subst; by rewrite list_lookup_insert_eq|].
  by rewrite list_lookup_insert_ne.
Qed.

Lemma shuffle_Permutation {R A} `{Rng R} n (l : list A) (r : R) : (shuffle n l r).1 ≡ₚ l.
Proof.
  revert l r. induction n as [|n IH]; intros l r; cbn [shuffle]; [done|].
  destruct (draw r) as [w r']. by rewrite IH, swap_Permutation.
Qed.

Lemma position_spec {A} (p : A -> bool) l :
  match position p l with
  | Some i => exists x, l !! i = Some x /\ p x = true
  | None => forall x, x ∈ l -> p x = false
  end.
Proof.
  induction l as [|x l IH]; cbn; [intros x Hx; by apply not_elem_of_nil in Hx|].
  destruct (p x) eqn:E; [by exists x|]. destruct (position p l) as [i|]; cbn.
  - destruct IH as (y & Hy & Hp). by exists y.
  - intros y [->|Hy]%elem_of_cons; [done|by apply IH].
Qed.

(** *** Inner edges *)

(** An inner edge that makes sense: elsewhere than the outer one, on a port
    Cloudflare answers on. *)
Definition usable_edge (outer_ a : SocketAddr) : Prop :=
  sock_ip a <> sock_ip outer_ /\ (sock_port a = MASQUE_INNER_PORT \/ sock_port a ∈ MASQUE_ALT_PORTS).

Definition edges_ok (outer_ : SocketAddr) (l : list SocketAddr) : Prop :=
  NoDup l /\ Forall (usable_edge outer_) l.

Lemma edges_ok_snoc outer_ l a :
  edges_ok outer_ l -> a ∉ l -> usable_edge outer_ a -> edges_ok outer_ (l ++ [a]).
Proof.
  intros [Hd Hf] Ha Hu. split.
  - by apply NoDup_snoc.
  - apply Forall_app. split; [done|by apply Forall_singleton].
Qed.

Lemma push_all_ok outer_ ips port out :
  port = MASQUE_INNER_PORT \/ port ∈ MASQUE_ALT_PORTS ->
  edges_ok outer_ out -> edges_ok outer_ (push_all outer_ out ips port).
Proof.
  intros Hp. unfold push_all. revert out. induction ips as [|ip ips IH]; intros out Ho; [done|].
  cbn [fold_left]. apply IH. unfold push_edge.
  case_bool_decide as Hip; [done|]. case_bool_decide as Hin; [done|]. cbn [negb andb].
  apply edges_ok_snoc; [done|done|]. split; [by rewrite sock_ip_sock|by rewrite sock_port_sock].
Qed.

Lemma edges_ok_take outer_ n l : edges_ok outer_ l -> edges_ok outer_ (take n l).
Proof.
  intros [Hd Hf]. split; [|by apply Forall_take].
  rewrite <- (take_drop n l) in Hd. by apply list.NoDup_app in Hd as [? _].
Qed.

Lemma ladder_ok outer_ count : edges_ok outer_ (masque_verified_ladder outer_ count).
Proof.
  unfold masque_verified_ladder. dest_if; [by split; constructor|]. apply edges_ok_take.
  set (verified := omap parse_ip MASQUE_VERIFIED_GATEWAYS).
  assert (Hfold : forall ports out, Forall (fun p => p ∈ MASQUE_ALT_PORTS) ports -> edges_ok outer_ out ->
            edges_ok outer_ (fold_left (fun out port => push_all outer_ out verified port) ports out)).
  { induction ports as [|p ports IH]; intros out Hp Ho; [done|]. inversion Hp; subst. cbn [fold_left].
    apply IH; [done|]. apply push_all_ok; [by right|done]. }
  apply Hfold.
  - apply list.Forall_forall. done.
  - apply push_all_ok; [by left|]. apply push_all_ok; [by left|]. by split; constructor.
Qed.

Lemma add_new_ok outer_ out a : edges_ok outer_ out -> usable_edge outer_ a -> edges_ok outer_ (add_new out a).
Proof. intros Ho Ha. unfold add_new. case_bool_decide; [done|by apply edges_ok_snoc]. Qed.

Lemma add_all_ok outer_ l out :
  edges_ok outer_ out -> Forall (usable_edge outer_) l -> edges_ok outer_ (add_all out l).
Proof. intros [Hd Hf] Hl. split; [by apply add_all_NoDup|by apply Forall_add_all]. Qed.

Lemma add_siblings_ok outer_ count out more :
  edges_ok outer_ out -> Forall (usable_edge outer_) more -> edges_ok outer_ (add_siblings count out more).
Proof.
  intros Ho Hm. revert out Ho. induction Hm as [|a more Ha Hm IH]; intros out Ho; [done|].
  cbn [add_siblings]. dest_if; [done|]. apply IH. by apply add_new_ok.
Qed.

(** A list of siblings: usable, no two the same, on the usual port. *)
Definition siblings_ok (outer_ : SocketAddr) (count : Z) (l : list SocketAddr) : Prop :=
  NoDup l /\ Forall (usable_edge outer_) l /\ count <= zlen l.

Definition v6_sibling (o : list Z) (c : Z) : SocketAddr := sock (V6 (take 14 o ++ be_bytes 2 c)) MASQUE_INNER_PORT.

Lemma v6_sibling_segment o c ip :
  length o = 16%nat -> 0 <= c < 65536 -> sock_ip (v6_sibling o c) = V6 ip -> segment ip 7 = c.
Proof.
  intros Hl Hc. unfold v6_sibling. rewrite sock_ip_sock, be_bytes_2. intros [= <-].
  unfold segment, octet. rewrite !app_nth2 by (rewrite length_take; lia). rewrite !length_take.
  replace (2 * 7 - 14 `min` length o)%nat with 0%nat by lia.
  replace (2 * 7 + 1 - 14 `min` length o)%nat with 1%nat by lia.
  cbn [nth]. by rewrite be_u16_bytes by lia.
Qed.

Lemma v6_siblings_ok o outer_ seen :
  length o = 16%nat -> sock_ip outer_ = V6 o -> NoDup seen ->
  Forall (fun c => 0 <= c < 65536 /\ c <> segment o 7) seen ->
  siblings_ok outer_ (zlen seen) (v6_sibling o <$> seen).
Proof.
  intros Hl Ho Hd Hs. rewrite list.Forall_forall in Hs. split_and!.
  - apply NoDup_fmap_2_strong; [|done]. intros c d [Hc _]%Hs [Hd' _]%Hs E.
    set (ip := take 14 o ++ be_bytes 2 c).
    assert (E1 : sock_ip (v6_sibling o c) = V6 ip) by apply sock_ip_sock.
    rewrite <- (v6_sibling_segment o c ip Hl Hc E1). rewrite E in E1. by apply (v6_sibling_segment o d).
  - apply Forall_fmap, list.Forall_forall. intros c [Hc Hn]%Hs. split; [|left; apply sock_port_sock].
    rewrite Ho. intros E. apply Hn. symmetry. by apply (v6_sibling_segment o c).
  - unfold zlen. rewrite length_fmap. lia.
Qed.

Lemma sibling_v6_ok {R} `{Rng R} fuel o outer_ count (r : R) seen :
  length o = 16%nat -> sock_ip outer_ = V6 o -> 1 <= count -> NoDup seen ->
  Forall (fun c => 0 <= c < 65536 /\ c <> segment o 7) seen ->
  match sibling_v6 fuel (take 14 o) (segment o 7) count r seen (v6_sibling o <$> seen) with
  | Done (l, _) => siblings_ok outer_ count l
  | Diverge => short_of count (segment o 7) seen (drawn (fun w => 1 + w `mod` 65535) fuel r)
  | _ => False
  end.
Proof.
  intros Hl Ho Hcount. revert r seen. induction fuel as [|fuel IH]; intros r seen Hd Hs; cbn [sibling_v6];
    pose proof (v6_siblings_ok o outer_ seen Hl Ho Hd Hs) as (Hd' & Hu & Hlen);
    assert (zlen (v6_sibling o <$> seen) = zlen seen) as -> by (unfold zlen; by rewrite length_fmap);
    (destruct ((zlen seen <? count) && (zlen seen <? count * 8)) eqn:Eg;
      [apply andb_prop in Eg as [Eg%Z.ltb_lt _]
      |apply andb_false_iff in Eg; rewrite !Z.ltb_ge in Eg; split_and!; [done|done|lia]]).
  { intros cs _ Hcs _ _. destruct cs as [|c cs]; [change (zlen []) with 0; lia|].
    specialize (Hcs c ltac:(apply elem_of_cons; by left)). by apply not_elem_of_nil in Hcs. }
  unfold pick, drawn. cbn [draws]. destruct (draw r) as [w r'].
  change (random_range w 1 65535) with (@Done unit Z (1 + w `mod` 65535)). cbn [mbind outcome_bind].
  set (c := 1 + w `mod` 65535). assert (1 <= c < 65536) as Hc by (pose proof (Z.mod_pos_bound w 65535); lia).
  specialize (IH r'). unfold drawn in IH. destruct (draws _ fuel r') as [dl rd]. cbn [fst] in *.
  destruct (Z.eqb_spec c (segment o 7)) as [Hcl|Hcl]; [|case_bool_decide as Hin]; cbn [orb].
  1,2: specialize (IH seen Hd Hs); destruct (sibling_v6 _ _ _ _ _ _ _) as [[l ?]| | |]; try done;
    apply short_of_skip; [auto|done].
  specialize (IH (seen ++ [c]) ltac:(by apply NoDup_snoc) ltac:(apply Forall_app; split; [done|apply Forall_singleton; lia])).
  rewrite fmap_app in IH. cbn [fmap list_fmap] in IH. fold (v6_sibling o c).
  destruct (sibling_v6 _ _ _ _ _ _ _) as [[l ?]| | |]; try done. by apply short_of_take.
Qed.

Lemma v4_siblings_ok o outer_ count hosts :
  length o = 4%nat -> sock_ip outer_ = V4 o -> NoDup hosts -> octet o 3 ∉ hosts -> count <= zlen hosts ->
  siblings_ok outer_ count
    ((fun h => sock (V4 (take 3 o ++ [h])) MASQUE_INNER_PORT) <$> take (Z.to_nat count) hosts).
Proof.
  intros Hl Ho Hd Hn Hc. split_and!.
  - apply NoDup_fmap_2_strong.
    + intros x y _ _ E. apply (f_equal sock_ip) in E. rewrite !sock_ip_sock in E.
      injection E as E. by apply app_inv_head in E; injection E.
    + rewrite <- (take_drop (Z.to_nat count) hosts) in Hd. by apply list.NoDup_app in Hd as [? _].
  - apply Forall_fmap, list.Forall_forall. intros h Hh. apply elem_of_take in Hh as (k & Hk & _).
    split; [|left; apply sock_port_sock]. rewrite sock_ip_sock, Ho. intros [= E]. apply Hn.
    replace (octet o 3) with h; [by eapply list_elem_of_lookup_2|].
    unfold octet. rewrite <- E, app_nth2 by (rewrite length_take; lia).
    rewrite length_take. by replace (3 - 3 `min` length o)%nat with O by lia.
  - unfold zlen in *. rewrite length_fmap, length_take. lia.
Qed.

Lemma without_spec x l : NoDup l -> NoDup (without x l) /\ (x ∉ without x l) /\ zlen l <= zlen (without x l) + 1.
Proof.
  intros Hd. split_and!.
  - apply NoDup_ListNoDup, List.NoDup_filter, NoDup_ListNoDup, Hd.
  - intros [_ E]%list_elem_of_In%List.filter_In. by rewrite Z.eqb_refl in E.
  - enough (length l <= length (x :: without x l))%nat as Hl by (unfold zlen; cbn [length] in Hl; lia).
    apply submseteq_length, NoDup_submseteq; [done|]. intros y Hy. apply elem_of_cons.
    destruct (Z.eqb_spec y x) as [->|Hne]; [by left|right].
    apply list_elem_of_In, List.filter_In. split; [by apply list_elem_of_In|].
    by apply negb_true_iff, Z.eqb_neq.
Qed.

Lemma hosts_NoDup n : NoDup (Z.of_nat <$> seq 1 n).
Proof. apply (NoDup_fmap_2 Z.of_nat), NoDup_seq. Qed.

Lemma hosts_length n : zlen (Z.of_nat <$> seq 1 n) = Z.of_nat n.
Proof. unfold zlen. by rewrite length_fmap, length_seq. Qed.

(** A search ends for an IPv4 edge; for an IPv6 one, as soon as the draws held
    enough different values. *)
Definition too_few_draws {R} `{Rng R} (fuel : nat) (outer_ : SocketAddr) (count : Z) (r : R) : Prop :=
  match sock_ip outer_ with
  | V4 _ => False
  | V6 o => short_of count (segment o 7) [] (drawn (fun w => 1 + w `mod` 65535) fuel r)
  end.

Definition sibling_limit (outer_ : SocketAddr) : Z := if is_v4 outer_ then 253 else 65534.

Lemma sibling_candidates_ok {R} `{Rng R} fuel outer_ count (r : R) :
  sock_ok outer_ -> 1 <= count <= sibling_limit outer_ ->
  match sibling_candidates fuel outer_ count r with
  | Done (l, _) => siblings_ok outer_ count l
  | Diverge => too_few_draws fuel outer_ count r
  | _ => False
  end.
Proof.
  intros [Hip _] Hc. unfold sibling_candidates, sibling_limit, is_v4, too_few_draws in *.
  destruct (sock_ip outer_) as [o|o] eqn:Eo; destruct Hip as [Hl _].
  - generalize (hosts_NoDup 254) (hosts_length 254). generalize (Z.of_nat <$> seq 1 254). intros base Hb Hz.
    destruct (without_spec (octet o 3) base Hb) as (Hd & Hn & Hz'). rewrite Hz in Hz'.
    generalize dependent (without (octet o 3) base). intros hosts Hd Hn Hz'.
    pose proof (shuffle_Permutation (length hosts - 1) hosts r) as Hp.
    destruct (shuffle _ _ r) as [hosts' r']. cbn [fst] in Hp.
    apply v4_siblings_ok; [done|done|by rewrite Hp|by rewrite Hp|].
    unfold zlen in *. rewrite Hp. lia.
  - apply (sibling_v6_ok fuel o outer_ count r []); [done|done|lia|constructor|constructor].
Qed.

Lemma add_siblings_sup count out more :
  (out ⊆ add_siblings count out more) /\
  (count <= zlen (add_siblings count out more) \/ more ⊆ add_siblings count out more).
Proof.
  revert out. induction more as [|a more IH]; intros out; cbn [add_siblings].
  { split; [done|right]. intros x Hx. by apply not_elem_of_nil in Hx. }
  destruct (Z.leb_spec count (zlen out)); [by split; [|left]|].
  destruct (IH (add_new out a)) as [Hsub Hm].
  assert (a ∈ add_new out a /\ out ⊆ add_new out a) as [Ha Hout].
  { unfold add_new. case_bool_decide; [done|]. split; [apply elem_of_app; right; by apply list_elem_of_singleton|].
    intros x Hx. apply elem_of_app. by left. }
  split; [by etrans|]. destruct Hm as [Hm|Hm]; [by left|right].
  intros x [->|Hx]%elem_of_cons; [by apply Hsub|by apply Hm].
Qed.

Lemma add_siblings_enough outer_ count out more :
  siblings_ok outer_ count more -> count <= zlen (add_siblings count out more).
Proof.
  intros (Hd & _ & Hl). destruct (add_siblings_sup count out more) as [_ [H|H]]; [done|].
  apply NoDup_submseteq in H; [|done]. apply submseteq_length in H. unfold zlen in *. lia.
Qed.

(** What the inner tunnel is offered: [count] different usable edges. *)
Definition offers (outer_ : SocketAddr) (count : Z) (l : list SocketAddr) : Prop :=
  edges_ok outer_ l /\ zlen l = count.

Lemma inner_candidates_ok {R} `{Rng R} fuel outer_ count verified (r : R) :
  sock_ok outer_ -> 1 <= count <= sibling_limit outer_ ->
  match inner_masque_candidates fuel outer_ count verified r with
  | Done (l, _) => offers outer_ count l
  | Diverge => too_few_draws fuel outer_ count r
  | _ => False
  end.
Proof.
  intros Hok Hc. unfold inner_masque_candidates.
  pose proof (sibling_candidates_ok fuel outer_ count r Hok Hc) as Hs.
  destruct (sibling_candidates fuel outer_ count r) as [[more r']| | |]; try done. cbn [mbind outcome_bind].
  set (out := if verified then _ else _).
  assert (edges_ok outer_ out) as Ho.
  { unfold out. destruct verified; [|by split; constructor].
    apply add_all_ok; [by split; constructor|apply ladder_ok]. }
  split.
  - apply edges_ok_take, add_siblings_ok; [done|apply Hs].
  - pose proof (add_siblings_enough outer_ count out more Hs).
    unfold truncate, zlen in *. rewrite length_take. lia.
Qed.

(** *** Spreading two hops *)

(** The hops keep their first edge, and the second is of another network when
    one was found at all. *)
Definition spread (found l : list SocketAddr) : Prop :=
  l ≡ₚ found /\ l !! 0%nat = found !! 0%nat /\
  (forall a b p, l !! 0%nat = Some a -> l !! 1%nat = Some b -> p ∈ found ->
     edge_network (sock_ip p) <> edge_network (sock_ip a) -> edge_network (sock_ip b) <> edge_network (sock_ip a)).

Lemma swap_lookup {A} (l : list A) i x :
  l !! S i = Some x -> (1 < length l)%nat -> swap l 1 (S i) !! 0%nat = l !! 0%nat /\ swap l 1 (S i) !! 1%nat = Some x.
Proof.
  intros Hx Hl. unfold swap. destruct (l !! 1%nat) as [y|] eqn:Ey; [|apply lookup_ge_None in Ey; lia].
  rewrite Hx. split; [by rewrite !list_lookup_insert_ne by lia|].
  rewrite list_lookup_insert_eq; [done|]. rewrite length_insert. lia.
Qed.

Lemma spread_hops_ok found : spread found (spread_hops found).
Proof.
  unfold spread_hops. destruct found as [|a [|b rest]]; [split_and!; [done|done|by intros ? ? ? ?]| |].
  { split_and!; [done|done|]. by intros ? ? ? ? ?. }
  pose proof (position_spec (fun peer => negb (bool_decide (edge_network (sock_ip peer) = edge_network (sock_ip a))))
                (a :: b :: rest)) as Hp.
  destruct (position _ _) as [[|i]|].
  - destruct Hp as (x & [= ->] & Hx). by rewrite bool_decide_true in Hx.
  - destruct Hp as (x & Hx & Hn). apply negb_true_iff, bool_decide_eq_false in Hn.
    destruct (swap_lookup (a :: b :: rest) i x Hx ltac:(cbn; lia)) as [E0 E1].
    split_and!; [apply swap_Permutation|done|]. rewrite E0, E1. by intros ? ? p [= <-] [= <-] _ _.
  - split_and!; [done|done|]. intros ? ? p [= <-] [= <-] Hin Hne. specialize (Hp p Hin).
    by apply negb_false_iff, bool_decide_eq_true in Hp.
Qed.

(** *** Packets that fit *)

Definition ip_udp_headers (a : SocketAddr) : Z := if is_v4 a then 28 else 48.

Lemma mim_inner_budget_fits outer_mtu peer d m :
  1200 + ip_udp_headers peer <= outer_mtu -> mim_inner_budget outer_mtu peer false = (d, m) ->
  d + ip_udp_headers peer <= outer_mtu /\ m + MASQUE_DATAGRAM_OVERHEAD <= d /\ 576 <= m <= 1500 /\
  MIN_DATAGRAM_SIZE <= d <= MAX_DATAGRAM_SIZE.
Proof.
  unfold mim_inner_budget, ip_udp_headers, clamp_size, saturating_sub, MASQUE_DATAGRAM_OVERHEAD,
    MIN_DATAGRAM_SIZE, MAX_DATAGRAM_SIZE, TUNNEL_MTU.
  intros Hm [= <- <-]. destruct (is_v4 peer); lia.
Qed.

(** The check before an inner tunnel over UDP is started, which only warns. *)
Definition outer_too_small (outer_mtu : Z) (inner_peer : SocketAddr) (h2 : bool) : bool :=
  negb h2 && (outer_mtu <? (mim_inner_budget outer_mtu inner_peer h2).1 + 28).

(** An inner IPv6 edge behind an outer link of 1240 bytes: its datagrams do
    not fit, and the check, which counts the headers of IPv4, does not say so. *)
Example small_link_not_reported :
  let peer := sock (V6 [38; 6; 71; 0; 0; 208; 0; 0; 0; 0; 0; 0; 162; 159; 192; 1]) 443 in
  outer_too_small 1240 peer false = false /\
  1240 < (mim_inner_budget 1240 peer false).1 + ip_udp_headers peer.
Proof. vm_compute. done. Qed.

(** The MTU of a MASQUE tunnel is a legal one, and without an override large
    enough to carry an inner tunnel to any edge. *)
Lemma masque_tunnel_mtu_range env h2 :
  576 <= masque_tunnel_mtu env h2 <= 1500 /\
  (env (lit "AETHER_MASQUE_MTU") = None -> 1248 <= masque_tunnel_mtu env h2).
Proof.
  unfold masque_tunnel_mtu, H2_TUNNEL_MTU, TUNNEL_MTU. split.
  - destruct (env _) as [v|]; cbn [mbind option_bind]; [|destruct h2; lia].
    destruct (parse_uint _ _) as [m|]; [|destruct h2; lia].
    destruct (Z.leb_spec 576 m), (Z.leb_spec m 1500); cbn [andb]; destruct h2; lia.
  - intros ->. cbn [mbind option_bind]. destruct h2; lia.
Qed.

(** C27: The hops of a nested tunnel.  Endpoints named by hand are read without
    panic, and exactly when every variable that is set can be read and the two
    hops are at different addresses; a hop is then the one its own variable
    names, else the one at its place in the list, and WireGuard in WireGuard
    without an outer hop takes those of the older variables.  The inner edges
    offered for an outer one are as many as asked for, all different, never at
    the address of the outer edge and on ports MASQUE is served on; collecting
    them ends, for IPv6 as soon as the random draws held enough different
    values.  Spreading two hops keeps the edges found and the first of them, and
    puts an edge of another network second if there is one.  The datagrams of an
    inner QUIC tunnel fit the outer link if that carries the smallest QUIC
    datagram, as it does unless AETHER_MASQUE_MTU is set, and leave room for
    their packets. *)
Theorem nested_hops_sound `{UnicodeData} {R} `{Rng R} (lookup : environment) :
  terminates (wiw_endpoints_with_fallback lookup) /\
  (forall h, wiw_endpoints_with_fallback lookup = Done h <->
     wiw_readable lookup /\ separate (wiw_named lookup) /\ falls_back lookup h /\ separate h) /\
  terminates (mim_endpoints_of lookup) /\
  (forall h, mim_endpoints_of lookup = Done h <->
     mim_readable lookup /\ separate (mim_named lookup) /\ h = mim_named lookup) /\
  (forall fuel outer_ count verified (r : R),
     sock_ok outer_ -> 1 <= count <= sibling_limit outer_ ->
     match inner_masque_candidates fuel outer_ count verified r with
     | Done (l, _) => offers outer_ count l
     | Diverge => too_few_draws fuel outer_ count r
     | _ => False
     end) /\
  (forall found, spread found (spread_hops found)) /\
  (forall env peer d m,
     env (lit "AETHER_MASQUE_MTU") = None \/ 1200 + ip_udp_headers peer <= masque_tunnel_mtu env false ->
     mim_inner_budget (masque_tunnel_mtu env false) peer false = (d, m) ->
     d + ip_udp_headers peer <= masque_tunnel_mtu env false /\ m + MASQUE_DATAGRAM_OVERHEAD <= d /\
     576 <= m <= 1500 /\ MIN_DATAGRAM_SIZE <= d <= MAX_DATAGRAM_SIZE).
Proof.
  split_and!.
  - apply with_fallback_terminates.
  - apply with_fallback_exact.
  - apply nested_endpoints_terminates.
  - apply nested_endpoints_exact.
  - intros. by apply inner_candidates_ok.
  - apply spread_hops_ok.
  - intros env peer d m Henv. apply mim_inner_budget_fits. destruct Henv as [Henv|]; [|done].
    pose proof (proj2 (masque_tunnel_mtu_range env false) Henv). unfold ip_udp_headers. destruct (is_v4 peer); lia.
Qed.

(** Six inner edges for an outer one at 162.159.198.104. *)
Lemma nested_hops_sound_witness :
  let outer_ := sock (V4 [162; 159; 198; 104]) 8443 in
  match inner_masque_candidates 0 outer_ 6 true (7 : Z) with
  | Done (l, _) => offers outer_ 6 l
  | _ => False
  end.
Proof.
  destruct (nested_hops_sound (H := {| ucd_lower _ c _ := [c] |}) (R := Z) (fun _ => None)) as (_ & _ & _ & _ & Hc & _).
  assert (Hok : sock_ok (sock (V4 [162; 159; 198; 104]) 8443)).
  { split; [split; [done|repeat constructor; done]|done]. }
  specialize (Hc 0%nat (sock (V4 [162; 159; 198; 104]) 8443) 6 true (7 : Z)).
  cbv zeta. destruct (inner_masque_candidates _ _ _ _ _) as [[l r]| | |].
  all: apply Hc; [exact Hok|done].
Defined.
