(* ===== verification/Cidr.v ===== *)
(** * Address ranges to scan

    The helpers of [prober.rs] over CIDR ranges; [wg_prober.rs] holds the same
    text.  An IPv4 range is the value of its base address and its prefix
    length.  Arithmetic on 32 bits that overflows is [Panic]. *)

From stdpp Require Import base list option numbers.
From Stdlib Require Import ZArith Lia.
From S2P Require Import Prelude ListFacts Rand RustStr Net.

Definition parse_cidr_v4 (cidr : str) : option (Z * Z) :=
  '(ip, prefix) ← split_once 47 cidr;
  o ← parse_ipv4 ip;
  p ← parse_uint u8_max prefix;
  Some (be_value o, p).

Definition parse_cidr_v6 (cidr : str) : option (Z * Z) :=
  '(ip, prefix) ← split_once 47 cidr;
  o ← parse_ipv6 ip;
  p ← parse_uint u8_max prefix;
  Some (be_value o, p).

(** [Ipv4Addr::from(u32)], [Ipv6Addr::from(u128)] *)
Definition v4_from (n : Z) : list Z := be_bytes 4 n.
Definition v6_from (n : Z) : list Z := be_bytes 16 n.

(** [base + off] on [u32] *)
Definition add_u32 (a b : Z) : opt Z := if a + b <=? u32_max then Done (a + b) else Panic.

Fixpoint hosts_at (base : Z) (offs : list Z) : opt (list (list Z)) :=
  match offs with
  | [] => Done []
  | off :: offs =>
      a ← add_u32 base off;
      l ← hosts_at base offs;
      Done (v4_from a :: l)
  end.

Definition enumerate_cidr_v4 (cidr : str) : opt (list (list Z)) :=
  match parse_cidr_v4 cidr with
  | None => Done []
  | Some (base, prefix) =>
      let host_bits := saturating_sub 32 prefix in
      if host_bits =? 0 then Done [v4_from base]
      else if 12 <? host_bits then Done []
      else
        let size := Z.shiftl 1 host_bits in
        hosts_at base (seqZ 1 (saturating_sub size 1 - 1))
  end.

Section Sampling.
Context {R : Type} `{Rng R}.

(** [while (out.len() as u32) < want]; [fuel] bounds the draws. *)
Fixpoint sample_hosts (fuel : nat) (base usable want : Z) (r : R) (chosen : list Z) (out : list (list Z))
  : opt (list (list Z) * R) :=
  if u32 (zlen out) <? want then
    match fuel with
    | O => Diverge
    | S fuel =>
        '(k, r) ← pick r 0 (usable - 1);
        let off := 1 + k in
        if bool_decide (off ∈ chosen) then sample_hosts fuel base usable want r chosen out
        else
          a ← add_u32 base off;
          sample_hosts fuel base usable want r (chosen ++ [off]) (out ++ [v4_from a])
    end
  else Done (out, r).

Definition sample_cidr_v4 (fuel : nat) (cidr : str) (n : Z) (r : R) : opt (list (list Z) * R) :=
  match parse_cidr_v4 cidr with
  | None => Done ([], r)
  | Some (base, prefix) =>
      let host_bits := saturating_sub 32 prefix in
      let size := if 32 <=? host_bits then u32_max else Z.shiftl 1 host_bits in
      if size <=? 2 then Done ([v4_from base], r)
      else
        let usable := size - 2 in
        let want := Z.min (u32 n) usable in
        sample_hosts fuel base usable want r [] []
  end.

(** One address of a known IPv4 range, to put into an IPv6 one.  Shifting by
    the width of the type panics. *)
Definition embedded_v4 (v4 : list (Z * Z)) (r : R) : opt (Z * R) :=
  if zlen v4 =? 0 then
    let '(w, r) := draw r in Done (u32 w, r)
  else
    '(i, r) ← pick r 0 (zlen v4 - 1);
    '(b, p) ← idx v4 i;
    let host_bits := saturating_sub 32 p in
    '(host, r) ←
      (if host_bits =? 0 then Done (0, r)
       else
         let '(w, r) := draw r in
         if host_bits <? 32 then Done (Z.land (u32 w) (Z.shiftl 1 host_bits - 1), r) else Panic);
    Done (Z.lor b host, r).

Fixpoint sample_v6 (n : nat) (base : Z) (v4 : list (Z * Z)) (r : R) : opt (list (list Z) * R) :=
  match n with
  | O => Done ([], r)
  | S n =>
      '(embedded, r) ← embedded_v4 v4 r;
      '(l, r) ← sample_v6 n base v4 r;
      Done (v6_from (Z.lor base embedded) :: l, r)
  end.

Definition sample_cidr_v6 (cidr : str) (n : Z) (v4_cidrs : list str) (r : R) : opt (list (list Z) * R) :=
  match parse_cidr_v6 cidr with
  | None => Done ([], r)
  | Some (base, prefix) =>
      if saturating_sub 128 prefix =? 0 then Done ([v6_from base], r)
      else
        let v4 := omap parse_cidr_v4 v4_cidrs in
        sample_v6 (Z.to_nat n) base v4 r
  end.

(** [.iter().map(…).collect()] over the ranges, threading the generator. *)
Fixpoint sample_ranges (f : str -> R -> opt (list (list Z) * R)) (cidrs : list str) (r : R)
  : opt (list (list (list Z)) * R) :=
  match cidrs with
  | [] => Done ([], r)
  | c :: cidrs =>
      '(hosts, r) ← f c r;
      '(rest, r) ← sample_ranges f cidrs r;
      Done (hosts :: rest, r)
  end.

End Sampling.

(** ** What the helpers return *)

(** An ordinary range: aligned, with at least two host bits. *)
Definition range_ok (cidr : str) (base bits : Z) : Prop :=
  parse_cidr_v4 cidr = Some (base, 32 - bits) /\ 2 <= bits <= 12 /\ base `mod` 2 ^ bits = 0.

Definition range_okb (cidr : str) : bool :=
  match parse_cidr_v4 cidr with
  | Some (base, prefix) => (20 <=? prefix) && (prefix <=? 30) && (base `mod` 2 ^ (32 - prefix) =? 0)
  | None => false
  end.

Lemma range_okb_spec cidr : range_okb cidr = true -> exists base bits, range_ok cidr base bits.
Proof.
  unfold range_okb, range_ok. destruct (parse_cidr_v4 cidr) as [[base prefix]|]; [|done].
  rewrite !andb_true_iff, !Z.leb_le, Z.eqb_eq. intros ((H1 & H2) & H3). exists base, (32 - prefix).
  replace (32 - (32 - prefix)) with prefix by lia. split; [done|lia].
Qed.

(** [o] is a host of the range: neither its first nor its last address. *)
Definition host_in (base bits : Z) (o : list Z) : Prop :=
  exists off, 1 <= off <= 2 ^ bits - 2 /\ o = v4_from (base + off).

Lemma pow2_small bits : 2 <= bits <= 12 -> 4 <= 2 ^ bits <= 4096.
Proof. intros Hb. change 4 with (2 ^ 2). change 4096 with (2 ^ 12). split; apply Z.pow_le_mono_r; lia. Qed.

Lemma parse_ipv4_ok s o : parse_ipv4 s = Some o -> ip_ok (V4 o).
Proof.
  unfold parse_ipv4. dest_if; [done|]. unfold parse_with.
  destruct (read_ipv4_addr s) as [[o' [|]]|] eqn:Er; try done.
  intros [= <-]. by apply read_ipv4_addr_ok in Er.
Qed.

Lemma parse_cidr_v4_base cidr base prefix : parse_cidr_v4 cidr = Some (base, prefix) -> 0 <= base < 2 ^ 32.
Proof.
  unfold parse_cidr_v4. destruct (split_once 47 cidr) as [[ip p]|]; [|done]. cbn [mbind option_bind].
  destruct (parse_ipv4 ip) as [o|] eqn:E; [|done]. cbn [mbind option_bind].
  destruct (parse_uint u8_max p); [|done]. cbn. intros [= <- <-].
  apply parse_ipv4_ok in E as [Hl Hb]. pose proof (be_value_bound o Hb) as H. unfold zlen in H.
  rewrite Hl in H. exact H.
Qed.

(** Aligned bases leave room for every host. *)
Lemma range_room cidr base bits off :
  range_ok cidr base bits -> 1 <= off <= 2 ^ bits - 2 -> 0 <= base /\ base + off <= u32_max.
Proof.
  intros (Hp & Hb & Ha) Ho. apply parse_cidr_v4_base in Hp. split; [lia|].
  pose proof (pow2_small bits Hb). unfold u32_max.
  assert (Hd : base / 2 ^ bits < 2 ^ (32 - bits)).
  { apply Z.div_lt_upper_bound; [lia|]. rewrite <- Z.pow_add_r by lia. replace (bits + (32 - bits)) with 32 by lia. lia. }
  pose proof (Z.div_mod base (2 ^ bits) ltac:(lia)).
  assert (2 ^ bits * (base / 2 ^ bits) + 2 ^ bits <= 2 ^ 32).
  { replace (2 ^ 32) with (2 ^ bits * 2 ^ (32 - bits)) by (rewrite <- Z.pow_add_r by lia; f_equal; lia). nia. }
  change (2 ^ 32) with 4294967296 in *. lia.
Qed.

Lemma add_u32_room cidr base bits off :
  range_ok cidr base bits -> 1 <= off <= 2 ^ bits - 2 -> add_u32 base off = Done (base + off).
Proof.
  intros Hr Ho. unfold add_u32. by rewrite (proj2 (Z.leb_le _ _)) by apply (range_room cidr base bits off Hr Ho).
Qed.

Lemma v4_from_inj a b : 0 <= a < 2 ^ 32 -> 0 <= b < 2 ^ 32 -> v4_from a = v4_from b -> a = b.
Proof.
  intros Ha Hb E. apply (f_equal be_value) in E. unfold v4_from in E. rewrite !be_value_bytes in E.
  change (256 ^ Z.of_nat 4) with (2 ^ 32) in E. by rewrite !Z.mod_small in E.
Qed.

Lemma hosts_at_spec cidr base bits offs :
  range_ok cidr base bits -> Forall (fun off => 1 <= off <= 2 ^ bits - 2) offs ->
  hosts_at base offs = Done ((fun off => v4_from (base + off)) <$> offs).
Proof.
  intros Hr. induction 1 as [|off offs Ho Hf IH]; [done|]. cbn [hosts_at].
  rewrite (add_u32_room cidr base bits off Hr Ho). cbn [mbind outcome_bind]. by rewrite IH.
Qed.

(** Enumerating a range gives every host of it, once and in order. *)
Lemma enumerate_cidr_v4_spec cidr base bits :
  range_ok cidr base bits ->
  enumerate_cidr_v4 cidr = Done ((fun off => v4_from (base + off)) <$> seqZ 1 (2 ^ bits - 2)).
Proof.
  intros Hr. pose proof Hr as (Hp & Hb & _). unfold enumerate_cidr_v4. rewrite Hp. pose proof (pow2_small bits Hb).
  unfold saturating_sub. replace (Z.max 0 (32 - (32 - bits))) with bits by lia.
  rewrite (proj2 (Z.eqb_neq _ _)), (proj2 (Z.ltb_ge _ _)) by lia.
  rewrite Z.shiftl_1_l. replace (Z.max 0 (2 ^ bits - 1) - 1) with (2 ^ bits - 2) by lia.
  rewrite (hosts_at_spec cidr base bits); [done|done|].
  apply list.Forall_forall. intros off Ho. apply elem_of_seqZ in Ho. lia.
Qed.

(** A sample of a range: different hosts of it, [want] of them. *)
Definition sample_of (base bits want : Z) (l : list (list Z)) : Prop :=
  NoDup l /\ Forall (host_in base bits) l /\ zlen l = want.

Section SampleFacts.
Context {R : Type} `{Rng R}.

Lemma sample_hosts_spec cidr base bits fuel want (r : R) chosen :
  range_ok cidr base bits -> 0 <= want <= 2 ^ bits - 2 -> NoDup chosen -> zlen chosen <= want ->
  Forall (fun off => 1 <= off <= 2 ^ bits - 2) chosen ->
  match sample_hosts fuel base (2 ^ bits - 2) want r chosen ((fun off => v4_from (base + off)) <$> chosen) with
  | Done (l, _) => sample_of base bits want l
  | Diverge => short_of want 0 chosen (drawn (fun w => 1 + w `mod` (2 ^ bits - 2)) fuel r)
  | _ => False
  end.
Proof.
  intros Hr Hw. assert (Hbits : 4 <= 2 ^ bits <= 4096) by (apply pow2_small, Hr).
  revert r chosen. induction fuel as [|fuel IH]; intros r chosen Hd Hle Hf; cbn [sample_hosts];
    assert (u32 (zlen ((fun off => v4_from (base + off)) <$> chosen)) = zlen chosen) as ->
      by (unfold zlen, u32 in *; rewrite length_fmap; apply Z.mod_small; lia);
    (destruct (Z.ltb_spec (zlen chosen) want) as [Hlt|Hge];
      [|split_and!; [|apply Forall_fmap; eapply List.Forall_impl; [|exact Hf]; intros o Ho; by exists o
                     |unfold zlen in *; rewrite length_fmap; lia]]).
  2,4: apply NoDup_fmap_2_strong; [|done]; rewrite list.Forall_forall in Hf; intros x y Hx%Hf Hy%Hf E;
    pose proof (range_room cidr base bits x Hr Hx); pose proof (range_room cidr base bits y Hr Hy);
    unfold u32_max in *; apply v4_from_inj in E; change (2 ^ 32) with 4294967296; lia.
  { intros cs _ Hcs _ _. destruct cs as [|c cs]; [change (zlen []) with 0; lia|].
    specialize (Hcs c ltac:(apply elem_of_cons; by left)). by apply not_elem_of_nil in Hcs. }
  unfold pick, drawn. cbn [draws]. destruct (draw r) as [w r']. unfold random_range.
  rewrite (proj2 (Z.leb_le _ _)) by lia. cbn [mbind outcome_bind].
  replace (2 ^ bits - 2 - 1 - 0 + 1) with (2 ^ bits - 2) by lia. rewrite Z.add_0_l.
  pose proof (Z.mod_pos_bound w (2 ^ bits - 2) ltac:(lia)) as Hc. set (c := 1 + w `mod` (2 ^ bits - 2)).
  specialize (IH r'). unfold drawn in IH. destruct (draws _ fuel r') as [dl rd]. cbn [fst] in *.
  case_bool_decide as Hin.
  { specialize (IH chosen Hd Hle Hf). destruct (sample_hosts _ _ _ _ _ _ _) as [[l ?]| | |]; try done.
    apply short_of_skip; [auto|done]. }
  rewrite (add_u32_room cidr base bits c Hr) by lia. cbn [mbind outcome_bind].
  specialize (IH (chosen ++ [c]) ltac:(by apply NoDup_snoc)).
  rewrite fmap_app in IH. cbn [fmap list_fmap] in IH.
  specialize (IH ltac:(rewrite zlen_app; change (zlen [c]) with 1; lia)
                 ltac:(apply Forall_app; split; [done|apply Forall_singleton; lia])).
  destruct (sample_hosts _ _ _ _ _ _ _) as [[l ?]| | |]; try done. by apply short_of_take.
Qed.

Lemma sample_cidr_v4_spec cidr base bits fuel n (r : R) :
  range_ok cidr base bits -> 0 <= n <= u32_max ->
  drawing (sample_cidr_v4 fuel cidr n r) (sample_of base bits (Z.min n (2 ^ bits - 2)))
    (short_of (Z.min n (2 ^ bits - 2)) 0 [] (drawn (fun w => 1 + w `mod` (2 ^ bits - 2)) fuel r)).
Proof.
  intros Hr Hn. pose proof Hr as (Hp & Hb & _). pose proof (pow2_small bits Hb).
  unfold sample_cidr_v4. rewrite Hp. unfold saturating_sub.
  replace (Z.max 0 (32 - (32 - bits))) with bits by lia.
  rewrite (proj2 (Z.leb_gt 32 bits)) by lia. rewrite Z.shiftl_1_l, (proj2 (Z.leb_gt (2 ^ bits) 2)) by lia.
  unfold u32 at 1. rewrite (Z.mod_small n) by (unfold u32_max in Hn; lia).
  apply (sample_hosts_spec cidr base bits fuel (Z.min n (2 ^ bits - 2)) r []);
    [done|lia|constructor|change (zlen []) with 0; lia|constructor].
Qed.

Lemma sample_ranges_spec (f : str -> R -> opt (list (list Z) * R)) cidrs Q D :
  Forall (fun c => forall r, drawing (f c r) (Q c) D) cidrs ->
  forall r, drawing (sample_ranges f cidrs r) (Forall2 Q cidrs) D.
Proof.
  induction 1 as [|c cidrs Hc Hf IH]; intros r; cbn [sample_ranges]; [constructor|].
  eapply drawing_bind; [apply Hc|]. intros hosts r1 Hh. cbn beta iota.
  eapply drawing_bind; [apply IH|]. intros rest r2 Hr. by constructor.
Qed.

End SampleFacts.

(** ** IPv6 addresses that carry an IPv4 one *)

Lemma lor_aligned a n b : 0 <= n -> a `mod` 2 ^ n = 0 -> 0 <= b < 2 ^ n -> Z.lor a b = a + b.
Proof.
  intros Hn Ha Hb. assert (0 < 2 ^ n) by lia.
  rewrite (Z.div_mod a (2 ^ n)) by lia. rewrite Ha, Z.add_0_r, Z.mul_comm.
  rewrite <- Z.shiftl_mul_pow2 at 1 by done. by apply lor_shiftl.
Qed.

(** [o] is an address of the range at [base] whose last four octets are an
    address of one of the IPv4 ranges [v4]. *)
Definition embeds (base : Z) (v4 : list (Z * Z)) (o : list Z) : Prop :=
  exists b p h, (b, p) ∈ v4 /\ 0 <= h < 2 ^ (32 - p) /\ o = v6_from (base + (b + h)).

Definition v4_range_ok (bp : Z * Z) : Prop :=
  0 <= bp.1 < 2 ^ 32 /\ 1 <= bp.2 <= 32 /\ bp.1 `mod` 2 ^ (32 - bp.2) = 0.

Section SampleV6.
Context {R : Type} `{Rng R}.

Lemma embedded_v4_spec v4 (r : R) :
  v4 <> [] -> Forall v4_range_ok v4 ->
  wp (embedded_v4 v4 r)
     (fun v => exists b p h, (b, p) ∈ v4 /\ 0 <= h < 2 ^ (32 - p) /\ v.1 = b + h) (fun _ => False).
Proof.
  intros Hne Hf. unfold embedded_v4.
  assert (0 < zlen v4) by (destruct v4; [done|rewrite zlen_cons; pose proof (zlen_nonneg v4); lia]).
  rewrite (proj2 (Z.eqb_neq _ _)) by lia. apply wp_bind, wp_pick; [lia|]. intros i r1 Hi.
  apply wp_bind, wp_idx; [lia|]. intros [b p] Hg. apply zget_In, list_elem_of_In in Hg.
  rewrite list.Forall_forall in Hf. destruct (Hf _ Hg) as (Hb & Hp & Ha). cbn [fst snd] in *.
  unfold saturating_sub. replace (Z.max 0 (32 - p)) with (32 - p) by lia.
  apply wp_bind. destruct (Z.eqb_spec (32 - p) 0) as [E|Hne0].
  - cbn [wp]. exists b, p, 0. split; [done|]. rewrite E. split; [lia|]. cbn. by rewrite Z.lor_0_r, Z.add_0_r.
  - destruct (draw r1) as [w r2]. rewrite (proj2 (Z.ltb_lt _ _)) by lia. cbn [wp].
    rewrite Z.shiftl_1_l. rewrite Z.sub_1_r, <- Z.ones_equiv, Z.land_ones by lia.
    pose proof (Z.mod_pos_bound (u32 w) (2 ^ (32 - p)) ltac:(lia)).
    exists b, p, (u32 w `mod` 2 ^ (32 - p)). split; [done|]. split; [done|]. cbn [fst].
    apply (lor_aligned b (32 - p)); [lia|done|lia].
Qed.

Lemma v4_embedded_small b p h :
  v4_range_ok (b, p) -> 0 <= h < 2 ^ (32 - p) -> 0 <= b + h < 2 ^ 32.
Proof.
  intros (Hb & Hp & Ha) Hh. cbn [fst snd] in *. set (n := 32 - p) in *.
  assert (Hd : b / 2 ^ n < 2 ^ p).
  { apply Z.div_lt_upper_bound; [lia|]. rewrite <- Z.pow_add_r by lia. replace (n + p) with 32 by lia. lia. }
  pose proof (Z.div_mod b (2 ^ n) ltac:(lia)).
  assert (2 ^ n * (b / 2 ^ n) + 2 ^ n <= 2 ^ 32).
  { replace (2 ^ 32) with (2 ^ n * 2 ^ p) by (rewrite <- Z.pow_add_r by lia; f_equal; lia). nia. }
  lia.
Qed.

Lemma sample_v6_spec n base v4 (r : R) :
  v4 <> [] -> Forall v4_range_ok v4 -> base `mod` 2 ^ 32 = 0 ->
  wp (sample_v6 n base v4 r) (fun v => length v.1 = n /\ Forall (embeds base v4) v.1) (fun _ => False).
Proof.
  intros Hne Hf Hb. revert r. induction n as [|n IH]; intros r; cbn [sample_v6]; [by split|].
  apply wp_bind. eapply wp_mono; [by apply embedded_v4_spec| |done].
  intros [e r1] (b & p & h & Hin & Hh & He). cbn [fst] in He.
  apply wp_bind. eapply wp_mono; [apply IH| |done]. intros [l r2] [Hl Hfl]. cbn [fst wp] in *.
  split; [cbn [length]; lia|]. constructor; [|done]. exists b, p, h. split; [done|split; [done|]].
  rewrite list.Forall_forall in Hf. rewrite He, (lor_aligned base 32); [done|lia|done|].
  apply (v4_embedded_small b p); auto.
Qed.

End SampleV6.
