(* ===== verification/Prober.v ===== *)
(** * Scanning for a MASQUE gateway (src/native/aether/aether/src/prober.rs)

    The addresses and ports that are tried, in which order, and how the best
    answer is selected.  Durations are in milliseconds.  The environment is the
    function [env]; samples draw from a random generator.  The checks of a
    single gateway go over the network and are parameters. *)

From stdpp Require Import base list option numbers.
From Stdlib Require Import ZArith Lia.
From S2P Require Import Prelude ListFacts Rand RustStr StrFacts Error Net Sysprofile Cidr.

Definition MASQUE_CIDRS_V4 : list str :=
  [lit "162.159.196.0/24"; lit "162.159.195.0/24"; lit "162.159.192.0/24"; lit "162.159.193.0/24";
   lit "162.159.204.0/24"; lit "162.159.197.0/24"; lit "162.159.198.0/24"; lit "172.65.251.0/24";
   lit "188.114.96.0/24"; lit "188.114.97.0/24"; lit "188.114.98.0/24"; lit "188.114.99.0/24";
   lit "162.159.36.0/24"; lit "162.159.46.0/24"].
Definition MASQUE_SEEDS : list str :=
  [lit "162.159.196.1"; lit "162.159.195.1"; lit "162.159.192.1"; lit "162.159.197.3";
   lit "162.159.197.1"; lit "162.159.198.2"; lit "162.159.198.1"; lit "162.159.193.1"].
Definition MASQUE_PORTS : list Z := [443; 500; 1701; 4500; 4443; 8443; 8095].
Definition MASQUE_CIDRS_V6 : list str :=
  [lit "2606:4700:d0::/48"; lit "2606:4700:102::/48"; lit "2606:4700:d1::/48"].
Definition MASQUE_ZT_CIDRS_V4 : list str := [lit "162.159.197.0/24"].
Definition MASQUE_ZT_CIDRS_V6 : list str := [lit "2606:4700:102::/48"].
Definition MASQUE_SEEDS_V6 : list str :=
  [lit "2606:4700:d0::a29f:c602"; lit "2606:4700:d1::a29f:c602"; lit "2606:4700:d0::a29f:c601";
   lit "2606:4700:d0::a29f:c001"].

Definition zero_trust_mode (env : environment) : bool :=
  match env (lit "AETHER_TEAM") with
  | Some value => negb (str_eqb (trim value) [])
  | None => false
  end.

Definition prioritize (env : environment) (all first : list str) : list str :=
  if negb (zero_trust_mode env) then all
  else
    let out := List.filter (fun entry => bool_decide (entry ∈ all)) first in
    add_all out all.

Definition masque_cidrs_v4 (env : environment) : list str := prioritize env MASQUE_CIDRS_V4 MASQUE_ZT_CIDRS_V4.
Definition masque_cidrs_v6 (env : environment) : list str := prioritize env MASQUE_CIDRS_V6 MASQUE_ZT_CIDRS_V6.

(** [matches!(v, "a" | "b" …)] *)
Definition one_of (v : str) (l : list str) : bool := existsb (str_eqb v) l.

Module IpScan.

Inductive t := V4 | V6 | Both.

#[global] Instance t_eq_dec : EqDecision t.
Proof. solve_decision. Defined.

Definition parse `{UnicodeData} (s : str) : t :=
  let v := to_lowercase (trim s) in
  if one_of v [lit "6"; lit "v6"; lit "ipv6"] then V6
  else if one_of v [lit "both"; lit "all"; lit "dual"] then Both
  else V4.

Definition want_v4 (ip : t) : bool := match ip with V4 | Both => true | V6 => false end.
Definition want_v6 (ip : t) : bool := match ip with V6 | Both => true | V4 => false end.

End IpScan.

Module ScanMode.

Inductive t := Turbo | Balanced | Thorough | Verified | Ironclad.

#[global] Instance t_eq_dec : EqDecision t.
Proof. solve_decision. Defined.

Definition parse `{UnicodeData} (s : str) : t :=
  let v := to_lowercase (trim s) in
  if one_of v [lit "turbo"; lit "fast"] then Turbo
  else if one_of v [lit "thorough"; lit "deep"; lit "pro"] then Thorough
  else if one_of v [lit "verified"; lit "proven"; lit "stealth"; lit "quiet"] then Verified
  else if one_of v [lit "ironclad"; lit "real"; lit "verify"; lit "guaranteed"] then Ironclad
  else Balanced.

End ScanMode.

Record Strategy := mkStrategy {
  concurrency : Z;
  per_probe_timeout : Z;
  overall_deadline : Z;
  quiet_after_first : Z;
  target_successes : Z;
  early_exit_first : bool;
  full_subnet : bool;
  sample_per_cidr : Z
}.

Definition strategy (mode : ScanMode.t) : Strategy :=
  match mode with
  | ScanMode.Turbo => mkStrategy 20 6000 45000 0 1 true false 64
  | ScanMode.Balanced => mkStrategy 16 6000 120000 20000 6 false false 140
  | ScanMode.Thorough => mkStrategy 20 10000 300000 30000 0 false true 0
  | ScanMode.Verified => mkStrategy 16 5000 60000 8000 4 false false 48
  | ScanMode.Ironclad => mkStrategy 4 15000 180000 15000 3 false false 140
  end.

(** ** Candidates *)

Definition candidate : Type := IpAddr * Z.

Definition at_port (port : Z) (ip : IpAddr) : candidate := (ip, port).

(** The ports tried after the first one. *)
Definition other_ports (primary : Z) (ports : list Z) (ip : IpAddr) : list candidate :=
  (fun port => (ip, port)) <$> List.filter (fun port => negb (port =? primary)) ports.

Section Candidates.
Context {R : Type} `{Rng R}.

Definition range_hosts (fuel : nat) (full : bool) (per : Z) (c : str) (r : R) : opt (list (list Z) * R) :=
  if full then l ← enumerate_cidr_v4 c; Done (l, r) else sample_cidr_v4 fuel c per r.

Definition build_candidates (fuel : nat) (env : environment) (st : Strategy) (ports : list Z) (ip : IpScan.t)
  (r : R) : opt (list candidate * R) :=
  let primary := default 443 (head ports) in
  let seeds := V4 <$> omap parse_ipv4 MASQUE_SEEDS in
  let seeds6 := V6 <$> omap parse_ipv6 MASQUE_SEEDS_V6 in
  let out := [] in
  '(out, r) ←
    (if IpScan.want_v4 ip then
       let out := add_all out (at_port primary <$> seeds) in
       '(cidr_hosts, r) ← sample_ranges (range_hosts fuel (full_subnet st) (sample_per_cidr st)) (masque_cidrs_v4 env) r;
       Done (add_all out (at_port primary <$> (V4 <$> by_turns cidr_hosts)), r)
     else Done (out, r));
  '(out, r) ←
    (if IpScan.want_v6 ip then
       let out := add_all out (at_port primary <$> seeds6) in
       let per := if sample_per_cidr st =? 0 then 96 else sample_per_cidr st in
       '(cidr6, r) ← sample_ranges (fun c r => sample_cidr_v6 c per MASQUE_CIDRS_V4 r) (masque_cidrs_v6 env) r;
       Done (add_all out (at_port primary <$> (V6 <$> by_turns cidr6)), r)
     else Done (out, r));
  let out := if IpScan.want_v4 ip then add_all out (flat_map (other_ports primary ports) seeds) else out in
  let out := if IpScan.want_v6 ip then add_all out (flat_map (other_ports primary ports) seeds6) else out in
  Done (out, r).

End Candidates.

Definition ms_timeouts_ok (st : Strategy) : Prop := 0 <= sample_per_cidr st <= u32_max.

Lemma strategy_ok mode : ms_timeouts_ok (strategy mode).
Proof. by destruct mode. Qed.

(** ** What is tried *)

(** The wanted entries first, and none lost or repeated. *)
Lemma prioritize_Permutation env all first :
  NoDup all -> NoDup first -> prioritize env all first ≡ₚ all.
Proof.
  intros Ha Hf. unfold prioritize. destruct (negb (zero_trust_mode env)); [done|]. apply NoDup_Permutation; [|done|].
  - apply add_all_NoDup, NoDup_ListNoDup, List.NoDup_filter, NoDup_ListNoDup, Hf.
  - intros x. rewrite elem_of_add_all. split; [|by right]. intros [Hx|Hx]; [|done].
    apply list_elem_of_In, List.filter_In in Hx as [_ Hx]. by apply bool_decide_eq_true in Hx.
Qed.

Lemma prioritize_first env all first :
  zero_trust_mode env = true -> first ⊆ all -> first `prefix_of` prioritize env all first.
Proof.
  intros Hz Hs. unfold prioritize. rewrite Hz. cbn [negb].
  assert (List.filter (fun entry => bool_decide (entry ∈ all)) first = first) as ->; [|apply add_all_prefix].
  induction first as [|x first IH]; [done|]. cbn [List.filter].
  rewrite bool_decide_true by (apply Hs, elem_of_cons; by left). f_equal. apply IH.
  intros y Hy. apply Hs, elem_of_cons. by right.
Qed.

Ltac list_nodup := apply (bool_decide_unpack _); vm_compute; exact I.

Lemma masque_cidrs_v4_Permutation env : masque_cidrs_v4 env ≡ₚ MASQUE_CIDRS_V4.
Proof. apply prioritize_Permutation; list_nodup. Qed.
Lemma masque_cidrs_v6_Permutation env : masque_cidrs_v6 env ≡ₚ MASQUE_CIDRS_V6.
Proof. apply prioritize_Permutation; list_nodup. Qed.

(** The ranges of the lists are ordinary ones. *)
Definition v6_range_ok (cidr : str) (base : Z) : Prop :=
  exists prefix, parse_cidr_v6 cidr = Some (base, prefix) /\ 0 <= prefix < 128 /\ base `mod` 2 ^ 32 = 0.

Definition v6_range_okb (cidr : str) : bool :=
  match parse_cidr_v6 cidr with
  | Some (base, prefix) => (0 <=? prefix) && (prefix <? 128) && (base `mod` 2 ^ 32 =? 0)
  | None => false
  end.

Lemma v6_range_okb_spec cidr : v6_range_okb cidr = true -> exists base, v6_range_ok cidr base.
Proof.
  unfold v6_range_okb, v6_range_ok. destruct (parse_cidr_v6 cidr) as [[base prefix]|]; [|done].
  rewrite !andb_true_iff, Z.leb_le, Z.ltb_lt, Z.eqb_eq. intros ((? & ?) & ?). by exists base, prefix.
Qed.

Definition v4_range_okb (bp : Z * Z) : bool :=
  (0 <=? bp.1) && (bp.1 <? 2 ^ 32) && (1 <=? bp.2) && (bp.2 <=? 32) && (bp.1 `mod` 2 ^ (32 - bp.2) =? 0).

Lemma v4_range_okb_spec l : forallb v4_range_okb l = true -> Forall v4_range_ok l.
Proof.
  rewrite forallb_forall. intros Hl. apply list.Forall_forall. intros bp Hbp.
  apply list_elem_of_In, Hl in Hbp. unfold v4_range_okb in Hbp.
  rewrite !andb_true_iff, !Z.leb_le, Z.ltb_lt, Z.eqb_eq in Hbp. unfold v4_range_ok. lia.
Qed.

Definition masque_v4_ranges : list (Z * Z) := omap parse_cidr_v4 MASQUE_CIDRS_V4.

Lemma masque_v4_ranges_ok : masque_v4_ranges <> [] /\ Forall v4_range_ok masque_v4_ranges.
Proof. split; [vm_compute; done|]. apply v4_range_okb_spec. vm_compute. done. Qed.

Lemma masque_cidrs_v4_ok c : c ∈ MASQUE_CIDRS_V4 -> exists base bits, range_ok c base bits.
Proof.
  intros Hc. apply range_okb_spec. revert c Hc. apply list.Forall_forall, List.Forall_forall, forallb_forall.
  vm_compute. done.
Qed.

Lemma masque_cidrs_v6_ok c : c ∈ MASQUE_CIDRS_V6 -> exists base, v6_range_ok c base.
Proof.
  intros Hc. apply v6_range_okb_spec. revert c Hc. apply list.Forall_forall, List.Forall_forall, forallb_forall.
  vm_compute. done.
Qed.

Definition seeds_v4 : list IpAddr := V4 <$> omap parse_ipv4 MASQUE_SEEDS.
Definition seeds_v6 : list IpAddr := V6 <$> omap parse_ipv6 MASQUE_SEEDS_V6.
Definition first_port (ports : list Z) : Z := default 443 (head ports).

Section CandidateFacts.
Context {R : Type} `{Rng R}.

(** The hosts taken from an IPv4 range: all of them in a full scan, otherwise a
    sample of the size asked for. *)
Definition hosts_found (full : bool) (per : Z) (c : str) (l : list (list Z)) : Prop :=
  exists base bits, range_ok c base bits /\
    if full then l = (fun off => v4_from (base + off)) <$> seqZ 1 (2 ^ bits - 2)
    else sample_of base bits (Z.min per (2 ^ bits - 2)) l.

(** Some state of the generator does not supply a sample within the fuel. *)
Definition starved (fuel : nat) (full : bool) (per : Z) : Prop :=
  full = false /\ exists bits (r : R), 2 <= bits <= 12 /\
    short_of (Z.min per (2 ^ bits - 2)) 0 [] (drawn (fun w => 1 + w `mod` (2 ^ bits - 2)) fuel r).

Lemma range_hosts_spec fuel full per c (r : R) :
  0 <= per <= u32_max -> (exists base bits, range_ok c base bits) ->
  drawing (range_hosts fuel full per c r) (hosts_found full per c) (starved fuel full per).
Proof.
  intros Hp (base & bits & Hr). unfold range_hosts, hosts_found, starved. destruct full.
  - rewrite (enumerate_cidr_v4_spec c base bits Hr). cbn. by exists base, bits.
  - eapply drawing_mono; [by apply (sample_cidr_v4_spec c base bits)| |].
    + intros l Hl. by exists base, bits.
    + intros Hs. split; [done|]. exists bits, r. split; [apply Hr|done].
Qed.

Definition embedded_found (v4 : list (Z * Z)) (per : Z) (c : str) (l : list (list Z)) : Prop :=
  exists base, v6_range_ok c base /\ zlen l = per /\ Forall (embeds base v4) l.

Lemma sample_cidr_v6_spec c per v4 (r : R) D :
  0 <= per -> omap parse_cidr_v4 v4 <> [] -> Forall v4_range_ok (omap parse_cidr_v4 v4) ->
  (exists base, v6_range_ok c base) ->
  drawing (sample_cidr_v6 c per v4 r) (embedded_found (omap parse_cidr_v4 v4) per c) D.
Proof.
  intros Hp Hne Hf (base & prefix & Hc & Hx & Hb). unfold sample_cidr_v6. rewrite Hc.
  unfold saturating_sub. rewrite (proj2 (Z.eqb_neq (Z.max 0 (128 - prefix)) 0)) by lia.
  apply wp_drawing. eapply wp_mono; [by apply sample_v6_spec| |done].
  intros [l r'] [Hl Hfl]. cbn [fst] in *. exists base. split_and!; [by exists prefix|unfold zlen; lia|done].
Qed.

(** Everything a scan tries, in order and before repetitions are dropped. *)
Definition attempts (ip : IpScan.t) (ports : list Z) (pool4 pool6 : list (list (list Z))) : list candidate :=
  let primary := first_port ports in
  (if IpScan.want_v4 ip then at_port primary <$> seeds_v4 ++ (V4 <$> by_turns pool4) else []) ++
  (if IpScan.want_v6 ip then at_port primary <$> seeds_v6 ++ (V6 <$> by_turns pool6) else []) ++
  (if IpScan.want_v4 ip then flat_map (other_ports primary ports) seeds_v4 else []) ++
  (if IpScan.want_v6 ip then flat_map (other_ports primary ports) seeds_v6 else []).

Definition pools_found (env : environment) (st : Strategy) (ip : IpScan.t)
  (pool4 pool6 : list (list (list Z))) : Prop :=
  (IpScan.want_v4 ip = true ->
     Forall2 (hosts_found (full_subnet st) (sample_per_cidr st)) (masque_cidrs_v4 env) pool4) /\
  (IpScan.want_v6 ip = true ->
     Forall2 (embedded_found masque_v4_ranges (if sample_per_cidr st =? 0 then 96 else sample_per_cidr st))
       (masque_cidrs_v6 env) pool6).

Lemma build_candidates_spec fuel env st ports ip (r : R) :
  ms_timeouts_ok st ->
  drawing (build_candidates fuel env st ports ip r)
    (fun out => exists pool4 pool6, pools_found env st ip pool4 pool6 /\
       out = add_all [] (attempts ip ports pool4 pool6))
    (IpScan.want_v4 ip = true /\ starved fuel (full_subnet st) (sample_per_cidr st)).
Proof.
  intros Hst. unfold build_candidates, ms_timeouts_ok in *. fold (first_port ports) seeds_v4 seeds_v6.
  destruct masque_v4_ranges_ok as [Hne Hv4].
  eapply (drawing_bind _ _ (fun out => exists pool4,
    (IpScan.want_v4 ip = true ->
       Forall2 (hosts_found (full_subnet st) (sample_per_cidr st)) (masque_cidrs_v4 env) pool4) /\
    out = add_all [] (if IpScan.want_v4 ip
                      then at_port (first_port ports) <$> seeds_v4 ++ (V4 <$> by_turns pool4) else []))).
  { destruct (IpScan.want_v4 ip); [|by exists []].
    eapply drawing_bind;
      [eapply (drawing_mono _ _ _ (starved fuel (full_subnet st) (sample_per_cidr st)));
        [apply sample_ranges_spec|intros a Ha; exact Ha|by split]|].
    - apply list.Forall_forall. intros c Hc r'. rewrite masque_cidrs_v4_Permutation in Hc.
      apply range_hosts_spec; [done|by apply masque_cidrs_v4_ok].
    - intros pool4 r1 Hp. exists pool4. split; [done|]. by rewrite fmap_app, add_all_app. }
  intros out1 r1 (pool4 & Hp4 & ->). cbn beta iota.
  eapply (drawing_bind _ _ (fun out => exists pool6,
    (IpScan.want_v6 ip = true ->
       Forall2 (embedded_found masque_v4_ranges (if sample_per_cidr st =? 0 then 96 else sample_per_cidr st))
         (masque_cidrs_v6 env) pool6) /\
    out = add_all [] ((if IpScan.want_v4 ip
                       then at_port (first_port ports) <$> seeds_v4 ++ (V4 <$> by_turns pool4) else []) ++
                      (if IpScan.want_v6 ip
                       then at_port (first_port ports) <$> seeds_v6 ++ (V6 <$> by_turns pool6) else [])))).
  { destruct (IpScan.want_v6 ip); [|exists []; by rewrite app_nil_r].
    eapply drawing_bind; [apply sample_ranges_spec|].
    - apply list.Forall_forall. intros c Hc r'. rewrite masque_cidrs_v6_Permutation in Hc.
      apply sample_cidr_v6_spec; [dest_if; lia|done|done|by apply masque_cidrs_v6_ok].
    - intros pool6 r2 Hp. exists pool6. split; [done|].
      by rewrite (fmap_app _ seeds_v6), !add_all_app. }
  intros out2 r2 (pool6 & Hp6 & ->). exists pool4, pool6. split; [done|].
  unfold attempts. rewrite app_assoc. rewrite (add_all_app _ (_ ++ _)).
  destruct (IpScan.want_v4 ip), (IpScan.want_v6 ip); cbn [app]; by rewrite ?add_all_app, ?app_nil_r.
Qed.

End CandidateFacts.

(** ** The scan *)

Record ProbeResult := mkProbe { pr_ip : IpAddr; pr_port : Z; rtt : Z }.

#[global] Instance ProbeResult_eq_dec : EqDecision ProbeResult.
Proof. solve_decision. Defined.

(** What a pass of a scan's loop meets: the clock at its top, when the next
    answer is ready, which branch of [select!] is polled first, and the clock
    after the answer. *)
Record tick := mkTick { top : Z; ready : Z; sleep_first : bool; after : Z }.

(** [remaining] of the time before [effective], and whether the sleep of that
    length ends before the next answer. *)
Definition remaining (effective : Z) (t : tick) : Z := saturating_sub effective (top t).
Definition sleeps (effective : Z) (t : tick) : bool :=
  let ends := top t + remaining effective t in
  (ends <? ready t) || ((ends =? ready t) && sleep_first t).

Record Scan := mkScan { best : option ProbeResult; found : Z; quiet_until : option Z }.

Definition effective_deadline (deadline : Z) (quiet : option Z) : Z :=
  match quiet with Some q => Z.min q deadline | None => deadline end.

Definition better (cur : option ProbeResult) (pr : ProbeResult) : option ProbeResult :=
  match cur with
  | Some c => if rtt c <=? rtt pr then Some c else Some pr
  | None => Some pr
  end.

(** The loop on the answers still to come; it returns at once ([inl]) or
    breaks ([inr]). *)
Fixpoint scan_loop (st : Strategy) (deadline : Z) (clock : nat -> tick) (k : nat)
  (stream : list (option ProbeResult)) (s : Scan) : ProbeResult + Scan :=
  let effective := effective_deadline deadline (quiet_until s) in
  let t := clock k in
  if remaining effective t =? 0 then inr s
  else if sleeps effective t then inr s
  else
    match stream with
    | [] => inr s
    | None :: stream => scan_loop st deadline clock (S k) stream s
    | Some pr :: stream =>
        if early_exit_first st then inl pr
        else
          let s := mkScan (better (best s) pr) (found s + 1) (quiet_until s) in
          if (0 <? target_successes st) && (target_successes st <=? found s) && bool_decide (quiet_until s = None) then
            if negb (quiet_after_first st =? 0) then
              scan_loop st deadline clock (S k) stream
                (mkScan (best s) (found s) (Some (after t + quiet_after_first st)))
            else inr s
          else scan_loop st deadline clock (S k) stream s
    end.

(** The network: whether the host routes IPv6, whether HTTP/2 is chosen, and
    the three checks of a gateway with the round trip they measure. *)
Record network := mkNetwork {
  host_has_ipv6 : bool;
  h2_enabled : bool;
  masque_http_ping : SocketAddr -> option Z;
  verify_h2 : SocketAddr -> option Z;
  verify_masque : SocketAddr -> option Z
}.

Definition verify_one (net : network) (ironclad : bool) (c : candidate) : option ProbeResult :=
  let '(ip, port) := c in
  let peer := sock ip port in
  let check := if ironclad then masque_http_ping net else if h2_enabled net then verify_h2 net else verify_masque net in
  rtt ← check peer;
  Some (mkProbe ip port rtt).

Definition effective_ip (has_ipv6 : bool) (ip : IpScan.t) : aresult IpScan.t :=
  if IpScan.want_v6 ip && negb has_ipv6 then
    if IpScan.want_v4 ip then Done IpScan.V4 else Fail NoCleanEndpoint
  else Done ip.

Definition no_fail {A} (m : opt A) : aresult A :=
  match m with Done a => Done a | Fail _ | Panic => Panic | Diverge => Diverge end.

Section Hunt.
Context {R : Type} `{Rng R}.

(** [complete] is the order in which [buffer_unordered] hands out answers. *)
Definition hunt_best_gateway (fuel : nat) (env : environment) (net : network)
  (complete : list (option ProbeResult) -> list (option ProbeResult)) (start : Z) (clock : nat -> tick)
  (ports : list Z) (ip : IpScan.t) (mode : ScanMode.t) (r : R) : aresult ProbeResult :=
  let st := strategy mode in
  ip ← effective_ip (host_has_ipv6 net) ip;
  '(candidates, r) ← no_fail (build_candidates fuel env st ports ip r);
  let ironclad := bool_decide (mode = ScanMode.Ironclad) in
  let stream := complete (verify_one net ironclad <$> candidates) in
  match scan_loop st (start + overall_deadline st) clock 0 stream (mkScan None 0 None) with
  | inl pr => Done pr
  | inr s => match best s with Some pr => Done pr | None => Fail NoCleanEndpoint end
  end.

End Hunt.

(** *** What the loop returns *)

Definition successes (l : list (option ProbeResult)) : list ProbeResult := omap id l.

(** The first of the quickest answers. *)
Definition quickest (l : list ProbeResult) : option ProbeResult := fold_left better l None.

Lemma quickest_snoc l x : quickest (l ++ [x]) = better (quickest l) x.
Proof. unfold quickest. by rewrite fold_left_app. Qed.

Lemma quickest_spec l :
  match quickest l with
  | Some pr => exists a b, l = a ++ pr :: b /\ Forall (fun x => rtt pr < rtt x) a /\ Forall (fun x => rtt pr <= rtt x) b
  | None => l = []
  end.
Proof.
  induction l as [|x l IH] using rev_ind; [done|]. rewrite quickest_snoc.
  destruct (quickest l) as [c|] eqn:E; cbn [better].
  - destruct IH as (a & b & -> & Ha & Hb). destruct (Z.leb_spec (rtt c) (rtt x)).
    + exists a, (b ++ [x]). split; [by rewrite <- app_assoc|]. split; [done|].
      apply Forall_app. by split; [|apply Forall_singleton].
    + exists (a ++ c :: b), []. split; [done|]. split; [|constructor]. apply Forall_app. split.
      * eapply List.Forall_impl; [|exact Ha]. cbn. lia.
      * constructor; [done|]. eapply List.Forall_impl; [|exact Hb]. cbn. lia.
  - subst l. by exists [], [].
Qed.

(** Why a scan stops: the answers are all in, enough of them are, or the time
    is up before the next one. *)
Definition stop_reason (st : Strategy) (deadline : Z) (clock : nat -> tick) (n : nat) (stream : list (option ProbeResult)) : Prop :=
  n = length stream \/
  0 < target_successes st <= zlen (successes (take n stream)) \/
  deadline <= top (clock n) \/ deadline <= ready (clock n).

Lemma time_is_up deadline q t :
  remaining (effective_deadline deadline q) t = 0 \/ sleeps (effective_deadline deadline q) t = true ->
  q <> None \/ deadline <= top t \/ deadline <= ready t.
Proof.
  unfold sleeps, remaining, saturating_sub, effective_deadline. intros H.
  destruct q as [q|]; [by left|right]. destruct H as [H|H]; [left; lia|].
  rewrite orb_true_iff, andb_true_iff, Z.ltb_lt, Z.eqb_eq in H. lia.
Qed.

Lemma successes_snoc l o : successes (l ++ [o]) = successes l ++ (match o with Some x => [x] | None => [] end).
Proof. unfold successes. rewrite omap_app. by destruct o. Qed.

(** The passes before the [n]th began before the deadline, their answer was
    there by it, and the wanted number had not been reached before them, unless
    the scan stays a while to listen. *)
Definition awaited (st : Strategy) (deadline : Z) (clock : nat -> tick) (n : nat) (stream : list (option ProbeResult)) : Prop :=
  forall m, (m < n)%nat ->
    top (clock m) < deadline /\ ready (clock m) <= deadline /\
    (0 < target_successes st -> quiet_after_first st = 0 -> zlen (successes (take m stream)) < target_successes st).

Lemma not_yet_up deadline q t :
  remaining (effective_deadline deadline q) t <> 0 -> sleeps (effective_deadline deadline q) t = false ->
  top t < deadline /\ ready t <= deadline.
Proof.
  unfold sleeps, remaining, saturating_sub, effective_deadline. intros Hr Hs.
  apply orb_false_iff in Hs as [Hs _]. apply Z.ltb_ge in Hs. destruct q; lia.
Qed.

Lemma awaited_step st deadline clock q pre stream :
  remaining (effective_deadline deadline q) (clock (length pre)) <> 0 ->
  sleeps (effective_deadline deadline q) (clock (length pre)) = false ->
  (0 < target_successes st -> quiet_after_first st = 0 -> zlen (successes pre) < target_successes st) ->
  awaited st deadline clock (length pre) (pre ++ stream) ->
  awaited st deadline clock (S (length pre)) (pre ++ stream).
Proof.
  intros Hr Hs Ht Ha m Hm. destruct (decide (m = length pre)) as [->|Hne]; [|apply Ha; lia].
  destruct (not_yet_up deadline q (clock (length pre)) Hr Hs). rewrite take_app_length. auto.
Qed.

(** [pre] is what the loop has already taken from the stream. *)
Lemma scan_loop_spec st deadline clock pre stream s :
  best s = quickest (successes pre) -> found s = zlen (successes pre) ->
  (quiet_until s <> None -> 0 < target_successes st <= found s /\ quiet_after_first st <> 0) ->
  (quiet_until s = None -> 0 < target_successes st -> found s < target_successes st) ->
  (early_exit_first st = true -> successes pre = []) ->
  awaited st deadline clock (length pre) (pre ++ stream) ->
  match scan_loop st deadline clock (length pre) stream s with
  | inl pr => early_exit_first st = true /\ exists n, (pre ++ stream) !! n = Some (Some pr) /\
      successes (take n (pre ++ stream)) = [] /\ awaited st deadline clock (S n) (pre ++ stream)
  | inr s' => exists n, best s' = quickest (successes (take n (pre ++ stream))) /\
      stop_reason st deadline clock n (pre ++ stream) /\ awaited st deadline clock n (pre ++ stream) /\
      (early_exit_first st = true -> successes (take n (pre ++ stream)) = [])
  end.
Proof.
  assert (Hstop : forall pre stream s,
    best s = quickest (successes pre) -> found s = zlen (successes pre) ->
    (quiet_until s <> None -> 0 < target_successes st <= found s /\ quiet_after_first st <> 0) ->
    (early_exit_first st = true -> successes pre = []) ->
    awaited st deadline clock (length pre) (pre ++ stream) ->
    remaining (effective_deadline deadline (quiet_until s)) (clock (length pre)) = 0 \/
    sleeps (effective_deadline deadline (quiet_until s)) (clock (length pre)) = true ->
    exists n, best s = quickest (successes (take n (pre ++ stream))) /\
      stop_reason st deadline clock n (pre ++ stream) /\ awaited st deadline clock n (pre ++ stream) /\
      (early_exit_first st = true -> successes (take n (pre ++ stream)) = [])).
  { intros pre0 stream0 s0 Hb Hf Hq He Ha H. exists (length pre0). unfold stop_reason. rewrite take_app_length.
    split; [done|]. split; [|done]. right. rewrite <- Hf.
    apply time_is_up in H as [H|H]; [left; by apply Hq|by right]. }
  revert pre s. induction stream as [|o stream IH]; intros pre s Hb Hf Hq Hn He Ha; cbn [scan_loop];
    (destruct (Z.eqb_spec (remaining (effective_deadline deadline (quiet_until s)) (clock (length pre))) 0) as [Hr|Hr];
      [apply Hstop; auto|destruct (sleeps _ _) eqn:Hs; [apply Hstop; auto|]]).
  { exists (length pre). unfold stop_reason. rewrite app_nil_r, firstn_all in *. split; [done|]. split; [by left|done]. }
  assert (Ha' : awaited st deadline clock (S (length pre)) (pre ++ o :: stream)).
  { eapply awaited_step; [exact Hr|exact Hs| |done]. intros Ht Hq0. rewrite <- Hf.
    destruct (quiet_until s) eqn:Eq; [|by apply Hn]. destruct (Hq ltac:(done)) as [_ Hc]. done. }
  destruct o as [pr|].
  2: { replace (S (length pre)) with (length (pre ++ [None])) in * by (rewrite length_app; cbn; lia).
       replace (pre ++ None :: stream) with ((pre ++ [None]) ++ stream) in * by (by rewrite <- app_assoc).
       apply IH; rewrite ?successes_snoc, ?app_nil_r; auto. }
  destruct (early_exit_first st) eqn:Ee.
  { split; [done|]. exists (length pre). rewrite take_app_length. split_and!; [|by apply He|done].
    by rewrite lookup_app_r, Nat.sub_diag by lia. }
  cbn [best found quiet_until].
  assert (Hb' : better (best s) pr = quickest (successes (pre ++ [Some pr]))).
  { by rewrite successes_snoc, quickest_snoc, Hb. }
  assert (Hf' : found s + 1 = zlen (successes (pre ++ [Some pr]))).
  { rewrite successes_snoc, zlen_app, <- Hf. done. }
  replace (pre ++ Some pr :: stream) with ((pre ++ [Some pr]) ++ stream) in * by (by rewrite <- app_assoc).
  replace (S (length pre)) with (length (pre ++ [Some pr])) in * by (rewrite length_app; cbn; lia).
  destruct ((0 <? target_successes st) && (target_successes st <=? found s + 1) && bool_decide (quiet_until s = None)) eqn:Eg.
  - rewrite !andb_true_iff, Z.ltb_lt, Z.leb_le in Eg. destruct Eg as ((Ht & Hle) & _).
    destruct (Z.eqb_spec (quiet_after_first st) 0) as [Eq|Eq]; cbn [negb].
    + exists (length (pre ++ [Some pr])). unfold stop_reason. rewrite take_app_length. split; [done|].
      split; [right; left; rewrite <- Hf'; lia|by split].
    + apply IH; cbn; auto; done.
  - apply IH; cbn; auto; [|intros Hq0 Ht|congruence].
    + intros Hq'. specialize (Hq Hq'). split; [lia|apply Hq].
    + rewrite bool_decide_true, andb_true_r in Eg by done. rewrite (proj2 (Z.ltb_lt 0 _)) in Eg by done.
      cbn [andb] in Eg. apply Z.leb_gt in Eg. lia.
Qed.

(** A scan from the start, the strategy wanting some number or none. *)
Lemma scan_loop_start st deadline clock stream :
  match scan_loop st deadline clock 0 stream (mkScan None 0 None) with
  | inl pr => early_exit_first st = true /\ exists n, stream !! n = Some (Some pr) /\
      successes (take n stream) = [] /\ awaited st deadline clock (S n) stream
  | inr s' => exists n, best s' = quickest (successes (take n stream)) /\
      stop_reason st deadline clock n stream /\ awaited st deadline clock n stream /\
      (early_exit_first st = true -> successes (take n stream) = [])
  end.
Proof.
  apply (scan_loop_spec st deadline clock [] stream (mkScan None 0 None)); try done. intros m Hm. cbn in Hm. lia.
Qed.

(** ** Properties *)

(** An address a scan may try: a known gateway, a host of a known range, or in
    IPv6 a known range around a host of a known IPv4 one. *)
Definition known_v4 (a : list Z) : Prop :=
  V4 a ∈ seeds_v4 \/ exists c base bits, c ∈ MASQUE_CIDRS_V4 /\ range_ok c base bits /\ host_in base bits a.
Definition known_v6 (a : list Z) : Prop :=
  V6 a ∈ seeds_v6 \/ exists c base, c ∈ MASQUE_CIDRS_V6 /\ v6_range_ok c base /\ embeds base masque_v4_ranges a.

Definition known (ip : IpScan.t) (c : candidate) : Prop :=
  match c.1 with
  | V4 a => IpScan.want_v4 ip = true /\ known_v4 a
  | V6 a => IpScan.want_v6 ip = true /\ known_v6 a
  end.

Lemma hosts_found_host full per c l a :
  hosts_found full per c l -> a ∈ l -> exists base bits, range_ok c base bits /\ host_in base bits a.
Proof.
  intros (base & bits & Hr & Hl) Ha. exists base, bits. split; [done|]. destruct full.
  - subst l. apply list_elem_of_fmap in Ha as (off & -> & Ho). apply elem_of_seqZ in Ho. exists off. split; [lia|done].
  - destruct Hl as (_ & Hf & _). rewrite list.Forall_forall in Hf. auto.
Qed.

Lemma elem_of_pool {X} (Q : str -> list X -> Prop) cs pools a :
  Forall2 Q cs pools -> a ∈ by_turns pools -> exists c l, c ∈ cs /\ Q c l /\ a ∈ l.
Proof.
  intros HF (l & Hl & Ha)%elem_of_by_turns.
  apply list_elem_of_lookup_1 in Hl as [i Hi]. apply (Forall2_lookup_r _ _ _ _ _ HF) in Hi as (c & Hc & HQ).
  exists c, l. split; [by eapply list_elem_of_lookup_2|done].
Qed.

Lemma elem_of_other_ports p ports ip c :
  c ∈ other_ports p ports ip <-> c.1 = ip /\ c.2 ∈ ports /\ c.2 <> p.
Proof.
  unfold other_ports. rewrite list_elem_of_fmap. split.
  - intros (port & -> & Hp). apply list_elem_of_In, List.filter_In in Hp as [Hp Hn].
    apply negb_true_iff, Z.eqb_neq in Hn. split; [done|]. split; [by apply list_elem_of_In|done].
  - intros (<- & Hp & Hn). exists c.2. split; [by destruct c|]. apply list_elem_of_In, List.filter_In.
    split; [by apply list_elem_of_In|by apply negb_true_iff, Z.eqb_neq].
Qed.

Lemma elem_of_all_other_ports p ports seeds c :
  c ∈ flat_map (other_ports p ports) seeds <-> c.1 ∈ seeds /\ c.2 ∈ ports /\ c.2 <> p.
Proof.
  rewrite elem_of_flat_map. split.
  - intros (ip & Hip & Hc). by apply elem_of_other_ports in Hc as (<- & ?).
  - intros (Hs & Hc). exists c.1. split; [done|]. by apply elem_of_other_ports.
Qed.

Lemma seeds_are_v4 ip : ip ∈ seeds_v4 -> exists a, ip = V4 a.
Proof. intros (a & -> & _)%list_elem_of_fmap. by exists a. Qed.
Lemma seeds_are_v6 ip : ip ∈ seeds_v6 -> exists a, ip = V6 a.
Proof. intros (a & -> & _)%list_elem_of_fmap. by exists a. Qed.

Lemma attempts_known env st ip ports pool4 pool6 c :
  pools_found env st ip pool4 pool6 -> c ∈ attempts ip ports pool4 pool6 ->
  known ip c /\ (c.2 = first_port ports \/ c.2 ∈ ports).
Proof.
  intros [H4 H6]. unfold attempts. rewrite !elem_of_app. unfold known.
  destruct (IpScan.want_v4 ip), (IpScan.want_v6 ip).
  all: repeat match goal with |- _ \/ _ -> _ => intros [Hc|Hc]; revert Hc end; try (by intros ?%not_elem_of_nil).
  all: try (intros (Hs & Hp & _)%elem_of_all_other_ports; split; [|by right];
            first [destruct (seeds_are_v4 _ Hs) as [a E]|destruct (seeds_are_v6 _ Hs) as [a E]];
            rewrite E in *; split; [done|by left]).
  all: intros Hc; apply list_elem_of_fmap in Hc as (a & -> & Ha); (split; [|by left]); cbn [at_port fst];
    apply elem_of_app in Ha as [Ha|Ha];
    first [destruct (seeds_are_v4 _ Ha) as [b ->]; split; [done|by left]
          |destruct (seeds_are_v6 _ Ha) as [b ->]; split; [done|by left]|idtac];
    apply list_elem_of_fmap in Ha as (b & -> & Hb); split; try done; right.
  all: first
    [ destruct (elem_of_pool _ _ _ _ (H4 eq_refl) Hb) as (cidr & l & Hc & Hl & Hin);
      rewrite masque_cidrs_v4_Permutation in Hc;
      destruct (hosts_found_host _ _ _ _ _ Hl Hin) as (base & bits & ?); by exists cidr, base, bits
    | destruct (elem_of_pool _ _ _ _ (H6 eq_refl) Hb) as (cidr & l & Hc & (base & Hr & _ & Hf) & Hin);
      rewrite masque_cidrs_v6_Permutation in Hc; rewrite list.Forall_forall in Hf;
      exists cidr, base; auto ].
Qed.

Lemma attempts_seed ip ports pool4 pool6 s port :
  (IpScan.want_v4 ip = true /\ s ∈ seeds_v4) \/ (IpScan.want_v6 ip = true /\ s ∈ seeds_v6) ->
  port = first_port ports \/ port ∈ ports -> (s, port) ∈ attempts ip ports pool4 pool6.
Proof.
  intros Hs Hp. unfold attempts. rewrite !elem_of_app.
  assert (Hfirst : forall l k : list IpAddr, s ∈ l -> (s, first_port ports) ∈ at_port (first_port ports) <$> l ++ k).
  { intros l k Hl. apply list_elem_of_fmap. exists s. split; [done|]. apply elem_of_app. by left. }
  assert (Hother : forall l, s ∈ l -> port <> first_port ports -> (s, port) ∈ flat_map (other_ports (first_port ports) ports) l).
  { intros l Hl Hne. apply elem_of_all_other_ports. cbn. destruct Hp as [->|Hp]; done. }
  destruct (decide (port = first_port ports)) as [->|Hne]; destruct Hs as [[-> Hs]|[-> Hs]]; auto.
Qed.

Lemma attempts_full env st ip ports pool4 pool6 c base bits a :
  pools_found env st ip pool4 pool6 -> IpScan.want_v4 ip = true -> full_subnet st = true ->
  c ∈ MASQUE_CIDRS_V4 -> range_ok c base bits -> host_in base bits a ->
  (V4 a, first_port ports) ∈ attempts ip ports pool4 pool6.
Proof.
  intros [H4 _] Hw Hfull Hc Hr (off & Ho & ->). unfold attempts. rewrite Hw. rewrite elem_of_app. left.
  apply list_elem_of_fmap. eexists. split; [reflexivity|]. apply elem_of_app. right.
  apply list_elem_of_fmap. eexists. split; [reflexivity|]. apply elem_of_by_turns.
  specialize (H4 Hw). rewrite <- (masque_cidrs_v4_Permutation env) in Hc. apply list_elem_of_lookup_1 in Hc as [i Hi].
  destruct (Forall2_lookup_l _ _ _ _ _ H4 Hi) as (l & Hl & base' & bits' & Hr' & Hh). rewrite Hfull in Hh.
  exists l. split; [by eapply list_elem_of_lookup_2|].
  destruct Hr as (E & _), Hr' as (E' & _). rewrite E in E'. injection E' as -> Hbits.
  replace bits' with bits in Hh by lia. subst l.
  apply list_elem_of_fmap. exists off. split; [done|]. apply elem_of_seqZ. lia.
Qed.

Lemma seeds_first ip ports pool4 pool6 :
  IpScan.want_v4 ip = true ->
  (at_port (first_port ports) <$> seeds_v4) `prefix_of` add_all [] (attempts ip ports pool4 pool6).
Proof.
  intros Hw. unfold attempts. rewrite Hw, fmap_app, <- !app_assoc, add_all_app.
  rewrite add_all_id; [apply add_all_prefix|].
  apply NoDup_fmap_2_strong; [|list_nodup]. by intros ? ? _ _ [= ->].
Qed.

Section Theorems.
Context {R : Type} `{Rng R}.

(** The candidates of a scan for a MASQUE gateway.  Building them never
    panics, and ends when the generator supplies enough different values (a
    full IPv4 scan draws none).  No candidate is repeated; each is a known
    gateway or a proper host of a known range, of a family that was asked for,
    on one of the ports asked for.  Every known gateway is tried on every port,
    the IPv4 ones come first on the first port, and a full scan tries every
    host of every IPv4 range. *)
Lemma masque_candidates fuel env mode ports ip (r : R) :
  drawing (build_candidates fuel env (strategy mode) ports ip r)
    (fun out =>
       NoDup out /\
       (forall c, c ∈ out -> known ip c /\ (c.2 = first_port ports \/ c.2 ∈ ports)) /\
       (forall s port,
          (IpScan.want_v4 ip = true /\ s ∈ seeds_v4) \/ (IpScan.want_v6 ip = true /\ s ∈ seeds_v6) ->
          port = first_port ports \/ port ∈ ports -> (s, port) ∈ out) /\
       (IpScan.want_v4 ip = true -> (at_port (first_port ports) <$> seeds_v4) `prefix_of` out) /\
       (mode = ScanMode.Thorough -> IpScan.want_v4 ip = true ->
        forall c base bits a, c ∈ MASQUE_CIDRS_V4 -> range_ok c base bits -> host_in base bits a ->
          (V4 a, first_port ports) ∈ out))
    (IpScan.want_v4 ip = true /\ starved (R := R) fuel (full_subnet (strategy mode)) (sample_per_cidr (strategy mode))).
Proof.
  eapply drawing_mono; [apply build_candidates_spec, strategy_ok| |done].
  intros out (pool4 & pool6 & Hp & ->). split_and!.
  - apply add_all_NoDup. constructor.
  - intros c Hc. apply elem_of_add_all in Hc as [Hc|Hc]; [by apply not_elem_of_nil in Hc|].
    by eapply attempts_known.
  - intros s port Hs Hport. apply elem_of_add_all. right. by apply attempts_seed.
  - apply seeds_first.
  - intros -> Hw c base bits a Hc Hr Ha. apply elem_of_add_all. right. by eapply attempts_full.
Qed.

(** The candidates a scan went through, the answers in the order they came,
    and how many of them were awaited. *)
Definition scanned fuel env (net : network) (complete : list (option ProbeResult) -> list (option ProbeResult))
  ip mode start clock ports (r : R)
  (Q : list candidate -> list (option ProbeResult) -> nat -> Prop) : Prop :=
  let st := strategy mode in
  exists ip' cands r' n,
    effective_ip (host_has_ipv6 net) ip = Done ip' /\
    build_candidates fuel env st ports ip' r = Done (cands, r') /\
    let stream := complete (verify_one net (bool_decide (mode = ScanMode.Ironclad)) <$> cands) in
    awaited st (start + overall_deadline st) clock n stream /\ Q cands stream n.

Lemma verify_one_at net b c pr : verify_one net b c = Some pr -> (pr_ip pr, pr_port pr) = c.
Proof.
  unfold verify_one. destruct c as [i p]. destruct (if b then _ else _) as [t|]; [|done].
  by intros [= <-].
Qed.

Lemma success_verified net b cands stream pr :
  (stream ≡ₚ verify_one net b <$> cands) -> pr ∈ successes stream ->
  (pr_ip pr, pr_port pr) ∈ cands /\ verify_one net b (pr_ip pr, pr_port pr) = Some pr.
Proof.
  intros Hp Hin. unfold successes in Hin. apply list_elem_of_omap in Hin as (o & Ho & E). cbn in E. subst o.
  rewrite Hp in Ho. apply list_elem_of_fmap in Ho as (c & Hv & Hc). symmetry in Hv.
  by rewrite (verify_one_at _ _ _ _ Hv).
Qed.

Lemma successes_take n stream pr : pr ∈ successes (take n stream) -> pr ∈ successes stream.
Proof.
  intros Hin. rewrite <- (take_drop n stream). unfold successes in *. rewrite omap_app.
  apply elem_of_app. by left.
Qed.

Lemma quickest_in l pr : quickest l = Some pr -> pr ∈ l.
Proof.
  intros E. pose proof (quickest_spec l) as H0. rewrite E in H0. destruct H0 as (a & b & -> & _).
  apply elem_of_app. right. apply elem_of_cons. by left.
Qed.


End Theorems.

(** A scan over IPv6 on which two gateways answer. *)
Definition gateway_v6 (last : Z) : IpAddr := V6 [38; 6; 71; 0; 0; 208; 0; 0; 0; 0; 0; 0; 162; 159; last; 1].

Definition sample_net : network :=
  mkNetwork true false (fun _ => None) (fun _ => None)
    (fun peer => if bool_decide (peer = sock (gateway_v6 198) 443) then Some 90
                 else if bool_decide (peer = sock (gateway_v6 192) 443) then Some 40 else None).

Definition steady_clock (k : nat) : tick := mkTick (Z.of_nat k) (Z.of_nat k) false (Z.of_nat k).


Lemma masque_candidates_witness :
  exists out r', build_candidates 0 (fun _ => None) (strategy ScanMode.Verified) [443; 500] IpScan.V6 (7 : Z) = Done (out, r') /\
    NoDup out /\ (gateway_v6 192, 500) ∈ out.
Proof.
  pose proof (masque_candidates 0 (fun _ => None) ScanMode.Verified [443; 500] IpScan.V6 (7 : Z)) as Hc.
  destruct (build_candidates _ _ _ _ _ _) as [[out r']| | |]; [|destruct Hc|destruct Hc|destruct Hc as [E _]; discriminate E].
  destruct Hc as (Hd & _ & Hs & _). exists out, r'. split; [reflexivity|]. split; [exact Hd|].
  apply Hs; [right; split; [reflexivity|]|right; apply elem_of_cons; right; apply elem_of_cons; left; reflexivity].
  apply (bool_decide_unpack _). vm_compute. exact I.
Defined.

(** *** Addresses of candidates *)

Lemma parse_ipv6_ok s o : parse_ipv6 s = Some o -> ip_ok (V6 o).
Proof.
  unfold parse_ipv6, parse_with. destruct (read_ipv6_addr s) as [[o' [|]]|] eqn:E; try done.
  intros [= <-]. by apply read_ipv6_addr_ok in E.
Qed.

Lemma v4_from_ok n : ip_ok (V4 (v4_from n)).
Proof. split; [apply be_bytes_length|apply be_bytes_ok]. Qed.
Lemma v6_from_ok n : ip_ok (V6 (v6_from n)).
Proof. split; [apply be_bytes_length|apply be_bytes_ok]. Qed.

Lemma known_ok ip c : known ip c -> ip_ok c.1.
Proof.
  unfold known. destruct c.1 as [a|a].
  - intros [_ [Hs|(cidr & base & bits & _ & _ & off & _ & ->)]]; [|apply v4_from_ok].
    apply list_elem_of_fmap in Hs as (o & [= <-] & Ho). apply list_elem_of_omap in Ho as (s & _ & Hp).
    by apply parse_ipv4_ok in Hp.
  - intros [_ [Hs|(cidr & base & _ & _ & b & p & h & _ & _ & ->)]]; [|apply v6_from_ok].
    apply list_elem_of_fmap in Hs as (o & [= <-] & Ho). apply list_elem_of_omap in Ho as (s & _ & Hp).
    by apply parse_ipv6_ok in Hp.
Qed.

Definition ports_ok (ports : list Z) : Prop := Forall (fun p => 0 <= p <= u16_max) ports.

Section HuntFacts.
Context {R : Type} `{Rng R}.

Lemma hunt_best_gateway_address fuel env net complete start clock ports ip mode (r : R) pr :
  (forall l, complete l ≡ₚ l) -> ports_ok ports ->
  hunt_best_gateway fuel env net complete start clock ports ip mode r = Done pr ->
  sock_ok (sock (pr_ip pr) (pr_port pr)).
Proof.
  intros Hcomplete Hports. unfold hunt_best_gateway. destruct (effective_ip _ _) as [ip'| | |]; try done.
  cbn [mbind outcome_bind].
  pose proof (build_candidates_spec fuel env (strategy mode) ports ip' r (strategy_ok mode)) as Hc.
  destruct (build_candidates _ _ _ _ _ _) as [[cands r']| | |]; try done. cbn [no_fail mbind outcome_bind].
  destruct Hc as (pool4 & pool6 & Hp & ->). set (stream := complete _).
  assert (Hin : pr ∈ successes stream -> sock_ok (sock (pr_ip pr) (pr_port pr))).
  { intros Hs. destruct (success_verified net _ _ stream pr (Hcomplete _) Hs) as [Hin _].
    apply elem_of_add_all in Hin as [Hin|Hin]; [by apply not_elem_of_nil in Hin|].
    destruct (attempts_known _ _ _ _ _ _ _ Hp Hin) as [Hk Hport]. apply known_ok in Hk. cbn [fst snd] in *.
    split; [by rewrite sock_ip_sock|]. rewrite sock_port_sock. unfold ports_ok in Hports.
    rewrite list.Forall_forall in Hports. destruct Hport as [->|Hport]; [|by apply Hports].
    unfold first_port. destruct ports as [|q ports]; [cbn; unfold u16_max; lia|]. apply Hports, elem_of_cons. by left. }
  match goal with |- context [scan_loop ?st ?dl _ _ _ _] => pose proof (scan_loop_start st dl clock stream) as Hl end.
  destruct (scan_loop _ _ _ _ _ _) as [x|s].
  - intros [= ->]. destruct Hl as [_ (n & Hn & _)]. apply Hin. unfold successes.
    apply list_elem_of_omap. exists (Some pr). split; [by eapply list_elem_of_lookup_2|done].
  - destruct Hl as (n & Hb & _). destruct (best s) as [x|]; [|done]. intros [= ->]. symmetry in Hb.
    apply Hin. by eapply successes_take, quickest_in.
Qed.

Lemma hunt_best_gateway_no_panic fuel env net complete start clock ports ip mode (r : R) :
  hunt_best_gateway fuel env net complete start clock ports ip mode r <> Panic.
Proof.
  unfold hunt_best_gateway. destruct (effective_ip _ _) as [ip'| | |] eqn:Ei; try done; cbn [mbind outcome_bind].
  - pose proof (build_candidates_spec fuel env (strategy mode) ports ip' r (strategy_ok mode)) as Hc.
    destruct (build_candidates _ _ _ _ _ _) as [[cands r']| | |]; try done. cbn [no_fail mbind outcome_bind].
    destruct (scan_loop _ _ _ _ _ _); [done|]. by destruct (best _).
  - unfold effective_ip in Ei. destruct ip, (host_has_ipv6 net); discriminate Ei.
Qed.

End HuntFacts.
