(* ===== verification/WgProber.v ===== *)
(** * Scanning for WireGuard endpoints (src/native/aether/aether/src/wg_prober.rs)

    The waves of addresses and ports, and the selection of endpoints on
    different addresses.  The check of one endpoint ([verify_endpoint] of
    wireguard.rs and the HTTP ping of tunnelping.rs) is a parameter here. *)

From stdpp Require Import base list option numbers.
From Stdlib Require Import ZArith Lia Sorted.
From S2P Require Import Prelude ListFacts Rand RustStr StrFacts Error Net Sysprofile Cidr Prober.

Definition WG_PREFIXES_V4 : list str :=
  [lit "162.159.192.0/24"; lit "162.159.195.0/24"; lit "188.114.96.0/24"; lit "188.114.97.0/24";
   lit "188.114.98.0/24"; lit "188.114.99.0/24"; lit "162.159.193.0/24"].
Definition WG_PREFIXES_V6 : list str :=
  [lit "2606:4700:d0::/64"; lit "2606:4700:d1::/64"; lit "2606:4700:100::/48"].
Definition WG_ZT_PREFIXES_V4 : list str := [lit "162.159.193.0/24"].
Definition WG_ZT_PREFIXES_V6 : list str := [lit "2606:4700:100::/48"].
Definition WG_PORTS : list Z :=
  [2408; 500; 1701; 4500; 854; 859; 864; 878; 880; 890; 891; 894; 903; 908; 928; 934; 939; 942; 943; 945; 946;
   955; 968; 987; 988; 1002; 1010; 1014; 1018; 1070; 1074; 1180; 1387; 1843; 2371; 2506; 3138; 3476; 3581; 3854;
   4177; 4198; 4233; 5279; 5956; 7103; 7152; 7156; 7281; 7559; 8319; 8742; 8854; 8886].
Definition WG_SEEDS_V4 : list str :=
  [lit "162.159.192.1"; lit "162.159.195.1"; lit "188.114.96.1"; lit "188.114.97.1"; lit "162.159.193.1"].
Definition WG_SEEDS_V6 : list str :=
  [lit "2606:4700:d0::a29f:c001"; lit "2606:4700:d1::a29f:c001"; lit "2606:4700:d0::a29f:c301";
   lit "2606:4700:d0::bc72:6001"].

Definition wg_prefixes_v4 (env : environment) : list str := prioritize env WG_PREFIXES_V4 WG_ZT_PREFIXES_V4.
Definition wg_prefixes_v6 (env : environment) : list str := prioritize env WG_PREFIXES_V6 WG_ZT_PREFIXES_V6.
Definition wg_seeds_v4 (env : environment) : list str := prioritize env WG_SEEDS_V4 [lit "162.159.193.1"].

Record WgStrategy := mkWgStrategy {
  w_concurrency : Z;
  w_per_probe_timeout : Z;
  w_overall_deadline : Z;
  w_quiet_after_first : Z;
  w_target_successes : Z;
  w_early_exit_first : bool;
  w_full_subnet : bool;
  w_sample_per_cidr : Z;
  pool_port_waves : Z
}.

(** [WgScanMode] has the constructors and the parser of [ScanMode]. *)
Definition wg_strategy (mode : ScanMode.t) : WgStrategy :=
  match mode with
  | ScanMode.Turbo => mkWgStrategy 12 5000 30000 0 1 true false 40 1
  | ScanMode.Balanced => mkWgStrategy 8 7000 80000 12000 5 false false 120 3
  | ScanMode.Thorough => mkWgStrategy 10 9000 250000 25000 0 false true 0 4
  | ScanMode.Verified => mkWgStrategy 10 5000 60000 8000 6 false false 48 4
  | ScanMode.Ironclad => mkWgStrategy 4 15000 180000 15000 3 false false 120 3
  end.

(** ** Candidates *)

Definition wg_ports (ports : list Z) : list Z :=
  match add_all [] ports with
  | [] => [2408]
  | deduped => deduped
  end.

(** One wave over the addresses: each on the port its index selects. *)
Definition wave_attempts (ports : list Z) (ips : list IpAddr) (wave : nat) : list candidate :=
  imap (fun i ip => (ip, nth ((i + wave) `mod` length ports) ports 0)) ips.

(** The closure [push]. *)
Definition wg_push (excluded : list SocketAddr) (out : list candidate) (c : candidate) : list candidate :=
  if negb (bool_decide (sock c.1 c.2 ∈ excluded)) then add_new out c else out.

Section Candidates.
Context {R : Type} `{Rng R}.

Definition build_wg_candidates (fuel : nat) (env : environment) (st : WgStrategy) (ports : list Z) (ip : IpScan.t)
  (excluded : list SocketAddr) (r : R) : opt (list candidate * R) :=
  let ports := wg_ports ports in
  '(anchors, pool, r) ←
    (if IpScan.want_v4 ip then
       let anchors := V4 <$> omap parse_ipv4 (wg_seeds_v4 env) in
       '(cidr_hosts, r) ← sample_ranges (range_hosts fuel (w_full_subnet st) (w_sample_per_cidr st)) (wg_prefixes_v4 env) r;
       Done (anchors, V4 <$> by_turns cidr_hosts, r)
     else Done ([], [], r));
  '(anchors, pool, r) ←
    (if IpScan.want_v6 ip then
       let anchors := anchors ++ (V6 <$> omap parse_ipv6 WG_SEEDS_V6) in
       let per := if w_sample_per_cidr st =? 0 then 80 else w_sample_per_cidr st in
       '(cidr6, r) ← sample_ranges (fun c r => sample_cidr_v6 c per WG_PREFIXES_V4 r) (wg_prefixes_v6 env) r;
       Done (anchors, pool ++ (V6 <$> by_turns cidr6), r)
     else Done (anchors, pool, r));
  let ips := add_all [] (anchors ++ pool) in
  Done (fold_left (fun out wave => fold_left (wg_push excluded) (wave_attempts ports ips wave) out)
          (seq 0 (Z.to_nat (Z.max (pool_port_waves st) 1))) [], r).

End Candidates.

(** ** Selection *)

Fixpoint keep_new_ips (seen : list IpAddr) (l : list ProbeResult) : list ProbeResult :=
  match l with
  | [] => []
  | pr :: l =>
      if bool_decide (pr_ip pr ∈ seen) then keep_new_ips seen l
      else pr :: keep_new_ips (seen ++ [pr_ip pr]) l
  end.

Definition distinct_by_ip (found : list ProbeResult) : list ProbeResult :=
  let sorted := sort_by_key rtt found in
  keep_new_ips [] sorted.

Record WgScan := mkWgScan { verified : list ProbeResult; w_found : Z; w_quiet_until : option Z }.

Fixpoint wg_scan_loop (st : WgStrategy) (want deadline : Z) (clock : nat -> tick) (k : nat)
  (stream : list (option ProbeResult)) (s : WgScan) : list ProbeResult + WgScan :=
  let effective := effective_deadline deadline (w_quiet_until s) in
  let t := clock k in
  if remaining effective t =? 0 then inr s
  else if sleeps effective t then inr s
  else
    match stream with
    | [] => inr s
    | None :: stream => wg_scan_loop st want deadline clock (S k) stream s
    | Some pr :: stream =>
        if w_early_exit_first st then inl [pr]
        else
          let s := mkWgScan (verified s ++ [pr]) (w_found s + 1) (w_quiet_until s) in
          if (want <=? zlen (distinct_by_ip (verified s))) && (1 <? want) then inr s
          else if (0 <? w_target_successes st) && (w_target_successes st <=? w_found s) &&
                  bool_decide (w_quiet_until s = None) then
            if negb (w_quiet_after_first st =? 0) then
              wg_scan_loop st want deadline clock (S k) stream
                (mkWgScan (verified s) (w_found s) (Some (after t + w_quiet_after_first st)))
            else inr s
          else wg_scan_loop st want deadline clock (S k) stream s
    end.

(** [if want > 1 { early_exit_first = false; target = target.max(want * 3) }] *)
Definition for_many (st : WgStrategy) (want : Z) : WgStrategy :=
  if 1 <? want then
    mkWgStrategy (w_concurrency st) (w_per_probe_timeout st) (w_overall_deadline st) (w_quiet_after_first st)
      (Z.max (w_target_successes st) (want * 3)) false (w_full_subnet st) (w_sample_per_cidr st) (pool_port_waves st)
  else st.

(** The network: a route for IPv6, the handshake check of an endpoint and the
    HTTP ping through the session it leaves, each with the time measured. *)
Record wg_network := mkWgNetwork {
  wg_has_ipv6 : bool;
  verify_endpoint_keep_session : SocketAddr -> option Z;
  wg_http_ping_established : SocketAddr -> option Z
}.

Definition verify_one_wg (net : wg_network) (ironclad : bool) (c : candidate) : option ProbeResult :=
  let '(ip, port) := c in
  let peer := sock ip port in
  t ← verify_endpoint_keep_session net peer;
  if negb ironclad then Some (mkProbe ip port t)
  else
    http_rtt ← wg_http_ping_established net peer;
    Some (mkProbe ip port http_rtt).

Section Hunt.
Context {R : Type} `{Rng R}.

Definition hunt_wg_endpoints (fuel : nat) (env : environment) (net : wg_network)
  (complete : list (option ProbeResult) -> list (option ProbeResult)) (start : Z) (clock : nat -> tick)
  (ports : list Z) (ip : IpScan.t) (excluded : list SocketAddr) (mode : ScanMode.t) (want : Z) (r : R)
  : aresult (list ProbeResult) :=
  let want := Z.max want 1 in
  let st := wg_strategy mode in
  ip ← effective_ip (wg_has_ipv6 net) ip;
  '(candidates, r) ← no_fail (build_wg_candidates fuel env st ports ip excluded r);
  let ironclad := bool_decide (mode = ScanMode.Ironclad) in
  let stream := complete (verify_one_wg net ironclad <$> candidates) in
  let st := for_many st want in
  match wg_scan_loop st want (start + w_overall_deadline st) clock 0 stream (mkWgScan [] 0 None) with
  | inl l => Done l
  | inr s =>
      let picked := distinct_by_ip (verified s) in
      if zlen picked =? 0 then Fail NoCleanEndpoint else Done (ztake want picked)
  end.

Definition hunt_best_wg_endpoint (fuel : nat) (env : environment) (net : wg_network)
  (complete : list (option ProbeResult) -> list (option ProbeResult)) (start : Z) (clock : nat -> tick)
  (ports : list Z) (ip : IpScan.t) (excluded : list SocketAddr) (mode : ScanMode.t) (r : R) : aresult ProbeResult :=
  l ← hunt_wg_endpoints fuel env net complete start clock ports ip excluded mode 1 r;
  match l with pr :: _ => Done pr | [] => Fail NoCleanEndpoint end.

End Hunt.

(** *** Endpoints on different addresses *)

Definition quicker (a b : ProbeResult) : Prop := rtt a <= rtt b.

(** What a selection of at most [want] of the answers [awaited] promises:
    different addresses, quickest first, and every answer left out is no
    quicker than a selected one on its address, or than all of a full
    selection. *)
Definition selects (want : Z) (awaited l : list ProbeResult) : Prop :=
  NoDup (pr_ip <$> l) /\ StronglySorted quicker l /\ l ⊆ awaited /\ zlen l <= want /\
  (forall x, x ∈ awaited ->
     (exists y, y ∈ l /\ pr_ip y = pr_ip x /\ rtt y <= rtt x) \/
     (zlen l = want /\ forall y, y ∈ l -> rtt y <= rtt x)).

Lemma keep_new_ips_sub seen l y : y ∈ keep_new_ips seen l -> y ∈ l /\ pr_ip y ∉ seen.
Proof.
  revert seen. induction l as [|x l IH]; intros seen; cbn; [by intros ?%not_elem_of_nil|].
  rewrite elem_of_cons. case_bool_decide as Hs.
  - intros [Hy Hn]%IH. by split; [right|].
  - intros [->|Hy]%elem_of_cons; [by split; [left|]|]. apply IH in Hy as [Hy Hn].
    split; [by right|]. intros Hin. apply Hn, elem_of_app. by left.
Qed.

Lemma keep_new_ips_NoDup seen l : NoDup (pr_ip <$> keep_new_ips seen l).
Proof.
  revert seen. induction l as [|x l IH]; intros seen; cbn; [constructor|].
  case_bool_decide; [apply IH|]. cbn. constructor; [|apply IH].
  intros (y & E & [_ Hn]%keep_new_ips_sub)%list_elem_of_fmap. apply Hn, elem_of_app. right.
  by apply list_elem_of_singleton.
Qed.

Lemma keep_new_ips_sorted seen l : StronglySorted quicker l -> StronglySorted quicker (keep_new_ips seen l).
Proof.
  intros Hs. revert seen. induction Hs as [|x l Hs IH Hf]; intros seen; cbn; [constructor|].
  case_bool_decide; [apply IH|]. constructor; [apply IH|]. apply list.Forall_forall.
  intros y [Hy _]%keep_new_ips_sub. rewrite list.Forall_forall in Hf. auto.
Qed.

Lemma keep_new_ips_covers seen l x :
  StronglySorted quicker l -> x ∈ l ->
  pr_ip x ∈ seen \/ exists y, y ∈ keep_new_ips seen l /\ pr_ip y = pr_ip x /\ rtt y <= rtt x.
Proof.
  intros Hs. revert seen. induction Hs as [|y l Hs IH Hf]; intros seen; [by intros ?%not_elem_of_nil|].
  cbn. intros [->|Hx]%elem_of_cons.
  - case_bool_decide; [by left|]. right. exists y. split; [apply elem_of_cons; by left|]. split; [done|lia].
  - rewrite list.Forall_forall in Hf. specialize (Hf _ Hx). unfold quicker in Hf.
    case_bool_decide as Hy; [by apply IH|]. destruct (IH (seen ++ [pr_ip y]) Hx) as [Hin|(z & Hz & ?)].
    + apply elem_of_app in Hin as [?|Hin%list_elem_of_singleton]; [by left|].
      right. exists y. split; [apply elem_of_cons; by left|]. split; [done|lia].
    + right. exists z. split; [apply elem_of_cons; by right|done].
Qed.

Lemma StronglySorted_take {A} (P : A -> A -> Prop) n l :
  StronglySorted P l -> StronglySorted P (take n l) /\ forall x y, x ∈ take n l -> y ∈ drop n l -> P x y.
Proof.
  intros Hs. revert n. induction Hs as [|a l Hs IH Hf]; intros [|n]; cbn.
  1-3: split; [constructor|]; intros ? ? ?%not_elem_of_nil; done.
  destruct (IH n) as [Ht Hd]. split.
  - constructor; [done|]. by apply Forall_take.
  - intros x y [->|Hx]%elem_of_cons Hy; [|by apply Hd]. rewrite list.Forall_forall in Hf. apply Hf.
    rewrite <- (take_drop n l). apply elem_of_app. by right.
Qed.

Lemma distinct_by_ip_selects want l : 0 <= want -> selects want l (ztake want (distinct_by_ip l)).
Proof.
  intros Hw. unfold distinct_by_ip. pose proof (sort_by_key_sorted rtt l : StronglySorted quicker _) as Hs.
  pose proof (sort_by_key_Permutation rtt l) as Hp. set (sorted := sort_by_key rtt l) in *.
  set (d := keep_new_ips [] sorted).
  pose proof (keep_new_ips_sorted [] sorted Hs : StronglySorted quicker d) as Hd.
  pose proof (keep_new_ips_NoDup [] sorted : NoDup (pr_ip <$> d)) as Hn.
  destruct (StronglySorted_take quicker (Z.to_nat want) d Hd) as [Ht Hdrop]. unfold ztake.
  split_and!; [|done| | |].
  - rewrite fmap_take. rewrite <- (take_drop (Z.to_nat want) (pr_ip <$> d)) in Hn. by apply list.NoDup_app in Hn as [? _].
  - intros x Hx. apply elem_of_take in Hx as (i & Hi & _). apply list_elem_of_lookup_2, keep_new_ips_sub in Hi as [Hi _].
    by rewrite Hp in Hi.
  - unfold zlen. rewrite length_take. lia.
  - intros x Hx. rewrite <- Hp in Hx.
    destruct (keep_new_ips_covers [] sorted x Hs Hx) as [Hin|(y & Hy & Hip & Hr)]; [by apply not_elem_of_nil in Hin|].
    fold d in Hy. rewrite <- (take_drop (Z.to_nat want) d) in Hy. apply elem_of_app in Hy as [Hy|Hy].
    + left. by exists y.
    + right. split.
      * assert (0 < length (drop (Z.to_nat want) d))%nat by (destruct (drop _ d); [by apply not_elem_of_nil in Hy|cbn; lia]).
        rewrite length_drop in *. unfold zlen. rewrite length_take. lia.
      * intros z Hz. specialize (Hdrop z y Hz Hy). unfold quicker in Hdrop. lia.
Qed.

(** *** The loop *)

Definition wg_stop_reason (st : WgStrategy) (want deadline : Z) (clock : nat -> tick) (n : nat)
  (stream : list (option ProbeResult)) : Prop :=
  n = length stream \/
  1 < want <= zlen (distinct_by_ip (successes (take n stream))) \/
  0 < w_target_successes st <= zlen (successes (take n stream)) \/
  deadline <= top (clock n) \/ deadline <= ready (clock n).

Definition wg_broke (st : WgStrategy) (want deadline : Z) (clock : nat -> tick)
  (stream : list (option ProbeResult)) (s : WgScan) : Prop :=
  exists n, verified s = successes (take n stream) /\ wg_stop_reason st want deadline clock n stream /\
    (w_early_exit_first st = true -> successes (take n stream) = []).

Lemma wg_time_up st want deadline clock pre stream s :
  verified s = successes pre -> w_found s = zlen (successes pre) ->
  (w_quiet_until s <> None -> 0 < w_target_successes st <= w_found s) ->
  (w_early_exit_first st = true -> successes pre = []) ->
  remaining (effective_deadline deadline (w_quiet_until s)) (clock (length pre)) = 0 \/
  sleeps (effective_deadline deadline (w_quiet_until s)) (clock (length pre)) = true ->
  wg_broke st want deadline clock (pre ++ stream) s.
Proof.
  intros Hb Hf Hq He H. exists (length pre). unfold wg_stop_reason. rewrite take_app_length.
  split; [done|]. split; [|done]. right; right. rewrite <- Hf. apply time_is_up in H as [H|H]; [left; auto|by right].
Qed.

Lemma wg_scan_loop_spec st want deadline clock pre stream s :
  verified s = successes pre -> w_found s = zlen (successes pre) ->
  (w_quiet_until s <> None -> 0 < w_target_successes st <= w_found s) ->
  (w_early_exit_first st = true -> successes pre = []) ->
  match wg_scan_loop st want deadline clock (length pre) stream s with
  | inl l => w_early_exit_first st = true /\ exists pr, l = [pr] /\ head (successes (pre ++ stream)) = Some pr
  | inr s' => wg_broke st want deadline clock (pre ++ stream) s'
  end.
Proof.
  revert pre s. induction stream as [|o stream IH]; intros pre s Hb Hf Hq He; cbn [wg_scan_loop];
    (destruct (Z.eqb_spec (remaining (effective_deadline deadline (w_quiet_until s)) (clock (length pre))) 0);
      [apply wg_time_up; auto|destruct (sleeps _ _) eqn:Hs; [apply wg_time_up; auto|]]).
  { exists (length pre). unfold wg_stop_reason. rewrite app_nil_r, firstn_all. split; [done|]. split; [by left|done]. }
  destruct o as [pr|].
  2: { replace (S (length pre)) with (length (pre ++ [None])) by (rewrite length_app; cbn; lia).
       replace (pre ++ None :: stream) with ((pre ++ [None]) ++ stream) by (by rewrite <- app_assoc).
       apply IH; rewrite ?successes_snoc, ?app_nil_r; auto. }
  destruct (w_early_exit_first st) eqn:Ee.
  { split; [done|]. exists pr. split; [done|]. unfold successes in *. rewrite omap_app, He by done. done. }
  cbn [verified w_found w_quiet_until].
  assert (Hb' : verified s ++ [pr] = successes (pre ++ [Some pr])) by by rewrite successes_snoc, Hb.
  assert (Hf' : w_found s + 1 = zlen (successes (pre ++ [Some pr]))) by by rewrite successes_snoc, zlen_app, <- Hf.
  replace (pre ++ Some pr :: stream) with ((pre ++ [Some pr]) ++ stream) by (by rewrite <- app_assoc).
  replace (S (length pre)) with (length (pre ++ [Some pr])) by (rewrite length_app; cbn; lia).
  assert (Hbroke : 1 < want <= zlen (distinct_by_ip (verified s ++ [pr])) \/ 0 < w_target_successes st <= w_found s + 1 ->
    wg_broke st want deadline clock ((pre ++ [Some pr]) ++ stream) (mkWgScan (verified s ++ [pr]) (w_found s + 1) (w_quiet_until s))).
  { intros H. exists (length (pre ++ [Some pr])). unfold wg_stop_reason. rewrite take_app_length.
    split; [done|]. split; [|congruence]. right. rewrite <- Hf', <- Hb'. tauto. }
  destruct ((want <=? zlen (distinct_by_ip (verified s ++ [pr]))) && (1 <? want)) eqn:Ew.
  { apply Hbroke. rewrite andb_true_iff, Z.leb_le, Z.ltb_lt in Ew. lia. }
  destruct ((0 <? w_target_successes st) && (w_target_successes st <=? w_found s + 1) && bool_decide (w_quiet_until s = None)) eqn:Eg.
  - rewrite !andb_true_iff, Z.ltb_lt, Z.leb_le in Eg.
    destruct (Z.eqb_spec (w_quiet_after_first st) 0); cbn [negb]; [apply Hbroke; tauto|].
    apply IH; cbn; auto; [tauto|congruence].
  - apply IH; cbn; auto; [|congruence]. intros Hq'. specialize (Hq Hq'). lia.
Qed.

(** *** The waves *)

Definition allowed (excluded : list SocketAddr) (c : candidate) : bool := negb (bool_decide (sock c.1 c.2 ∈ excluded)).

Lemma wg_push_all excluded l out :
  fold_left (wg_push excluded) l out = add_all out (List.filter (allowed excluded) l).
Proof.
  revert out. induction l as [|c l IH]; intros out; cbn; [done|]. rewrite IH. unfold wg_push. fold (allowed excluded c).
  by destruct (allowed excluded c).
Qed.

Definition waves (ports : list Z) (ips : list IpAddr) (n : nat) : list candidate :=
  flat_map (wave_attempts ports ips) (seq 0 n).

Lemma push_waves excluded ports ips ws out :
  fold_left (fun out wave => fold_left (wg_push excluded) (wave_attempts ports ips wave) out) ws out =
  add_all out (List.filter (allowed excluded) (flat_map (wave_attempts ports ips) ws)).
Proof.
  revert out. induction ws as [|w ws IH]; intros out; [done|]. cbn [fold_left flat_map].
  by rewrite IH, wg_push_all, List.filter_app, add_all_app.
Qed.

(** The port of the address at index [i] in wave [w]. *)
Definition wave_port (ports : list Z) (i w : nat) : Z := nth ((i + w) `mod` length ports) ports 0.

Lemma elem_of_waves ports ips n c :
  c ∈ waves ports ips n <-> exists i w, ips !! i = Some c.1 /\ (w < n)%nat /\ c.2 = wave_port ports i w.
Proof.
  unfold waves. rewrite elem_of_flat_map. split.
  - intros (w & Hw & Hc). apply elem_of_seq in Hw. unfold wave_attempts in Hc.
    apply elem_of_lookup_imap in Hc as (i & ip & -> & Hi). exists i, w. split; [done|]. split; [lia|done].
  - intros (i & w & Hi & Hw & Hp). exists w. split; [apply elem_of_seq; lia|].
    apply elem_of_lookup_imap. exists i, c.1. split; [|done]. destruct c; cbn in *. by subst.
Qed.

Lemma wave_attempts_NoDup ports ips w : NoDup ips -> NoDup (wave_attempts ports ips w).
Proof.
  intros Hd. apply NoDup_alt. intros i j c Hi Hj. unfold wave_attempts in *.
  rewrite list_lookup_imap in Hi, Hj.
  destruct (ips !! i) as [a|] eqn:Ea; [|done]. destruct (ips !! j) as [b|] eqn:Eb; [|done].
  cbn in Hi, Hj. injection Hi as <-. injection Hj as <-. by eapply NoDup_lookup.
Qed.

Lemma allow_all l : List.filter (allowed []) l = l.
Proof.
  induction l as [|c l IH]; cbn; [done|]. unfold allowed at 1.
  rewrite bool_decide_false by (by intros ?%not_elem_of_nil). cbn. by rewrite IH.
Qed.

Lemma first_wave ports ips n i ip :
  (0 < n)%nat -> NoDup ips -> ips !! i = Some ip ->
  add_all [] (List.filter (allowed []) (waves ports ips n)) !! i = Some (ip, wave_port ports i 0).
Proof.
  intros Hn Hd Hi. rewrite allow_all. destruct n as [|n]; [lia|]. unfold waves. cbn [seq flat_map].
  rewrite add_all_app, add_all_id by by apply wave_attempts_NoDup.
  eapply prefix_lookup_Some; [|apply add_all_prefix]. unfold wave_attempts. by rewrite list_lookup_imap, Hi.
Qed.

(** *** The addresses *)

Definition wg_seeds (env : environment) (ip : IpScan.t) : list IpAddr :=
  (if IpScan.want_v4 ip then V4 <$> omap parse_ipv4 (wg_seeds_v4 env) else []) ++
  (if IpScan.want_v6 ip then V6 <$> omap parse_ipv6 WG_SEEDS_V6 else []).

Lemma wg_seeds_NoDup env ip : NoDup (wg_seeds env ip).
Proof.
  unfold wg_seeds, wg_seeds_v4, prioritize.
  destruct ip, (zero_trust_mode env); list_nodup.
Qed.

Lemma wg_prefixes_v4_Permutation env : wg_prefixes_v4 env ≡ₚ WG_PREFIXES_V4.
Proof. apply prioritize_Permutation; list_nodup. Qed.
Lemma wg_prefixes_v6_Permutation env : wg_prefixes_v6 env ≡ₚ WG_PREFIXES_V6.
Proof. apply prioritize_Permutation; list_nodup. Qed.

Definition wg_v4_ranges : list (Z * Z) := omap parse_cidr_v4 WG_PREFIXES_V4.

Lemma wg_v4_ranges_ok : wg_v4_ranges <> [] /\ Forall v4_range_ok wg_v4_ranges.
Proof. split; [vm_compute; done|]. apply v4_range_okb_spec. vm_compute. done. Qed.

Lemma wg_prefixes_v4_ok c : c ∈ WG_PREFIXES_V4 -> exists base bits, range_ok c base bits.
Proof.
  intros Hc. apply range_okb_spec. revert c Hc. apply list.Forall_forall, List.Forall_forall, forallb_forall.
  vm_compute. done.
Qed.

Lemma wg_prefixes_v6_ok c : c ∈ WG_PREFIXES_V6 -> exists base, v6_range_ok c base.
Proof.
  intros Hc. apply v6_range_okb_spec. revert c Hc. apply list.Forall_forall, List.Forall_forall, forallb_forall.
  vm_compute. done.
Qed.

Definition wg_known (env : environment) (scan : IpScan.t) (ip : IpAddr) : Prop :=
  ip ∈ wg_seeds env scan \/
  match ip with
  | V4 a => IpScan.want_v4 scan = true /\
      exists c base bits, c ∈ WG_PREFIXES_V4 /\ range_ok c base bits /\ host_in base bits a
  | V6 a => IpScan.want_v6 scan = true /\
      exists c base, c ∈ WG_PREFIXES_V6 /\ v6_range_ok c base /\ embeds base wg_v4_ranges a
  end.

Section WgCandidateFacts.
Context {R : Type} `{Rng R}.

Definition wg_strategy_ok (st : WgStrategy) : Prop := 0 <= w_sample_per_cidr st <= u32_max.

Lemma wg_strategy_is_ok mode : wg_strategy_ok (wg_strategy mode).
Proof. by destruct mode. Qed.

(** The list of candidates is what the waves over some list of addresses, the
    seeds first, leave without excluded ones and repetitions. *)
Lemma build_wg_candidates_spec fuel env st ports ip excluded (r : R) :
  wg_strategy_ok st ->
  drawing (build_wg_candidates fuel env st ports ip excluded r)
    (fun out => exists ips, NoDup ips /\ wg_seeds env ip `prefix_of` ips /\ Forall (wg_known env ip) ips /\
       out = add_all [] (List.filter (allowed excluded)
               (waves (wg_ports ports) ips (Z.to_nat (Z.max (pool_port_waves st) 1)))))
    (IpScan.want_v4 ip = true /\ starved (R := R) fuel (w_full_subnet st) (w_sample_per_cidr st)).
Proof.
  intros Hst. unfold build_wg_candidates, wg_strategy_ok in *. destruct wg_v4_ranges_ok as [Hne Hv4].
  eapply (drawing_bind _ _ (fun v => v.1 = (if IpScan.want_v4 ip then V4 <$> omap parse_ipv4 (wg_seeds_v4 env) else []) /\
                              Forall (wg_known env ip) v.2)).
  { destruct (IpScan.want_v4 ip) eqn:Ew; [|by split].
    eapply drawing_bind;
      [eapply (drawing_mono _ _ _ (starved fuel (w_full_subnet st) (w_sample_per_cidr st)));
        [apply sample_ranges_spec|intros a Ha; exact Ha|by split]|].
    - apply list.Forall_forall. intros c Hc r'. rewrite wg_prefixes_v4_Permutation in Hc.
      apply range_hosts_spec; [done|by apply wg_prefixes_v4_ok].
    - intros hosts r1 Hh. split; [done|]. cbn [snd]. apply Forall_fmap, list.Forall_forall. intros a Ha. right.
      split; [done|]. destruct (elem_of_pool _ _ _ _ Hh Ha) as (c & l & Hc & Hl & Hin).
      rewrite wg_prefixes_v4_Permutation in Hc.
      destruct (hosts_found_host _ _ _ _ _ Hl Hin) as (base & bits & ?). by exists c, base, bits. }
  intros [anchors pool] r1 [Ha Hpool]. cbn [fst snd] in Ha, Hpool. subst anchors. cbn beta iota.
  eapply (drawing_bind _ _ (fun v => v.1 = wg_seeds env ip /\ Forall (wg_known env ip) v.2)).
  { unfold wg_seeds. destruct (IpScan.want_v6 ip) eqn:Ew; [|cbn; by rewrite app_nil_r].
    eapply drawing_bind; [apply sample_ranges_spec|].
    - apply list.Forall_forall. intros c Hc r'. rewrite wg_prefixes_v6_Permutation in Hc.
      apply sample_cidr_v6_spec; [dest_if; lia|done|done|by apply wg_prefixes_v6_ok].
    - intros hosts r2 Hh. split; [done|]. cbn [snd]. apply Forall_app. split; [done|].
      apply Forall_fmap, list.Forall_forall. intros a Ha. right. split; [done|].
      destruct (elem_of_pool _ _ _ _ Hh Ha) as (c & l & Hc & (base & Hr & _ & Hf) & Hin).
      rewrite wg_prefixes_v6_Permutation in Hc. rewrite list.Forall_forall in Hf. exists c, base. auto. }
  intros [anchors pool'] r2 [Ha Hpool']. cbn [fst snd] in Ha, Hpool'. subst anchors. cbn beta iota.
  exists (add_all [] (wg_seeds env ip ++ pool')). split_and!.
  - apply add_all_NoDup. constructor.
  - rewrite add_all_app, add_all_id by apply wg_seeds_NoDup. apply add_all_prefix.
  - apply Forall_add_all; [constructor|]. apply Forall_app. split; [|done]. apply list.Forall_forall. intros x Hx. by left.
  - by rewrite push_waves.
Qed.

End WgCandidateFacts.

(** ** Properties *)

Section Theorems.
Context {R : Type} `{Rng R}.

(** The candidates of a scan for WireGuard endpoints.  Building them never
    panics and ends when the generator supplies enough different values.  There
    is a list of different known addresses, the seeds first, such that wave
    [w] tries the address at index [i] on the port at [i + w], cyclically; the
    candidates are exactly these attempts, without the excluded ones and none
    twice, and when nothing is excluded the first wave leads them in order, so
    that neighbours are on different ports. *)
Lemma wg_candidates fuel env mode ports ip excluded (r : R) :
  drawing (build_wg_candidates fuel env (wg_strategy mode) ports ip excluded r)
    (fun out => exists ips,
       NoDup ips /\ wg_seeds env ip `prefix_of` ips /\ Forall (wg_known env ip) ips /\ NoDup out /\
       (forall c, c ∈ out <->
          (sock c.1 c.2 ∉ excluded) /\
          exists i w, ips !! i = Some c.1 /\ (w < Z.to_nat (Z.max (pool_port_waves (wg_strategy mode)) 1))%nat /\
            c.2 = wave_port (wg_ports ports) i w) /\
       (forall i x, excluded = [] -> ips !! i = Some x -> out !! i = Some (x, wave_port (wg_ports ports) i 0)))
    (IpScan.want_v4 ip = true /\
     starved (R := R) fuel (w_full_subnet (wg_strategy mode)) (w_sample_per_cidr (wg_strategy mode))).
Proof.
  eapply drawing_mono; [apply build_wg_candidates_spec, wg_strategy_is_ok| |done].
  intros out (ips & Hd & Hp & Hk & ->). exists ips. do 3 (split; [done|]). split; [apply add_all_NoDup; constructor|]. split.
  - intros c. rewrite elem_of_add_all. split.
    + intros [Hc|Hc]; [by apply not_elem_of_nil in Hc|]. apply list_elem_of_In, List.filter_In in Hc as [Hc Ha].
      unfold allowed in Ha. apply negb_true_iff, bool_decide_eq_false in Ha. split; [done|].
      by apply list_elem_of_In, elem_of_waves in Hc.
    + intros [Ha Hc]. right. apply list_elem_of_In, List.filter_In. split.
      * by apply list_elem_of_In, elem_of_waves.
      * by apply negb_true_iff, bool_decide_eq_false.
  - intros i x -> Hi. apply first_wave; [lia|done|done].
Qed.

Lemma verify_one_wg_at net b c pr : verify_one_wg net b c = Some pr -> (pr_ip pr, pr_port pr) = c.
Proof.
  unfold verify_one_wg. destruct c as [i p]. destruct (verify_endpoint_keep_session net _); [|done].
  cbn [mbind option_bind]. destruct (negb b); [by intros [= <-]|].
  destruct (wg_http_ping_established net _); [|done]. by intros [= <-].
Qed.

(** A gateway that was a candidate and passed its check. *)
Definition wg_verified (net : wg_network) (mode : ScanMode.t) (cands : list candidate) (pr : ProbeResult) : Prop :=
  (pr_ip pr, pr_port pr) ∈ cands /\
  verify_one_wg net (bool_decide (mode = ScanMode.Ironclad)) (pr_ip pr, pr_port pr) = Some pr.

Lemma wg_success_verified net mode cands stream pr :
  (stream ≡ₚ verify_one_wg net (bool_decide (mode = ScanMode.Ironclad)) <$> cands) -> pr ∈ successes stream ->
  wg_verified net mode cands pr.
Proof.
  intros Hp Hin. unfold successes in Hin. apply list_elem_of_omap in Hin as (o & Ho & E). cbn in E. subst o.
  rewrite Hp in Ho. apply list_elem_of_fmap in Ho as (c & Hv & Hc). symmetry in Hv.
  unfold wg_verified. by rewrite (verify_one_wg_at _ _ _ _ Hv).
Qed.

(** As [scanned] for a MASQUE gateway. *)
Definition wg_scanned fuel env (net : wg_network)
  (complete : list (option ProbeResult) -> list (option ProbeResult)) ip mode want start clock ports excluded (r : R)
  (Q : list candidate -> list (option ProbeResult) -> nat -> Prop) : Prop :=
  exists ip' cands r' n,
    effective_ip (wg_has_ipv6 net) ip = Done ip' /\
    build_wg_candidates fuel env (wg_strategy mode) ports ip' excluded r = Done (cands, r') /\
    let stream := complete (verify_one_wg net (bool_decide (mode = ScanMode.Ironclad)) <$> cands) in
    (w_early_exit_first (for_many (wg_strategy mode) want) = true \/
     wg_stop_reason (for_many (wg_strategy mode) want) want
       (start + w_overall_deadline (wg_strategy mode)) clock n stream) /\
    Q cands stream n.

Lemma for_many_deadline st want : w_overall_deadline (for_many st want) = w_overall_deadline st.
Proof. unfold for_many. by destruct (1 <? want). Qed.

(** C25: The scan for WireGuard endpoints.  It ends without panic.  What it
    returns was verified and is, of the answers awaited, the best on as many
    different addresses as wanted, quickest first (in turbo mode, with one
    endpoint wanted, the first answer); it waits until every candidate has
    answered, enough endpoints are known, or the next answer is not there by
    the deadline; it fails only when no awaited answer was a success or IPv6
    alone was asked for without a route. *)
Theorem hunt_wg_endpoints_sound fuel env net complete start clock ports ip excluded mode want (r : R)
  (Hcomplete : forall l, complete l ≡ₚ l) :
  let many := Z.max want 1 in
  match hunt_wg_endpoints fuel env net complete start clock ports ip excluded mode want r with
  | Done l =>
      wg_scanned fuel env net complete ip mode many start clock ports excluded r (fun cands stream n =>
        l <> [] /\ Forall (wg_verified net mode cands) l /\
        if w_early_exit_first (for_many (wg_strategy mode) many)
        then many = 1 /\ exists pr, l = [pr] /\ head (successes stream) = Some pr
        else selects many (successes (take n stream)) l)
  | Fail e => e = NoCleanEndpoint /\
      ((ip = IpScan.V6 /\ wg_has_ipv6 net = false) \/
       wg_scanned fuel env net complete ip mode many start clock ports excluded r
         (fun _ stream n => successes (take n stream) = []))
  | Diverge => starved (R := R) fuel (w_full_subnet (wg_strategy mode)) (w_sample_per_cidr (wg_strategy mode))
  | Panic => False
  end.
Proof.
  intros many. unfold hunt_wg_endpoints. fold many. destruct (effective_ip (wg_has_ipv6 net) ip) as [ip'|e| |] eqn:Ei.
  2: { unfold effective_ip in Ei. destruct ip, (wg_has_ipv6 net); cbn in Ei; try discriminate Ei.
       injection Ei as <-. by split; [|left]. }
  2,3: unfold effective_ip in Ei; destruct ip, (wg_has_ipv6 net); discriminate Ei.
  cbn [mbind outcome_bind].
  pose proof (build_wg_candidates_spec fuel env (wg_strategy mode) ports ip' excluded r (wg_strategy_is_ok mode)) as Hc.
  destruct (build_wg_candidates _ _ _ _ _ _ _) as [[cands r']| | |] eqn:Ec; cbn [no_fail mbind outcome_bind];
    [|done|done|apply Hc]. clear Hc.
  set (st := for_many (wg_strategy mode) many). set (stream := complete _).
  assert (Hperm : stream ≡ₚ verify_one_wg net (bool_decide (mode = ScanMode.Ironclad)) <$> cands) by apply Hcomplete.
  assert (Hone : w_early_exit_first st = true -> many = 1).
  { unfold st, for_many. destruct (Z.ltb_spec 1 many); [done|]. lia. }
  pose proof (wg_scan_loop_spec st many (start + w_overall_deadline st) clock [] stream (mkWgScan [] 0 None)
                eq_refl eq_refl ltac:(done) ltac:(done)) as Hl.
  assert (Ed : w_overall_deadline st = w_overall_deadline (wg_strategy mode)) by apply for_many_deadline.
  rewrite Ed in Hl |- *.
  cbn [app length] in Hl. destruct (wg_scan_loop _ _ _ _ _ _ _) as [l|s].
  - destruct Hl as [He (pr & -> & Hh)]. exists ip', cands, r', O.
    do 3 (split; [first [done|by left]|]). split; [done|]. split.
    + constructor; [|done]. apply (wg_success_verified net mode cands stream pr Hperm).
      destruct (successes stream) as [|x l]; [done|]. cbn in Hh. injection Hh as ->. apply elem_of_cons. by left.
    + fold st. rewrite He. split; [auto|by exists pr].
  - destruct Hl as (n & Hv & Hs & Hearly). rewrite Hv.
    pose proof (distinct_by_ip_selects many (successes (take n stream)) ltac:(lia)) as Hsel.
    destruct (Z.eqb_spec (zlen (distinct_by_ip (successes (take n stream)))) 0) as [Hz|Hz].
    + split; [done|]. right. exists ip', cands, r', n. do 3 (split; [first [done|by right]|]).
      apply zlen_zero_inv in Hz. rewrite Hz in Hsel. destruct Hsel as (_ & _ & _ & _ & Hcov).
      fold stream. destruct (successes (take n stream)) as [|x l]; [done|].
      destruct (Hcov x ltac:(apply elem_of_cons; by left)) as [(y & Hy & _)|[H0 _]].
      * unfold ztake in Hy. rewrite firstn_nil in Hy. by apply not_elem_of_nil in Hy.
      * unfold ztake in H0. rewrite firstn_nil in H0. change (zlen []) with 0 in H0. lia.
    + exists ip', cands, r', n. do 3 (split; [first [done|by right]|]). split; [|split].
      * intros E. apply Hz. unfold ztake in E. destruct (distinct_by_ip _); [done|].
        replace (Z.to_nat many) with (S (Z.to_nat (many - 1))) in E by lia. done.
      * apply list.Forall_forall. intros x Hx. apply (wg_success_verified net mode cands stream x Hperm).
        eapply successes_take. by apply Hsel.
      * fold st. destruct (w_early_exit_first st); [|done].
        exfalso. apply Hz. rewrite Hearly by done. done.
Qed.

End Theorems.

(** Two endpoints are wanted; three answers arrive, two of them on one address. *)
Definition sample_wg_net : wg_network :=
  mkWgNetwork true
    (fun peer => if bool_decide (peer = sock (gateway_v6 192) 2408) then Some 40
                 else if bool_decide (peer = sock (gateway_v6 192) 500) then Some 25
                 else if bool_decide (peer = sock (gateway_v6 195) 2408) then Some 55 else None)
    (fun _ => None).

Lemma hunt_wg_endpoints_sound_witness :
  exists l, hunt_wg_endpoints 0 (fun _ => None) sample_wg_net (fun l => rev l) 0 steady_clock [2408; 500]
              IpScan.V6 [] ScanMode.Turbo 2 (7 : Z) = Done l /\ NoDup (pr_ip <$> l) /\ length l = 2%nat.
Proof.
  pose proof (hunt_wg_endpoints_sound 0 (fun _ => None) sample_wg_net (fun l => rev l) 0 steady_clock [2408; 500]
    IpScan.V6 [] ScanMode.Turbo 2 (7 : Z) (fun l => Permutation_sym (Permutation_rev l))) as Hs.
  assert (hunt_wg_endpoints 0 (fun _ => None) sample_wg_net (fun l => rev l) 0 steady_clock [2408; 500]
    IpScan.V6 [] ScanMode.Turbo 2 (7 : Z) = Done [mkProbe (gateway_v6 192) 2408 40; mkProbe (gateway_v6 195) 2408 55]) as E
    by (vm_compute; reflexivity).
  rewrite E in Hs. destruct Hs as (ip' & cands & r' & n & _ & _ & _ & _ & _ & (Hn & _)).
  eexists. split; [exact E|]. split; [exact Hn|reflexivity].
Defined.

Lemma wg_candidates_witness :
  exists out r', build_wg_candidates 0 (fun _ => None) (wg_strategy ScanMode.Verified) [2408; 500] IpScan.V6 [] (7 : Z) =
                   Done (out, r') /\ NoDup out.
Proof.
  pose proof (wg_candidates 0 (fun _ => None) ScanMode.Verified [2408; 500] IpScan.V6 [] (7 : Z)) as Hc.
  destruct (build_wg_candidates _ _ _ _ _ _ _) as [[out r']| | |]; [|destruct Hc|destruct Hc|destruct Hc as [E _]; discriminate E].
  destruct Hc as (ips & _ & _ & _ & Hd & _). exists out, r'. split; [reflexivity|exact Hd].
Defined.

(** What [hunt_wg_endpoints] promises to the choice of hops: see [WgHunt]. *)
Lemma hunt_wg_endpoints_distinct {R} `{Rng R} fuel env net complete start clock ports ip excluded mode want (r : R) l :
  hunt_wg_endpoints fuel env net complete start clock ports ip excluded mode want r = Done l -> NoDup (pr_ip <$> l).
Proof.
  unfold hunt_wg_endpoints. destruct (effective_ip _ _) as [ip'| | |]; try done. cbn [mbind outcome_bind].
  destruct (build_wg_candidates _ _ _ _ _ _ _) as [[cands r']| | |]; try done. cbn [no_fail mbind outcome_bind].
  set (many := Z.max want 1). set (stream := complete _).
  match goal with |- context [wg_scan_loop ?st _ ?dl _ _ _ _] =>
    pose proof (wg_scan_loop_spec st many dl clock [] stream (mkWgScan [] 0 None) eq_refl eq_refl ltac:(done) ltac:(done)) as Hl
  end. cbn [length] in Hl. destruct (wg_scan_loop _ _ _ _ _ _ _) as [l'|s].
  - intros [= ->]. destruct Hl as (_ & pr & -> & _). cbn. apply NoDup_singleton.
  - dest_if; [done|]. intros [= <-]. by apply (distinct_by_ip_selects many (verified s)); lia.
Qed.

Lemma hunt_wg_endpoints_no_panic {R} `{Rng R} fuel env net complete start clock ports ip excluded mode want (r : R) :
  hunt_wg_endpoints fuel env net complete start clock ports ip excluded mode want r <> Panic.
Proof.
  unfold hunt_wg_endpoints. destruct (effective_ip _ _) as [ip'| | |] eqn:Ei; try done; cbn [mbind outcome_bind].
  - pose proof (build_wg_candidates_spec fuel env (wg_strategy mode) ports ip' excluded r (wg_strategy_is_ok mode)) as Hc.
    destruct (build_wg_candidates _ _ _ _ _ _ _) as [[cands r']| | |]; try done. cbn [no_fail mbind outcome_bind].
    destruct (wg_scan_loop _ _ _ _ _ _ _); [done|]. by dest_if.
  - unfold effective_ip in Ei. destruct ip, (wg_has_ipv6 net); discriminate Ei.
Qed.

(** What [hunt_best_wg_endpoint] promises to a loop that keeps failed endpoints
    out: its result is not one of them. *)
Lemma hunt_wg_endpoints_avoid {R} `{Rng R} fuel env net complete start clock ports ip excluded mode want (r : R) l pr
  (Hcomplete : forall l, complete l ≡ₚ l) :
  hunt_wg_endpoints fuel env net complete start clock ports ip excluded mode want r = Done l -> pr ∈ l ->
  sock (pr_ip pr) (pr_port pr) ∉ excluded.
Proof.
  unfold hunt_wg_endpoints. destruct (effective_ip _ _) as [ip'| | |]; try done. cbn [mbind outcome_bind].
  pose proof (build_wg_candidates_spec fuel env (wg_strategy mode) ports ip' excluded r (wg_strategy_is_ok mode)) as Hc.
  destruct (build_wg_candidates _ _ _ _ _ _ _) as [[cands r']| | |]; try done. cbn [no_fail mbind outcome_bind].
  set (many := Z.max want 1). set (stream := complete _).
  assert (Hok : forall x, x ∈ successes stream -> sock (pr_ip x) (pr_port x) ∉ excluded).
  { intros x Hx. destruct (wg_success_verified net mode cands stream x (Hcomplete _) Hx) as [Hin _].
    destruct Hc as (ips & _ & _ & _ & ->).
    apply elem_of_add_all in Hin as [Hin|Hin]; [by apply not_elem_of_nil in Hin|].
    apply list_elem_of_In, List.filter_In in Hin as [_ Ha]. unfold allowed in Ha.
    by apply negb_true_iff, bool_decide_eq_false in Ha. }
  match goal with |- context [wg_scan_loop ?st _ ?dl _ _ _ _] =>
    pose proof (wg_scan_loop_spec st many dl clock [] stream (mkWgScan [] 0 None) eq_refl eq_refl ltac:(done) ltac:(done)) as Hl
  end. cbn [app length] in Hl. destruct (wg_scan_loop _ _ _ _ _ _ _) as [l'|s].
  - intros [= ->] Hin. destruct Hl as (_ & x & -> & Hh). apply list_elem_of_singleton in Hin as ->. apply Hok.
    destruct (successes stream) as [|y k]; [done|]. cbn in Hh. injection Hh as ->. apply elem_of_cons. by left.
  - dest_if; [done|]. intros [= <-] Hin. apply Hok. destruct Hl as (n & Hv & _). eapply successes_take. rewrite <- Hv.
    by apply (distinct_by_ip_selects many (verified s)); [lia|].
Qed.
