(* ===== verification/HopLoop.v ===== *)
(** * The loops around nested tunnels (lib.rs: [run_gool], [run_mim])

    Each loop picks two hops, runs a tunnel through them and starts again.  A
    pass is a function of the state the loop keeps and of what the world
    answers in that pass: the prompts, the scan, the tunnel.  Log lines and
    sleeps are left out. *)

From stdpp Require Import base list option.
From Stdlib Require Import ZArith Lia.
From S2P Require Import Prelude ListFacts Rand RustStr StrFacts Error Net Sysprofile Prober WgProber Hops.

Definition MAX_CONSECUTIVE_FAILS : Z := 2.
Definition MIM_INNER_TRIES : Z := 6.

Record HopState := mkHopState {
  outer_peer : option SocketAddr;
  inner_peer : option SocketAddr;
  consecutive_fails : Z;
  scan_settings : option (str * IpScan.t)
}.

Definition hops_start (pinned : WiwEndpoints) : HopState := mkHopState (outer pinned) (inner pinned) 0 None.

(** After two failures in a row the hops that were not named by hand are
    dropped. *)
Definition forget_failed (pinned : WiwEndpoints) (s : HopState) : HopState :=
  if MAX_CONSECUTIVE_FAILS <=? consecutive_fails s then
    mkHopState
      (match outer pinned with None => None | Some _ => outer_peer s end)
      (match inner pinned with None => None | Some _ => inner_peer s end)
      0 (scan_settings s)
  else s.

(** The mode and the address family are asked for once. *)
Definition settle_settings (asked : str * IpScan.t) (s : HopState) : HopState * (str * IpScan.t) :=
  match scan_settings s with
  | Some settings => (s, settings)
  | None => (mkHopState (outer_peer s) (inner_peer s) (consecutive_fails s) (Some asked), asked)
  end.

Definition verified_scan_selected `{UnicodeData} (env : environment) (settings : option (str * IpScan.t)) : bool :=
  let named := match settings with Some (mode, _) => mode | None => default [] (env (lit "AETHER_SCAN")) end in
  bool_decide (ScanMode.parse named = ScanMode.Verified).

(** ** Warp in warp *)

(** What a scan for WireGuard endpoints promises to its callers: endpoints on
    different addresses, and no panic. *)
Definition wg_hunt := ScanMode.t -> IpScan.t -> list SocketAddr -> Z -> aresult (list ProbeResult).

Class WgHunt (hunt : wg_hunt) : Prop := {
  hunt_distinct mode ip excluded want l : hunt mode ip excluded want = Done l -> NoDup (pr_ip <$> l);
  hunt_no_panic mode ip excluded want : hunt mode ip excluded want <> Panic
}.

(** [keys] is the reading of the identity's keys and address. *)
Definition select_wg_peers `{UnicodeData} (keys : aresult unit) (hunt : wg_hunt) (mode_str : str) (ip : IpScan.t)
  (want : Z) (avoid : list IpAddr) : aresult (list SocketAddr) :=
  let mode := ScanMode.parse mode_str in
  _ ← keys;
  let excluded := flat_map (fun address => sock address <$> WG_PORTS) avoid in
  found ← hunt mode ip excluded want;
  let picked := ztake want (List.filter (fun pr => negb (bool_decide (pr_ip pr ∈ avoid))) found) in
  if zlen picked =? 0 then Fail NoCleanEndpoint
  else Done ((fun pr => sock (pr_ip pr) (pr_port pr)) <$> picked).

Definition both_on (ip : IpAddr) : AetherError :=
  Other (lit "warp-in-warp needs two separate edges but both hops landed on " ++ show_ip ip).

(** The guard of [run_warp_in_warp]; the rest of it is [tunnel]. *)
Definition run_warp_in_warp (tunnel : SocketAddr -> SocketAddr -> aresult unit) (peer inner_peer : SocketAddr)
  : aresult unit :=
  if bool_decide (sock_ip inner_peer = sock_ip peer) then Fail (both_on (sock_ip peer))
  else tunnel peer inner_peer.

(** What the world answers in one pass. *)
Record gool_world := mkGoolWorld {
  asked : str * IpScan.t;
  keys : aresult unit;
  hunt : wg_hunt;
  tunnel : SocketAddr -> SocketAddr -> aresult unit
}.

(** A pass either starts over without a tunnel, or runs one and sees it end. *)
Inductive pass :=
| Rescan
| Ran (outer inner : SocketAddr) (ended : aresult unit).

(** [pick_hops] is the [match (outer_peer, inner_peer)] of the loop: the hops
    of this pass, or the state to start over from. *)
Definition pick_hops `{UnicodeData} (env : environment) (pinned : WiwEndpoints) (w : gool_world) (s : HopState)
  : outcome AetherError (HopState * option (SocketAddr * SocketAddr)) :=
  match outer_peer s, inner_peer s with
  | Some o, Some i => Done (s, Some (o, i))
  | known_outer, known_inner =>
      let wanted := (if known_outer is Some _ then 0 else 1) + (if known_inner is Some _ then 0 else 1) in
      let avoid := sock_ip <$> (option_list known_outer ++ option_list known_inner) in
      let '(s, (mode_str, ip)) := settle_settings (asked w) s in
      match select_wg_peers (keys w) (hunt w) mode_str ip wanted avoid with
      | Panic => Panic
      | Diverge => Diverge
      | Fail _ => Done (s, None)
      | Done found =>
          let found := if verified_scan_selected env (scan_settings s) then spread_hops found else found in
          let '(outer_, found) := match known_outer with
                                  | Some o => (Some o, found)
                                  | None => (head found, tail found)
                                  end in
          let inner_ := match known_inner with Some i => Some i | None => head found end in
          match outer_, inner_ with
          | Some o, Some i => Done (s, Some (o, i))
          | _, _ => Done (mkHopState (outer pinned) (inner pinned) (consecutive_fails s) (scan_settings s), None)
          end
      end
  end.

Definition gool_pass `{UnicodeData} (env : environment) (pinned : WiwEndpoints) (w : gool_world) (s : HopState)
  : outcome AetherError (HopState * pass) :=
  let s := forget_failed pinned s in
  '(s, hops) ← pick_hops env pinned w s;
  match hops with
  | None => Done (s, Rescan)
  | Some (peer, inner_) =>
      let ended := run_warp_in_warp (tunnel w) peer inner_ in
      Done (mkHopState (Some peer) (Some inner_) (consecutive_fails s + 1) (scan_settings s), Ran peer inner_ ended)
  end.

(** ** MASQUE in MASQUE *)

Definition hunt_masque_peer `{UnicodeData} (hunt : ScanMode.t -> IpScan.t -> aresult ProbeResult)
  (mode_str : str) (ip : IpScan.t) : aresult SocketAddr :=
  best ← hunt (ScanMode.parse mode_str) ip;
  Done (sock (pr_ip best) (pr_port best)).

(** The outer tunnel, the forwarder to an inner edge, whether a tunnel comes up
    through it, and the time the pair then lives. *)
Record mim_world := mkMimWorld {
  mim_asked : str * IpScan.t;
  mim_hunt : ScanMode.t -> IpScan.t -> aresult ProbeResult;
  establish_outer : SocketAddr -> aresult unit;
  spawn_forwarder : SocketAddr -> aresult unit;
  establish_inner : SocketAddr -> bool;
  serve : SocketAddr -> aresult unit
}.

(** The loop over the inner edges: the first that serves a tunnel. *)
Fixpoint try_inner (w : mim_world) (peer : SocketAddr) (inner_peers : list SocketAddr) : aresult (option SocketAddr) :=
  match inner_peers with
  | [] => Done None
  | inner_ :: inner_peers =>
      if bool_decide (sock_ip inner_ = sock_ip peer) then try_inner w peer inner_peers
      else
        _ ← spawn_forwarder w inner_;
        if establish_inner w inner_ then Done (Some inner_) else try_inner w peer inner_peers
  end.

Definition no_inner : AetherError := Other (lit "no inner masque edge answered through the outer tunnel").

Definition run_masque_in_masque (w : mim_world) (peer : SocketAddr) (inner_peers : list SocketAddr)
  : aresult SocketAddr :=
  _ ← establish_outer w peer;
  chosen ← try_inner w peer inner_peers;
  match chosen with
  | None => Fail no_inner
  | Some inner_ => _ ← serve w inner_; Done inner_
  end.

Inductive mim_ran :=
| MimRescan
| MimRan (outer : SocketAddr) (candidates : list SocketAddr) (ended : aresult SocketAddr).

Definition no_second_edge : AetherError := Other (lit "no second masque edge is known for the inner hop").

Section Mim.
Context {R : Type} `{Rng R} `{UnicodeData}.

Definition mim_outer (w : mim_world) (s : HopState) : outcome AetherError (HopState * option SocketAddr) :=
  match outer_peer s with
  | Some peer => Done (s, Some peer)
  | None =>
      let '(s, (mode_str, ip)) := settle_settings (mim_asked w) s in
      match hunt_masque_peer (mim_hunt w) mode_str ip with
      | Done peer => Done (s, Some peer)
      | Fail _ => Done (s, None)
      | Panic => Panic
      | Diverge => Diverge
      end
  end.

Definition mim_pass (fuel : nat) (env : environment) (pinned : WiwEndpoints) (w : mim_world) (s : HopState) (r : R)
  : outcome AetherError (HopState * mim_ran * R) :=
  let s := forget_failed pinned s in
  '(s, outer_) ← mim_outer w s;
  match outer_ with
  | None => Done (s, MimRescan, r)
  | Some outer_ =>
      '(candidates, r) ←
        match inner_peer s with
        | Some peer => Done ([peer], r)
        | None => no_fail (inner_masque_candidates fuel outer_ MIM_INNER_TRIES
                             (verified_scan_selected env (scan_settings s)) r)
        end;
      if zlen candidates =? 0 then Fail no_second_edge
      else
        let ended := run_masque_in_masque w outer_ candidates in
        Done (mkHopState (Some outer_) (inner_peer s) (consecutive_fails s + 1) (scan_settings s),
              MimRan outer_ candidates ended, r)
  end.

End Mim.

(** ** Invariants *)

(** Hops agree with the ones named by hand. *)
Definition respects (pinned : WiwEndpoints) (o i : SocketAddr) : Prop :=
  (forall p, outer pinned = Some p -> o = p) /\ (forall p, inner pinned = Some p -> i = p).

(** Between two passes of [run_gool]: either nothing but the hops named by
    hand is known, or both hops are, at different addresses. *)
Definition hops_ok (pinned : WiwEndpoints) (s : HopState) : Prop :=
  0 <= consecutive_fails s <= MAX_CONSECUTIVE_FAILS /\
  ((outer_peer s = outer pinned /\ inner_peer s = inner pinned) \/
   exists o i, outer_peer s = Some o /\ inner_peer s = Some i /\ sock_ip o <> sock_ip i /\ respects pinned o i).

(** After two tunnels in a row that ended, only the hops named by hand are
    kept; before that, all are. *)
Definition drops_failed (pinned : WiwEndpoints) (s : HopState) : Prop :=
  forget_failed pinned s =
    if consecutive_fails s =? MAX_CONSECUTIVE_FAILS then mkHopState (outer pinned) (inner pinned) 0 (scan_settings s)
    else s.

Lemma forget_failed_drops pinned s :
  0 <= consecutive_fails s <= MAX_CONSECUTIVE_FAILS ->
  (forall p, outer pinned = Some p -> outer_peer s = Some p) ->
  (forall p, inner pinned = Some p -> inner_peer s = Some p) -> drops_failed pinned s.
Proof.
  intros Hf Ho Hi. unfold drops_failed, forget_failed.
  destruct (Z.leb_spec MAX_CONSECUTIVE_FAILS (consecutive_fails s)), (Z.eqb_spec (consecutive_fails s) MAX_CONSECUTIVE_FAILS);
    try lia; [|done].
  f_equal; [destruct (outer pinned)|destruct (inner pinned)]; auto.
Qed.

Lemma hops_start_ok pinned : hops_ok pinned (hops_start pinned).
Proof. split; [cbn; unfold MAX_CONSECUTIVE_FAILS; lia|by left]. Qed.

Lemma forget_failed_ok pinned s :
  hops_ok pinned s ->
  hops_ok pinned (forget_failed pinned s) /\ consecutive_fails (forget_failed pinned s) < MAX_CONSECUTIVE_FAILS /\
  scan_settings (forget_failed pinned s) = scan_settings s.
Proof.
  intros [Hf Hp]. unfold forget_failed. destruct (Z.leb_spec MAX_CONSECUTIVE_FAILS (consecutive_fails s)) as [Hle|Hlt];
    [|done]. cbn. unfold MAX_CONSECUTIVE_FAILS in *. split; [|split; [lia|done]]. split; [cbn; unfold MAX_CONSECUTIVE_FAILS; lia|].
  cbn. destruct Hp as [[-> ->]|(o & i & -> & -> & Hne & Ho & Hi)].
  - left. by destruct (outer pinned), (inner pinned).
  - destruct (outer pinned) as [po|] eqn:Epo; destruct (inner pinned) as [pi|] eqn:Epi.
    + right. exists o, i. split_and!; [done..|]. split; rewrite ?Epo, ?Epi; auto.
    + left. split; [f_equal; auto|done].
    + left. split; [done|f_equal; auto].
    + left. done.
Qed.

(** *** The scan of a pass *)

Lemma filter_NoDup_fmap {A B} (f : A -> B) (p : A -> bool) l : NoDup (f <$> l) -> NoDup (f <$> List.filter p l).
Proof.
  induction l as [|x l IH]; cbn; [done|]. intros [Hx Hd]%list.NoDup_cons. destruct (p x); cbn; [|by apply IH].
  apply list.NoDup_cons. split; [|by apply IH]. intros (y & E & Hy)%list_elem_of_fmap. apply Hx, list_elem_of_fmap.
  exists y. split; [done|]. by apply list_elem_of_In, List.filter_In in Hy as [?%list_elem_of_In _].
Qed.

Section GoolFacts.
Context `{UnicodeData}.

Lemma select_wg_peers_spec keys hunt mode ip want avoid found :
  WgHunt hunt -> 0 <= want -> select_wg_peers keys hunt mode ip want avoid = Done found ->
  NoDup (sock_ip <$> found) /\ (forall a, a ∈ found -> sock_ip a ∉ avoid) /\ found <> [] /\ zlen found <= want.
Proof.
  intros Hh Hw. unfold select_wg_peers. destruct keys as [[]| | |]; try done. cbn [mbind outcome_bind].
  destruct (hunt _ _ _ _) as [l| | |] eqn:El; try done. cbn [mbind outcome_bind]. apply hunt_distinct in El.
  set (kept := List.filter _ l). set (picked := ztake want kept).
  destruct (Z.eqb_spec (zlen picked) 0) as [Hz|Hz]; [done|]. intros [= <-].
  assert (Hd : NoDup (pr_ip <$> picked)).
  { apply (filter_NoDup_fmap pr_ip (fun pr => negb (bool_decide (pr_ip pr ∈ avoid)))) in El. fold kept in El.
    unfold picked, ztake. rewrite fmap_take. rewrite <- (take_drop (Z.to_nat want)) in El. by apply list.NoDup_app in El as [? _]. }
  split_and!.
  - rewrite <- list_fmap_compose. replace (sock_ip ∘ _ <$> picked) with (pr_ip <$> picked); [done|].
    apply list_fmap_ext. intros i pr _. cbn. by rewrite sock_ip_sock.
  - intros a (pr & -> & Hpr)%list_elem_of_fmap. rewrite sock_ip_sock.
    apply elem_of_take in Hpr as (i & Hi & _). apply list_elem_of_lookup_2, list_elem_of_In, List.filter_In in Hi as [_ Hi].
    by apply negb_true_iff, bool_decide_eq_false in Hi.
  - intros E%fmap_nil_inv. rewrite E in Hz. by apply Hz.
  - unfold zlen. rewrite length_fmap. unfold picked, ztake. rewrite length_take. lia.
Qed.

Lemma select_wg_peers_no_panic keys hunt mode ip want avoid :
  WgHunt hunt -> keys <> Panic -> select_wg_peers keys hunt mode ip want avoid <> Panic.
Proof.
  intros Hh Hk. unfold select_wg_peers. destruct keys as [[]| | |]; try done. cbn [mbind outcome_bind].
  destruct (hunt _ _ _ _) as [l| | |] eqn:El; try done; [|by apply hunt_no_panic in El].
  cbn [mbind outcome_bind]. by destruct (_ =? 0).
Qed.

Record gool_world_ok (w : gool_world) : Prop := {
  world_hunt : WgHunt (hunt w);
  world_keys : keys w <> Panic
}.

(** The settings of a scan: the ones in use, or else the ones now asked for. *)
Definition settings_of (asked : str * IpScan.t) (s : HopState) : str * IpScan.t := default asked (scan_settings s).

(** The scan of a pass: as many endpoints as hops are missing, away from the
    ones that are known. *)
Definition missing (s : HopState) : Z := 2 - zlen (option_list (outer_peer s) ++ option_list (inner_peer s)).

Definition hop_scan (w : gool_world) (s : HopState) : aresult (list SocketAddr) :=
  let '(mode, ip) := settings_of (asked w) s in
  select_wg_peers (keys w) (hunt w) mode ip (missing s)
    (sock_ip <$> (option_list (outer_peer s) ++ option_list (inner_peer s))).

(** The hops of a pass: at different addresses, those named by hand where they
    are, a known hop kept, and a hop that was not known one the scan found. *)
Definition pass_hops_ok (pinned : WiwEndpoints) (w : gool_world) (s : HopState) (o i : SocketAddr) : Prop :=
  sock_ip o <> sock_ip i /\ respects pinned o i /\
  match outer_peer s with Some p => o = p | None => exists found, hop_scan w s = Done found /\ o ∈ found end /\
  match inner_peer s with Some p => i = p | None => exists found, hop_scan w s = Done found /\ i ∈ found end.

(** The state after a pass without a tunnel: a hop was missing and the scan
    found too little. *)
Definition rescans (w : gool_world) (s s' : HopState) : Prop :=
  0 < missing s /\ s' = mkHopState (outer_peer s) (inner_peer s) (consecutive_fails s) (Some (settings_of (asked w) s)) /\
  match hop_scan w s with Done found => zlen found < missing s | Fail _ => True | _ => False end.

(** The settings are asked for once, at the first scan. *)
Definition settings_after (s : HopState) (asked : str * IpScan.t) : option (str * IpScan.t) :=
  if missing s =? 0 then scan_settings s else Some (settings_of asked s).

Lemma settle_settings_spec asked s :
  settle_settings asked s =
    (mkHopState (outer_peer s) (inner_peer s) (consecutive_fails s) (Some (settings_of asked s)), settings_of asked s).
Proof. unfold settle_settings, settings_of. destruct s as [o i f [x|]]; done. Qed.

(** Spreading permutes what was found, so every fact about its elements stays. *)
Lemma maybe_spread (b : bool) found : (if b then spread_hops found else found) ≡ₚ found.
Proof. destruct b; [|done]. apply (spread_hops_ok found). Qed.

Lemma pick_hops_spec env pinned w s :
  separate pinned -> gool_world_ok w -> hops_ok pinned s ->
  match pick_hops env pinned w s with
  | Done (s', Some (o, i)) => pass_hops_ok pinned w s o i /\ consecutive_fails s' = consecutive_fails s /\
      scan_settings s' = settings_after s (asked w)
  | Done (s', None) => hops_ok pinned s' /\ rescans w s s'
  | Diverge => hop_scan w s = Diverge
  | _ => False
  end.
Proof.
  intros Hsep [Hh Hk] [Hf Hp]. unfold pick_hops, pass_hops_ok, rescans, hop_scan, settings_after, missing.
  destruct Hp as [[Eo Ei]|(o & i & Eo & Ei & Hne & Hr)].
  2: { rewrite Eo, Ei. done. }
  rewrite settle_settings_spec. destruct (settings_of (asked w) s) as [mode ip].
  destruct (outer_peer s) as [o|] eqn:Eos, (inner_peer s) as [i|] eqn:Eis.
  { split; [|done]. split_and!; [by apply Hsep|split; congruence|congruence..]. }
  all: unfold option_list, option_rect; cbn [app]; change (0 + 1) with 1; change (1 + 0) with 1; change (1 + 1) with 2;
    change (2 - zlen [_]) with 1; change (2 - zlen []) with 2; change (1 =? 0) with false; change (2 =? 0) with false;
    cbn [scan_settings consecutive_fails].
  all: match goal with |- context [select_wg_peers ?k ?h ?m ?p ?n ?a] =>
    pose proof (fun found => select_wg_peers_spec k h m p n a found) as Hsel;
    pose proof (select_wg_peers_no_panic k h m p n a Hh Hk) as Hnp;
    destruct (select_wg_peers k h m p n a) as [found|e| |] eqn:Efound end; try done.
  all: try (split; [split; [done|left; cbn; split; congruence]|done]).
  all: destruct (Hsel found Hh ltac:(cbn; lia) eq_refl) as (Hd & Hav & Hne & Hlen); clear Hsel.
  all: pose proof (maybe_spread (verified_scan_selected env (Some (mode, ip))) found) as Hperm;
    set (found' := if verified_scan_selected env (Some (mode, ip)) then _ else _) in *.
  - (* the outer hop is known *)
    destruct found' as [|i l] eqn:Ef'; [by apply Permutation_nil_l in Hperm|]. cbn [head].
    assert (Hin : i ∈ found) by (rewrite <- Hperm; apply elem_of_cons; by left).
    split; [|done]. split_and!; [|split; congruence|done|by exists found].
    intros E. apply (Hav i Hin). cbn. apply list_elem_of_singleton. congruence.
  - (* the inner hop is known *)
    destruct found' as [|o l] eqn:Ef'; [by apply Permutation_nil_l in Hperm|]. cbn [head].
    assert (Hin : o ∈ found) by (rewrite <- Hperm; apply elem_of_cons; by left).
    split; [|done]. split_and!; [|split; congruence|by exists found|done].
    intros E. apply (Hav o Hin). cbn. apply list_elem_of_singleton. congruence.
  - (* both come from the scan *)
    assert (Hd' : NoDup (sock_ip <$> found')) by by rewrite Hperm.
    assert (Hl : length found' = length found) by by rewrite Hperm.
    destruct found' as [|o [|i l]] eqn:Ef'; cbn [head tail].
    1,2: split; [split; [done|by left]|rewrite <- Eo, <- Ei; split; [done|split; [done|unfold zlen; rewrite <- Hl; done]]].
    split; [|done]. split_and!; [|split; congruence|exists found..].
    + cbn in Hd'. apply list.NoDup_cons in Hd' as [Hn _]. intros E. apply Hn, elem_of_cons. by left.
    + split; [done|]. rewrite <- Hperm. apply elem_of_cons. by left.
    + split; [done|]. rewrite <- Hperm. apply elem_of_cons. right. apply elem_of_cons. by left.
Qed.

End GoolFacts.

(** The scanner of this engine keeps the promise, whatever the network, the
    order of the answers and the clock are. *)
#[global] Instance hunt_wg_endpoints_WgHunt {R} `{Rng R} fuel env net complete start clock (r : R) :
  WgHunt (fun mode ip excluded want =>
            hunt_wg_endpoints fuel env net complete start clock WG_PORTS ip excluded mode want r).
Proof.
  split.
  - intros mode ip excluded want l. apply hunt_wg_endpoints_distinct.
  - intros mode ip excluded want. apply hunt_wg_endpoints_no_panic.
Qed.

Section Gool.
Context `{UnicodeData} (env : environment) (pinned : WiwEndpoints).

(** The states [run_gool] reaches, with the passes that led there. *)
Inductive gool_run : HopState -> list pass -> Prop :=
| gool_start : gool_run (hops_start pinned) []
| gool_step s h w s' p :
    gool_run s h -> gool_world_ok w -> gool_pass env pinned w s = Done (s', p) -> gool_run s' (h ++ [p]).

Definition pass_ok (p : pass) : Prop :=
  match p with
  | Rescan => True
  | Ran o i ended => sock_ip o <> sock_ip i /\ respects pinned o i
  end.

(** What one more pass does in the state [s]: it starts over, or it runs the
    tunnel, keeps its hops and counts it. *)
Definition next_pass_ok (w : gool_world) (s s' : HopState) (p : pass) : Prop :=
  let s := forget_failed pinned s in
  hops_ok pinned s' /\
  match p with
  | Rescan => rescans w s s'
  | Ran o i ended =>
      pass_hops_ok pinned w s o i /\ ended = tunnel w o i /\
      s' = mkHopState (Some o) (Some i) (consecutive_fails s + 1) (settings_after s (asked w))
  end.

Lemma gool_pass_spec w s :
  separate pinned -> gool_world_ok w -> hops_ok pinned s ->
  match gool_pass env pinned w s with
  | Done (s', p) => next_pass_ok w s s' p
  | Diverge => hop_scan w (forget_failed pinned s) = Diverge
  | _ => False
  end.
Proof.
  intros Hsep Hw Hs. destruct (forget_failed_ok pinned s Hs) as (Hf & Hlt & _).
  unfold gool_pass. pose proof (pick_hops_spec env pinned w (forget_failed pinned s) Hsep Hw Hf) as Hp.
  destruct (pick_hops env pinned w (forget_failed pinned s)) as [[s1 [[o i]|]]| | |]; try done; cbn [mbind outcome_bind].
  destruct Hp as (Hok & Hc & Hss). split; [|split; [exact Hok|split]].
  - split; [cbn; destruct Hf as [Hf _]; unfold MAX_CONSECUTIVE_FAILS in *; lia|]. right. exists o, i.
    cbn. split_and!; [done|done|by apply Hok|apply Hok..].
  - unfold run_warp_in_warp. rewrite bool_decide_false; [done|].
    intros E. destruct Hok as [Hne _]. by apply Hne.
  - by rewrite Hc, Hss.
Qed.

Lemma gool_run_ok s h : separate pinned -> gool_run s h -> hops_ok pinned s /\ Forall pass_ok h.
Proof.
  intros Hsep. induction 1 as [|s h w s' p Hr [Hs Hh] Hw Hp]; [split; [apply hops_start_ok|constructor]|].
  pose proof (gool_pass_spec w s Hsep Hw Hs) as Hn. rewrite Hp in Hn. destruct Hn as (Hs' & Hpass).
  split; [done|]. apply Forall_app. split; [done|]. apply Forall_singleton.
  destruct p as [|o i e]; [done|]. destruct Hpass as ((Hne & Hr' & _) & _). by split.
Qed.

End Gool.

(** *** MASQUE in MASQUE *)

(** What a scan for a MASQUE gateway promises: an address, and no panic. *)
Class MasqueHunt (hunt : ScanMode.t -> IpScan.t -> aresult ProbeResult) : Prop := {
  masque_hunt_ok mode ip pr : hunt mode ip = Done pr -> sock_ok (sock (pr_ip pr) (pr_port pr));
  masque_hunt_no_panic mode ip : hunt mode ip <> Panic
}.

Definition pinned_ok (pinned : WiwEndpoints) : Prop := forall p, outer pinned = Some p -> sock_ok p.

Definition mim_ok (pinned : WiwEndpoints) (s : HopState) : Prop :=
  0 <= consecutive_fails s <= MAX_CONSECUTIVE_FAILS /\ inner_peer s = inner pinned /\
  (forall p, outer pinned = Some p -> outer_peer s = Some p) /\ (forall p, outer_peer s = Some p -> sock_ok p).

Lemma mim_start_ok pinned : pinned_ok pinned -> mim_ok pinned (hops_start pinned).
Proof. intros Hp. split_and!; cbn; unfold MAX_CONSECUTIVE_FAILS; [lia..|done|done|done]. Qed.

Lemma mim_forget_ok pinned s :
  mim_ok pinned s ->
  mim_ok pinned (forget_failed pinned s) /\ consecutive_fails (forget_failed pinned s) < MAX_CONSECUTIVE_FAILS.
Proof.
  intros (Hf & Hi & Ho & Hok). unfold forget_failed.
  destruct (Z.leb_spec MAX_CONSECUTIVE_FAILS (consecutive_fails s)); [|done]. split; [|cbn; unfold MAX_CONSECUTIVE_FAILS; lia].
  split_and!; cbn; unfold MAX_CONSECUTIVE_FAILS; [lia..| | |].
  - rewrite Hi. by destruct (inner pinned).
  - intros p Hp. rewrite Hp. auto.
  - destruct (outer pinned); [done|congruence].
Qed.

Lemma try_inner_spec w peer l :
  match try_inner w peer l with
  | Done (Some i) => exists a b, l = a ++ i :: b /\ sock_ip i <> sock_ip peer /\ establish_inner w i = true /\
      Forall (fun c => sock_ip c = sock_ip peer \/ establish_inner w c = false) a
  | Done None => Forall (fun c => sock_ip c = sock_ip peer \/ establish_inner w c = false) l
  | _ => True
  end.
Proof.
  induction l as [|c l IH]; cbn [try_inner]; [constructor|]. case_bool_decide as Hc.
  - destruct (try_inner w peer l) as [[i|]| | |]; try done; [|by constructor; [left|]].
    destruct IH as (a & b & -> & ? & ? & Ha). exists (c :: a), b. split_and!; [done..|]. by constructor; [left|].
  - destruct (spawn_forwarder w c) as [u| | |]; try done. cbn [mbind outcome_bind].
    destruct (establish_inner w c) eqn:Ee; [by exists [], l|].
    destruct (try_inner w peer l) as [[i|]| | |]; try done; [|by constructor; [right|]].
    destruct IH as (a & b & -> & ? & ? & Ha). exists (c :: a), b. split_and!; [done..|]. by constructor; [right|].
Qed.

Section MimFacts.
Context {R : Type} `{Rng R} `{UnicodeData} (env : environment) (pinned : WiwEndpoints).

(** The scan of a pass for the outer hop, and the hop it uses: the known one,
    or the one that scan found. *)
Definition mim_scan (w : mim_world) (s : HopState) : aresult SocketAddr :=
  let '(mode, ip) := settings_of (mim_asked w) s in hunt_masque_peer (mim_hunt w) mode ip.

Definition mim_hop (w : mim_world) (s : HopState) : aresult SocketAddr :=
  match outer_peer s with Some p => Done p | None => mim_scan w s end.

Definition mim_settings (w : mim_world) (s : HopState) : option (str * IpScan.t) :=
  if outer_peer s is Some _ then scan_settings s else Some (settings_of (mim_asked w) s).

(** What one more pass does in the state [s]: the scan for the outer hop fails
    and it starts over, or it tries the inner edges through the outer hop,
    keeps that hop and counts the tunnel. *)
Definition mim_next_ok (w : mim_world) (s s' : HopState) (ran : mim_ran) : Prop :=
  let s := forget_failed pinned s in
  mim_ok pinned s' /\
  match ran with
  | MimRescan =>
      (exists e, mim_hop w s = Fail e) /\
      s' = mkHopState None (inner_peer s) (consecutive_fails s) (mim_settings w s)
  | MimRan o cands ended =>
      mim_hop w s = Done o /\ (forall p, outer pinned = Some p -> o = p) /\
      match inner pinned with Some p => cands = [p] | None => offers o MIM_INNER_TRIES cands end /\
      ended = run_masque_in_masque w o cands /\
      (forall i, ended = Done i ->
        exists a b, cands = a ++ i :: b /\ sock_ip i <> sock_ip o /\ establish_inner w i = true /\
          Forall (fun c => sock_ip c = sock_ip o \/ establish_inner w c = false) a) /\
      s' = mkHopState (Some o) (inner pinned) (consecutive_fails s + 1) (mim_settings w s)
  end.

Lemma run_mim_spec w peer l i :
  run_masque_in_masque w peer l = Done i ->
  exists a b, l = a ++ i :: b /\ sock_ip i <> sock_ip peer /\ establish_inner w i = true /\
    Forall (fun c => sock_ip c = sock_ip peer \/ establish_inner w c = false) a.
Proof.
  unfold run_masque_in_masque. destruct (establish_outer w peer); try done. cbn [mbind outcome_bind].
  pose proof (try_inner_spec w peer l) as Ht. destruct (try_inner w peer l) as [[c|]| | |]; try done.
  cbn [mbind outcome_bind]. destruct (serve w c); try done. cbn. by intros [= <-].
Qed.

Lemma mim_outer_spec w s :
  MasqueHunt (mim_hunt w) -> mim_ok pinned s ->
  match mim_outer w s with
  | Done (s', o) =>
      s' = mkHopState (outer_peer s) (inner_peer s) (consecutive_fails s) (mim_settings w s) /\
      match o with
      | Some a => mim_hop w s = Done a /\ sock_ok a /\ forall p, outer pinned = Some p -> a = p
      | None => outer_peer s = None /\ exists e, mim_hop w s = Fail e
      end
  | Diverge => mim_hop w s = Diverge
  | _ => False
  end.
Proof.
  intros Hh (Hf & Hi & Ho & Hok). unfold mim_outer, mim_hop, mim_scan, mim_settings.
  destruct (outer_peer s) as [peer|] eqn:Ep.
  { split; [by destruct s; cbn in *; subst|]. split; [done|]. split; [by apply Hok|].
    intros p Hp. specialize (Ho p Hp). congruence. }
  rewrite settle_settings_spec, Ep. destruct (settings_of (mim_asked w) s) as [mode ip].
  unfold hunt_masque_peer. destruct (mim_hunt w (ScanMode.parse mode) ip) as [pr|e| |] eqn:Eh;
    cbn [mbind outcome_bind]; [|by split; eauto|by apply masque_hunt_no_panic in Eh|done].
  split; [done|]. split; [done|]. split; [by apply (masque_hunt_ok _ _ _ Eh)|]. intros p Hp. by specialize (Ho p Hp).
Qed.

(** A pass does not end only when its scan does not, or when its search for
    inner edges draws too few. *)
Definition mim_diverges (fuel : nat) (w : mim_world) (s : HopState) (r : R) : Prop :=
  mim_hop w s = Diverge \/
  exists o, mim_hop w s = Done o /\ inner pinned = None /\ too_few_draws fuel o MIM_INNER_TRIES r.

Lemma mim_pass_spec fuel w s (r : R) :
  MasqueHunt (mim_hunt w) -> mim_ok pinned s ->
  match mim_pass fuel env pinned w s r with
  | Done (s', ran, _) => mim_next_ok w s s' ran
  | Diverge => mim_diverges fuel w (forget_failed pinned s) r
  | _ => False
  end.
Proof.
  intros Hh Hs. destruct (mim_forget_ok pinned s Hs) as [Hf Hlt]. unfold mim_pass, mim_next_ok, mim_diverges.
  pose proof (mim_outer_spec w (forget_failed pinned s) Hh Hf) as Ho.
  generalize dependent (forget_failed pinned s). clear s Hs. intros s Hf Hlt Ho.
  destruct (mim_outer w s) as [[s1 [o|]]| | |]; try done; cbn [mbind outcome_bind]; [| |by left].
  2: { destruct Ho as (-> & Ep & He). rewrite Ep. split; [|done].
       unfold mim_ok in *. by rewrite Ep in Hf. }
  destruct Ho as (-> & Hhop & Hok & Hpin). destruct Hf as (Hc & Hi & _).
  cbn [inner_peer scan_settings consecutive_fails]. rewrite Hi.
  assert (Hnext : mim_ok pinned (mkHopState (Some o) (inner pinned) (consecutive_fails s + 1) (mim_settings w s))).
  { unfold MAX_CONSECUTIVE_FAILS in *. split_and!; cbn; unfold MAX_CONSECUTIVE_FAILS; [lia..|done| |].
    - intros p Hp. f_equal. by apply Hpin.
    - by intros p [= <-]. }
  destruct (inner pinned) as [p|] eqn:Ei; cbn [mbind outcome_bind].
  - change (zlen [p] =? 0) with false. split_and!; [done..| |done]. intros i. apply run_mim_spec.
  - pose proof (inner_candidates_ok fuel o MIM_INNER_TRIES (verified_scan_selected env (mim_settings w s)) r Hok) as Hcs.
    unfold sibling_limit, MIM_INNER_TRIES in Hcs. specialize (Hcs ltac:(destruct (is_v4 o); lia)). fold MIM_INNER_TRIES in Hcs.
    destruct (inner_masque_candidates _ _ _ _ _) as [[l r']| | |]; try done; cbn [no_fail mbind outcome_bind];
      [|right; by exists o].
    destruct Hcs as [He Hl]. rewrite Hl. change (MIM_INNER_TRIES =? 0) with false.
    split_and!; [done..|by split|done| |done]. intros i. apply run_mim_spec.
Qed.

End MimFacts.

#[global] Instance hunt_best_gateway_MasqueHunt {R} `{Rng R} fuel env net complete start clock (r : R)
  (Hcomplete : forall l, complete l ≡ₚ l) :
  MasqueHunt (fun mode ip => hunt_best_gateway fuel env net complete start clock MASQUE_PORTS ip mode r).
Proof.
  split.
  - intros mode ip pr. apply hunt_best_gateway_address; [done|]. repeat constructor; done.
  - intros mode ip. apply hunt_best_gateway_no_panic.
Qed.

(** The states [run_mim] reaches, each world with its own generator and fuel. *)
Inductive mim_run {R} `{Rng R} `{UnicodeData} (env : environment) (pinned : WiwEndpoints) : HopState -> Prop :=
| mim_start : mim_run env pinned (hops_start pinned)
| mim_step fuel w s s' ran (r r' : R) :
    mim_run env pinned s -> MasqueHunt (mim_hunt w) -> mim_pass fuel env pinned w s r = Done (s', ran, r') ->
    mim_run env pinned s'.

Lemma mim_run_ok {R} `{Rng R} `{UnicodeData} env pinned s :
  pinned_ok pinned -> mim_run (R := R) env pinned s -> mim_ok pinned s.
Proof.
  intros Hp. induction 1 as [|fuel w s s' ran r r' Hr IH Hh Hpass]; [by apply mim_start_ok|].
  pose proof (mim_pass_spec env pinned fuel w s r Hh IH) as Hs. rewrite Hpass in Hs. apply Hs.
Qed.

(** ** Properties *)

(** Warp in warp, in any state of any run. *)
Lemma gool_hops_sound `{UnicodeData} env pinned s h
  (Hsep : separate pinned) (Hrun : gool_run env pinned s h) :
  hops_ok pinned s /\ Forall (pass_ok pinned) h /\ drops_failed pinned s /\
  forall w, gool_world_ok w ->
    match gool_pass env pinned w s with
    | Done (s', p) => next_pass_ok pinned w s s' p
    | Diverge => hop_scan w (forget_failed pinned s) = Diverge
    | _ => False
    end.
Proof.
  destruct (gool_run_ok env pinned s h Hsep Hrun) as [Hs Hh]. split; [done|]. split; [done|]. split.
  - destruct Hs as [Hf [[Eo Ei]|(o & i & Eo & Ei & _ & Ho & Hi)]]; apply forget_failed_drops; try done; try congruence.
    + intros p Hp. rewrite Eo. f_equal. by apply Ho.
    + intros p Hp. rewrite Ei. f_equal. by apply Hi.
  - intros w Hw. by apply gool_pass_spec.
Qed.

(** MASQUE in MASQUE, in any state of any run. *)
Lemma mim_hops_sound {R} `{Rng R} `{UnicodeData} env pinned s
  (Hpinned : pinned_ok pinned) (Hrun : mim_run (R := R) env pinned s) :
  mim_ok pinned s /\ drops_failed pinned s /\
  forall fuel w (r : R), MasqueHunt (mim_hunt w) ->
    match mim_pass fuel env pinned w s r with
    | Done (s', ran, _) => mim_next_ok pinned w s s' ran
    | Diverge => mim_diverges pinned fuel w (forget_failed pinned s) r
    | _ => False
    end.
Proof.
  pose proof (mim_run_ok env pinned s Hpinned Hrun) as Hs. split; [exact Hs|]. split.
  - destruct Hs as (Hf & Hi & Ho & _). apply forget_failed_drops; [done..|congruence].
  - intros fuel w r Hh. by apply mim_pass_spec.
Qed.

(** C24: the loops of nested tunnels, for every sequence of passes, scans and
    tunnel outcomes.  Both: after two tunnels in a row that ended exactly the
    hops named by hand are kept, before that every hop is; a hop that is known
    is used, one that is not comes from a scan of the same pass, with the
    settings asked for at the first scan; a pass starts over only when that
    scan found too little, and else counts its tunnel and keeps its hops; it
    neither fails nor panics, and ends if its scan (and its draw of inner edges)
    does.  Warp in warp, from hops named by hand that are separate: every
    tunnel runs through two different addresses with the hops named by hand
    where they are.  MASQUE in MASQUE: the inner edge is the one named by hand
    or is tried from six different usable ones, and the tunnel that is used
    runs through an edge at another address than the outer hop, the first that
    serves one. *)
Theorem hop_loops_sound {R} `{Rng R} `{UnicodeData} env pinned s h s'
  (Hsep : separate pinned) (Hgool : gool_run env pinned s h)
  (Hpinned : pinned_ok pinned) (Hmim : mim_run (R := R) env pinned s') :
  (hops_ok pinned s /\ Forall (pass_ok pinned) h /\ drops_failed pinned s /\
   forall w, gool_world_ok w ->
     match gool_pass env pinned w s with
     | Done (s1, p) => next_pass_ok pinned w s s1 p
     | Diverge => hop_scan w (forget_failed pinned s) = Diverge
     | _ => False
     end) /\
  mim_ok pinned s' /\ drops_failed pinned s' /\
  forall fuel w (r : R), MasqueHunt (mim_hunt w) ->
    match mim_pass fuel env pinned w s' r with
    | Done (s1, ran, _) => mim_next_ok pinned w s' s1 ran
    | Diverge => mim_diverges pinned fuel w (forget_failed pinned s') r
    | _ => False
    end.
Proof. split; [by apply gool_hops_sound|by apply mim_hops_sound]. Qed.

(** One pass of each loop in a world where two edges answer over IPv6. *)
Definition two_edges : wg_network :=
  mkWgNetwork true
    (fun peer => if bool_decide (sock_ip peer = gateway_v6 192) then Some 40
                 else if bool_decide (sock_ip peer = gateway_v6 195) then Some 55 else None)
    (fun _ => None).

Definition gool_sample : gool_world :=
  mkGoolWorld (lit "turbo", IpScan.V6) (Done tt)
    (fun mode ip excluded want =>
       hunt_wg_endpoints 0 (fun _ => None) two_edges (fun l => rev l) 0 steady_clock WG_PORTS ip excluded mode want (7 : Z))
    (fun _ _ => Done tt).

Definition mim_sample : mim_world :=
  mkMimWorld (lit "verified", IpScan.V6)
    (fun mode ip => hunt_best_gateway 0 (fun _ => None) sample_net (fun l => rev l) 0 steady_clock MASQUE_PORTS ip mode (7 : Z))
    (fun _ => Done tt) (fun _ => Done tt) (fun _ => true) (fun _ => Done tt).

Lemma hop_loops_sound_witness :
  let o := sock (gateway_v6 192) 2408 in
  let i := sock (gateway_v6 195) 1701 in
  Forall (pass_ok (mkHops None None)) [Ran o i (Done tt)] /\
  exists s ran r', mim_pass (H0 := ascii_only) 60 (fun _ => None) (mkHops None None) mim_sample
                     (hops_start (mkHops None None)) (7 : Z) = Done (s, ran, r') /\
    mim_next_ok (H0 := ascii_only) (mkHops None None) mim_sample (hops_start (mkHops None None)) s ran.
Proof.
  pose (Hu := ascii_only).
  assert (gool_pass (fun _ => None) (mkHops None None) gool_sample (hops_start (mkHops None None)) =
          Done (mkHopState (Some (sock (gateway_v6 192) 2408)) (Some (sock (gateway_v6 195) 1701)) 1
                  (Some (lit "turbo", IpScan.V6)),
                Ran (sock (gateway_v6 192) 2408) (sock (gateway_v6 195) 1701) (Done tt))) as E
    by (vm_compute; reflexivity).
  destruct (hop_loops_sound (R := Z) (H0 := ascii_only) (fun _ => None) (mkHops None None) _
    ([] ++ [Ran (sock (gateway_v6 192) 2408) (sock (gateway_v6 195) 1701) (Done tt)])
    (hops_start (mkHops None None))
    ltac:(intros a b Ha; discriminate Ha)
    ltac:(eapply gool_step; [apply gool_start| |exact E]; split; [apply hunt_wg_endpoints_WgHunt|discriminate])
    ltac:(intros p Ep; discriminate Ep) ltac:(apply mim_start)) as [(_ & Hg & _) (_ & _ & Hp)].
  split; [exact Hg|].
  specialize (Hp 60%nat mim_sample (7 : Z) (hunt_best_gateway_MasqueHunt _ _ _ _ _ _ _ (fun l => Permutation_sym (Permutation_rev l)))).
  assert (match mim_pass (H0 := ascii_only) 60 (fun _ => None) (mkHops None None) mim_sample
            (hops_start (mkHops None None)) (7 : Z) with Done _ => true | _ => false end = true) as Hd
    by (vm_compute; reflexivity).
  destruct (mim_pass _ _ _ _ _ _) as [[[s ran] r']| | |] eqn:Em; try discriminate Hd.
  exists s, ran, r'. split; [done|apply Hp].
Defined.
