(* ===== verification/Noize.v ===== *)
(** * Decoys before a QUIC handshake (src/native/aether/aether/src/noize.rs)

    The junk and signature packets sent before the handshake of a MASQUE
    tunnel.  [pre_handshake] is the list of packets it hands to the socket, in
    order: whether a send succeeds changes nothing, and the pauses between
    them only delay.  Random values come from a generator ([Rand]), the wall
    clock is an argument, and [hex::decode] is a parameter. *)

From stdpp Require Import base list option.
From Stdlib Require Import ZArith Lia.
From S2P Require Import Prelude Rand RustStr StrFacts.

Record NoizeConfig := mkNoize {
  jc_before_hs : Z; jc_after_i1 : Z;
  jmin : Z; jmax : Z;
  i1 : option str; i2 : option str;
  junk_interval : Z                      (* milliseconds *)
}.

Definition off : NoizeConfig := mkNoize 0 0 0 0 None None 0.
Definition firewall : NoizeConfig :=
  mkNoize 2 2 48 190 (Some (lit "<b 0d0a0d0a><t><r 24>")) (Some (lit "<r 48>")) 4.
Definition light : NoizeConfig := mkNoize 1 0 32 96 (Some (lit "<b 0d0a0d0a><t><r 16>")) None 3.
Definition gfw : NoizeConfig :=
  mkNoize 2 1 64 256 (Some (lit "<b 0d0a0d0a><t><r 24>")) (Some (lit "<r 32>")) 5.

Definition is_enabled (cfg : NoizeConfig) : bool :=
  (0 <? jc_before_hs cfg) || (0 <? jc_after_i1 cfg) || match i1 cfg with Some _ => true | None => false end.

Definition from_profile (name : str) : NoizeConfig :=
  if str_eqb name (lit "off") || str_eqb name (lit "none") then off
  else if str_eqb name (lit "light") then light
  else if str_eqb name (lit "gfw") || str_eqb name (lit "aggressive") || str_eqb name (lit "heavy") then gfw
  else firewall.

(** The sizes [junk_packet] draws from. *)
Definition junk_range (cfg : NoizeConfig) : Z * Z :=
  if (jmin cfg <? jmax cfg) && (0 <? jmin cfg) then (jmin cfg, jmax cfg) else (40, 90).

Section Noize.
Context {R : Type} `{Rng R} (hex_decode : str -> option (list Z)).

Definition junk_packet (cfg : NoizeConfig) (r : R) : opt (list Z * R) :=
  let '(lo, hi) := junk_range cfg in
  '(size, r) ← pick r lo hi;
  Done (fill_bytes size r).

(** The bytes of one tag. *)
Definition cps_tag (secs : Z) (tag data : str) (r : R) : list Z * R :=
  if str_eqb tag (lit "b") then
    (default [] (hex_decode (List.filter (fun c => negb (is_whitespace c)) data)), r)
  else if str_eqb tag (lit "t") then (be_bytes 4 (u32 secs), r)
  else if str_eqb tag (lit "n") then let '(w, r) := draw r in (be_bytes 8 (u64 w), r)
  else if str_eqb tag (lit "r") then
    fill_bytes (Z.min (default 0 (parse_uint u64_max data)) 1024) r
  else ([], r).

(** The scan of a template from index [i]: [spec] is the text from there on. *)
Fixpoint scan_cps (fuel : nat) (secs : Z) (spec : str) (r : R) : opt (list Z * R) :=
  match fuel with
  | O => Diverge
  | S fuel =>
      match spec with
      | [] => Done ([], r)
      | c :: rest =>
          if negb (c =? 60) then scan_cps fuel secs rest r
          else
            match split_once 62 rest with
            | None => Done ([], r)
            | Some (inner, rest) =>
                let inner := trim inner in
                let '(tag, data) := default (inner, []) (split_once_by is_whitespace inner) in
                let '(b, r) := cps_tag secs tag (trim data) r in
                '(out, r) ← scan_cps fuel secs rest r;
                Done (b ++ out, r)
            end
      end
  end.

Definition parse_cps (secs : Z) (spec : str) (r : R) : opt (list Z * R) := scan_cps (S (length spec)) secs spec r.

Fixpoint junk_run (cfg : NoizeConfig) (n : nat) (r : R) : opt (list (list Z) * R) :=
  match n with
  | O => Done ([], r)
  | S n =>
      '(j, r) ← junk_packet cfg r;
      '(js, r) ← junk_run cfg n r;
      Done (j :: js, r)
  end.

(** A signature packet, if it is set and not empty. *)
Definition signature (secs : Z) (spec : option str) (r : R) : opt (list (list Z) * R) :=
  match spec with
  | None => Done ([], r)
  | Some spec =>
      '(pkt, r) ← parse_cps secs spec r;
      Done (if zlen pkt =? 0 then [] else [pkt], r)
  end.

Definition pre_handshake (secs : Z) (cfg : NoizeConfig) (r : R) : opt (list (list Z) * R) :=
  if negb (is_enabled cfg) then Done ([], r)
  else
    '(before, r) ← junk_run cfg (Z.to_nat (jc_before_hs cfg)) r;
    '(first, r) ← signature secs (i1 cfg) r;
    '(after, r) ← junk_run cfg (Z.to_nat (jc_after_i1 cfg)) r;
    '(second, r) ← signature secs (i2 cfg) r;
    Done (before ++ first ++ after ++ second, r).

End Noize.

(** ** Templates *)

(** The tags of a template, and what one expands to. *)
Inductive template_tag :=
| TagBytes (hex : str)
| TagTime
| TagNonce
| TagRandom (len : Z).

Definition tag_name (t : template_tag) : str :=
  match t with TagBytes _ => lit "b" | TagTime => lit "t" | TagNonce => lit "n" | TagRandom _ => lit "r" end.
Definition tag_data (t : template_tag) : str :=
  match t with TagBytes h => h | TagRandom n => show_uint n | _ => [] end.

(** A template as a profile writes it. *)
Definition render (tags : list template_tag) : str :=
  flat_map (fun t => lit "<" ++ tag_name t ++ (if bool_decide (tag_data t = []) then [] else lit " " ++ tag_data t) ++ lit ">") tags.

(** Digits and letters, as in a hexadecimal string. *)
Definition tag_ok (t : template_tag) : Prop :=
  match t with
  | TagBytes h => Forall (fun c => is_ascii_alphanumeric c = true) h
  | TagRandom n => 0 <= n <= u64_max
  | _ => True
  end.

Section Templates.
Context {R : Type} `{Rng R} (hex_decode : str -> option (list Z)).

Definition expand_tag (secs : Z) (t : template_tag) (r : R) : list Z * R :=
  match t with
  | TagBytes h => (default [] (hex_decode h), r)
  | TagTime => (be_bytes 4 (u32 secs), r)
  | TagNonce => let '(w, r) := draw r in (be_bytes 8 (u64 w), r)
  | TagRandom n => fill_bytes (Z.min n 1024) r
  end.

Fixpoint expand (secs : Z) (tags : list template_tag) (r : R) : list Z * R :=
  match tags with
  | [] => ([], r)
  | t :: tags => let '(b, r) := expand_tag secs t r in let '(out, r) := expand secs tags r in (b ++ out, r)
  end.

Definition is_word (c : Z) : Prop := is_ascii_alphanumeric c = true.

Lemma is_word_bound c : is_word c -> 48 <= c <= 57 \/ 65 <= c <= 90 \/ 97 <= c <= 122.
Proof. unfold is_word, is_ascii_alphanumeric, is_ascii_digit, is_ascii_upper, is_ascii_lower. intros. bool_lia. Qed.

Lemma word_not_space c : is_word c -> is_whitespace c = false.
Proof. intros Hc%is_word_bound. unfold is_whitespace. bool_lia. Qed.

Lemma show_uint_word n : 0 <= n -> Forall is_word (show_uint n).
Proof.
  intros Hn. pose proof (show_uint_digits n Hn) as Hd. rewrite Forall_forall in *. intros c Hc%Hd. cbn in Hc.
  unfold is_word, is_ascii_alphanumeric, is_ascii_digit. bool_lia.
Qed.

Lemma tag_data_word t : tag_ok t -> Forall is_word (tag_data t).
Proof. destruct t as [h| | |n]; try done. intros Hn. apply show_uint_word. by destruct Hn. Qed.

Lemma tag_name_word t : exists c, tag_name t = [c] /\ is_word c.
Proof. destruct t; eexists; (split; [reflexivity|done]). Qed.

Lemma split_once_by_words w b : Forall is_word w -> split_once_by is_whitespace (w ++ 32 :: b) = Some (w, b).
Proof. induction 1 as [|c w Hc Hw IH]; cbn; [done|]. by rewrite word_not_space, IH. Qed.

Lemma split_once_by_no_space w : Forall is_word w -> split_once_by is_whitespace w = None.
Proof. induction 1 as [|c w Hc Hw IH]; cbn; [done|]. by rewrite word_not_space, IH. Qed.

(** Text between words keeps its ends when it is trimmed. *)
Lemma trim_words c w : Forall is_word (c :: w) -> trim (c :: w) = c :: w.
Proof.
  intros Hw. unfold trim. rewrite trim_start_id by (apply word_not_space; by inversion Hw).
  apply trim_end_id. destruct (rev (c :: w)) as [|x l] eqn:E; [done|]. apply word_not_space.
  rewrite List.Forall_forall in Hw. apply Hw, in_rev. rewrite E. by left.
Qed.

Lemma trim_tag c d : is_word c -> Forall is_word d -> d <> [] -> trim (c :: 32 :: d) = c :: 32 :: d.
Proof.
  intros Hc Hd Hne. unfold trim. rewrite trim_start_id by (by apply word_not_space).
  apply trim_end_id. cbn [rev]. destruct (rev d) as [|x l] eqn:E.
  { destruct Hne. rewrite <- (rev_involutive d). by rewrite E. }
  cbn. apply word_not_space. rewrite List.Forall_forall in Hd. apply Hd, in_rev. rewrite E. by left.
Qed.

(** The text of a tag between its brackets. *)
Definition tag_text (t : template_tag) : str :=
  tag_name t ++ (if bool_decide (tag_data t = []) then [] else lit " " ++ tag_data t).

Lemma tag_text_split t :
  tag_ok t -> trim (tag_text t) = tag_text t /\
  default (tag_text t, []) (split_once_by is_whitespace (tag_text t)) = (tag_name t, tag_data t) /\ 62 ∉ tag_text t.
Proof.
  intros Ht. pose proof (tag_data_word t Ht) as Hd. destruct (tag_name_word t) as (c & Hn & Hc).
  assert (H62 : forall w, Forall is_word w -> 62 ∉ w).
  { intros w Hw Hin%list_elem_of_In. rewrite List.Forall_forall in Hw. pose proof (is_word_bound _ (Hw _ Hin)). lia. }
  unfold tag_text. rewrite Hn. case_bool_decide as E; cbn [app].
  - rewrite E in *. split; [apply trim_words; by repeat constructor|]. split; [|apply H62; by repeat constructor].
    by rewrite split_once_by_no_space by (by repeat constructor).
  - change (lit " " ++ tag_data t) with (32 :: tag_data t).
    split; [by apply trim_tag|]. split.
    + change (c :: 32 :: tag_data t) with ([c] ++ 32 :: tag_data t). by rewrite split_once_by_words by (by repeat constructor).
    + change (c :: 32 :: tag_data t) with ([c] ++ [32] ++ tag_data t). rewrite !elem_of_app.
      intros [Hin|[Hin|Hin]]; [|apply list_elem_of_singleton in Hin; lia|by apply (H62 (tag_data t))].
      by apply (H62 [c]); [repeat constructor|].
Qed.

Lemma cps_tag_expand secs t (r : R) :
  tag_ok t -> cps_tag hex_decode secs (tag_name t) (trim (tag_data t)) r = expand_tag secs t r.
Proof.
  intros Ht. assert (Etrim : trim (tag_data t) = tag_data t).
  { pose proof (tag_data_word t Ht) as Hd. destruct (tag_data t); [done|]. by apply trim_words. }
  rewrite Etrim. destruct t as [h| | |n]; try done; cbn [tag_data tag_name tag_ok] in *.
  - assert (Ef : List.filter (fun c => negb (is_whitespace c)) h = h).
    { clear Etrim. induction Ht as [|c h Hc Hh IH]; [done|]. cbn [List.filter]. rewrite word_not_space by done. cbn. by rewrite IH. }
    unfold cps_tag. change (str_eqb (lit "b") (lit "b")) with true. cbn iota. by rewrite Ef.
  - unfold cps_tag. change (str_eqb (lit "r") (lit "r")) with true. change (str_eqb (lit "r") (lit "b")) with false.
    change (str_eqb (lit "r") (lit "t")) with false. change (str_eqb (lit "r") (lit "n")) with false. cbn iota.
    unfold expand_tag. by rewrite parse_show_uint.
Qed.

(** Reading what was written: each tag gives its expansion, in order. *)
Lemma scan_render secs tags fuel (r : R) :
  Forall tag_ok tags -> (length (render tags) < fuel)%nat ->
  scan_cps hex_decode fuel secs (render tags) r = Done (expand secs tags r).
Proof.
  intros Hok. revert fuel r. induction Hok as [|t tags Ht Hok IH]; intros fuel r Hf.
  { destruct fuel; [lia|]. done. }
  assert (E : render (t :: tags) = 60 :: tag_text t ++ 62 :: render tags).
  { unfold render at 1. cbn [flat_map]. fold (render tags). unfold tag_text. cbn [app]. rewrite <- !app_assoc. done. }
  rewrite E in *. destruct fuel as [|fuel]; [lia|]. cbn [scan_cps]. change (negb (60 =? 60)) with false. cbn iota.
  destruct (tag_text_split t Ht) as (Htr & Hsp & Hni). rewrite split_once_at by done. rewrite Htr, Hsp.
  rewrite cps_tag_expand by done. cbn [expand]. destruct (expand_tag secs t r) as [b r1].
  rewrite IH. 2: { cbn in Hf. rewrite length_app in Hf. cbn in Hf. lia. }
  cbn. by destruct (expand secs tags r1).
Qed.

Lemma split_once_len c s a b : split_once c s = Some (a, b) -> (length a + length b < length s)%nat.
Proof.
  unfold split_once. revert a. induction s as [|x s IH]; intros a; cbn; [done|]. destruct (c =? x); [intros [= <- <-]; cbn; lia|].
  destruct (split_once_by (Z.eqb c) s) as [[a' b']|]; [|done]. intros [= <- <-]. specialize (IH a' eq_refl). cbn. lia.
Qed.

(** Whatever the template, the scan ends. *)
Lemma scan_cps_total secs spec fuel (r : R) :
  (length spec < fuel)%nat -> wp (scan_cps hex_decode fuel secs spec r) (fun _ => True) (fun _ => False).
Proof.
  revert spec r. induction fuel as [|fuel IH]; intros spec r Hf; [lia|]. destruct spec as [|c rest]; cbn [scan_cps]; [done|].
  cbn in Hf. dest_if; [apply IH; lia|]. destruct (split_once 62 rest) as [[inner rest']|] eqn:Es; [|done].
  apply split_once_len in Es. destruct (default _ _) as [tag data]. destruct (cps_tag _ _ _ _ _) as [b r'].
  apply wp_bind. eapply wp_mono; [apply IH; lia| |done]. by intros [out r''] _.
Qed.

End Templates.

(** ** What is sent *)

Definition noize_ok (cfg : NoizeConfig) : Prop :=
  0 <= jc_before_hs cfg /\ 0 <= jc_after_i1 cfg /\ 0 <= jmin cfg /\ 0 <= jmax cfg.

Definition junk_ok (cfg : NoizeConfig) (j : list Z) : Prop :=
  bytes_ok j /\ (junk_range cfg).1 <= zlen j <= (junk_range cfg).2.

(** Junk, at most one signature, junk, at most one signature. *)
Definition noize_sent (cfg : NoizeConfig) (sent : list (list Z)) : Prop :=
  exists before first after second, sent = before ++ first ++ after ++ second /\
    zlen before = jc_before_hs cfg /\ zlen after = jc_after_i1 cfg /\ Forall (junk_ok cfg) (before ++ after) /\
    zlen first <= 1 /\ zlen second <= 1 /\ (i1 cfg = None -> first = []) /\ (i2 cfg = None -> second = []) /\
    Forall (fun p => p <> []) (first ++ second).

Lemma junk_range_ok cfg : noize_ok cfg -> 0 < (junk_range cfg).1 <= (junk_range cfg).2.
Proof. unfold noize_ok, junk_range. intros. repeat dest_if; cbn; bool_lia. Qed.

Section Sent.
Context {R : Type} `{Rng R} (hex_decode : str -> option (list Z)).

Lemma noize_junk_run_spec cfg n (r : R) :
  noize_ok cfg -> wp (junk_run cfg n r) (fun v => length v.1 = n /\ Forall (junk_ok cfg) v.1) (fun _ => False).
Proof.
  intros Hc. pose proof (junk_range_ok cfg Hc) as Hb. revert r. induction n as [|n IH]; intros r; cbn [junk_run]; [done|].
  apply wp_bind. unfold junk_packet. destruct (junk_range cfg) as [lo hi] eqn:Er. cbn [fst snd] in Hb. apply wp_bind, wp_pick; [lia|].
  intros size r' Hs. cbn [wp]. destruct (fill_bytes_spec size r') as [Hl Hok]; [lia|]. destruct (fill_bytes size r') as [j r''].
  apply wp_bind. eapply wp_mono; [apply IH| |done]. intros [js r3] [Hn Hj]. cbn in *. split; [by f_equal|].
  constructor; [|done]. unfold junk_ok. rewrite Er. cbn. split; [done|lia].
Qed.

Lemma signature_spec secs spec (r : R) :
  wp (signature hex_decode secs spec r)
     (fun v => zlen v.1 <= 1 /\ (spec = None -> v.1 = []) /\ Forall (fun p => p <> []) v.1) (fun _ => False).
Proof.
  destruct spec as [spec|]; cbn [signature]; [|by split].
  apply wp_bind. eapply wp_mono; [apply scan_cps_total; lia| |done]. intros [pkt r'] _. cbn.
  destruct (Z.eqb_spec (zlen pkt) 0) as [E|E]; [by split|]. split; [done|]. split; [done|]. repeat constructor. intros ->. done.
Qed.

Lemma pre_handshake_spec secs cfg (r : R) :
  noize_ok cfg ->
  wp (pre_handshake hex_decode secs cfg r) (fun v => if is_enabled cfg then noize_sent cfg v.1 else v.1 = []) (fun _ => False).
Proof.
  intros Hc. unfold pre_handshake. destruct (is_enabled cfg); cbn [negb]; [|done]. pose proof Hc as (H1 & H2 & _).
  apply wp_bind. eapply wp_mono; [by apply noize_junk_run_spec| |done]. intros [before r1] [Hn1 Hj1].
  apply wp_bind. eapply wp_mono; [apply signature_spec| |done]. intros [first r2] (Hf1 & Hf2 & Hf3).
  apply wp_bind. eapply wp_mono; [by apply noize_junk_run_spec| |done]. intros [after r3] [Hn2 Hj2].
  apply wp_bind. eapply wp_mono; [apply signature_spec| |done]. intros [second r4] (Hs1 & Hs2 & Hs3). cbn in *.
  exists before, first, after, second. split; [done|]. unfold zlen in *. split; [lia|]. split; [lia|].
  split; [by apply Forall_app|]. do 4 (split; [done|]). by apply Forall_app.
Qed.

(** The profiles, with a decoder that reads their marker. *)
Lemma profile_signature secs name spec (r : R) :
  hex_decode (lit "0d0a0d0a") = Some [13; 10; 13; 10] -> i1 (from_profile name) = Some spec ->
  exists n rest r', parse_cps hex_decode secs spec r = Done ([13; 10; 13; 10] ++ be_bytes 4 (u32 secs) ++ rest, r') /\
    zlen rest = n /\ (n = 16 \/ n = 24).
Proof.
  intros Hh Hi.
  assert (Hspec : exists n, spec = render [TagBytes (lit "0d0a0d0a"); TagTime; TagRandom n] /\ (n = 16 \/ n = 24)).
  { revert Hi. unfold from_profile. repeat dest_if; intros Hi; try discriminate Hi; cbn [i1 light gfw firewall] in Hi; injection Hi as <-; ((exists 16; split; [vm_compute; reflexivity|lia]) ||
      (exists 24; split; [vm_compute; reflexivity|lia])). }
  destruct Hspec as (n & -> & Hn).
  assert (Hok : Forall tag_ok [TagBytes (lit "0d0a0d0a"); TagTime; TagRandom n]).
  { constructor; [|constructor; [done|constructor; [|constructor]]]; cbn [tag_ok].
    - repeat constructor.
    - unfold u64_max. lia. }
  unfold parse_cps. rewrite scan_render by (done || lia). cbn [expand expand_tag]. rewrite Hh.
  rewrite (Z.min_l n 1024) by lia. pose proof (fill_bytes_spec n r ltac:(lia)) as [Hl _].
  destruct (fill_bytes n r) as [b r']. exists n, b, r'. cbn in Hl. split; [|done]. f_equal. f_equal. cbn [default]. by rewrite !app_nil_r.
Qed.

Lemma profile_ok name :
  noize_ok (from_profile name) /\
  (is_enabled (from_profile name) = true -> junk_range (from_profile name) = (jmin (from_profile name), jmax (from_profile name)) /\
     32 <= jmin (from_profile name) <= 64 /\ 96 <= jmax (from_profile name) <= 256).
Proof. unfold from_profile, noize_ok. repeat dest_if; cbn; try done; lia. Qed.

End Sent.
