(* ===== verification/Quic.v ===== *)
(** * The QUIC tunnel (src/native/aether/aether/src/quic.rs)

    The bait sent before a handshake and the loop of [run]; [verify_masque] is
    in QuicVerify.v.  The quiche connection is code outside the repository: what it
    answers in a turn of a loop is data of the turn ([answers]), and what the
    loop asks of it and of the sockets is the list of [action]s of the turn.
    The pumps of capsules and datagrams are those of MasqueH2.v. *)

From stdpp Require Import base list option.
From Stdlib Require Import ZArith Lia.
From S2P Require Import Prelude Rand RustStr StrFacts Octets Error Channel Net Masque MasqueH2 Sysprofile Hops Noize.

(** ** Configuration *)

Definition datagram_budget (max_datagram : Z) : Z := clamp_size MIN_DATAGRAM_SIZE MAX_DATAGRAM_SIZE max_datagram.

(** Seconds. *)
Definition validation_timeout (env : environment) : Z :=
  match (v ← env (lit "AETHER_MASQUE_VALIDATE_SECS"); parse_uint u64_max v) with
  | Some v => if 0 <? v then Z.min v 86400 else 10
  | None => 10
  end.

Definition data_check_enabled (env : environment) : bool :=
  match env (lit "AETHER_MASQUE_NO_DATA_CHECK") with Some _ => false | None => true end.

Definition quic_v2_bait_enabled (env : environment) : bool :=
  match env (lit "AETHER_QUIC_V2") with
  | Some v => negb (str_eqb v (lit "0") || str_eqb v (lit "off") || str_eqb v (lit "false") || str_eqb v (lit "no"))
  | None => true
  end.

(** ** The bait *)

Definition QUIC_V2_VERSION : Z := 0x6b3343cf.
Definition QUIC_V2_BAIT_LEN : Z := 1200.

Definition quic_varint2 (value : Z) : list Z := be_bytes 2 (Z.lor (u16 (Z.land value 0x3fff)) 0x4000).

(** [Vec::resize] *)
Definition resize (n : Z) (l : list Z) : list Z :=
  ztake n l ++ replicate (Z.to_nat (n - zlen l)) 0.

Definition build_version_bait {R} `{Rng R} (r : R) : list Z * R :=
  let '(dcid, r) := fill_bytes 8 r in
  let '(scid, r) := fill_bytes 8 r in
  let pkt := [0xc3] ++ be_bytes 4 QUIC_V2_VERSION ++ [u8 (zlen dcid)] ++ dcid ++ [u8 (zlen scid)] ++ scid ++ [0x00] in
  let remaining := QUIC_V2_BAIT_LEN - zlen pkt - 2 in
  let pkt := pkt ++ quic_varint2 remaining in
  let '(pn, r) := fill_bytes 4 r in
  let pkt := pkt ++ pn in
  (resize QUIC_V2_BAIT_LEN pkt, r).

(** What an attempt meets: the send fails, something comes back, the receive
    fails, or the wait runs out. *)
Inductive bait_answer := SendFailed | Answered | RecvFailed | Unanswered.

(** The number of baits sent. *)
Fixpoint bait_loop (tries : nat) (attempt : nat -> bait_answer) (k : nat) : nat :=
  match tries with
  | O => O
  | S tries =>
      match attempt k with
      | SendFailed => O
      | Answered | RecvFailed => 1
      | Unanswered => S (bait_loop tries attempt (S k))
      end
  end%nat.

Definition send_version_bait (tries : nat) (attempt : nat -> bait_answer) : nat :=
  bait_loop (Nat.max tries 1) attempt 0.

(** What [run] sends before its handshake: the baits, then the decoys. *)
Definition preamble {R} `{Rng R} (hex_decode : str -> option (list Z)) (env : environment) (secs : Z)
    (version_bait : bool) (cfg : NoizeConfig) (attempt : nat -> bait_answer) (r : R) : opt (list (list Z) * list (list Z) * R) :=
  let '(baits, r) :=
    if version_bait && quic_v2_bait_enabled env then
      let '(bait, r) := build_version_bait r in
      (replicate (send_version_bait 2 attempt) bait, r)
    else ([], r) in
  '(noise, r) ← pre_handshake hex_decode secs cfg r;
  Done (baits, noise, r).

(** ** The tunnel loop *)

(** Events of an HTTP/3 connection; [Data] comes with what [recv_body] yields. *)
Inductive h3_event :=
| Headers (stream_id : Z) (list : list (list Z * list Z))
| Data (stream_id : Z) (body : list (list Z))
| Finished (stream_id : Z)
| Reset_ (stream_id code : Z)
| OtherEvent (stream_id : Z).

(** A datagram [Connection::send] wrote, with the outcome of putting it on a
    socket. *)
Record sent := mkSent { s_from : SocketAddr; s_to : SocketAddr; s_bytes : list Z; s_error : option IoErrorKind }.

(** What quiche answers in one turn.  The lists are the results of calls made
    until [Done] or the error beside them. *)
Record answers := mkAnswers {
  established_before : bool;          (* is_established at a keepalive tick *)
  bound : option SocketAddr;          (* migration: the new socket *)
  path_ok : bool;                     (* migration: probe_path and migrate_source *)
  established : bool;                 (* is_established after the event *)
  request : aresult Z;                (* with_transport and send_request *)
  polls : list h3_event;
  poll_error : option Z;
  dgrams : list (list Z);
  sends : list sent;
  send_error : option Z;
  closed : bool;
  retry_configs : option (list Z);
  reconnect : aresult unit;           (* connect and inject_ech *)
  reconnect_sends : list sent;
  reconnect_send_error : option Z
}.

(** The arms of [select!]. *)
Inductive quic_event :=
| KeepaliveTick
| ProbeTick
| NetRecv (to_local from : SocketAddr) (data : list Z)
| Ctrl (c : option Control)
| Outbound (p : option (list Z))
| ConnTimeout.

Inductive action :=
| SendAckEliciting
| DgramSend (framed : list Z)
| Recv (data : list Z) (from to : SocketAddr)
| CloseConn (reason : str)
| OnTimeout
| MigrateTo (local : SocketAddr)
| SendRequest (sid : Z)
| SignalReady
| SendTo (local to : SocketAddr) (bytes : list Z)
| Reconnect (ech : list Z).

Section Tunnel.
Context {arch : Arch}.
Context {T TA : Type} `{Sender T (list Z), Sender TA AssignedAddr}.
Context (data_check : bool) (timeout : Z) (probe_packet : list Z).
Context (relay_target : SocketAddr -> SocketAddr -> SocketAddr).
(** [sockets.iter().next()]: a hash map has no order. *)
Context (any_socket : list SocketAddr -> option SocketAddr).

Record tunnel := mkTunnel {
  req_stream : option Z;              (* set together with h3_conn *)
  capsules : CapsuleParser.t;
  addr_tx : option TA;
  inbound_tx : T;
  established_ever : bool;
  ech_retried : bool;
  current_ech : option (list Z);
  ready_fired : bool;
  ready_tx : bool;
  validate_deadline : option Z;
  validate_successes : Z;
  ctrl_open : bool;
  outbound_open : bool;
  sockets : list SocketAddr
}.

Definition tunnel_start (local : SocketAddr) (ech : option (list Z)) (addr : option TA) (tx : T) (ready : bool) : tunnel :=
  mkTunnel None CapsuleParser.new addr tx false false ech false ready None 0 true true [local].

(** The setters of the loop's variables. *)
Definition set_request (s : tunnel) (r : option Z) (c : CapsuleParser.t) : tunnel :=
  mkTunnel r c (addr_tx s) (inbound_tx s) (established_ever s) (ech_retried s) (current_ech s) (ready_fired s)
    (ready_tx s) (validate_deadline s) (validate_successes s) (ctrl_open s) (outbound_open s) (sockets s).
Definition set_established (s : tunnel) : tunnel :=
  mkTunnel (req_stream s) (capsules s) (addr_tx s) (inbound_tx s) true (ech_retried s) (current_ech s) (ready_fired s)
    (ready_tx s) (validate_deadline s) (validate_successes s) (ctrl_open s) (outbound_open s) (sockets s).
Definition set_ech (s : tunnel) (retry : list Z) : tunnel :=
  mkTunnel (req_stream s) (capsules s) (addr_tx s) (inbound_tx s) (established_ever s) true (Some retry) (ready_fired s)
    (ready_tx s) (validate_deadline s) (validate_successes s) (ctrl_open s) (outbound_open s) (sockets s).
Definition set_validation (s : tunnel) (fired tx : bool) (deadline : option Z) (successes : Z) : tunnel :=
  mkTunnel (req_stream s) (capsules s) (addr_tx s) (inbound_tx s) (established_ever s) (ech_retried s) (current_ech s)
    fired tx deadline successes (ctrl_open s) (outbound_open s) (sockets s).
Definition set_inputs (s : tunnel) (ctrl out : bool) (socks : list SocketAddr) : tunnel :=
  mkTunnel (req_stream s) (capsules s) (addr_tx s) (inbound_tx s) (established_ever s) (ech_retried s) (current_ech s)
    (ready_fired s) (ready_tx s) (validate_deadline s) (validate_successes s) ctrl out socks.
Definition set_pumps (s : tunnel) (c : CapsuleParser.t) (addr : option TA) (tx : T) : tunnel :=
  mkTunnel (req_stream s) c addr tx (established_ever s) (ech_retried s) (current_ech s) (ready_fired s)
    (ready_tx s) (validate_deadline s) (validate_successes s) (ctrl_open s) (outbound_open s) (sockets s).

(** The guards of the arms. *)
Definition quic_enabled (ev : quic_event) (s : tunnel) : bool :=
  match ev with
  | ProbeTick => data_check && negb (ready_fired s)
  | Ctrl _ => ctrl_open s
  | Outbound _ => outbound_open s
  | _ => true
  end.

(** A packet on the request stream; a failed encoding is logged. *)
Definition send_packet (s : tunnel) (pkt : list Z) : list action :=
  match req_stream s with
  | Some sid => match encode_ip_datagram sid pkt with Done framed => [DgramSend framed] | _ => [] end
  | None => []
  end.

Definition do_migrate (a : answers) (s : tunnel) : tunnel * list action :=
  match bound a with
  | Some local =>
      (set_inputs s (ctrl_open s) (outbound_open s)
         (if bool_decide (local ∈ sockets s) then sockets s else sockets s ++ [local]),
       if path_ok a then [MigrateTo local] else [])
  | None => (s, [])
  end.

Definition on_quic_event (ev : quic_event) (a : answers) (s : tunnel) : tunnel * list action :=
  match ev with
  | KeepaliveTick => (s, if established_before a then [SendAckEliciting] else [])
  | ProbeTick => (s, send_packet s probe_packet)
  | NetRecv to_local from data => (s, [Recv data from to_local])
  | Ctrl (Some Migrate) => do_migrate a s
  | Ctrl (Some Close) | Ctrl None => (set_inputs s false (outbound_open s) (sockets s), [CloseConn (lit "bye")])
  | Outbound (Some p) => (s, send_packet s p)
  | Outbound None => (set_inputs s (ctrl_open s) false (sockets s), [CloseConn (lit "eof")])
  | ConnTimeout => (s, [OnTimeout])
  end.

(** [if let Some(tx) = ready_tx.take() { tx.send(()) }] *)
Definition fire (s : tunnel) (deadline : option Z) (successes : Z) : tunnel * list action :=
  (set_validation s true false deadline successes, if ready_tx s then [SignalReady] else []).

(** The handshake is done: ask for the tunnel. *)
Definition on_established (now : Z) (a : answers) (s : tunnel) : outcome AetherError (tunnel * list action) :=
  match req_stream s with
  | Some _ => Done (s, [])
  | None =>
      if established a then
        let s := set_established s in
        sid ← request a;
        let s := set_request s (Some sid) (capsules s) in
        let '(s, acts) :=
          if data_check then (set_validation s (ready_fired s) (ready_tx s) (Some (now + timeout)) (validate_successes s), [])
          else if negb (ready_fired s) then fire s (validate_deadline s) (validate_successes s)
          else (s, []) in
        Done (s, SendRequest sid :: acts)
      else Done (s, [])
  end.

Definition refused (status : str) : AetherError :=
  Masque (lit "the edge refused connect-ip with status " ++ status).
Definition stream_closed : AetherError := Masque (lit "the edge closed the connect-ip stream").
Definition stream_reset (code : Z) : AetherError :=
  Masque (lit "the edge reset the connect-ip stream (code 0x" ++ show_hex code ++ lit ")").
Definition STATUS : list Z := lit ":status".

(** The status of a response to the request. *)
Fixpoint check_status (mine : bool) (list : list (list Z * list Z)) : aresult unit :=
  match list with
  | [] => Done tt
  | (name, value) :: list =>
      if bool_decide (name = STATUS) then
        let status := from_utf8_lossy value in
        if mine && negb (starts_with status (lit "2")) then Fail (refused status) else check_status mine list
      else check_status mine list
  end.

(** [while let Ok(n) = h3c.recv_body(…)] *)
Fixpoint push_body (c : CapsuleParser.t) (body : list (list Z)) : CapsuleParser.t :=
  match body with
  | [] => c
  | chunk :: body => if zlen chunk =? 0 then c else push_body (CapsuleParser.push c chunk) body
  end.

Definition quic_drain (c : CapsuleParser.t) (addr : option TA) : outcome False (CapsuleParser.t * option TA) :=
  quic_drain_capsules (S (length (CapsuleParser.buf c))) c addr.

Definition never {A} (m : outcome False A) : aresult A :=
  match m with Done a => Done a | Fail f => match f with end | Panic => Panic | Diverge => Diverge end.

Fixpoint poll_h3 (sid : Z) (events : list h3_event) (err : option Z) (c : CapsuleParser.t) (addr : option TA)
  : aresult (CapsuleParser.t * option TA) :=
  match events with
  | [] => match err with None => Done (c, addr) | Some code => Fail (H3 code) end
  | Headers stream_id list :: events =>
      _ ← check_status (stream_id =? sid) list;
      poll_h3 sid events err c addr
  | Data stream_id body :: events =>
      if negb (stream_id =? sid) then poll_h3 sid events err c addr
      else
        '(c, addr) ← never (quic_drain (push_body c body) addr);
        poll_h3 sid events err c addr
  | Finished stream_id :: events => if stream_id =? sid then Fail stream_closed else poll_h3 sid events err c addr
  | Reset_ stream_id code :: events =>
      if stream_id =? sid then Fail (stream_reset code) else poll_h3 sid events err c addr
  | OtherEvent _ :: events => poll_h3 sid events err c addr
  end.

(** Data came back on the tunnel. *)
Definition on_got_data (got : bool) (s : tunnel) : tunnel * list action :=
  if got && negb (ready_fired s) then
    let successes := validate_successes s + 1 in
    if DATA_PROBE_REQUIRED_SUCCESSES <=? successes then fire s None successes
    else (set_validation s (ready_fired s) (ready_tx s) (validate_deadline s) successes, [])
  else (s, []).

(** [flush]: each datagram leaves through the socket it is from, or any other. *)
Fixpoint flush (socks : list SocketAddr) (out : list sent) (err : option Z) : list action * aresult unit :=
  match out with
  | [] => ([], match err with None => Done tt | Some code => Fail (Quic code) end)
  | d :: out =>
      match (if bool_decide (s_from d ∈ socks) then Some (s_from d) else any_socket socks) with
      | Some local =>
          let act := SendTo local (relay_target local (s_to d)) (s_bytes d) in
          match s_error d with
          | Some e => ([act], Fail (Io e))
          | None => let '(acts, r) := flush socks out err in (act :: acts, r)
          end
      | None => flush socks out err
      end
  end.

Inductive quic_turn :=
| Running (s : tunnel) (acts : list action)
| Ended (r : aresult unit) (acts : list action).

Definition validation_timed_out : AetherError :=
  Masque (lit "data-plane validation timeout (handshake ok, no traffic)").

(** The end of a connection: one more try with the server's ECH configuration
    if no handshake ever succeeded, otherwise the end of the tunnel. *)
Definition on_closed (a : answers) (s : tunnel) (acts : list action) : quic_turn :=
  match (if negb (established_ever s) && negb (ech_retried s) && bool_decide (current_ech s <> None)
         then retry_configs a else None) with
  | Some retry =>
      let s := set_ech s retry in
      match reconnect a with
      | Done _ =>
          let s := set_request s None CapsuleParser.new in
          let '(out, r) := flush (sockets s) (reconnect_sends a) (reconnect_send_error a) in
          let acts := acts ++ Reconnect retry :: out in
          match r with Done _ => Running s acts | r => Ended r acts end
      | Fail e => Ended (Fail e) (acts ++ [Reconnect retry])
      | Panic => Ended Panic acts
      | Diverge => Ended Diverge acts
      end
  | None => Ended (Done tt) acts
  end.

(** One turn of the loop; [now] is the clock at its top, [now_est] when the
    handshake is found done. *)
Definition run_turn (now now_est : Z) (ev : quic_event) (a : answers) (s : tunnel) : quic_turn :=
  if data_check && negb (ready_fired s) && deadline_expired now (validate_deadline s)
  then Ended (Fail validation_timed_out) [CloseConn (lit "validation-timeout")]
  else
    let '(s, acts1) := on_quic_event ev a s in
    match on_established now_est a s with
    | Done (s, acts2) =>
        match (match req_stream s with
               | Some sid => poll_h3 sid (polls a) (poll_error a) (capsules s) (addr_tx s)
               | None => Done (capsules s, addr_tx s)
               end) with
        | Done (c, addr) =>
            match quic_drain_datagrams (req_stream s) (dgrams a) (inbound_tx s) with
            | Done (got, tx) =>
                let s := set_pumps s c addr tx in
                let '(s, acts3) := on_got_data got s in
                let '(acts4, r) := flush (sockets s) (sends a) (send_error a) in
                let acts := acts1 ++ acts2 ++ acts3 ++ acts4 in
                match r with
                | Done _ => if closed a then on_closed a s acts else Running s acts
                | r => Ended r acts
                end
            | Fail f => match f with end
            | Panic => Ended Panic (acts1 ++ acts2)
            | Diverge => Ended Diverge (acts1 ++ acts2)
            end
        | Fail e => Ended (Fail e) (acts1 ++ acts2)
        | Panic => Ended Panic (acts1 ++ acts2)
        | Diverge => Ended Diverge (acts1 ++ acts2)
        end
    | Fail e => Ended (Fail e) acts1
    | Panic => Ended Panic acts1
    | Diverge => Ended Diverge acts1
    end.

End Tunnel.

(** ** Facts *)

(** *** Before the handshake *)

(** A long header of version 2 with two eight-byte connection ids, no token and
    a length that covers the rest. *)
Definition bait_wellformed (b : list Z) : Prop :=
  zlen b = QUIC_V2_BAIT_LEN /\ bytes_ok b /\
  exists dcid scid rest, zlen dcid = 8 /\ zlen scid = 8 /\
    b = [0xc3] ++ be_bytes 4 QUIC_V2_VERSION ++ [8] ++ dcid ++ [8] ++ scid ++ [0] ++ varint_bytes (zlen rest) ++ rest.

Lemma resize_grow n l : zlen l <= n -> resize n l = l ++ replicate (Z.to_nat (n - zlen l)) 0.
Proof. intros Hl. unfold resize. by rewrite ztake_all. Qed.

Lemma build_version_bait_wellformed {R} `{Rng R} (r : R) : bait_wellformed (build_version_bait r).1.
Proof.
  unfold build_version_bait. destruct (fill_bytes_spec 8 r ltac:(lia)) as [Hd Hdo]. destruct (fill_bytes 8 r) as [dcid r1].
  destruct (fill_bytes_spec 8 r1 ltac:(lia)) as [Hs Hso]. destruct (fill_bytes 8 r1) as [scid r2]. cbn [fst] in *.
  set (hdr := [0xc3] ++ be_bytes 4 QUIC_V2_VERSION ++ [u8 (zlen dcid)] ++ dcid ++ [u8 (zlen scid)] ++ scid ++ [0]).
  assert (Hh : zlen hdr = 24) by (unfold hdr; rewrite !zlen_app, zlen_be_bytes, Hd, Hs; done).
  destruct (fill_bytes_spec 4 r2 ltac:(lia)) as [Hp Hpo]. destruct (fill_bytes 4 r2) as [pn r3]. cbn [fst] in *.
  rewrite Hh. change (quic_varint2 (QUIC_V2_BAIT_LEN - 24 - 2)) with (varint_bytes 1174).
  assert (Hv : zlen (varint_bytes 1174) = 2) by reflexivity.
  rewrite resize_grow by (rewrite !zlen_app, Hh, Hv, Hp; unfold QUIC_V2_BAIT_LEN; lia).
  rewrite !zlen_app, Hh, Hv, Hp. change (Z.to_nat (QUIC_V2_BAIT_LEN - (24 + 2 + 4))) with 1170%nat.
  assert (Hpad : zlen (replicate 1170 0) = 1170) by (unfold zlen; by rewrite length_replicate).
  set (pad := replicate 1170 0) in *.
  assert (Hpadok : bytes_ok pad) by (apply Forall_replicate; unfold byte_ok; lia). clearbody pad.
  assert (Hrest : zlen (pn ++ pad) = 1174) by (rewrite zlen_app; lia).
  split; [rewrite !zlen_app, Hh, Hv, Hp, Hpad; reflexivity|]. split.
  - unfold hdr. rewrite Hd, Hs. change (u8 8) with 8. rewrite !bytes_ok_app. assert (Hb : forall x, 0 <= x < 256 -> bytes_ok [x]) by (intros; auto with bytes).
    repeat split; try done; (by apply varint_bytes_ok) || (apply Hb; lia) || apply be_bytes_ok.
  - exists dcid, scid, (pn ++ pad). split; [done|]. split; [done|]. rewrite Hrest. unfold hdr. rewrite Hd, Hs, <- !app_assoc. done.
Qed.

Lemma bait_loop_bound tries attempt k :
  (bait_loop tries attempt k <= tries)%nat /\ (bait_loop tries attempt k = O -> tries = O \/ attempt k = SendFailed).
Proof.
  revert k. induction tries as [|tries IH]; intros k; cbn; [lia|]. specialize (IH (S k)). destruct (attempt k); (split; [lia|]); auto; lia.
Qed.

(** C19: what the engine sends before the handshake of a QUIC tunnel
    ([send_version_bait] and [noize::pre_handshake]).  With any random numbers
    and any answers, the baits are copies of one packet of 1200 bytes that
    reads as a version 2 long header whose length field covers exactly the
    rest; at most two are sent, none unless the switch is on, and one at least
    if the first send works.  The decoys are the configured numbers of junk
    packets of the configured sizes with a signature packet after each run, or
    nothing when they are disabled; nothing panics.  A signature template is
    read back tag by tag as it was written, and every profile is well formed,
    its first signature being the marker, the time and 16 or 24 random bytes. *)
Theorem quic_preamble_wellformed {R} `{Rng R} (hex_decode : str -> option (list Z)) env secs version_bait cfg attempt (r : R)
    name tags :
  noize_ok cfg -> Forall tag_ok tags -> hex_decode (lit "0d0a0d0a") = Some [13; 10; 13; 10] ->
  wp (preamble hex_decode env secs version_bait cfg attempt r)
     (fun '(baits, noise, _) =>
        (exists b, bait_wellformed b /\ Forall (eq b) baits) /\ (length baits <= 2)%nat /\
        (baits <> [] -> version_bait = true /\ quic_v2_bait_enabled env = true) /\
        (version_bait = true -> quic_v2_bait_enabled env = true -> attempt O <> SendFailed -> baits <> []) /\
        if is_enabled cfg then noize_sent cfg noise else noise = [])
     (fun _ => False) /\
  parse_cps hex_decode secs (render tags) r = Done (expand hex_decode secs tags r) /\
  noize_ok (from_profile name) /\
  (forall spec, i1 (from_profile name) = Some spec ->
     exists n rest r', parse_cps hex_decode secs spec r = Done ([13; 10; 13; 10] ++ be_bytes 4 (u32 secs) ++ rest, r') /\
       zlen rest = n /\ (n = 16 \/ n = 24)).
Proof.
  intros Hc Ht Hh. split; [|split; [by apply scan_render; [|lia]|split; [apply profile_ok|intros spec; by apply profile_signature]]].
  unfold preamble. pose proof (build_version_bait_wellformed r) as Hb.
  destruct (version_bait && quic_v2_bait_enabled env) eqn:Ev.
  - destruct (build_version_bait r) as [bait r']. cbn [fst] in Hb.
    destruct (bait_loop_bound (Nat.max 2 1) attempt 0) as [Hn Hz]. fold (send_version_bait 2 attempt) in *. cbn [Nat.max] in *.
    apply wp_bind. eapply wp_mono; [by apply pre_handshake_spec| |done]. intros [noise r''] Hs. cbn [wp].
    apply andb_prop in Ev as [-> ->]. split; [exists bait; split; [done|by apply Forall_replicate]|].
    split; [by rewrite length_replicate|]. split; [done|]. split; [|done]. intros _ _ Ha Hnil.
    destruct (send_version_bait 2 attempt); [|done]. destruct Hz; done.
  - apply wp_bind. eapply wp_mono; [by apply pre_handshake_spec| |done]. intros [noise r''] Hs. cbn [wp].
    split; [exists (build_version_bait r).1; done|]. split; [cbn; lia|]. split; [done|]. split; [|done].
    intros Hv He. rewrite Hv, He in Ev. done.
Qed.

Lemma quic_preamble_wellformed_witness :
  exists baits noise r, preamble hex_pairs (fun _ => None) 1700000000 true light (fun _ => Unanswered) 5 = Done (baits, noise, r) /\
    length baits = 2%nat /\ noize_sent light noise.
Proof.
  assert (E : exists baits noise r, preamble hex_pairs (fun _ => None) 1700000000 true light (fun _ => Unanswered) 5 =
    Done (baits, noise, r) /\ length baits = 2%nat) by (do 3 eexists; split; [vm_compute; reflexivity|reflexivity]).
  destruct E as (baits & noise & r & E & Hl). exists baits, noise, r.
  destruct (quic_preamble_wellformed hex_pairs (fun _ => None) 1700000000 true light (fun _ => Unanswered) 5 [] [TagNonce]) as [T _].
  - unfold noize_ok. cbn. lia.
  - by repeat constructor.
  - reflexivity.
  - rewrite E in T. destruct T as (_ & _ & _ & _ & T). done.
Defined.

(** *** The pumps *)

Lemma decode_ip_datagram_total d sid : bytes_ok d -> terminates (decode_ip_datagram d sid).
Proof.
  intros Hd. unfold decode_ip_datagram, terminates. apply wp_bind.
  eapply (wp_get_varint _ d); [apply Reads.at_bytes_start|done|done|].
  intros q o1 e1 k1 _ _ _ A1 H1. cbn beta iota. dest_if; [done|]. apply wp_bind.
  eapply (wp_get_varint _ k1); [done|done|done|].
  intros ctx o2 e2 k2 _ _ _ A2 H2. cbn beta iota. dest_if; [done|]. apply wp_bind.
  rewrite (Reads.at_bytes_cap _ _ A2).
  eapply (wp_get_bytes _ _ k2); [done|apply zlen_nonneg|done|done|]. done.
Qed.

(** The packets of the request stream among the datagrams received. *)
Definition mine (sid : Z) (dgrams : list (list Z)) : list (list Z) :=
  omap (fun d => match decode_ip_datagram d sid with Done o => o | _ => None end) dgrams.

Section Pumps.
Context {arch : Arch}.
Context {T TA : Type} `{Sender T (list Z), Sender TA AssignedAddr}.

Lemma drain_datagrams_mine (Open : T -> Prop) sid d0 dgrams (tx : T) :
  stays_open Open -> Open tx -> Forall bytes_ok dgrams ->
  drain_datagrams sid d0 dgrams tx = Done (d0 || negb (bool_decide (mine sid dgrams = [])), offer_all tx (mine sid dgrams)).
Proof.
  intros HO Ht Hd. revert d0 tx Ht. induction Hd as [|d dgrams Hd Hds IH]; intros d0 tx Ht.
  { cbn. by rewrite orb_false_r. }
  cbn [drain_datagrams]. pose proof (decode_ip_datagram_total d sid Hd) as Htot.
  change (mine sid (d :: dgrams)) with
    (match match decode_ip_datagram d sid with Done o => o | _ => None end with
     | Some p => p :: mine sid dgrams | None => mine sid dgrams end).
  destruct (decode_ip_datagram d sid) as [[p|]| | |]; try done; try by apply IH.
  destruct (HO tx p Ht) as [Hne Ho]. unfold offer_all. cbn [fold_left]. fold (offer_all (try_send tx p).2 (mine sid dgrams)).
  rewrite bool_decide_false by done. rewrite orb_true_r.
  destruct (try_send tx p) as [st tx']. cbn [fst snd] in *.
  destruct st; [|..|done]; rewrite IH by done; done.
Qed.

Lemma drain_datagrams_total sid d0 dgrams (tx : T) :
  Forall bytes_ok dgrams -> wp (drain_datagrams sid d0 dgrams tx) (fun _ => True) (fun _ => True).
Proof.
  intros Hd. revert d0 tx. induction Hd as [|d dgrams Hd Hds IH]; intros d0 tx; cbn [drain_datagrams]; [done|].
  pose proof (decode_ip_datagram_total d sid Hd) as Ht. destruct (decode_ip_datagram d sid) as [[p|]| | |]; try done; try apply IH.
  destruct (try_send tx p) as [[] tx']; try apply IH. done.
Qed.

Lemma quic_drain_capsules_total fuel c (atx : option TA) :
  bytes_ok (CapsuleParser.buf c) -> (length (CapsuleParser.buf c) < fuel)%nat ->
  wp (quic_drain_capsules fuel c atx) (fun r => bytes_ok (CapsuleParser.buf r.1)) (fun _ => True).
Proof.
  revert c atx. induction fuel as [|fuel IH]; intros c atx Hok Hf; [lia|].
  cbn [quic_drain_capsules]. rewrite next_capsule_decode by done.
  destruct (capsule_decode (CapsuleParser.buf c)) as [[[k v] r]|] eqn:E; [|done].
  destruct (capsule_decode_shape _ _ _ _ Hok E) as (hdr & Heq & Hh & Hv & Hr).
  assert (Hlr : (length r < fuel)%nat).
  { rewrite Heq in Hf. rewrite !length_app in Hf. unfold zlen in Hh. lia. }
  pose proof (decode_capsule_terminates k v Hv) as Ht.
  destruct (decode_capsule k v) as [[addrs| |payload|routes|k' pl]| | |]; cbn [fmap outcome_fmap]; try done;
    apply IH; done.
Qed.

Lemma push_body_ok c body :
  bytes_ok (CapsuleParser.buf c) -> Forall bytes_ok body -> bytes_ok (CapsuleParser.buf (push_body c body)).
Proof.
  intros Hc Hb. revert c Hc. induction Hb as [|chunk body Hk Hb IH]; intros c Hc; cbn [push_body]; [done|].
  dest_if; [done|]. apply IH. by apply push_ok.
Qed.

Definition event_bytes_ok (e : h3_event) : Prop := match e with Data _ body => Forall bytes_ok body | _ => True end.

Lemma check_status_total mine l : wp (check_status mine l) (fun _ => True) (fun _ => True).
Proof.
  induction l as [|[n v] l IH]; cbn [check_status]; [done|]. case_bool_decide; [|done].
  by destruct (mine && negb (starts_with (from_utf8_lossy v) (lit "2"))).
Qed.

Lemma poll_h3_total sid events err c (addr : option TA) :
  bytes_ok (CapsuleParser.buf c) -> Forall event_bytes_ok events ->
  wp (poll_h3 sid events err c addr) (fun r => bytes_ok (CapsuleParser.buf r.1)) (fun _ => True).
Proof.
  intros Hc He. revert c addr Hc. induction He as [|e events Hk He IH]; intros c addr Hc; cbn [poll_h3]; [by destruct err|].
  destruct e as [st l|st body|st|st code|st]; try (dest_if; [done|]); try by apply IH.
  - apply wp_bind. eapply wp_mono; [apply check_status_total|intros _ _; by apply IH|done].
  - dest_if; [by apply IH|].
    pose proof (quic_drain_capsules_total (S (length (CapsuleParser.buf (push_body c body)))) (push_body c body) addr
      (push_body_ok c body Hc Hk) ltac:(lia)) as Hq. unfold quic_drain.
    destruct (quic_drain_capsules _ _ addr) as [[c' addr']|[]| |]; try done. cbn [never mbind outcome_bind]. by apply IH.
Qed.

End Pumps.

(** ** Runs of the tunnel *)

Definition count (p : action -> bool) (acts : list action) : nat := length (List.filter p acts).
Definition is_ready (a : action) : bool := match a with SignalReady => true | _ => false end.
Definition is_request (a : action) : bool := match a with SendRequest _ => true | _ => false end.
Definition is_reconnect (a : action) : bool := match a with Reconnect _ => true | _ => false end.

(** The datagrams handed to quiche. *)
Definition datagrams (acts : list action) : list (list Z) :=
  omap (fun a => match a with DgramSend framed => Some framed | _ => None end) acts.

Lemma count_app p l k : count p (l ++ k) = (count p l + count p k)%nat.
Proof. unfold count. by rewrite List.filter_app, length_app. Qed.
Lemma datagrams_app l k : datagrams (l ++ k) = datagrams l ++ datagrams k.
Proof. apply omap_app. Qed.

Definition is_send_to (a : action) : bool := match a with SendTo _ _ _ => true | _ => false end.

Lemma only_sends acts :
  Forall (fun a => is_send_to a = true) acts ->
  count is_ready acts = O /\ count is_request acts = O /\ count is_reconnect acts = O /\ datagrams acts = [].
Proof. induction 1 as [|[] acts Ha Hf IH]; try done. Qed.

Lemma flush_sends_only relay any socks out err : Forall (fun a => is_send_to a = true) (flush relay any socks out err).1.
Proof.
  induction out as [|d out IH]; cbn [flush]; [constructor|].
  destruct (if bool_decide (s_from d ∈ socks) then _ else _); [|done]. destruct (s_error d); [by repeat constructor|].
  destruct (flush relay any socks out err) as [acts r]. by constructor.
Qed.

Section RunFacts.
Context {arch : Arch}.
Context {T TA : Type} `{Sender T (list Z), Sender TA AssignedAddr}.
Context (data_check : bool) (timeout : Z) (probe_packet : list Z).
Context (relay_target : SocketAddr -> SocketAddr -> SocketAddr) (any_socket : list SocketAddr -> option SocketAddr).
Context (s0 : tunnel (T := T) (TA := TA)).

Abbreviation turn := (run_turn data_check timeout probe_packet relay_target any_socket).

(** What quiche promises: bytes are bytes, stream ids fit, calls return. *)
Record answers_ok (a : answers) : Prop := {
  polls_bytes : Forall event_bytes_ok (polls a);
  dgrams_bytes : Forall bytes_ok (dgrams a);
  request_returns : wp (request a) (fun sid => 0 <= sid <= MAX_VAR_INT) (fun _ => True);
  reconnect_returns : wp (reconnect a) (fun _ => True) (fun _ => True)
}.

(** A turn of a run: the request stream before and after it, the event and the
    answers. *)
Definition turn_record : Type := option Z * quic_event * answers * option Z.

Inductive quic_run : tunnel -> list turn_record -> list action -> Prop :=
| quic_run_start : quic_run s0 [] []
| quic_run_turn s h acts now now_est ev a s' acts' :
    quic_run s h acts -> quic_enabled data_check ev s = true -> answers_ok a ->
    turn now now_est ev a s = Running s' acts' ->
    quic_run s' (h ++ [(req_stream s, ev, a, req_stream s')]) (acts ++ acts').

(** The packet an event asks to send. *)
Definition packet_of (ev : quic_event) : option (list Z) :=
  match ev with
  | Outbound p => p
  | ProbeTick => Some probe_packet
  | _ => None
  end.

(** What the run sends and delivers, read off its turns: the packets taken
    while the request is open, and the packets of its stream. *)
Definition uplink (h : list turn_record) : list (list Z) :=
  flat_map (fun '(before, ev, _, _) =>
    match before, packet_of ev with
    | Some sid, Some p => [varint_bytes (sid / 4) ++ [0] ++ p]
    | _, _ => []
    end) h.

Definition downlink (h : list turn_record) : list (list Z) :=
  flat_map (fun '(_, _, a, after) =>
    match after with Some sid => mine sid (dgrams a) | None => [] end) h.

(** The parts of the state that an event leaves alone. *)
Definition same_session (s s' : tunnel (T := T) (TA := TA)) : Prop :=
  req_stream s' = req_stream s /\ capsules s' = capsules s /\ addr_tx s' = addr_tx s /\ inbound_tx s' = inbound_tx s /\
  established_ever s' = established_ever s /\ ech_retried s' = ech_retried s /\ ready_fired s' = ready_fired s /\
  ready_tx s' = ready_tx s /\ validate_deadline s' = validate_deadline s /\ validate_successes s' = validate_successes s.

Definition sid_ok (s : tunnel (T := T) (TA := TA)) : Prop :=
  match req_stream s with Some sid => 0 <= sid <= MAX_VAR_INT | None => True end.

Lemma on_quic_event_spec ev a s :
  sid_ok s ->
  let '(s', acts) := on_quic_event probe_packet ev a s in
  same_session s s' /\ count is_ready acts = O /\ count is_request acts = O /\ count is_reconnect acts = O /\
  datagrams acts = match req_stream s, packet_of ev with
                   | Some sid, Some p => [varint_bytes (sid / 4) ++ [0] ++ p]
                   | _, _ => []
                   end.
Proof.
  unfold sid_ok. intros Hs. assert (Hsend : forall p, let acts := send_packet s p in
    count is_ready acts = O /\ count is_request acts = O /\ count is_reconnect acts = O /\
    datagrams acts = match req_stream s with Some sid => [varint_bytes (sid / 4) ++ [0] ++ p] | None => [] end).
  { intros p. unfold send_packet. destruct (req_stream s); [|done]. by rewrite encode_ip_datagram_bytes. }
  destruct ev as [| |to_local from data|[[]|]|[p|]|]; cbn [on_quic_event packet_of].
  - destruct (established_before a); by destruct (req_stream s).
  - split; [done|]. apply Hsend.
  - by destruct (req_stream s).
  - by destruct (req_stream s).
  - unfold do_migrate. destruct (bound a); [destruct (path_ok a)|]; by destruct (req_stream s).
  - by destruct (req_stream s).
  - split; [done|]. apply Hsend.
  - by destruct (req_stream s).
  - by destruct (req_stream s).
Qed.

(** The shape of a turn that goes on. *)
Lemma run_turn_running now now_est ev a s s' acts' :
  turn now now_est ev a s = Running s' acts' ->
  exists s1 a1 s2 a2 c addr got tx s3 a3,
    on_quic_event probe_packet ev a s = (s1, a1) /\
    on_established data_check timeout now_est a s1 = Done (s2, a2) /\
    (match req_stream s2 with
     | Some sid => poll_h3 sid (polls a) (poll_error a) (capsules s2) (addr_tx s2)
     | None => Done (capsules s2, addr_tx s2)
     end) = Done (c, addr) /\
    quic_drain_datagrams (req_stream s2) (dgrams a) (inbound_tx s2) = Done (got, tx) /\
    on_got_data got (set_pumps s2 c addr tx) = (s3, a3) /\
    exists a4, Forall (fun x => is_send_to x = true) a4 /\
      ((s' = s3 /\ acts' = a1 ++ a2 ++ a3 ++ a4) \/
       (exists retry a5, Forall (fun x => is_send_to x = true) a5 /\ established_ever s3 = false /\
          ech_retried s3 = false /\ s' = set_request (set_ech s3 retry) None CapsuleParser.new /\
          acts' = (a1 ++ a2 ++ a3 ++ a4) ++ Reconnect retry :: a5)).
Proof.
  unfold run_turn. destruct (data_check && negb (ready_fired s) && deadline_expired now (validate_deadline s)); [done|].
  destruct (on_quic_event probe_packet ev a s) as [s1 a1] eqn:E1.
  destruct (on_established data_check timeout now_est a s1) as [[s2 a2]| | |] eqn:E2; try done.
  destruct (match req_stream s2 with Some sid => _ | None => _ end) as [[c addr]| | |] eqn:E3; try done.
  destruct (quic_drain_datagrams _ _ _) as [[got tx]|[]| |] eqn:E4; try done.
  destruct (on_got_data got (set_pumps s2 c addr tx)) as [s3 a3] eqn:E5.
  pose proof (flush_sends_only relay_target any_socket (sockets s3) (sends a) (send_error a)) as Hf.
  destruct (flush _ _ (sockets s3) (sends a) (send_error a)) as [a4 [u| | |]]; try done. cbn [fst] in Hf.
  intros Hrun. exists s1, a1, s2, a2, c, addr, got, tx, s3, a3. do 5 (split; [done|]). exists a4. split; [done|].
  destruct (closed a); [|left; by injection Hrun as <- <-].
  right. unfold on_closed in Hrun.
  destruct (established_ever s3), (ech_retried s3), (bool_decide (current_ech s3 <> None)); cbn in Hrun; try discriminate Hrun.
  destruct (retry_configs a) as [retry|]; [|discriminate Hrun]. destruct (reconnect a); try discriminate Hrun.
  match type of Hrun with context [flush ?r ?y ?z ?o ?e] => pose proof (flush_sends_only r y z o e) as Hf5;
    destruct (flush r y z o e) as [a5 [u'| | |]]; try discriminate Hrun end. cbn [fst] in Hf5.
  injection Hrun as <- <-. exists retry, a5. split; [done|]. by split_and!.
Qed.

(** The run starts on a fresh connection. *)
Definition fresh (s : tunnel (T := T) (TA := TA)) : Prop :=
  req_stream s = None /\ bytes_ok (CapsuleParser.buf (capsules s)) /\ established_ever s = false /\ ech_retried s = false /\
  ready_fired s = false /\ validate_deadline s = None /\ validate_successes s = 0.

Definition as_nat (b : bool) : nat := if b then 1%nat else 0%nat.
Definition is_open (s : tunnel (T := T) (TA := TA)) : bool := match req_stream s with Some _ => true | None => false end.

Record tunnel_inv (s : tunnel (T := T) (TA := TA)) (acts : list action) : Prop := {
  inv_capsules : bytes_ok (CapsuleParser.buf (capsules s));
  inv_sid : sid_ok s;
  inv_established : established_ever s = is_open s;
  inv_fired : if data_check then ready_fired s = (DATA_PROBE_REQUIRED_SUCCESSES <=? validate_successes s)
              else ready_fired s = is_open s;
  inv_deadline : data_check = true -> is_open s = true -> ready_fired s = false -> validate_deadline s <> None;
  inv_closed : is_open s = false -> validate_successes s = 0;
  inv_ready_tx : ready_tx s = ready_tx s0 && negb (ready_fired s);
  inv_ready : count is_ready acts = as_nat (ready_tx s0 && ready_fired s);
  inv_request : count is_request acts = as_nat (is_open s);
  inv_reconnect : count is_reconnect acts = as_nat (ech_retried s);
  inv_successes : 0 <= validate_successes s
}.

Lemma tunnel_inv_start : fresh s0 -> tunnel_inv s0 [].
Proof.
  intros (Hr & Hc & He & Hh & Hf & Hd & Hs).
  split; unfold is_open, sid_ok; rewrite ?Hr, ?He, ?Hh, ?Hf, ?Hd, ?Hs; try done.
  - by destruct data_check.
  - by rewrite andb_true_r.
  - by rewrite andb_false_r.
Qed.

(** A piece of a turn keeps the invariant and accounts for its actions. *)
Definition keeps (s : tunnel (T := T) (TA := TA)) (s' : tunnel) (new : list action) : Prop :=
  forall acts, tunnel_inv s acts -> tunnel_inv s' (acts ++ new).

Lemma keeps_trans s1 s2 s3 a b : keeps s1 s2 a -> keeps s2 s3 b -> keeps s1 s3 (a ++ b).
Proof. intros H1 H2 acts Hi. rewrite app_assoc. by apply H2, H1. Qed.

Lemma keeps_sends s a : Forall (fun x => is_send_to x = true) a -> keeps s s a.
Proof.
  intros Ha acts []. destruct (only_sends a Ha) as (H1 & H2 & H3 & _).
  split; rewrite ?count_app, ?H1, ?H2, ?H3, ?Nat.add_0_r; done.
Qed.

Lemma keeps_event ev a s s' acts :
  sid_ok s -> on_quic_event probe_packet ev a s = (s', acts) -> keeps s s' acts.
Proof.
  intros Hs E. pose proof (on_quic_event_spec ev a s Hs) as Hev. rewrite E in Hev.
  destruct Hev as ((E1 & E2 & E3 & E4 & E5 & E6 & E7 & E8 & E9 & E10) & H1 & H2 & H3 & _).
  intros acts0 []. unfold is_open, sid_ok in *.
  split; unfold is_open, sid_ok; rewrite ?count_app, ?H1, ?H2, ?H3, ?Nat.add_0_r, ?E1, ?E2, ?E5, ?E6, ?E7, ?E8, ?E9, ?E10; done.
Qed.

Lemma keeps_established now a s s' acts :
  answers_ok a -> on_established data_check timeout now a s = Done (s', acts) -> keeps s s' acts.
Proof.
  intros [_ _ Hreq _]. unfold on_established.
  destruct (req_stream s) as [sid|] eqn:Er; [intros [= <- <-]; intros acts0 Hi; by rewrite app_nil_r|].
  destruct (established a); [|intros [= <- <-]; intros acts0 Hi; by rewrite app_nil_r].
  destruct (request a) as [sid| | |]; try done. cbn [mbind outcome_bind wp] in *. intros E acts0 [].
  unfold is_open, sid_ok in *. rewrite Er in *. specialize (inv_closed0 eq_refl).
  cbn in inv_request0. destruct data_check eqn:Edc.
  - injection E as <- <-. rewrite inv_closed0 in *.
    split; unfold is_open, sid_ok; cbn; rewrite ?count_app, ?Edc; cbn; rewrite ?Nat.add_0_r; try done; try lia.
  - rewrite inv_fired0 in *. cbn [negb set_request set_established ready_fired] in E. rewrite inv_fired0 in E. cbn in E.
    injection E as <- <-. rewrite andb_false_r in *. rewrite andb_true_r in *. rewrite inv_ready_tx0.
    split; unfold is_open, sid_ok; cbn; rewrite ?count_app, ?Edc; cbn; try done; try lia;
      destruct (ready_tx s0); cbn in *; try done; try lia.
Qed.

Lemma keeps_pumps s c addr tx :
  bytes_ok (CapsuleParser.buf c) -> keeps s (set_pumps s c addr tx) [].
Proof. intros Hc acts []. rewrite app_nil_r. by split. Qed.

Lemma keeps_got got s s' acts :
  (got = true -> is_open s = true) -> on_got_data got s = (s', acts) -> keeps s s' acts.
Proof.
  intros Hg. unfold on_got_data. destruct (got && negb (ready_fired s)) eqn:Eg.
  2: { intros [= <- <-] acts0 Hi. by rewrite app_nil_r. }
  apply andb_prop in Eg as [-> Ef%negb_true_iff]. specialize (Hg eq_refl).
  destruct (Z.leb_spec DATA_PROBE_REQUIRED_SUCCESSES (validate_successes s + 1)) as [Hle|Hlt]; intros E acts0 [].
  - unfold fire in E. injection E as <- <-. rewrite Ef in *. rewrite andb_true_r, andb_false_r in *.
    split; unfold is_open, sid_ok in *; cbn; rewrite ?count_app; cbn; rewrite ?Nat.add_0_r, ?andb_false_r, ?andb_true_r; try done; try lia.
    + destruct data_check; [symmetry; apply Z.leb_le; lia|done].
    + congruence.
    + rewrite inv_ready_tx0, inv_ready0. by destruct (ready_tx s0).
    + rewrite inv_request0. destruct (ready_tx s); cbn; lia.
    + rewrite inv_reconnect0. destruct (ready_tx s); cbn; lia.
  - injection E as <- <-.
    split; unfold is_open, sid_ok in *; cbn; rewrite ?app_nil_r, ?Ef in *; try done; try lia.
    + destruct data_check; [|congruence]. symmetry. by apply Z.leb_gt.
    + congruence.
Qed.


Lemma keeps_reconnect s retry acts :
  established_ever s = false -> ech_retried s = false -> Forall (fun x => is_send_to x = true) acts ->
  keeps s (set_request (set_ech s retry) None CapsuleParser.new) (Reconnect retry :: acts).
Proof.
  intros He Hr Ha. apply (keeps_trans _ (set_request (set_ech s retry) None CapsuleParser.new) _ [_]); [|by apply keeps_sends].
  intros acts0 []. assert (Ho : is_open s = false) by congruence. specialize (inv_closed0 Ho). rewrite Ho in *. rewrite Hr in *.
  split; unfold is_open, sid_ok; cbn; rewrite ?count_app; cbn; rewrite ?Nat.add_0_r; try done.
  - constructor.
  - by rewrite inv_reconnect0.
Qed.

Lemma drain_got_open req dgrams (tx tx' : T) got :
  quic_drain_datagrams req dgrams tx = Done (got, tx') -> got = true -> req <> None.
Proof. destruct req; [done|]. by intros [= <- <-]. Qed.

Lemma poll_keeps_bytes req a (s : tunnel (T := T) (TA := TA)) c addr :
  answers_ok a -> bytes_ok (CapsuleParser.buf (capsules s)) ->
  (match req with
   | Some sid => poll_h3 sid (polls a) (poll_error a) (capsules s) (addr_tx s)
   | None => Done (capsules s, addr_tx s)
   end) = Done (c, addr) -> bytes_ok (CapsuleParser.buf c).
Proof.
  intros [Hp _ _ _] Hc. destruct req as [sid|]; [|by intros [= <- <-]].
  intros E. pose proof (poll_h3_total sid (polls a) (poll_error a) (capsules s) (addr_tx s) Hc Hp) as Hw. by rewrite E in Hw.
Qed.

Lemma keeps_turn now now_est ev a s s' acts acts' :
  answers_ok a -> turn now now_est ev a s = Running s' acts' -> tunnel_inv s acts -> tunnel_inv s' (acts ++ acts').
Proof.
  intros Ha Hrun Hi.
  destruct (run_turn_running _ _ _ _ _ _ _ Hrun) as (s1 & a1 & s2 & a2 & c & addr & got & tx & s3 & a3 & E1 & E2 & E3 & E4 & E5 & a4 & H4 & Hend).
  pose proof (keeps_event ev a s s1 a1 (inv_sid _ _ Hi) E1 _ Hi) as I1.
  pose proof (keeps_established now_est a s1 s2 a2 Ha E2 _ I1) as I2.
  pose proof (poll_keeps_bytes _ _ _ _ _ Ha (inv_capsules _ _ I2) E3) as Hc.
  pose proof (keeps_pumps s2 c addr tx Hc _ I2) as I3. rewrite app_nil_r in I3.
  assert (Hg : got = true -> is_open (set_pumps s2 c addr tx) = true).
  { intros Hg. pose proof (drain_got_open _ _ _ _ _ E4 Hg) as Ho. unfold is_open. cbn. by destruct (req_stream s2). }
  pose proof (keeps_got got _ s3 a3 Hg E5 _ I3) as I4. pose proof (keeps_sends s3 a4 H4 _ I4) as I5.
  destruct Hend as [[-> ->]|(retry & a5 & H5 & He & Hr & -> & ->)].
  - by rewrite <- !app_assoc in *.
  - pose proof (keeps_reconnect s3 retry a5 He Hr H5 _ I5) as I6. by rewrite <- !app_assoc in *.
Qed.

Lemma quic_run_inv s h acts : fresh s0 -> quic_run s h acts -> tunnel_inv s acts.
Proof.
  intros Hs. induction 1 as [|s h acts now now_est ev a s' acts' _ IH _ Ha Hrun]; [by apply tunnel_inv_start|].
  eapply keeps_turn; eauto.
Qed.

(** Whether a turn brought packets back. *)
Definition returned (t : turn_record) : bool := negb (bool_decide (downlink [t] = [])).

Definition returns (h : list turn_record) : Z := zlen (List.filter returned h).

Lemma drain_got sid d0 dgrams (tx tx' : T) got :
  drain_datagrams sid d0 dgrams tx = Done (got, tx') -> got = d0 || negb (bool_decide (mine sid dgrams = [])).
Proof.
  revert d0 tx. induction dgrams as [|d dgrams IH]; intros d0 tx; cbn [drain_datagrams].
  { intros [= <- <-]. by rewrite orb_false_r. }
  change (mine sid (d :: dgrams)) with
    (match match decode_ip_datagram d sid with Done o => o | _ => None end with
     | Some p => p :: mine sid dgrams | None => mine sid dgrams end).
  destruct (decode_ip_datagram d sid) as [[p|]| | |]; try done; try apply IH.
  rewrite bool_decide_false by done. rewrite orb_true_r. destruct (try_send tx p) as [[] tx1]; try (intros E; by rewrite (IH _ _ E)).
  by intros [= <- <-].
Qed.

(** What the parts of a turn do to the traffic. *)
Lemma established_frame now a (s s' : tunnel (T := T) (TA := TA)) acts :
  on_established data_check timeout now a s = Done (s', acts) ->
  datagrams acts = [] /\ inbound_tx s' = inbound_tx s /\ validate_successes s' = validate_successes s /\
  (data_check = true -> ready_fired s' = ready_fired s).
Proof.
  unfold on_established. destruct (req_stream s); [by intros [= <- <-]|]. destruct (established a); [|by intros [= <- <-]].
  destruct (request a) as [sid| | |]; try done. cbn. destruct data_check; [by intros [= <- <-]|].
  destruct (ready_fired s), (ready_tx s) eqn:E; cbn; try rewrite E; by intros [= <- <-].
Qed.

Lemma got_frame got (s s' : tunnel (T := T) (TA := TA)) acts :
  on_got_data got s = (s', acts) ->
  datagrams acts = [] /\ req_stream s' = req_stream s /\ inbound_tx s' = inbound_tx s /\
  validate_successes s' = if got && negb (ready_fired s) then validate_successes s + 1 else validate_successes s.
Proof.
  unfold on_got_data. destruct (got && negb (ready_fired s)); [|by intros [= <- <-]]. unfold fire.
  destruct (_ <=? _); intros [= <- <-]; [|done]. by destruct (ready_tx s).
Qed.

Lemma downlink_one before ev a after :
  downlink [(before, ev, a, after)] = match after with Some sid => mine sid (dgrams a) | None => [] end.
Proof. apply app_nil_r. Qed.

Lemma drain_one req (a : answers) (tx tx' : T) got (Open : T -> Prop) before ev :
  quic_drain_datagrams req (dgrams a) tx = Done (got, tx') -> answers_ok a -> stays_open Open ->
  got = returned (before, ev, a, req) /\
  (Open tx -> tx' = offer_all tx (downlink [(before, ev, a, req)]) /\ Open tx').
Proof.
  unfold returned. rewrite !downlink_one. intros E [_ Hd _ _] HO. destruct req as [sid|]; cbn [quic_drain_datagrams] in E.
  - split; [by apply drain_got in E|]. intros Ht. rewrite (drain_datagrams_mine Open) in E by done.
    injection E as <- <-. split; [done|]. by apply offer_all_open.
  - injection E as <- <-. by rewrite bool_decide_true.
Qed.

(** What a turn that goes on adds to the traffic. *)
Lemma turn_traffic (Open : T -> Prop) now now_est ev a s s' acts acts' :
  stays_open Open -> answers_ok a -> turn now now_est ev a s = Running s' acts' -> tunnel_inv s acts ->
  let t := (req_stream s, ev, a, req_stream s') in
  datagrams acts' = uplink [t] /\
  (Open (inbound_tx s) -> inbound_tx s' = offer_all (inbound_tx s) (downlink [t]) /\ Open (inbound_tx s')) /\
  (data_check = true -> validate_successes s' =
     if returned t && negb (ready_fired s) then validate_successes s + 1 else validate_successes s).
Proof.
  intros HO Ha Hrun Hi t.
  destruct (run_turn_running _ _ _ _ _ _ _ Hrun) as (s1 & a1 & s2 & a2 & c & addr & got & tx & s3 & a3 & E1 & E2 & E3 & E4 & E5 & a4 & H4 & Hend).
  pose proof (on_quic_event_spec ev a s (inv_sid _ _ Hi)) as Hev. rewrite E1 in Hev.
  destruct Hev as ((R1 & _ & _ & R4 & _ & _ & R7 & _ & _ & R10) & _ & _ & _ & Hd1).
  pose proof (keeps_event ev a s s1 a1 (inv_sid _ _ Hi) E1 _ Hi) as I1.
  pose proof (keeps_established now_est a s1 s2 a2 Ha E2 _ I1) as I2.
  destruct (established_frame _ _ _ _ _ E2) as (Hd2 & T2 & V2 & F2). destruct (got_frame _ _ _ _ E5) as (Hd3 & Q3 & T3 & V3).
  destruct (only_sends a4 H4) as (_ & _ & _ & Hd4).
  cbn [req_stream set_pumps inbound_tx validate_successes ready_fired] in *.
  assert (Hs' : req_stream s' = req_stream s2 /\ inbound_tx s' = tx /\ validate_successes s' = validate_successes s3 /\
                datagrams acts' = datagrams a1).
  { destruct Hend as [[-> ->]|(retry & a5 & H5 & He & Hr & -> & ->)].
    - rewrite !datagrams_app, Hd2, Hd3, Hd4, !app_nil_r. done.
    - destruct (only_sends a5 H5) as (_ & _ & _ & Hd5).
      assert (He2 : established_ever s2 = established_ever s3).
      { revert E5. unfold on_got_data. destruct (got && _); [|by intros [= <- <-]]. unfold fire.
        destruct (_ <=? _); by intros [= <- <-]. }
      pose proof (inv_established _ _ I2) as Ho. rewrite He2, He in Ho. unfold is_open in Ho.
      destruct (req_stream s2); [done|]. split; [done|]. split; [done|]. split; [done|].
      rewrite datagrams_app. change (datagrams (Reconnect retry :: a5)) with (datagrams a5).
      by rewrite !datagrams_app, Hd2, Hd3, Hd4, Hd5, !app_nil_r. }
  subst t. destruct Hs' as (-> & -> & -> & ->).
  destruct (drain_one _ a _ _ _ Open (req_stream s) ev E4 Ha HO) as [Hgot Hdown]. split; [|split].
  - rewrite Hd1. unfold uplink. cbn [flat_map]. by rewrite app_nil_r.
  - rewrite <- R4, <- T2. exact Hdown.
  - intros Hdc. by rewrite V3, Hgot, (F2 Hdc), R7, V2, R10.
Qed.

(** The traffic of a run. *)
Lemma quic_run_traffic (Open : T -> Prop) s h acts :
  stays_open Open -> fresh s0 -> quic_run s h acts ->
  datagrams acts = uplink h /\
  (Open (inbound_tx s0) -> inbound_tx s = offer_all (inbound_tx s0) (downlink h) /\ Open (inbound_tx s)) /\
  (data_check = true -> validate_successes s = Z.min DATA_PROBE_REQUIRED_SUCCESSES (returns h)).
Proof.
  intros HO Hs. induction 1 as [|s h acts now now_est ev a s' acts' Hr IH _ Ha Hrun].
  { split; [done|]. split; [done|]. intros _. apply Hs. }
  pose proof (quic_run_inv _ _ _ Hs Hr) as Hi. destruct IH as (Hu & Ht & Hv).
  destruct (turn_traffic Open _ _ _ _ _ _ _ _ HO Ha Hrun Hi) as (Hu' & Ht' & Hv').
  split; [|split].
  - rewrite datagrams_app, Hu, Hu'. unfold uplink. by rewrite flat_map_app.
  - intros H0o. destruct (Ht H0o) as [Etx Ho]. destruct (Ht' Ho) as [-> Ho']. split; [|done].
    rewrite Etx. unfold offer_all, downlink. by rewrite flat_map_app, fold_left_app.
  - intros Hdc. specialize (Hv Hdc). rewrite (Hv' Hdc). pose proof (inv_fired _ _ Hi) as Hf. rewrite Hdc in Hf. rewrite Hf, Hv.
    unfold returns in *. rewrite List.filter_app, zlen_app. cbn [List.filter]. unfold DATA_PROBE_REQUIRED_SUCCESSES in *.
    destruct (returned _); cbn [andb]; [|rewrite zlen_nil; lia].
    change (zlen [_]) with 1. destruct (Z.leb_spec 2 (Z.min 2 (zlen (List.filter returned h)))); cbn [negb]; lia.
Qed.

(** A turn never panics: it goes on or ends with a result. *)
Definition turn_returns (t : quic_turn (T := T) (TA := TA)) : Prop :=
  match t with Running _ _ => True | Ended r _ => terminates r end.

Lemma flush_returns relay any socks out err :
  terminates (flush relay any socks out err).2.
Proof.
  induction out as [|d out IH]; cbn [flush]; [by destruct err|].
  destruct (if bool_decide (s_from d ∈ socks) then _ else _); [|done]. destruct (s_error d); [done|].
  by destruct (flush relay any socks out err).
Qed.

Lemma on_closed_returns a (s : tunnel (T := T) (TA := TA)) acts : answers_ok a -> turn_returns (on_closed relay_target any_socket a s acts).
Proof.
  intros [_ _ _ Hr]. unfold on_closed.
  destruct (if negb (established_ever s) && _ && _ then _ else _) as [retry|]; [|done].
  destruct (reconnect a); try done.
  match goal with |- context [flush ?r ?y ?z ?o ?e] => pose proof (flush_returns r y z o e) as Hf; destruct (flush r y z o e) as [a5 [u| | |]] end;
    done.
Qed.

Lemma turn_total now now_est ev a s acts : answers_ok a -> tunnel_inv s acts -> turn_returns (turn now now_est ev a s).
Proof.
  intros Ha Hi. unfold run_turn. destruct (_ && _); [done|].
  destruct (on_quic_event probe_packet ev a s) as [s1 a1] eqn:E1.
  pose proof (keeps_event ev a s s1 a1 (inv_sid _ _ Hi) E1 _ Hi) as I1.
  assert (He : terminates (on_established data_check timeout now_est a s1)).
  { unfold on_established. destruct (req_stream s1); [done|]. destruct (established a); [|done].
    pose proof (request_returns _ Ha) as Hr. destruct (request a); try done. cbn.
    destruct data_check; [done|]. by destruct (ready_fired s1). }
  destruct (on_established data_check timeout now_est a s1) as [[s2 a2]| | |] eqn:E2; try done.
  pose proof (keeps_established now_est a s1 s2 a2 Ha E2 _ I1) as I2.
  assert (Hp : terminates (match req_stream s2 with
      | Some sid => poll_h3 sid (polls a) (poll_error a) (capsules s2) (addr_tx s2)
      | None => Done (capsules s2, addr_tx s2) end)).
  { destruct (req_stream s2); [|done]. eapply wp_mono; [apply poll_h3_total|done|done]; [apply I2|apply Ha]. }
  destruct (match req_stream s2 with Some _ => _ | None => _ end) as [[c addr]| | |]; try done.
  assert (Hd : wp (quic_drain_datagrams (req_stream s2) (dgrams a) (inbound_tx s2)) (fun _ => True) (fun _ => True)).
  { destruct (req_stream s2); [|done]. apply drain_datagrams_total, Ha. }
  destruct (quic_drain_datagrams _ _ _) as [[got tx]|[]| |]; try done.
  destruct (on_got_data got _) as [s3 a3]. pose proof (flush_returns relay_target any_socket (sockets s3) (sends a) (send_error a)) as Hf.
  destruct (flush _ _ (sockets s3) (sends a) (send_error a)) as [a4 [u| | |]]; try done.
  destruct (closed a); [by apply on_closed_returns|done].
Qed.

(** C18: a run of the QUIC tunnel ([quic::run]) from a fresh connection, whatever
    quiche answers in its turns.  The datagrams handed to quiche are exactly
    the packets taken while the request was open, each framed for its stream,
    in order; the packets offered to the device are exactly those of the
    request's stream, in order.  The ready signal is sent at most once, and with
    the data check on exactly when packets have come back in two turns; until
    then an open tunnel has a deadline and the first turn past it ends with the
    validation error.  At most one request is open and at most one reconnection
    with the server's ECH configuration is made; no turn panics. *)
Theorem quic_tunnel_sound (Open : T -> Prop) s h acts :
  stays_open Open -> Open (inbound_tx s0) -> fresh s0 -> quic_run s h acts ->
  datagrams acts = uplink h /\
  inbound_tx s = offer_all (inbound_tx s0) (downlink h) /\
  count is_ready acts =
    as_nat (ready_tx s0 && if data_check then DATA_PROBE_REQUIRED_SUCCESSES <=? returns h else is_open s) /\
  (data_check = true -> is_open s = true -> returns h < DATA_PROBE_REQUIRED_SUCCESSES ->
   exists deadline, validate_deadline s = Some deadline /\
   forall now now_est ev a, deadline <= now ->
     turn now now_est ev a s = Ended (Fail validation_timed_out) [CloseConn (lit "validation-timeout")]) /\
  count is_request acts = as_nat (is_open s) /\
  (count is_reconnect acts <= 1)%nat /\
  (forall now now_est ev a, answers_ok a -> turn_returns (turn now now_est ev a s)).
Proof.
  intros HO Ht Hs Hr. pose proof (quic_run_inv _ _ _ Hs Hr) as Hi.
  destruct (quic_run_traffic Open _ _ _ HO Hs Hr) as (Hu & Hd & Hv).
  assert (Hf : ready_fired s = if data_check then DATA_PROBE_REQUIRED_SUCCESSES <=? returns h else is_open s).
  { pose proof (inv_fired _ _ Hi) as Hf. destruct data_check; [|done]. rewrite Hf, (Hv eq_refl).
    unfold DATA_PROBE_REQUIRED_SUCCESSES. destruct (Z.leb_spec 2 (returns h)); [apply Z.leb_le|apply Z.leb_gt]; lia. }
  split; [done|]. split; [by apply Hd|]. split; [by rewrite (inv_ready _ _ Hi), Hf|]. split; [|split; [apply Hi|]].
  - intros Hdc Ho Hlt. rewrite Hdc in Hf. rewrite (proj2 (Z.leb_gt _ _) Hlt) in Hf.
    pose proof (inv_deadline _ _ Hi Hdc Ho Hf) as Hne. destruct (validate_deadline s) as [d|] eqn:Ed; [|done].
    exists d. split; [done|]. intros now now_est ev a Hle. unfold run_turn. rewrite Ed, Hdc, Hf. cbn.
    by rewrite (proj2 (Z.leb_le d now) Hle).
  - split; [rewrite (inv_reconnect _ _ Hi); by destruct (ech_retried s); cbn; lia|].
    intros now now_est ev a Ha. by eapply turn_total.
Qed.

(** A run computed from what happens in its turns. *)
Fixpoint play (turns : list (Z * Z * quic_event * answers)) (s : tunnel) (h : list turn_record) (acts : list action)
  : option (tunnel * list turn_record * list action) :=
  match turns with
  | [] => Some (s, h, acts)
  | (now, now_est, ev, a) :: turns =>
      if quic_enabled data_check ev s then
        match turn now now_est ev a s with
        | Running s' acts' => play turns s' (h ++ [(req_stream s, ev, a, req_stream s')]) (acts ++ acts')
        | Ended _ _ => None
        end
      else None
  end.

Lemma play_run turns s h acts r :
  quic_run s h acts -> Forall (fun t => answers_ok t.2) turns -> play turns s h acts = Some r -> quic_run r.1.1 r.1.2 r.2.
Proof.
  intros Hr Ha. revert s h acts Hr. induction Ha as [|[[[now now_est] ev] a] turns Ht Ha IH]; intros s h acts Hr; cbn [play].
  { by intros [= <-]. }
  destruct (quic_enabled data_check ev s) eqn:Ee; [|done].
  destruct (turn now now_est ev a s) as [s' acts'|] eqn:Et; [|done]. apply IH. by eapply quic_run_turn.
Qed.

End RunFacts.

#[local] Existing Instance armv7.

(** Three turns: the handshake, a packet out with one back, another one back. *)
Definition back (d : list (list Z)) : answers :=
  mkAnswers true None false true (Done 4) [] None d [] None false None (Fail (Other (lit "no"))) [] None.

Definition sample_tunnel : tunnel (T := chan (list Z)) (TA := chan AssignedAddr) :=
  tunnel_start (SockV4 [10; 0; 0; 1] 5000) None None (mk_chan 8 true []) true.

Definition sample_turns : list (Z * Z * quic_event * answers) :=
  [(0, 0, ConnTimeout, back []); (1, 1, Outbound (Some [7; 8]), back [[1; 0; 9; 9]]); (2, 2, ProbeTick, back [[2; 0; 5]; [1; 0; 6]])].

Definition sample_run :=
  play true 10 [1; 2] (fun _ to => to) head sample_turns sample_tunnel [] [].

Lemma sample_answers_ok d : Forall bytes_ok d -> answers_ok (back d).
Proof. intros Hd. split; cbn; try done; lia. Qed.

Lemma quic_tunnel_sound_witness :
  exists s h acts, sample_run = Some (s, h, acts) /\
    datagrams acts = [[1; 0; 7; 8]; [1; 0; 1; 2]] /\ inbound_tx s = mk_chan 8 true [[9; 9]; [6]] /\ count is_ready acts = 1%nat.
Proof.
  assert (Hrun : exists s h acts, sample_run = Some (s, h, acts) /\ uplink [1; 2] h = [[1; 0; 7; 8]; [1; 0; 1; 2]] /\
    downlink h = [[9; 9]; [6]] /\ returns h = 2).
  { do 3 eexists. split; [vm_compute; reflexivity|]. split; [|split]; vm_compute; reflexivity. }
  destruct Hrun as (s & h & acts & E & Hu & Hd & Hr).
  assert (Hq : quic_run true 10 [1; 2] (fun _ to => to) head sample_tunnel s h acts).
  { refine (play_run _ _ _ _ _ _ sample_turns sample_tunnel [] [] (s, h, acts) _ _ E); [constructor|].
    constructor; [exact (sample_answers_ok [] ltac:(constructor))|].
    constructor; [apply (sample_answers_ok [[1; 0; 9; 9]])|constructor; [apply (sample_answers_ok [[2; 0; 5]; [1; 0; 6]])|constructor]];
      repeat constructor; lia. }
  destruct (quic_tunnel_sound true 10 [1; 2] (fun _ to => to) head sample_tunnel (fun c => chan_open c = true) s h acts)
    as (H1 & H2 & H3 & _).
  - intros [cap [] items] pkt Ho; [|done]. cbn. by dest_if.
  - done.
  - repeat split; constructor.
  - exact Hq.
  - exists s, h, acts. rewrite H1, Hu, H2, Hd, H3, Hr. done.
Defined.
