(* ===== verification/QuicVerify.v ===== *)
(** * Verifying a MASQUE gateway over QUIC (src/native/aether/aether/src/quic.rs)

    [verify_masque]: the loop that opens a CONNECT-IP request to a gateway and
    waits for the answer and, with the data check, for packets to come back.
    What quiche and the clock answer in a turn is data of the turn, as in
    Quic.v; times are milliseconds. *)

From stdpp Require Import base list option.
From Stdlib Require Import ZArith Lia.
From S2P Require Import Prelude Rand RustStr StrFacts Octets Error Channel Net Masque MasqueH2 Quic.

(** A turn computes a value and what it asks of the connection, or returns from
    the loop. *)
Inductive step (A : Type) :=
| Go (a : A) (acts : list action)
| Stop (r : aresult Z) (acts : list action).
Arguments Go {A}.
Arguments Stop {A}.

#[global] Instance step_bind : MBind step := fun A B f m =>
  match m with
  | Go a acts => match f a with Go b more => Go b (acts ++ more) | Stop r more => Stop r (acts ++ more) end
  | Stop r acts => Stop r acts
  end.

(** [?] on a result. *)
Definition ask {A} (m : aresult A) (acts : A -> list action) : step A :=
  match m with
  | Done a => Go a (acts a)
  | Fail e => Stop (Fail e) []
  | Panic => Stop Panic []
  | Diverge => Stop Diverge []
  end.

Inductive verify_event :=
| SockRecv (data : list Z)
| SockError (e : IoErrorKind)
| Sleep.

(** What quiche, the socket and the clock answer in a turn. *)
Record verify_answers := mkVerify {
  now_top : Z;
  v_established : bool;
  v_request : aresult Z;
  v_polls : list h3_event;
  v_poll_error : option Z;
  now_headers : Z;
  now_elapsed : Z;
  now_probe : Z;
  v_dgrams : list (list Z);
  now_dgrams : Z;
  v_sends : list (list Z * option IoErrorKind);
  v_send_error : option Z;
  v_closed : bool;
  now_end : Z
}.

Record verifier := mkVerifier {
  v_stream : option Z;                  (* set together with h3_conn *)
  connect_ip_ok : bool;
  last_probe : Z;
  probe_successes : Z
}.

Section Verify.
Context (data_check : bool) (probe_packet : list Z) (peer local target : SocketAddr) (start deadline : Z).

Definition verify_start (now : Z) : verifier := mkVerifier None false now 0.

Definition remaining (now : Z) : Z := Z.max 0 (deadline - now).

(** How long a turn waits for the socket. *)
Definition verify_wait (now : Z) (conn_timeout : option Z) (s : verifier) : Z :=
  let wait := match conn_timeout with Some t => Z.min t (remaining now) | None => remaining now end in
  if connect_ip_ok s then Z.min wait 250 else wait.

Definition verify_timeout : AetherError := Other (lit "verify timeout").
Definition closed_early : AetherError := Other (lit "closed before data-plane confirmation").
Definition bad_status (value : list Z) : AetherError := Other (lit "status " ++ from_utf8_lossy value).

Definition send_probe (sid : Z) : list action :=
  match encode_ip_datagram sid probe_packet with Done framed => [DgramSend framed] | _ => [] end.

Definition on_verify_event (ev : verify_event) : step unit :=
  match ev with
  | SockRecv data => Go tt [Recv data peer local]
  | SockError e => Stop (Fail (Io e)) []
  | Sleep => Go tt [OnTimeout]
  end.

Definition verify_request (a : verify_answers) (s : verifier) : step verifier :=
  match v_stream s with
  | Some _ => Go s []
  | None =>
      if v_established a then
        sid ← ask (v_request a) (fun sid => [SendRequest sid]);
        Go (mkVerifier (Some sid) (connect_ip_ok s) (last_probe s) (probe_successes s)) []
      else Go s []
  end.

(** The headers of a response to the request. *)
Fixpoint verify_headers (a : verify_answers) (sid : Z) (list : list (list Z * list Z)) (s : verifier) : step verifier :=
  match list with
  | [] => Go s []
  | (name, value) :: list =>
      if bool_decide (name = STATUS) then
        if bool_decide (value = lit "200") then
          if negb data_check then Stop (Done (now_end a - start)) []
          else
            s ← Go (mkVerifier (v_stream s) true (now_headers a) (probe_successes s)) (send_probe sid);
            verify_headers a sid list s
        else Stop (Fail (bad_status value)) []
      else verify_headers a sid list s
  end.

Fixpoint verify_polls (a : verify_answers) (sid : Z) (events : list h3_event) (s : verifier) : step verifier :=
  match events with
  | [] => match v_poll_error a with None => Go s [] | Some code => Stop (Fail (H3 code)) [] end
  | Headers stream_id list :: events =>
      if stream_id =? sid then s ← verify_headers a sid list s; verify_polls a sid events s
      else verify_polls a sid events s
  | _ :: events => verify_polls a sid events s
  end.

Fixpoint verify_dgrams (a : verify_answers) (sid : Z) (dgrams : list (list Z)) (s : verifier) : step verifier :=
  match dgrams with
  | [] => Go s []
  | d :: dgrams =>
      match decode_ip_datagram d sid with
      | Done (Some _) =>
          let successes := probe_successes s + 1 in
          if DATA_PROBE_REQUIRED_SUCCESSES <=? successes then Stop (Done (now_end a - start)) []
          else
            s ← Go (mkVerifier (v_stream s) (connect_ip_ok s) (now_dgrams a) successes) (send_probe sid);
            verify_dgrams a sid dgrams s
      | Done None | Fail _ => verify_dgrams a sid dgrams s
      | Panic => Stop Panic []
      | Diverge => Stop Diverge []
      end
  end.

(** Probing the data plane of a tunnel the gateway accepted. *)
Definition verify_data (a : verify_answers) (s : verifier) : step verifier :=
  if connect_ip_ok s then
    s ← (if 700 <=? now_elapsed a - last_probe s then
           Go (mkVerifier (v_stream s) (connect_ip_ok s) (now_probe a) (probe_successes s))
              (match v_stream s with Some sid => send_probe sid | None => [] end)
         else Go s []);
    match v_stream s with
    | Some sid => verify_dgrams a sid (v_dgrams a) s
    | None => Go s []
    end
  else Go s [].

Fixpoint flush_connected (out : list (list Z * option IoErrorKind)) (err : option Z) : step unit :=
  match out with
  | [] => match err with None => Go tt [] | Some code => Stop (Fail (Quic code)) [] end
  | (bytes, e) :: out =>
      _ ← Go tt [SendTo local target bytes];
      match e with Some e => Stop (Fail (Io e)) [] | None => flush_connected out err end
  end.

Definition verify_turn (ev : verify_event) (a : verify_answers) (s : verifier) : step verifier :=
  if deadline <=? now_top a then Stop (Fail verify_timeout) []
  else
    _ ← on_verify_event ev;
    s ← verify_request a s;
    s ← match v_stream s with Some sid => verify_polls a sid (v_polls a) s | None => Go s [] end;
    s ← verify_data a s;
    _ ← flush_connected (v_sends a) (v_send_error a);
    if v_closed a then Stop (Fail closed_early) [] else Go s [].

End Verify.

(** ** Facts *)

(** A step goes on with [P] or returns with [Q]. *)
Definition sat {A} (m : step A) (P : A -> list action -> Prop) (Q : aresult Z -> Prop) : Prop :=
  match m with Go a acts => P a acts | Stop r _ => Q r end.

Lemma sat_bind {A B} (m : step A) (f : A -> step B) P Q :
  sat m (fun a acts => sat (f a) (fun b more => P b (acts ++ more)) Q) Q -> sat (m ≫= f) P Q.
Proof. destruct m as [a acts|r acts]; cbn; [|done]. by destruct (f a). Qed.

Lemma sat_mono {A} (m : step A) (P P' : A -> list action -> Prop) (Q Q' : aresult Z -> Prop) :
  sat m P Q -> (forall a acts, P a acts -> P' a acts) -> (forall r, Q r -> Q' r) -> sat m P' Q'.
Proof. destruct m; cbn; auto. Qed.

(** The gateway accepts the request. *)
Definition accepts_list (l : list (list Z * list Z)) : bool :=
  existsb (fun h => bool_decide (h = (STATUS, lit "200"))) l.
Definition accepts (sid : Z) (events : list h3_event) : bool :=
  existsb (fun e => match e with Headers st l => (st =? sid) && accepts_list l | _ => false end) events.

Section VerifyFacts.
Context (data_check : bool) (probe_packet : list Z) (peer local target : SocketAddr) (start deadline : Z).

Abbreviation turn := (verify_turn data_check probe_packet peer local target start deadline).
Abbreviation headers := (verify_headers data_check probe_packet start).
Abbreviation events := (verify_polls data_check probe_packet start).
Abbreviation datagrams := (verify_dgrams probe_packet start).

(** A loop that ends: an error, or success for a reason. *)
Definition ends (a : verify_answers) (why : Prop) (r : aresult Z) : Prop :=
  match r with Done t => t = now_end a - start /\ why | Fail _ => True | _ => False end.

Lemma ends_mono a (P Q : Prop) r : ends a P r -> (P -> Q) -> ends a Q r.
Proof. destruct r; cbn; tauto. Qed.

Lemma send_probe_none sid : count is_request (send_probe probe_packet sid) = O.
Proof. unfold send_probe. by destruct (encode_ip_datagram sid probe_packet). Qed.

(** Reading the answer changes only whether the request is accepted. *)
Definition accepted_step (ok : bool) (s s' : verifier) (acts : list action) : Prop :=
  v_stream s' = v_stream s /\ probe_successes s' = probe_successes s /\ connect_ip_ok s' = connect_ip_ok s || ok /\
  (ok = true -> data_check = true) /\ count is_request acts = O.

Lemma accepted_step_trans o1 o2 s s1 s2 l k :
  accepted_step o1 s s1 l -> accepted_step o2 s1 s2 k -> accepted_step (o1 || o2) s s2 (l ++ k).
Proof.
  intros (A1 & B1 & C1 & D1 & E1) (A2 & B2 & C2 & D2 & E2). unfold accepted_step.
  rewrite count_app, E1, E2, A2, B2, C2, C1, orb_assoc. split; [done|]. split; [done|]. split; [done|]. split; [|done].
  destruct o1; auto.
Qed.

Lemma headers_spec a sid l s :
  sat (headers a sid l s) (accepted_step (accepts_list l) s) (ends a (data_check = false /\ accepts_list l = true)).
Proof.
  revert s. induction l as [|[n v] l IH]; intros s; cbn [verify_headers accepts_list existsb].
  { unfold accepted_step. cbn. by rewrite orb_false_r. }
  fold (accepts_list l). case_bool_decide as En.
  - subst n. case_bool_decide as Ev.
    + subst v. rewrite bool_decide_true by done. cbn [orb]. destruct data_check eqn:Edc; cbn [negb]; [|by cbn].
      apply sat_bind. cbn [sat]. eapply sat_mono; [apply IH| |].
      * intros s' more Hs'. replace true with (true || accepts_list l) by done. eapply accepted_step_trans; [|exact Hs'].
        unfold accepted_step. cbn. rewrite orb_true_r. by rewrite send_probe_none, Edc.
      * intros r Hr. eapply ends_mono; [exact Hr|]. by intros [? _].
    + done.
  - rewrite bool_decide_false by congruence. cbn [orb]. apply IH.
Qed.

Lemma events_spec a sid evs s :
  sat (events a sid evs s) (accepted_step (accepts sid evs) s) (ends a (data_check = false /\ accepts sid evs = true)).
Proof.
  revert s. induction evs as [|e evs IH]; intros s; cbn [verify_polls accepts existsb].
  { destruct (v_poll_error a); [done|]. unfold accepted_step. cbn. by rewrite orb_false_r. }
  fold (accepts sid evs). destruct e as [st l|st body|st|st code|st]; try apply IH. destruct (st =? sid); cbn [andb]; [|apply IH].
  apply sat_bind. eapply sat_mono; [apply headers_spec| |].
  - intros s1 acts H1. eapply sat_mono; [apply IH| |].
    + intros s2 more H2. by eapply accepted_step_trans.
    + intros r Hr. eapply ends_mono; [exact Hr|]. intros [? ->]. by rewrite orb_true_r.
  - intros r Hr. eapply ends_mono; [exact Hr|]. by intros [? ->].
Qed.

Lemma datagrams_spec a sid ds s :
  Forall bytes_ok ds -> probe_successes s < DATA_PROBE_REQUIRED_SUCCESSES ->
  sat (datagrams a sid ds s)
    (fun s' acts => v_stream s' = v_stream s /\ connect_ip_ok s' = connect_ip_ok s /\
       probe_successes s' = probe_successes s + zlen (mine sid ds) /\
       probe_successes s' < DATA_PROBE_REQUIRED_SUCCESSES /\
       count is_request acts = O)
    (ends a (DATA_PROBE_REQUIRED_SUCCESSES <= probe_successes s + zlen (mine sid ds))).
Proof.
  intros Hd. revert s. induction Hd as [|d ds Hd Hds IH]; intros s Hs; cbn [verify_dgrams].
  { cbn [sat]. change (zlen (mine sid [])) with 0. rewrite Z.add_0_r. done. }
  pose proof (decode_ip_datagram_total d sid Hd) as Ht.
  change (mine sid (d :: ds)) with
    (match match decode_ip_datagram d sid with Done o => o | _ => None end with
     | Some p => p :: mine sid ds | None => mine sid ds end).
  destruct (decode_ip_datagram d sid) as [[p|]| | |]; try done; try by apply IH.
  rewrite zlen_cons. pose proof (zlen_nonneg (mine sid ds)).
  destruct (Z.leb_spec DATA_PROBE_REQUIRED_SUCCESSES (probe_successes s + 1)) as [Hle|Hlt]; [cbn; lia|].
  apply sat_bind. cbn [sat]. eapply sat_mono; [by apply IH| |].
  - intros s' more (A & B & C & C' & D). cbn [probe_successes v_stream connect_ip_ok] in *. rewrite count_app, send_probe_none, D.
    split; [done|]. split; [done|]. split; [lia|]. done.
  - intros r Hr. eapply ends_mono; [exact Hr|]. cbn. lia.
Qed.

(** *** Runs *)

Record verify_ok (a : verify_answers) : Prop := {
  v_dgrams_bytes : Forall bytes_ok (v_dgrams a);
  v_request_returns : wp (v_request a) (fun _ => True) (fun _ => True)
}.

(** A turn of a run: the stream of the request in it, and its answers. *)
Definition verify_record : Type := option Z * verify_answers.

(** The stream the request has once a turn looked at the handshake. *)
Definition stream_after (s : verifier) (a : verify_answers) : option Z :=
  match v_stream s with
  | Some sid => Some sid
  | None => if v_established a then match v_request a with Done sid => Some sid | _ => None end else None
  end.

Inductive verify_run (now : Z) : verifier -> list verify_record -> list action -> Prop :=
| verify_run_start : verify_run now (verify_start now) [] []
| verify_run_turn s h acts ev a s' acts' :
    verify_run now s h acts -> verify_ok a -> turn ev a s = Go s' acts' ->
    verify_run now s' (h ++ [(stream_after s a, a)]) (acts ++ acts').

(** The gateway accepted in one of the turns. *)
Definition accepts_in (t : verify_record) : bool :=
  match t.1 with Some sid => accepts sid (v_polls t.2) | None => false end.
Definition accepted (h : list verify_record) : bool := existsb accepts_in h.

(** The packets of the request's stream since it was accepted. *)
Fixpoint confirmed (ok : bool) (h : list verify_record) : Z :=
  match h with
  | [] => 0
  | t :: h =>
      let ok := ok || accepts_in t in
      (match t.1 with Some sid => if ok then zlen (mine sid (v_dgrams t.2)) else 0 | None => 0 end) + confirmed ok h
  end.

Lemma accepted_app h k : accepted (h ++ k) = accepted h || accepted k.
Proof. apply existsb_app. Qed.

Lemma confirmed_app ok h k : confirmed ok (h ++ k) = confirmed ok h + confirmed (ok || accepted h) k.
Proof.
  revert ok. induction h as [|t h IH]; intros ok; cbn [app confirmed accepted existsb].
  - by rewrite orb_false_r.
  - rewrite IH. fold (accepted h). rewrite orb_assoc. lia.
Qed.

(** The state a turn leaves, from the one before it. *)
Definition turned (s : verifier) (a : verify_answers) (s' : verifier) (acts : list action) : Prop :=
  let t := (stream_after s a, a) in
  v_stream s' = stream_after s a /\
  connect_ip_ok s' = connect_ip_ok s || accepts_in t /\
  (accepts_in t = true -> data_check = true) /\
  probe_successes s' = probe_successes s + confirmed (connect_ip_ok s) [t] /\
  probe_successes s' < DATA_PROBE_REQUIRED_SUCCESSES /\
  count is_request acts = (as_nat (bool_decide (is_Some (v_stream s'))) - as_nat (bool_decide (is_Some (v_stream s))))%nat.

(** Why a turn reports success. *)
Definition succeeds (s : verifier) (a : verify_answers) : Prop :=
  let t := (stream_after s a, a) in
  if data_check
  then DATA_PROBE_REQUIRED_SUCCESSES <= probe_successes s + confirmed (connect_ip_ok s) [t]
  else accepts_in t = true.

Lemma flush_spec a why out err :
  sat (flush_connected local target out err) (fun _ acts => count is_request acts = O) (ends a why).
Proof.
  induction out as [|[b e] out IH]; cbn [flush_connected]; [by destruct err|]. apply sat_bind. cbn [sat].
  destruct e; [done|]. eapply sat_mono; [apply IH| |done]. intros u more Hm. rewrite count_app. by rewrite Hm.
Qed.

Lemma verify_data_spec a s :
  verify_ok a -> probe_successes s < DATA_PROBE_REQUIRED_SUCCESSES ->
  let got := match v_stream s with Some sid => if connect_ip_ok s then zlen (mine sid (v_dgrams a)) else 0 | None => 0 end in
  sat (verify_data probe_packet start a s)
    (fun s' acts => v_stream s' = v_stream s /\ connect_ip_ok s' = connect_ip_ok s /\
       probe_successes s' = probe_successes s + got /\ probe_successes s' < DATA_PROBE_REQUIRED_SUCCESSES /\
       count is_request acts = O)
    (ends a (connect_ip_ok s = true /\ DATA_PROBE_REQUIRED_SUCCESSES <= probe_successes s + got)).
Proof.
  intros [Hd _] Hs got. subst got. unfold verify_data. destruct (connect_ip_ok s) eqn:Eok.
  2: { cbn [sat]. split; [done|]. split; [done|]. split; [by destruct (v_stream s); lia|done]. }
  apply sat_bind.
  assert (H1 : sat (if 700 <=? now_elapsed a - last_probe s
      then Go (mkVerifier (v_stream s) true (now_probe a) (probe_successes s)) (match v_stream s with Some sid => send_probe probe_packet sid | None => [] end)
      else Go s [])
    (fun s1 acts => v_stream s1 = v_stream s /\ connect_ip_ok s1 = true /\ probe_successes s1 = probe_successes s /\ count is_request acts = O)
    (ends a (true = true /\ DATA_PROBE_REQUIRED_SUCCESSES <= probe_successes s +
       match v_stream s with Some sid => zlen (mine sid (v_dgrams a)) | None => 0 end))).
  { destruct (_ <=? _); cbn [sat]; [|done]. repeat (split; [done|]). destruct (v_stream s); [apply send_probe_none|done]. }
  eapply sat_mono; [exact H1| |done]. intros s1 acts (A & B & C & D). rewrite A. destruct (v_stream s) as [sid|].
  - eapply sat_mono; [apply datagrams_spec; [done|lia]| |].
    + intros s2 more (A2 & B2 & C2 & D2 & E2). rewrite count_app, D, E2, A2, B2, C2, C. split; [done|]. split; [done|].
      split; [done|]. split; [lia|done].
    + intros r Hr. eapply ends_mono; [exact Hr|]. rewrite C. done.
  - cbn [sat]. rewrite app_nil_r. split; [done|]. split; [done|]. split; [lia|]. split; [lia|done].
Qed.

Definition opened (s : verifier) : nat := as_nat (bool_decide (is_Some (v_stream s))).

Lemma verify_request_spec a why s :
  verify_ok a ->
  sat (verify_request a s)
    (fun s1 acts => v_stream s1 = stream_after s a /\ connect_ip_ok s1 = connect_ip_ok s /\
       probe_successes s1 = probe_successes s /\ count is_request acts = (opened s1 - opened s)%nat)
    (ends a why).
Proof.
  intros [_ Hr]. unfold verify_request, stream_after, opened. destruct (v_stream s) as [sid|] eqn:Es.
  { cbn [sat]. rewrite Es. do 3 (split; [done|]). by rewrite Nat.sub_diag. }
  destruct (v_established a); [|cbn [sat]; rewrite Es; done]. apply sat_bind.
  destruct (v_request a) as [sid| | |]; done.
Qed.

(** The part of a turn that reads the answer. *)
Lemma verify_answer_spec a s :
  let t := (v_stream s, a) in
  sat (match v_stream s with Some sid => events a sid (v_polls a) s | None => Go s [] end)
    (accepted_step (accepts_in t) s) (ends a (data_check = false /\ accepts_in t = true)).
Proof.
  unfold accepts_in. cbn [fst snd]. destruct (v_stream s); [apply events_spec|].
  cbn [sat]. unfold accepted_step. by rewrite orb_false_r.
Qed.

Lemma verify_turn_spec ev a s :
  verify_ok a -> now_top a < deadline -> probe_successes s < DATA_PROBE_REQUIRED_SUCCESSES ->
  (connect_ip_ok s = true -> data_check = true) ->
  sat (turn ev a s) (turned s a) (ends a (succeeds s a)).
Proof.
  intros Ha Hnow Hs Hok. unfold verify_turn. rewrite (proj2 (Z.leb_gt deadline (now_top a))) by done.
  apply sat_bind. eapply (sat_mono _ (fun _ acts => count is_request acts = O) _ (ends a (succeeds s a))); [by destruct ev| |done]. intros u acts0 H0.
  apply sat_bind. eapply sat_mono; [by apply (verify_request_spec a (succeeds s a))| |done]. intros s1 acts1 (A1 & B1 & C1 & D1).
  apply sat_bind. eapply sat_mono; [apply verify_answer_spec| |].
  2: { intros r Hr. eapply ends_mono; [exact Hr|]. unfold succeeds. rewrite A1. by intros [-> ->]. }
  intros s2 acts2 (A2 & B2 & C2 & D2 & E2). rewrite A1 in *. rewrite B1 in C2. rewrite C1 in B2.
  assert (Hgot : confirmed (connect_ip_ok s) [(stream_after s a, a)] =
      match v_stream s2 with Some sid => if connect_ip_ok s2 then zlen (mine sid (v_dgrams a)) else 0 | None => 0 end).
  { cbn [confirmed fst snd]. rewrite A2, C2. lia. }
  apply sat_bind. eapply sat_mono; [apply (verify_data_spec a s2 Ha); by rewrite B2| |].
  2: { intros r Hr. eapply ends_mono; [exact Hr|]. intros [Hc Hle]. unfold succeeds. rewrite C2 in Hc.
       assert (data_check = true) as -> by (destruct (connect_ip_ok s); auto). by rewrite Hgot, <- B2. }
  intros s3 acts3 (A3 & B3 & C3 & D3 & E3). apply sat_bind. eapply sat_mono; [apply (flush_spec a (succeeds s a))| |done].
  intros u' acts4 H4. destruct (v_closed a); [done|]. cbn [sat]. unfold turned. rewrite A3, A2, B3, C3, Hgot, B2, C2.
  do 3 (split; [done|]). split; [done|]. split; [rewrite C3, B2, C2 in D3; exact D3|].
  repeat rewrite count_app. rewrite H0, D1, E2, E3, H4. unfold opened. rewrite A1. change (count is_request []) with O. lia.
Qed.

Lemma verify_run_inv now s h acts :
  verify_run now s h acts ->
  connect_ip_ok s = accepted h /\ (accepted h = true -> data_check = true) /\
  probe_successes s = confirmed false h /\ probe_successes s < DATA_PROBE_REQUIRED_SUCCESSES /\
  count is_request acts = opened s.
Proof.
  induction 1 as [|s h acts ev a s' acts' Hr IH Ha Ht]; [done|]. destruct IH as (H1 & H2 & H3 & H4 & H5).
  assert (Hnow : now_top a < deadline).
  { destruct (Z.ltb_spec (now_top a) deadline); [done|]. unfold verify_turn in Ht.
    rewrite (proj2 (Z.leb_le deadline (now_top a))) in Ht by done. done. }
  pose proof (verify_turn_spec ev a s Ha Hnow H4) as Hs. rewrite H1 in Hs at 1. specialize (Hs H2). rewrite Ht in Hs.
  destruct Hs as (A & B & C & D & E & F). rewrite accepted_app, confirmed_app, count_app. cbn [orb].
  change (accepted [(stream_after s a, a)]) with (accepts_in (stream_after s a, a) || false). rewrite orb_false_r.
  rewrite <- H1 in *. split; [done|]. split; [by intros [?|?]%orb_prop; auto|]. rewrite <- H3. split; [done|]. split; [done|].
  rewrite F, H5. unfold opened. rewrite A. unfold stream_after.
  destruct (v_stream s); cbn; [done|]. lia.
Qed.

(** No wait goes past the deadline. *)
Lemma verify_wait_bound now timeout s :
  (forall t, timeout = Some t -> 0 <= t) -> 0 <= verify_wait deadline now timeout s <= Z.max 0 (deadline - now).
Proof.
  intros Ht. unfold verify_wait, remaining. destruct timeout as [t|]; [specialize (Ht t eq_refl)|]; destruct (connect_ip_ok s); lia.
Qed.

(** C20: verifying a gateway ([verify_masque]), whatever quiche, the socket and the
    clock answer.  After any number of turns the request was made at most once,
    the gateway is taken as accepting exactly if it answered 200 on the
    request's stream, and fewer than two packets of that stream have come back
    since.  A turn never panics; it reports success only before the deadline,
    with the time elapsed, on an accepted request and, with the data check,
    once two packets of its stream have come back since the acceptance; from
    the deadline on every turn ends with the timeout error, and no turn waits
    past the deadline. *)
Theorem verify_masque_sound now s h acts :
  verify_run now s h acts ->
  connect_ip_ok s = accepted h /\ probe_successes s = confirmed false h /\
  probe_successes s < DATA_PROBE_REQUIRED_SUCCESSES /\ (count is_request acts <= 1)%nat /\
  forall ev a, verify_ok a ->
    (forall t, (forall x, t = Some x -> 0 <= x) -> 0 <= verify_wait deadline (now_top a) t s <= Z.max 0 (deadline - now_top a)) /\
    (deadline <= now_top a -> turn ev a s = Stop (Fail verify_timeout) []) /\
    match turn ev a s with
    | Go _ _ | Stop (Fail _) _ => True
    | Stop (Done elapsed) _ =>
        let h' := h ++ [(stream_after s a, a)] in
        now_top a < deadline /\ elapsed = now_end a - start /\ accepted h' = true /\
        (data_check = true -> DATA_PROBE_REQUIRED_SUCCESSES <= confirmed false h')
    | Stop _ _ => False
    end.
Proof.
  intros Hr. destruct (verify_run_inv _ _ _ _ Hr) as (H1 & H2 & H3 & H4 & H5).
  split; [done|]. split; [done|]. split; [done|]. split; [rewrite H5; unfold opened; by destruct (bool_decide _); cbn; lia|].
  intros ev a Ha. split; [intros t; by apply verify_wait_bound|].
  assert (Hlate : deadline <= now_top a -> turn ev a s = Stop (Fail verify_timeout) []).
  { intros Hd. unfold verify_turn. by rewrite (proj2 (Z.leb_le deadline (now_top a))). }
  split; [done|]. destruct (Z.leb_spec deadline (now_top a)) as [Hd|Hd]; [by rewrite Hlate|].
  pose proof (verify_turn_spec ev a s Ha Hd H4) as Hs. rewrite H1 in Hs at 1. specialize (Hs H2).
  destruct (turn ev a s) as [s' acts'|[t|e| |] acts']; try done. destruct Hs as [-> Hw]. cbv zeta.
  split; [done|]. split; [done|]. rewrite accepted_app, confirmed_app. cbn [orb]. unfold succeeds in Hw. rewrite H1, H3 in Hw.
  change (accepted [(stream_after s a, a)]) with (accepts_in (stream_after s a, a) || false). rewrite orb_false_r.
  destruct data_check; [|by rewrite Hw, orb_true_r]. split; [|done].
  destruct (accepted h || accepts_in (stream_after s a, a)) eqn:Eac; [done|]. exfalso.
  apply orb_false_elim in Eac as [E1 E2]. rewrite E1 in Hw. cbn [confirmed orb] in Hw. rewrite E2 in Hw. cbn [fst] in Hw.
  unfold DATA_PROBE_REQUIRED_SUCCESSES in *. rewrite <- H3 in Hw. destruct (stream_after s a); lia.
Qed.

End VerifyFacts.

(** The gateway accepts, a packet comes back, another one does. *)
Definition sample_verify (now : Z) (events : list h3_event) (d : list (list Z)) : verify_answers :=
  mkVerify now true (Done 4) events None now now now d now [] None false now.

Lemma sample_verify_ok now events d : Forall bytes_ok d -> verify_ok (sample_verify now events d).
Proof. by split. Qed.

Lemma verify_masque_sound_witness :
  let addr := SockV4 [10; 0; 0; 1] 443 in
  let turn := verify_turn true [7] addr addr addr 0 1000 in
  exists s h acts, verify_run true [7] addr addr addr 0 1000 0 s h acts /\ accepted h = true /\ probe_successes s = 1 /\
    turn Sleep (sample_verify 30 [] [[1; 0; 9]]) s = Stop (Done 30) [OnTimeout] /\
    turn Sleep (sample_verify 1000 [] []) s = Stop (Fail verify_timeout) [].
Proof.
  cbv zeta. set (addr := SockV4 [10; 0; 0; 1] 443).
  set (a1 := sample_verify 10 [Headers 4 [(STATUS, lit "200")]] []). set (a2 := sample_verify 20 [] [[1; 0; 8]]).
  assert (Hrun : exists s acts, verify_run true [7] addr addr addr 0 1000 0 s [(Some 4, a1); (Some 4, a2)] acts /\
            s = mkVerifier (Some 4) true 20 1).
  { do 2 eexists. split.
    - eapply (verify_run_turn _ _ _ _ _ _ _ 0 (mkVerifier (Some 4) true 10 0) [(Some 4, a1)] _ Sleep a2).
      + eapply (verify_run_turn _ _ _ _ _ _ _ 0 (verify_start 0) [] _ Sleep a1).
        * constructor.
        * by apply sample_verify_ok.
        * vm_compute. reflexivity.
      + apply sample_verify_ok. repeat constructor; lia.
      + vm_compute. reflexivity.
    - reflexivity. }
  destruct Hrun as (s & acts & Hrun & ->).
  destruct (verify_masque_sound true [7] addr addr addr 0 1000 0 _ _ _ Hrun) as (H1 & H2 & _ & _ & H3).
  exists (mkVerifier (Some 4) true 20 1), [(Some 4, a1); (Some 4, a2)], acts.
  split; [exact Hrun|]. split; [by rewrite <- H1|]. split; [done|]. split; [vm_compute; reflexivity|].
  apply (H3 Sleep (sample_verify 1000 [] [])); [by apply sample_verify_ok|]. cbn. lia.
Defined.
