(* ===== verification/Session.v ===== *)
(** * Settings and sessions of one tunnel (src/native/aether/aether/src/lib.rs)

    The choices read from the environment and the prompts, and the life of one
    tunnel: [run_masque_tunnel] and [run_wireguard_tunnel] establish it, settle
    the exit policy, open the proxies and wait for the first thing that ends
    it.  A prompt is the trimmed line it read, [None] off a terminal. *)

From stdpp Require Import base list option.
From Stdlib Require Import ZArith Lia.
From S2P Require Import Prelude RustStr StrFacts Error Net Sysprofile Prober AetherNoize LastConn ExitLoc.

(** ** Settings *)

(** [std::env::var(name)…filter(|&v| v > 0).map(|v| v.min(86_400)).unwrap_or(dflt)] *)
Definition secs_or (env : environment) (name : str) (dflt : Z) : Z :=
  match (v ← env name; parse_uint u64_max v) with
  | Some v => if 0 <? v then Z.min v 86400 else dflt
  | None => dflt
  end.

Definition masque_reconnect_delay (env : environment) : Z := secs_or env (lit "AETHER_MASQUE_RECONNECT_SECS") 2.
Definition masque_startup_timeout (env : environment) : Z := secs_or env (lit "AETHER_MASQUE_STARTUP_SECS") 30.
Definition mim_inner_startup (env : environment) : Z := Z.min (masque_startup_timeout env) 12.
Definition wg_reconnect_delay (env : environment) : Z := secs_or env (lit "AETHER_WG_RECONNECT_SECS") 2.
Definition wg_endpoint_cooldown (env : environment) : Z := secs_or env (lit "AETHER_WG_ENDPOINT_COOLDOWN_SECS") 300.
Definition wg_tunnel_validate_timeout (env : environment) : Z := secs_or env (lit "AETHER_WG_VALIDATE_SECS") 10.

(** A [u16], no upper limit of a day. *)
Definition wg_keepalive_secs (env : environment) : Z :=
  match (v ← env (lit "AETHER_WG_KEEPALIVE"); parse_uint u16_max v) with
  | Some v => if 0 <? v then v else 5
  | None => 5
  end.

Lemma secs_or_bound env name dflt : 0 < dflt <= 86400 -> 0 < secs_or env name dflt <= 86400.
Proof. intros Hd. unfold secs_or. destruct (_ ≫= _) as [v|]; [|done]. destruct (Z.ltb_spec 0 v); lia. Qed.

Section Settings.
Context `{UnicodeData}.

(** [masque_h2::enabled] and [masque_h2::h2_peer] *)
Definition masque_h2_enabled (env : environment) : bool :=
  match env (lit "AETHER_MASQUE_HTTP2") with
  | Some v => one_of (to_lowercase (trim v)) [lit "1"; lit "true"; lit "h2"; lit "yes"; lit "on"]
  | None => false
  end.

Definition h2_peer (env : environment) (quic_peer : SocketAddr) : SocketAddr :=
  default quic_peer (v ← env (lit "AETHER_MASQUE_H2_PEER"); parse_socket_addr (trim v)).

Definition masque_carrier (env : environment) : str :=
  if masque_h2_enabled env then CARRIER_MASQUE_H2 else CARRIER_MASQUE_H3.

Definition want_quick_reconnect (env : environment) (answer : option str) : bool :=
  let ask := match answer with
             | Some a => negb (eq_ignore_ascii_case a (lit "n") || eq_ignore_ascii_case a (lit "no"))
             | None => true
             end in
  match env (lit "AETHER_QUICK_RECONNECT") with
  | Some v =>
      if one_of v [lit "1"; lit "true"; lit "yes"; lit "on"] then true
      else if one_of v [lit "0"; lit "false"; lit "no"; lit "off"] then false
      else ask
  | None => ask
  end.

Definition scan_settings_from_env (env : environment) : str * IpScan.t :=
  (default [] (env (lit "AETHER_SCAN")),
   match env (lit "AETHER_IP") with Some v => IpScan.parse v | None => IpScan.V4 end).

(** [matches!(answer.as_deref(), Some(key))] *)
Definition answered (answer : option str) (key : str) : bool := bool_decide (answer = Some key).

Definition select_scan_mode_str (env : environment) (answer : option str) : str :=
  match env (lit "AETHER_SCAN") with
  | Some v => v
  | None =>
      if answered answer (lit "1") then lit "turbo"
      else if answered answer (lit "3") then lit "thorough"
      else if answered answer (lit "4") then lit "verified"
      else if answered answer (lit "5") then lit "ironclad"
      else lit "balanced"
  end.

Definition select_scan_mode (env : environment) (answer : option str) : ScanMode.t :=
  match env (lit "AETHER_SCAN") with
  | Some v => ScanMode.parse v
  | None =>
      if answered answer (lit "1") then ScanMode.Turbo
      else if answered answer (lit "3") then ScanMode.Thorough
      else if answered answer (lit "4") then ScanMode.Verified
      else if answered answer (lit "5") then ScanMode.Ironclad
      else ScanMode.Balanced
  end.

Definition select_ip_version (env : environment) (answer : option str) : IpScan.t :=
  match env (lit "AETHER_IP") with
  | Some v => IpScan.parse v
  | None =>
      if answered answer (lit "2") then IpScan.V6
      else if answered answer (lit "3") then IpScan.Both
      else IpScan.V4
  end.

(** The two readings of the scan mode agree. *)
Lemma select_scan_mode_agree env answer :
  ScanMode.parse (select_scan_mode_str env answer) = select_scan_mode env answer.
Proof.
  unfold select_scan_mode, select_scan_mode_str. destruct (env _); [done|].
  assert (Hlit : forall s, forallb (fun c => (0 <=? c) && (c <? 128)) s = true -> to_lowercase s = to_ascii_lowercase s).
  { intros s Hs. apply to_lowercase_ascii. apply List.Forall_forall. intros c Hc.
    rewrite forallb_forall in Hs. apply Hs in Hc. bool_lia. }
  repeat dest_if; unfold ScanMode.parse; rewrite Hlit by (vm_compute; reflexivity); vm_compute; reflexivity.
Qed.

(** [wg_profile_candidates]: the profile asked for, then the others unless
    they are turned off. *)
Definition add_profile (names : list str) (fallback : str) : list str :=
  if existsb (fun n => eq_ignore_ascii_case n fallback) names then names else names ++ [fallback].

Definition wg_profile_candidates (env : environment) : list (str * AetherNoizeConfig) :=
  let primary := default (lit "balanced") (env (lit "AETHER_NOIZE")) in
  let names := match env (lit "AETHER_WG_NO_PROFILE_RETRY") with
               | Some _ => [primary]
               | None => fold_left add_profile [lit "balanced"; lit "aggressive"; lit "light"; lit "off"] [primary]
               end in
  (fun n => (n, from_profile n)) <$> names.

Definition http_proxy_listen (env : environment) : option SocketAddr :=
  raw ← env (lit "AETHER_HTTP_PROXY");
  let trimmed := trim raw in
  if bool_decide (trimmed = []) then None else parse_socket_addr trimmed.

End Settings.

(** ** One tunnel *)

(** How the task of a tunnel ends: its result, or the error of joining it. *)
Inductive exit_result := Exited (r : aresult unit) | JoinError (msg : str).

(** What a session meets: whether the tunnel is up, what a lookup through the
    live tunnel answers, the two listeners, and the end of its task, if it
    comes before the exit policy is broken. *)
Record session_world := mkSession {
  establish : aresult unit;
  trace : trace_io;
  trace_rtt : Z;
  bind_socks : aresult unit;
  bind_http : aresult unit;
  exit_first : option exit_result;
  lookups : list trace_io
}.

(** What a session has done, in order. *)
Inductive stage := Established | PolicySettled | SocksBound | HttpBound | Serving.

#[global] Instance stage_eq_dec : EqDecision stage.
Proof. solve_decision. Defined.

(** A call that may end the session before the stage it leads to. *)
Definition reach (m : aresult unit) (st : stage) (k : list stage * aresult unit) : list stage * aresult unit :=
  match m with
  | Done _ => let '(l, r) := k in (st :: l, r)
  | r => ([], r)
  end.

(** [std::future::pending] without a policy. *)
Definition exit_policy_guard (lookups : list trace_io) (policy : option Policy) : outcome unit AetherError :=
  match policy with Some policy => watch lookups policy | None => Diverge end.

Section Session.
(** The text of an error, from [thiserror] and the libraries it wraps. *)
Variable display : AetherError -> str.

Definition tunnel_end (what : str) (w : session_world) (policy : option Policy) : aresult unit :=
  match exit_first w with
  | Some (Exited (Fail e)) => Fail (Other (what ++ lit " exited: " ++ display e))
  | Some (Exited r) => r
  | Some (JoinError msg) => Fail (Other (what ++ lit " task join error: " ++ msg))
  | None => match exit_policy_guard (lookups w) policy with
            | Done reason => Fail reason
            | Fail _ | Diverge => Diverge
            | Panic => Panic
            end
  end.

(** The task of a MASQUE tunnel runs from [establish_masque] on. *)
Definition run_masque_tunnel (policy : option Policy) (w : session_world) : list stage * aresult unit :=
  reach (establish w) Established
    (reach (settle (trace w) (trace_rtt w) policy) PolicySettled
      (reach (bind_socks w) SocksBound
        (reach (bind_http w) HttpBound
          ([Serving], tunnel_end (lit "tunnel") w policy)))).

(** A lookup through a tunnel whose tasks do not run: packets leave the stack
    and nothing takes them, so it lasts until its time limit. *)
Definition stopped (io : trace_io) : trace_io :=
  mkIo true (resolved io) (opened io) (request_sent io) (chunks io).

(** Here [settle] comes before [tunnel.run], which alone moves packets. *)
Definition run_wireguard_tunnel (policy : option Policy) (w : session_world) : list stage * aresult unit :=
  reach (map_err (fun e => Other (lit "tunnel failed validation: " ++ display e)) (establish w)) Established
    (reach (settle (stopped (trace w)) (trace_rtt w) policy) PolicySettled
      (reach (bind_socks w) SocksBound
        (reach (bind_http w) HttpBound
          ([Serving], tunnel_end (lit "wireguard tunnel") w policy)))).

End Session.

(** *** [establish_masque] *)

(** What comes first after the tunnel task is started: the ready signal, the end
    of the task, or the startup limit. *)
Inductive startup := Ready | TaskEnded (r : exit_result) | TimedOutAt (limit : str).

Definition establish_masque (display : AetherError -> str) (label : str) (s : startup) : aresult unit :=
  let prefix := lit "[" ++ label ++ lit "] tunnel " in
  match s with
  | Ready => Done tt
  | TaskEnded (Exited (Fail e)) => Fail (Other (prefix ++ lit "failed before validation: " ++ display e))
  | TaskEnded (Exited (Done _)) => Fail (Other (prefix ++ lit "exited before validation"))
  | TaskEnded (Exited r) => r
  | TaskEnded (JoinError msg) => Fail (Other (prefix ++ lit "task join error: " ++ msg))
  | TimedOutAt limit => Fail (Other (prefix ++ lit "startup timed out after " ++ limit))
  end.

(** ** Facts *)

(** A session that serves has settled the policy: the exit it read is one the
    policy accepts. *)
Lemma reach_serving m st k : Serving ∈ (reach m st k).1 -> st <> Serving -> m = Done tt /\ Serving ∈ k.1.
Proof.
  unfold reach. destruct m as [[]| | |]; cbn; try (intros Hn; by apply not_elem_of_nil in Hn). destruct k as [l r].
  cbn. intros [->|Hin]%elem_of_cons Hne; done.
Qed.

Lemma masque_serves_settled display policy w :
  Serving ∈ (run_masque_tunnel display policy w).1 ->
  settle (trace w) (trace_rtt w) policy = Done tt /\ establish w = Done tt.
Proof.
  intros [He Hs]%reach_serving; [|done]. apply reach_serving in Hs as [Hs _]; [|done]. done.
Qed.

(** With an exit policy a plain WireGuard session never serves. *)
Lemma wg_policy_unreadable display policy w :
  establish w = Done tt -> run_wireguard_tunnel display (Some policy) w = ([Established], Fail UNREADABLE).
Proof. intros E. unfold run_wireguard_tunnel. by rewrite E. Qed.

Lemma wg_serves_no_policy display policy w :
  Serving ∈ (run_wireguard_tunnel display policy w).1 -> policy = None /\ establish w = Done tt.
Proof.
  intros [He Hs]%reach_serving; [|done]. apply reach_serving in Hs as [Hs _]; [|done].
  destruct (establish w) as [[]| | |]; try done. by destruct policy.
Qed.

(** With an exit policy a plain WireGuard session cannot settle: the lookup is
    made through a tunnel that does not run yet, whatever exit it would have. *)
Example wg_policy_never_settles :
  let io := mkIo false (Done (V4 [1; 1; 1; 1])) (fun _ => Done tt) (fun _ => Done tt) [lit "loc=DE"; [10]] in
  let w := mkSession (Done tt) io 10 (Done tt) (Done tt) (Some (Exited (Done tt))) [] in
  let policy := policy_parse (fun _ => None) (lit "DE") in
  run_masque_tunnel (fun _ => []) policy w = ([Established; PolicySettled; SocksBound; HttpBound; Serving], Done tt) /\
  run_wireguard_tunnel (fun _ => []) policy w = ([Established], Fail UNREADABLE).
Proof. vm_compute. done. Qed.
