(* ===== verification/CarrierLoop.v ===== *)
(** * The loops around one tunnel (lib.rs: [run_masque], [run_wireguard])

    Each loop settles on a gateway, saves it, runs a session through it and
    starts again.  As in HopLoop.v a pass is a function of the state the loop
    keeps and of what the world answers in that pass: the checks, the scan and
    the session.  Log lines and sleeps are left out, times are in seconds. *)

From stdpp Require Import base list option gmap.
From Stdlib Require Import ZArith Lia.
From S2P Require Import Prelude ListFacts Rand RustStr StrFacts Error Net Sysprofile Prober WgProber AetherNoize LastConn ExitLoc Hops HopLoop Session.

(** The endpoint an organization assigned. *)
Definition assigned_endpoint (env : environment) : option SocketAddr :=
  v ← env (lit "AETHER_TEAM_ENDPOINT");
  parse_socket_addr v.

Definition bad_peer (p : str) : AetherError := Other (lit "bad peer address " ++ p).

(** The answers to the three questions a start may ask. *)
Record start_answers := mkStartAnswers {
  quick_answer : option str;
  mode_answer : option str;
  ip_answer : option str
}.

(** How to scan: asked for only if a scan is what comes next. *)
Definition start_settings `{UnicodeData} (env : environment) (known : bool) (a : start_answers) : str * IpScan.t :=
  if known then scan_settings_from_env env
  else (select_scan_mode_str env (mode_answer a), select_ip_version env (ip_answer a)).

(** ** MASQUE *)

Section Masque.
Context `{UnicodeData} `{Toml}.
Context (env : environment).

Definition masque_forced : option str := env (lit "AETHER_PEER").

(** The gateway to reuse without a scan: the assigned one, else the first of
    the remembered ones, that passes [verify]. *)
Definition masque_quick (verify : SocketAddr -> bool) (a : start_answers) (f : file) : option SocketAddr :=
  match masque_forced with
  | Some _ => None
  | None =>
      match (p ← assigned_endpoint env; if verify p then Some p else None) with
      | Some p => Some p
      | None =>
          cached ← load f;
          let ring := usable_peers cached (masque_carrier env) in
          if negb (zlen ring =? 0) && want_quick_reconnect env (quick_answer a)
          then List.find verify ring
          else None
      end
  end.

Record masque_loop := mkMasqueLoop {
  quick_peer : option SocketAddr;
  last_good_peer : option SocketAddr;
  conn_file : file
}.

Definition masque_start (verify : SocketAddr -> bool) (a : start_answers) (f : file) : masque_loop * (str * IpScan.t) :=
  let quick := masque_quick verify a f in
  let known := match masque_forced, quick with None, None => false | _, _ => true end in
  (mkMasqueLoop quick None f, start_settings env known a).

(** What the world answers in a pass: the check of the last gateway, the scan,
    the session and the writing of the file. *)
Record masque_world := mkMasqueWorld {
  quick_verify_masque_peer : SocketAddr -> bool;
  masque_hunt : ScanMode.t -> IpScan.t -> aresult ProbeResult;
  masque_session : SocketAddr -> aresult unit;
  masque_written : bool
}.

(** The gateway of a pass, [None] when the scan failed and another pass
    follows. *)
Definition masque_pick (settings : str * IpScan.t) (w : masque_world) (s : masque_loop) : aresult (option SocketAddr) :=
  match quick_peer s with
  | Some p => Done (Some p)
  | None =>
      match (p ← last_good_peer s; if quick_verify_masque_peer w p then Some p else None) with
      | Some p => Done (Some p)
      | None =>
          match masque_forced with
          | Some text => match parse_socket_addr text with Some p => Done (Some p) | None => Fail (bad_peer text) end
          | None =>
              match hunt_masque_peer (masque_hunt w) settings.1 settings.2 with
              | Done p => Done (Some p)
              | Fail _ => Done None
              | Panic => Panic
              | Diverge => Diverge
              end
          end
      end
  end.

Definition masque_save (written : bool) (f : file) (p : SocketAddr) : file :=
  match masque_forced with
  | None => save written f (show_socket_addr p) (default (lit "firewall") (env (lit "AETHER_NOIZE"))) (masque_carrier env)
  | Some _ => f
  end.

Definition masque_pass (settings : str * IpScan.t) (w : masque_world) (s : masque_loop)
  : aresult (masque_loop * option (SocketAddr * aresult unit)) :=
  picked ← masque_pick settings w s;
  match picked with
  | None => Done (mkMasqueLoop None (last_good_peer s) (conn_file s), None)
  | Some p =>
      Done (mkMasqueLoop None (Some p) (masque_save (masque_written w) (conn_file s) p), Some (p, masque_session w p))
  end.

End Masque.

(** ** WireGuard *)

(** A gateway, the obfuscation profile it works with and its name. *)
Definition choice : Type := SocketAddr * AetherNoizeConfig * str.
Definition choice_peer (c : choice) : SocketAddr := c.1.1.

(** The first profile that passes at [p]. *)
Fixpoint first_profile (verify : AetherNoizeConfig -> bool) (candidates : list (str * AetherNoizeConfig)) (p : SocketAddr)
  : option choice :=
  match candidates with
  | [] => None
  | (name, profile) :: candidates =>
      if verify profile then Some (p, profile, name) else first_profile verify candidates p
  end.

(** A scan with one profile, without the excluded endpoints. *)
Definition wg_hunt_one := AetherNoizeConfig -> ScanMode.t -> IpScan.t -> list SocketAddr -> aresult ProbeResult.

Fixpoint hunt_wg_peer (hunt : wg_hunt_one) (candidates : list (str * AetherNoizeConfig)) (mode : ScanMode.t)
  (ip : IpScan.t) (excluded : list SocketAddr) : aresult choice :=
  match candidates with
  | [] => Fail NoCleanEndpoint
  | (name, profile) :: candidates =>
      match hunt profile mode ip excluded with
      | Done best => Done (sock (pr_ip best) (pr_port best), profile, name)
      | Fail _ => hunt_wg_peer hunt candidates mode ip excluded
      | Panic => Panic
      | Diverge => Diverge
      end
  end.

Section WireGuard.
Context `{UnicodeData} `{Toml}.
Context (env : environment).

Definition wg_forced : option str :=
  match env (lit "AETHER_WG_PEER") with Some p => Some p | None => env (lit "AETHER_PEER") end.

Definition wg_quick (verify : SocketAddr -> AetherNoizeConfig -> bool) (a : start_answers) (f : file) : option choice :=
  match wg_forced with
  | Some _ => None
  | None =>
      match (p ← assigned_endpoint env; first_profile (verify p) (wg_profile_candidates env) p) with
      | Some c => Some c
      | None =>
          cached ← load f;
          let ring := usable_peers cached CARRIER_WIREGUARD in
          if negb (zlen ring =? 0) && want_quick_reconnect env (quick_answer a) then
            let prof := from_profile (profile cached) in
            p ← List.find (fun p => verify p prof) ring;
            Some (p, prof, profile cached)
          else None
      end
  end.

Record wg_loop := mkWgLoop {
  quick : option choice;
  last_good : option choice;
  consecutive_fails_on_peer : Z;
  endpoint_cooldowns : gmap SocketAddr Z;
  wg_file : file
}.

(** [keys]: the reading of the identity's keys and address. *)
Definition wg_start (keys : aresult unit) (verify : SocketAddr -> AetherNoizeConfig -> bool) (a : start_answers) (f : file)
  : aresult (wg_loop * (str * IpScan.t)) :=
  _ ← keys;
  let q := wg_quick verify a f in
  let known := match wg_forced, q with None, None => false | _, _ => true end in
  Done (mkWgLoop q None 0 ∅ f, start_settings env known a).

Record wg_world := mkWgWorld {
  verify_last : SocketAddr -> AetherNoizeConfig -> bool;
  verify_forced : SocketAddr -> AetherNoizeConfig -> bool;
  wg_hunt : wg_hunt_one;
  wg_session : SocketAddr -> AetherNoizeConfig -> aresult unit;
  wg_written : bool
}.

(** The cooldowns that are over are forgotten; an endpoint that failed twice in
    a row is dropped and left out for a while. *)
Definition cool_down (now : Z) (s : wg_loop) : wg_loop :=
  let cooldowns := filter (fun x => now < x.2) (endpoint_cooldowns s) in
  if MAX_CONSECUTIVE_FAILS <=? consecutive_fails_on_peer s then
    match last_good s with
    | Some c => mkWgLoop (quick s) None 0 (<[choice_peer c := now + wg_endpoint_cooldown env]> cooldowns) (wg_file s)
    | None => mkWgLoop (quick s) None 0 cooldowns (wg_file s)
    end
  else mkWgLoop (quick s) (last_good s) (consecutive_fails_on_peer s) cooldowns (wg_file s).

Definition wg_pick (settings : str * IpScan.t) (w : wg_world) (s : wg_loop) : aresult (option choice) :=
  match quick s with
  | Some c => Done (Some c)
  | None =>
      match (c ← last_good s; if verify_last w (choice_peer c) c.1.2 then Some c else None) with
      | Some c => Done (Some c)
      | None =>
          match wg_forced with
          | Some text =>
              match parse_socket_addr text with
              | Some p => Done (first_profile (verify_forced w p) (wg_profile_candidates env) p)
              | None => Fail (bad_peer text)
              end
          | None =>
              let excluded := elements (dom (endpoint_cooldowns s)) in
              match hunt_wg_peer (wg_hunt w) (wg_profile_candidates env) (ScanMode.parse settings.1) settings.2 excluded with
              | Done c => Done (Some c)
              | Fail _ => Done None
              | Panic => Panic
              | Diverge => Diverge
              end
          end
      end
  end.

Definition wg_save (written : bool) (f : file) (c : choice) : file :=
  match wg_forced with
  | None => save written f (show_socket_addr (choice_peer c)) c.2 CARRIER_WIREGUARD
  | Some _ => f
  end.

Definition wg_pass (settings : str * IpScan.t) (now : Z) (w : wg_world) (s : wg_loop)
  : aresult (wg_loop * option (choice * aresult unit)) :=
  let s := cool_down now s in
  picked ← wg_pick settings w s;
  match picked with
  | None => Done (mkWgLoop None (last_good s) (consecutive_fails_on_peer s) (endpoint_cooldowns s) (wg_file s), None)
  | Some c =>
      let same := bool_decide (choice_peer <$> last_good s = Some (choice_peer c)) in
      let fails := if same then consecutive_fails_on_peer s else 0 in
      Done (mkWgLoop None (Some c) (fails + 1) (endpoint_cooldowns s) (wg_save (wg_written w) (wg_file s) c),
            Some (c, wg_session w (choice_peer c) c.1.2))
  end.

End WireGuard.

(** ** Facts about the WireGuard loop *)

(** What a scan for one endpoint promises to the loop. *)
Class WgHuntBest (hunt : wg_hunt_one) : Prop := {
  best_avoids profile mode ip excluded pr :
    hunt profile mode ip excluded = Done pr -> sock (pr_ip pr) (pr_port pr) ∉ excluded;
  best_no_panic profile mode ip excluded : hunt profile mode ip excluded <> Panic
}.

#[global] Instance hunt_best_wg_endpoint_WgHuntBest {R} `{Rng R} fuel env net complete start clock (r : R)
  (Hcomplete : forall l, complete l ≡ₚ l) :
  WgHuntBest (fun profile mode ip excluded =>
                hunt_best_wg_endpoint fuel env (net profile) complete start clock WG_PORTS ip excluded mode r).
Proof.
  split; intros profile mode ip excluded; unfold hunt_best_wg_endpoint.
  - intros pr. destruct (hunt_wg_endpoints _ _ _ _ _ _ _ _ _ _ _ _) as [l| | |] eqn:E; try done. cbn [mbind outcome_bind].
    destruct l as [|x l]; [done|]. intros [= <-]. eapply hunt_wg_endpoints_avoid; [done|exact E|apply elem_of_cons; by left].
  - pose proof (hunt_wg_endpoints_no_panic fuel env (net profile) complete start clock WG_PORTS ip excluded mode 1 r).
    destruct (hunt_wg_endpoints _ _ _ _ _ _ _ _ _ _ _ _) as [[|x l]| | |]; done.
Qed.

Lemma hunt_wg_peer_spec hunt candidates mode ip excluded :
  WgHuntBest hunt ->
  match hunt_wg_peer hunt candidates mode ip excluded with
  | Done c => (choice_peer c ∉ excluded) /\ (c.2, c.1.2) ∈ candidates
  | Fail e => e = NoCleanEndpoint
  | Panic => False
  | Diverge => exists profile, hunt profile mode ip excluded = Diverge
  end.
Proof.
  intros Hh. induction candidates as [|[name profile] candidates IH]; cbn [hunt_wg_peer]; [done|].
  destruct (hunt profile mode ip excluded) as [pr|e| |] eqn:E.
  - split; [by eapply best_avoids|]. apply elem_of_cons. by left.
  - destruct (hunt_wg_peer hunt candidates mode ip excluded); try done. destruct IH as [? ?]. split; [done|].
    apply elem_of_cons. by right.
  - by apply best_no_panic in E.
  - by exists profile.
Qed.

Section WireGuardFacts.
Context `{UnicodeData} `{Toml}.
Context (env : environment) (settings : str * IpScan.t) (s0 : wg_loop).

(** A session of a run: when its pass began, the gateway, whether the file was
    written. *)
Definition wg_record : Type := Z * choice * bool.
Definition record_time (x : wg_record) : Z := x.1.1.
Definition record_peer (x : wg_record) : SocketAddr := choice_peer x.1.2.

(** The newest session comes first. *)
Inductive wg_run : Z -> wg_loop -> list wg_record -> Prop :=
| wg_run_start now : wg_run now s0 []
| wg_run_rescan t s h now w s' :
    wg_run t s h -> t <= now -> WgHuntBest (wg_hunt w) -> wg_pass env settings now w s = Done (s', None) ->
    wg_run now s' h
| wg_run_session t s h now w s' c ended :
    wg_run t s h -> t <= now -> WgHuntBest (wg_hunt w) -> wg_pass env settings now w s = Done (s', Some (c, ended)) ->
    wg_run now s' ((now, c, wg_written w) :: h).

Abbreviation cooldown := (wg_endpoint_cooldown env).

(** Times go up, and three sessions in a row with one endpoint span the
    cooldown. *)
Fixpoint spaced (h : list wg_record) : Prop :=
  match h with
  | z :: ((y :: rest) as older) =>
      record_time y <= record_time z /\
      match rest with
      | x :: _ => record_peer z = record_peer y -> record_peer y = record_peer x -> record_time x + cooldown <= record_time z
      | [] => True
      end /\ spaced older
  | _ => True
  end.

(** The last session against the state of the loop. *)
Definition last_session (now : Z) (s : wg_loop) (h : list wg_record) : Prop :=
  match last_good s, h with
  | None, [] => consecutive_fails_on_peer s = 0
  | None, y :: _ =>
      consecutive_fails_on_peer s = 0 /\
      (record_time y + cooldown <= now \/
       exists until, endpoint_cooldowns s !! record_peer y = Some until /\ record_time y + cooldown <= until)
  | Some c, y :: rest =>
      choice_peer c = record_peer y /\ 1 <= consecutive_fails_on_peer s <= MAX_CONSECUTIVE_FAILS /\
      (consecutive_fails_on_peer s = 1 ->
       match rest with x :: _ => record_peer y = record_peer x -> record_time x + cooldown <= record_time y | [] => True end)
  | Some _, [] => False
  end.

Definition wg_inv (now : Z) (s : wg_loop) (h : list wg_record) : Prop :=
  (quick s <> None -> h = []) /\ spaced h /\ last_session now s h /\
  match h with y :: _ => record_time y <= now | [] => True end.

Lemma cool_down_inv t now s h :
  wg_inv t s h -> t <= now -> wg_inv now (cool_down env now s) h /\
  consecutive_fails_on_peer (cool_down env now s) < MAX_CONSECUTIVE_FAILS.
Proof.
  intros (Hq & Hs & Hl & Ht) Hle. unfold cool_down, MAX_CONSECUTIVE_FAILS in *.
  destruct (Z.leb_spec 2 (consecutive_fails_on_peer s)) as [Hf|Hf].
  - unfold last_session in Hl. destruct (last_good s) as [c|].
    + destruct h as [|y rest]; [done|]. destruct Hl as (Hp & Hb & _). split; [|done]. split; [done|]. split; [done|].
      split; [|lia]. split; [done|]. right. exists (now + cooldown). cbn [endpoint_cooldowns]. rewrite <- Hp.
      split; [by rewrite lookup_insert_eq|lia].
    + exfalso. destruct h; [|destruct Hl as [Hl _]]; lia.
  - split; [|done]. split; [done|]. split; [done|]. split; [|destruct h; [done|lia]].
    unfold last_session in *. cbn. destruct (last_good s) as [c|]; [done|]. destruct h as [|y rest]; [done|].
    destruct Hl as [Hz [Hd|(until & Hu & Hd)]]; (split; [done|]); [left; lia|].
    destruct (Z.lt_ge_cases now until) as [Hlt|Hge]; [|left; lia]. right. exists until. split; [|done].
    by apply map_lookup_filter_Some_2.
Qed.

(** Without a forced endpoint, the gateway of a pass is the one the loop
    started with, the last one if it still answers, or one the scan found that
    is not kept out. *)
Definition wg_justified (w : wg_world) (s : wg_loop) (c : choice) : Prop :=
  quick s = Some c \/
  (last_good s = Some c /\ verify_last w (choice_peer c) c.1.2 = true) \/
  (hunt_wg_peer (wg_hunt w) (wg_profile_candidates env) (ScanMode.parse settings.1) settings.2
     (elements (dom (endpoint_cooldowns s))) = Done c /\ endpoint_cooldowns s !! choice_peer c = None).

Lemma wg_pick_spec w s :
  wg_forced env = None -> WgHuntBest (wg_hunt w) ->
  match wg_pick env settings w s with
  | Done (Some c) => wg_justified w s c
  | Done None => True
  | Fail _ | Panic => False
  | Diverge => exists profile mode ip excluded, wg_hunt w profile mode ip excluded = Diverge
  end.
Proof.
  intros Hf Hh. unfold wg_pick, wg_justified. destruct (quick s) as [q|]; [by left|]. rewrite Hf.
  assert (Hhunt : forall o : option choice, o = None ->
    match match hunt_wg_peer (wg_hunt w) (wg_profile_candidates env) (ScanMode.parse settings.1) settings.2
                  (elements (dom (endpoint_cooldowns s))) with
          | Done c => Done (Some c) | Fail _ => Done None | Panic => Panic | Diverge => Diverge end : aresult (option choice) with
    | Done (Some c) => None = Some c \/ (last_good s = Some c /\ verify_last w (choice_peer c) c.1.2 = true) \/
        (hunt_wg_peer (wg_hunt w) (wg_profile_candidates env) (ScanMode.parse settings.1) settings.2
          (elements (dom (endpoint_cooldowns s))) = Done c /\ endpoint_cooldowns s !! choice_peer c = None)
    | Done None => True
    | Fail _ | Panic => False
    | Diverge => exists profile mode ip excluded, wg_hunt w profile mode ip excluded = Diverge
    end).
  { intros _ _. pose proof (hunt_wg_peer_spec (wg_hunt w) (wg_profile_candidates env) (ScanMode.parse settings.1) settings.2
      (elements (dom (endpoint_cooldowns s))) Hh) as Hs.
    destruct (hunt_wg_peer _ _ _ _ _) as [c|e| |]; [|done|done|destruct Hs as [profile Hs]; eauto].
    right. right. split; [done|]. destruct Hs as [Hn _]. apply not_elem_of_dom. by rewrite <- elem_of_elements. }
  destruct (last_good s) as [c|] eqn:El; cbn [mbind option_bind]; [|by apply (Hhunt None)].
  destruct (verify_last w (choice_peer c) c.1.2) eqn:Ev; [right; left; done|by apply (Hhunt None)].
Qed.

Lemma cool_down_quick now s : quick (cool_down env now s) = quick s.
Proof. unfold cool_down. by destruct (_ <=? _), (last_good s). Qed.

(** One pass, what it leaves and why its gateway was chosen. *)
Lemma wg_pass_spec t now w s h :
  wg_forced env = None -> WgHuntBest (wg_hunt w) -> wg_inv t s h -> t <= now ->
  match wg_pass env settings now w s with
  | Done (s', None) => wg_inv now s' h
  | Done (s', Some (c, _)) => wg_inv now s' ((now, c, wg_written w) :: h) /\ wg_justified w (cool_down env now s) c
  | Fail _ | Panic => False
  | Diverge => exists profile mode ip excluded, wg_hunt w profile mode ip excluded = Diverge
  end.
Proof.
  intros Hf Hh Hi Hle. destruct (cool_down_inv t now s h Hi Hle) as [(Hq & Hs & Hl & Ht) Hlt].
  set (s1 := cool_down env now s) in *. unfold wg_pass. fold s1.
  pose proof (wg_pick_spec w s1 Hf Hh) as Hp. destruct (wg_pick env settings w s1) as [[c|]| | |]; try done; cbn [mbind outcome_bind].
  split; [|done]. split; [done|]. unfold last_session in Hl. cbn [last_good].
  set (same := bool_decide _). destruct h as [|y rest].
  { destruct (last_good s1); [done|]. split; [done|]. split; [|cbn; lia]. unfold last_session, MAX_CONSECUTIVE_FAILS. cbn.
    replace same with false by done. split; [done|]. split; [lia|done]. }
  assert (Hne : choice_peer c = record_peer y -> last_good s1 = None -> record_time y + cooldown <= now).
  { intros Hc En. rewrite En in Hl. destruct Hl as [_ [Hd|(until & Hu & Hd)]]; [done|].
    destruct Hp as [Hp|[[Hp _]|[_ Hp]]]; [|congruence|rewrite Hc in Hp; congruence].
    specialize (Hq ltac:(by rewrite Hp)). discriminate. }
  assert (Hspaced : spaced ((now, c, wg_written w) :: y :: rest) /\
    last_session now (mkWgLoop None (Some c) ((if same then consecutive_fails_on_peer s1 else 0) + 1) (endpoint_cooldowns s1)
                        (wg_save env (wg_written w) (wg_file s1) c)) ((now, c, wg_written w) :: y :: rest)).
  { unfold last_session, MAX_CONSECUTIVE_FAILS in *. cbn [last_good consecutive_fails_on_peer].
    change (record_peer (now, c, wg_written w)) with (choice_peer c). change (record_time (now, c, wg_written w)) with now.
    destruct (last_good s1) as [c'|] eqn:El.
    - destruct Hl as (Hc' & Hb & Hone). unfold same. destruct (decide (choice_peer c = record_peer y)) as [Ec|Ec].
      + rewrite bool_decide_true by (rewrite ?El; cbn [fmap option_fmap option_map]; congruence). assert (consecutive_fails_on_peer s1 = 1) as E1 by lia. specialize (Hone E1).
        split; [|split; [done|]; split; [lia|lia]]. cbn [spaced]. split; [done|]. split; [|done]. destruct rest as [|x rest]; [done|].
        intros _ Hyx. specialize (Hone Hyx). cbn. lia.
      + rewrite bool_decide_false by (rewrite ?El; cbn [fmap option_fmap option_map]; congruence). split; [|split; [done|]; split; [lia|done]].
        cbn [spaced]. split; [done|]. split; [|done]. destruct rest; [done|]. intros Hc. by destruct (Ec Hc).
    - destruct Hl as [Hz _]. replace same with false by done. split; [|split; [done|]; split; [lia|]; intros _ Hc; by apply Hne].
      cbn [spaced]. split; [done|]. split; [|done]. destruct rest as [|x rest]; [done|]. cbn. intros Hc _.
      specialize (Hne Hc eq_refl). cbn [spaced] in Hs. destruct Hs as [Hxy _]. lia. }
  destruct Hspaced as [H1 H2]. split; [done|]. split; [done|]. cbn. lia.
Qed.

(** The file after the sessions of a run. *)
Definition wg_saved (f : file) (h : list wg_record) : file :=
  foldr (fun x f => save x.2 f (show_socket_addr (record_peer x)) x.1.2.2 CARRIER_WIREGUARD) f h.

Lemma wg_pass_file now w s :
  wg_forced env = None ->
  match wg_pass env settings now w s with
  | Done (s', None) => wg_file s' = wg_file s
  | Done (s', Some (c, ended)) => wg_file s' = wg_saved (wg_file s) [(now, c, wg_written w)] /\ ended = wg_session w (choice_peer c) c.1.2
  | _ => True
  end.
Proof.
  intros Hf. unfold wg_pass. assert (E : wg_file (cool_down env now s) = wg_file s) by
    (unfold cool_down; by destruct (_ <=? _), (last_good s)).
  destruct (wg_pick _ _ _ _) as [[c|]| | |]; try done; cbn [mbind outcome_bind wg_file]. rewrite E. unfold wg_save. by rewrite Hf.
Qed.

Lemma wg_run_inv now s h :
  wg_forced env = None -> last_good s0 = None -> consecutive_fails_on_peer s0 = 0 ->
  wg_run now s h -> wg_inv now s h /\ wg_file s = wg_saved (wg_file s0) h.
Proof.
  intros Hf Hl Hz. induction 1 as [now|t s h now w s' Hr IH Hle Hw Hp|t s h now w s' c ended Hr IH Hle Hw Hp].
  - split; [|done]. split; [done|]. split; [done|]. split; [|done]. unfold last_session. by rewrite Hl.
  - destruct IH as [Hi Hfile]. pose proof (wg_pass_spec t now w s h Hf Hw Hi Hle) as Hs. rewrite Hp in Hs.
    pose proof (wg_pass_file now w s Hf) as Hs'. rewrite Hp in Hs'. split; [done|]. congruence.
  - destruct IH as [Hi Hfile]. pose proof (wg_pass_spec t now w s h Hf Hw Hi Hle) as Hs. rewrite Hp in Hs.
    pose proof (wg_pass_file now w s Hf) as Hs'. rewrite Hp in Hs'. destruct Hs as [Hs _], Hs' as [Hs' _].
    split; [done|]. rewrite Hs', Hfile. done.
Qed.

Lemma spaced_lookup h i (x y z : wg_record) :
  spaced h -> h !! i = Some z -> h !! S i = Some y -> h !! S (S i) = Some x ->
  record_peer z = record_peer y -> record_peer y = record_peer x -> record_time x + cooldown <= record_time z.
Proof.
  revert i. induction h as [|z' h IH]; intros i Hs Hz Hy Hx; [done|]. destruct i as [|i].
  - cbn in Hz, Hy, Hx. injection Hz as ->. destruct h as [|y' [|x' h]]; [done..|]. cbn in Hy, Hx. injection Hy as ->. injection Hx as ->.
    cbn [spaced] in Hs. apply Hs.
  - apply (IH i); try done. destruct h as [|y' h]; [done|]. apply Hs.
Qed.

End WireGuardFacts.

Lemma first_profile_verified verify candidates p c :
  first_profile verify candidates p = Some c -> choice_peer c = p /\ verify c.1.2 = true.
Proof.
  induction candidates as [|[name profile] candidates IH]; cbn; [done|]. destruct (verify profile) eqn:E; [|done].
  by intros [= <-].
Qed.

Lemma wg_quick_verified `{UnicodeData} `{Toml} env verify a f c :
  wg_quick env verify a f = Some c -> verify (choice_peer c) c.1.2 = true.
Proof.
  unfold wg_quick. destruct (wg_forced env); [done|].
  destruct (p ← assigned_endpoint env; first_profile (verify p) (wg_profile_candidates env) p) as [c'|] eqn:E.
  - intros [= <-]. destruct (assigned_endpoint env) as [p|]; [|done]. by apply first_profile_verified in E as [-> Hv].
  - destruct (load f) as [cached|]; [|done]. cbn [mbind option_bind]. dest_if; [|done].
    destruct (List.find _ _) as [p|] eqn:Ef; [|done]. intros [= <-]. by apply List.find_some in Ef as [_ ?].
Qed.

(** C23: the loop of a WireGuard tunnel ([run_wireguard]) with no endpoint forced, from
    its start, whatever the checks, the scans and the sessions do.  Three
    sessions in a row with one endpoint span the cooldown, which is between a
    second and a day: an endpoint that failed twice is left alone that long.
    The file remembers exactly the endpoints used.  A pass never panics and
    never ends the loop; its endpoint is the one checked at the start, the last
    one after a new check, or one the scan found, not kept out. *)
Theorem wg_loop_sound `{UnicodeData} `{Toml} env keys verify a f s0 settings now s h :
  wg_forced env = None -> wg_start env keys verify a f = Done (s0, settings) -> wg_run env settings s0 now s h ->
  0 < wg_endpoint_cooldown env <= 86400 /\
  (forall i x y z, h !! i = Some z -> h !! S i = Some y -> h !! S (S i) = Some x ->
     record_peer z = record_peer y -> record_peer y = record_peer x ->
     record_time x + wg_endpoint_cooldown env <= record_time z) /\
  wg_file s = wg_saved f h /\
  (forall c, quick s0 = Some c -> verify (choice_peer c) c.1.2 = true) /\
  forall now' w, now <= now' -> WgHuntBest (wg_hunt w) ->
    match wg_pass env settings now' w s with
    | Done (_, None) => True
    | Done (_, Some (c, ended)) =>
        wg_justified env settings w (cool_down env now' s) c /\ ended = wg_session w (choice_peer c) c.1.2
    | Fail _ | Panic => False
    | Diverge => exists profile mode ip excluded, wg_hunt w profile mode ip excluded = Diverge
    end.
Proof.
  intros Hf Hst Hr. unfold wg_start in Hst. destruct keys as [[]| | |]; try done. cbn [mbind outcome_bind] in Hst.
  injection Hst as <- <-. edestruct wg_run_inv as [Hi Hfile]; [exact Hf| | |exact Hr|]; [done|done|].
  split; [apply secs_or_bound; lia|]. split; [|split; [exact Hfile|split]].
  - intros i x y z Hz Hy Hx. eapply spaced_lookup; [apply Hi|exact Hz|exact Hy|exact Hx].
  - intros c Hc. by eapply wg_quick_verified.
  - intros now' w Hle Hw. match goal with |- context [wg_pass ?e ?st now' w s] =>
      pose proof (wg_pass_spec e st now now' w s h Hf Hw Hi Hle) as Hs; pose proof (wg_pass_file e st now' w s Hf) as Hs';
      destruct (wg_pass e st now' w s) as [[s' [[c ended]|]]| | |] end; try done.
    destruct Hs as [_ Hj], Hs' as [_ He]. done.
Qed.

(** ** Facts about the MASQUE loop *)

Section MasqueFacts.
Context `{UnicodeData} `{Toml}.
Context (env : environment) (settings : str * IpScan.t) (s0 : masque_loop).

(** The gateways used, newest first, with whether the file was written. *)
Definition masque_record : Type := SocketAddr * bool.

Inductive masque_run : masque_loop -> list masque_record -> Prop :=
| masque_run_start : masque_run s0 []
| masque_run_rescan s h w s' :
    masque_run s h -> masque_pass env settings w s = Done (s', None) -> masque_run s' h
| masque_run_session s h w s' p ended :
    masque_run s h -> masque_pass env settings w s = Done (s', Some (p, ended)) ->
    masque_run s' ((p, masque_written w) :: h).

Definition masque_profile : str := default (lit "firewall") (env (lit "AETHER_NOIZE")).

Definition masque_saved (f : file) (h : list masque_record) : file :=
  foldr (fun x f => save x.2 f (show_socket_addr x.1) masque_profile (masque_carrier env)) f h.

(** As [wg_justified]. *)
Definition masque_justified (w : masque_world) (s : masque_loop) (p : SocketAddr) : Prop :=
  quick_peer s = Some p \/
  (last_good_peer s = Some p /\ quick_verify_masque_peer w p = true) \/
  hunt_masque_peer (masque_hunt w) settings.1 settings.2 = Done p.

Lemma masque_pass_spec w s :
  masque_forced env = None -> (forall mode ip, masque_hunt w mode ip <> Panic) ->
  match masque_pass env settings w s with
  | Done (s', None) => last_good_peer s' = last_good_peer s /\ conn_file s' = conn_file s
  | Done (s', Some (p, ended)) =>
      masque_justified w s p /\ ended = masque_session w p /\ last_good_peer s' = Some p /\ quick_peer s' = None /\
      conn_file s' = masque_saved (conn_file s) [(p, masque_written w)]
  | Fail _ | Panic => False
  | Diverge => exists mode ip, masque_hunt w mode ip = Diverge
  end.
Proof.
  intros Hf Hh.
  assert (Hsaved : forall p, masque_save env (masque_written w) (conn_file s) p = masque_saved (conn_file s) [(p, masque_written w)])
    by (intros p; unfold masque_save; by rewrite Hf).
  assert (Hhunt : match hunt_masque_peer (masque_hunt w) settings.1 settings.2 with
                  | Panic => False | Diverge => exists mode ip, masque_hunt w mode ip = Diverge | _ => True end).
  { unfold hunt_masque_peer. specialize (Hh (ScanMode.parse settings.1) settings.2).
    destruct (masque_hunt w _ _) eqn:E; try done. by do 2 eexists. }
  unfold masque_pass, masque_pick, masque_justified. destruct (quick_peer s) as [q|]; cbn [mbind outcome_bind].
  { split; [by left|]. split; [done|]. split; [done|]. split; [done|]. apply Hsaved. }
  rewrite Hf. destruct (last_good_peer s) as [p|] eqn:El; cbn [mbind option_bind].
  1: destruct (quick_verify_masque_peer w p) eqn:Ev; cbn [mbind outcome_bind];
    [split; [right; left; done|]; split; [done|]; split; [done|]; split; [done|]; apply Hsaved|].
  all: destruct (hunt_masque_peer (masque_hunt w) settings.1 settings.2) as [p'|e| |]; try done; cbn [mbind outcome_bind];
    (split; [right; by right|]; split; [done|]; split; [done|]; split; [done|]; apply Hsaved).
Qed.

Lemma masque_run_inv s h :
  masque_forced env = None -> masque_run s h ->
  conn_file s = masque_saved (conn_file s0) h /\
  last_good_peer s = match h with x :: _ => Some x.1 | [] => last_good_peer s0 end.
Proof.
  intros Hf. assert (Hkeep : forall w s s', masque_pass env settings w s = Done (s', None) ->
      last_good_peer s' = last_good_peer s /\ conn_file s' = conn_file s).
  { intros w s1 s1'. unfold masque_pass. destruct (masque_pick _ _ _ _) as [[p|]| | |]; try done. by intros [= <-]. }
  assert (Hnext : forall w s s' p ended, masque_pass env settings w s = Done (s', Some (p, ended)) ->
      last_good_peer s' = Some p /\ conn_file s' = masque_saved (conn_file s) [(p, masque_written w)]).
  { intros w s1 s1' p ended. unfold masque_pass. destruct (masque_pick _ _ _ _) as [[p'|]| | |]; try done.
    intros [= <- <- <-]. split; [done|]. cbn. unfold masque_save. by rewrite Hf. }
  induction 1 as [|s h w s' Hr [IH1 IH2] Hp|s h w s' p ended Hr [IH1 IH2] Hp]; [done| |].
  - destruct (Hkeep _ _ _ Hp) as [-> ->]. done.
  - destruct (Hnext _ _ _ _ _ Hp) as [-> ->]. rewrite IH1. done.
Qed.

(** The saves of a run, as LastConn.v reads them. *)
Definition masque_saves (h : list masque_record) : list saved :=
  (fun x : masque_record => (show_socket_addr x.1, masque_profile, masque_carrier env)) <$> h.

Lemma masque_saved_after h0 h :
  Forall (fun x : masque_record => x.2 = true) h -> masque_saved (after h0) h = after (masque_saves h ++ h0).
Proof. induction 1 as [|[p b] h Hb Hh IH]; [done|]. cbn in Hb. subst b.
  change (masque_saved (after h0) ((p, true) :: h)) with
    (save true (masque_saved (after h0) h) (show_socket_addr p) masque_profile (masque_carrier env)).
  by rewrite IH.
Qed.

Lemma masque_carrier_some : masque_carrier env <> [].
Proof. unfold masque_carrier. by destruct (masque_h2_enabled env). Qed.

(** The start that follows a run. *)
Lemma masque_quick_ring verify a f cached :
  masque_forced env = None -> assigned_endpoint env = None -> want_quick_reconnect env (quick_answer a) = true ->
  load f = Some cached ->
  masque_quick env verify a f = List.find verify (usable_peers cached (masque_carrier env)).
Proof.
  intros Hf Ha Hq Hl. unfold masque_quick. rewrite Hf, Ha, Hl. cbn [mbind option_bind]. rewrite Hq, andb_true_r.
  by destruct (usable_peers cached (masque_carrier env)).
Qed.

End MasqueFacts.

(** The ring starts with the newest gateway. *)
Lemma usable_peers_head cached c p :
  carrier cached = c -> parse_socket_addr (peer cached) = Some p -> exists rest, usable_peers cached c = p :: rest.
Proof.
  intros <- Hp. unfold usable_peers. rewrite str_eqb_refl, andb_false_r. cbn [collect_peers]. rewrite Hp.
  rewrite bool_decide_false by apply not_elem_of_nil. cbn [app].
  destruct (collect_peers_spec (recent cached) [p] (NoDup_singleton p)) as (_ & _ & more & -> & _). by exists more.
Qed.

Lemma masque_quick_verified `{UnicodeData} `{Toml} env verify a f p :
  masque_quick env verify a f = Some p -> verify p = true.
Proof.
  unfold masque_quick. destruct (masque_forced env); [done|].
  destruct (p ← assigned_endpoint env; if verify p then Some p else None) as [q|] eqn:E.
  - intros [= <-]. destruct (assigned_endpoint env) as [p'|]; [|done]. cbn in E. destruct (verify p') eqn:Ev; [|done].
    by injection E as <-.
  - destruct (load f) as [cached|]; [|done]. cbn [mbind option_bind]. dest_if; [|done]. intros Ef.
    by apply List.find_some in Ef as [_ ?].
Qed.

(** C22: the loop of a MASQUE tunnel ([run_masque]) with no gateway forced, from its
    start on the file that earlier sessions left, whatever the checks, the scans
    and the sessions do, as long as the file can be written.  A pass never
    panics and never ends the loop; its gateway is the one checked at the start,
    the last one after a new check, or one the scan found.  Afterwards the file
    holds the newest gateway and the last eight different ones used on this
    carrier, and a new start asked to reconnect takes the newest of them that
    passes its check, without a scan; a last gateway that is an IPv4 address
    and still answers is taken at once. *)
Theorem masque_loop_sound `{UnicodeData} `{TomlLaws} env verify a h0 s0 settings s h :
  masque_forced env = None -> Forall (fun x : saved => x.2 <> []) h0 ->
  masque_start env verify a (after h0) = (s0, settings) -> masque_run env settings s0 s h ->
  Forall (fun x : masque_record => x.2 = true) h ->
  (forall p, quick_peer s0 = Some p -> verify p = true) /\
  (forall w, (forall mode ip, masque_hunt w mode ip <> Panic) ->
     match masque_pass env settings w s with
     | Done (_, None) => True
     | Done (_, Some (p, ended)) => masque_justified settings w s p /\ ended = masque_session w p
     | Fail _ | Panic => False
     | Diverge => exists mode ip, masque_hunt w mode ip = Diverge
     end) /\
  forall p b older, h = (p, b) :: older ->
    last_good_peer s = Some p /\
    exists cached, load (conn_file s) = Some cached /\ peer cached = show_socket_addr p /\
      recent cached = take 8 (mru (this_carrier (masque_carrier env) (masque_saves env h ++ h0))) /\
      forall verify' a', assigned_endpoint env = None -> want_quick_reconnect env (quick_answer a') = true ->
        let quick := masque_quick env verify' a' (conn_file s) in
        quick = List.find verify' (usable_peers cached (masque_carrier env)) /\
        (forall o port, p = SockV4 o port -> sock_ok p -> verify' p = true -> quick = Some p).
Proof.
  intros Hf Hh0 Hst Hr Hw. unfold masque_start in Hst. injection Hst as <- <-. destruct (masque_run_inv _ _ _ _ _ Hf Hr) as [Hfile Hlast].
  cbn [conn_file quick_peer] in *. split; [intros p Hp; by eapply masque_quick_verified|]. split.
  { intros w Hh. match goal with |- context [masque_pass ?e ?st w s] => pose proof (masque_pass_spec e st w s Hf Hh) as Hs;
      destruct (masque_pass e st w s) as [[s' [[p ended]|]]| | |] end; try done. by destruct Hs as (? & ? & _). }
  intros p b older ->. split; [done|]. rewrite masque_saved_after in Hfile by done.
  set (sv := masque_saves env ((p, b) :: older) ++ h0) in *.
  assert (Hsv : sv = (show_socket_addr p, masque_profile env, masque_carrier env) :: masque_saves env older ++ h0) by reflexivity.
  assert (Hok : Forall (fun x : saved => x.2 <> []) sv).
  { apply Forall_app. split; [|done]. apply Forall_fmap, list.Forall_forall. intros x _. cbn. apply masque_carrier_some. }
  rewrite Hsv in Hok, Hfile. pose proof (load_after _ _ _ _ Hok) as Hl. rewrite <- Hfile in Hl. rewrite Hsv.
  eexists. split; [exact Hl|]. split; [done|]. split; [done|]. intros verify' a' Ha Hq.
  pose proof (masque_quick_ring env verify' a' (conn_file s) _ Hf Ha Hq Hl) as Equick.
  split; [exact Equick|]. intros o port -> Hp Hv. rewrite Equick.
  pose proof (parse_show_v4 o port (proj1 Hp) (proj2 Hp)) as Hread.
  match goal with |- context [usable_peers ?c _] =>
    destruct (usable_peers_head c (masque_carrier env) (SockV4 o port) eq_refl Hread) as [rest ->] end.
  cbn. by rewrite Hv.
Qed.

(** ** Witnesses *)

Definition no_env : environment := fun _ => None.
Definition no_answers : start_answers := mkStartAnswers None None None.
Definition edge : SocketAddr := SockV4 [162; 159; 198; 1] 443.

(** One session at [edge], which the scan found; then the loop starts again. *)
Definition one_edge : masque_world :=
  mkMasqueWorld (fun _ => false) (fun _ _ => Done (mkProbe (sock_ip edge) (sock_port edge) 20)) (fun _ => Done tt) true.

Lemma masque_loop_sound_witness :
  exists s, @masque_run ascii_only lengths no_env ([], IpScan.V4) (mkMasqueLoop None None None) s [(edge, true)] /\
    @masque_quick ascii_only lengths no_env (fun p => bool_decide (p = edge)) no_answers (conn_file s) = Some edge.
Proof.
  set (s := mkMasqueLoop None (Some edge)
    (@save lengths true None (show_socket_addr edge) (lit "firewall") (@masque_carrier ascii_only no_env))).
  assert (Hr : @masque_run ascii_only lengths no_env (lit "balanced", IpScan.V4) (mkMasqueLoop None None None) s [(edge, true)]).
  { eapply (masque_run_session _ _ _ _ [] one_edge s edge (Done tt)); [constructor|]. vm_compute. reflexivity. }
  destruct (@masque_loop_sound ascii_only lengths lengths_laws no_env (fun _ => false) no_answers [] _ _ s [(edge, true)]
    eq_refl ltac:(constructor) eq_refl Hr ltac:(repeat constructor)) as (_ & _ & Hlast).
  destruct (Hlast edge true [] eq_refl) as (_ & cached & _ & _ & _ & Hq). exists s. split.
  - eapply (masque_run_session _ _ _ _ [] one_edge s edge (Done tt)); [constructor|]. vm_compute. reflexivity.
  - destruct (Hq (fun p => bool_decide (p = edge)) no_answers eq_refl eq_refl) as [_ Hnow].
    apply (Hnow _ _ eq_refl); [|by apply bool_decide_eq_true_2]. split; [|unfold u16_max; cbn; lia]. split; [done|].
    repeat constructor; unfold byte_ok; lia.
Defined.

(** Two sessions at [edge] fail, the third waits for the cooldown. *)
Definition wg_edge (excluded : list SocketAddr) : aresult ProbeResult :=
  if bool_decide (edge ∈ excluded) then Fail NoCleanEndpoint else Done (mkProbe (sock_ip edge) (sock_port edge) 20).
Definition flaky : wg_world :=
  mkWgWorld (fun _ _ => false) (fun _ _ => false) (fun _ _ _ excluded => wg_edge excluded) (fun _ _ => Fail NoCleanEndpoint) true.

#[local] Instance flaky_hunt : WgHuntBest (wg_hunt flaky).
Proof.
  split; intros profile mode ip excluded; cbn; unfold wg_edge; case_bool_decide as E; try done. by intros pr [= <-].
Qed.

Definition flaky_start : wg_loop := mkWgLoop None None 0 ∅ None.

Lemma wg_loop_sound_witness :
  exists s h, @wg_run ascii_only lengths no_env (lit "balanced", IpScan.V4) flaky_start 400 s h /\
    (record_time <$> h) = [400; 10; 0] /\ 0 + wg_endpoint_cooldown no_env <= 400.
Proof.
  set (run := @wg_run ascii_only lengths no_env (lit "balanced", IpScan.V4) flaky_start).
  assert (R0 : run 0 flaky_start []) by constructor.
  eassert (R1 : run 0 _ _).
  { eapply (wg_run_session _ _ _ _ _ _ 0 flaky); [exact R0|done|apply _|vm_compute; reflexivity]. }
  eassert (R2 : run 10 _ _).
  { eapply (wg_run_session _ _ _ _ _ _ 10 flaky); [exact R1|done|apply _|vm_compute; reflexivity]. }
  eassert (R3 : run 20 _ _).
  { eapply (wg_run_rescan _ _ _ _ _ _ 20 flaky); [exact R2|done|apply _|vm_compute; reflexivity]. }
  eassert (R4 : run 400 _ _).
  { eapply (wg_run_session _ _ _ _ _ _ 400 flaky); [exact R3|done|apply _|vm_compute; reflexivity]. }
  match type of R4 with run _ ?s ?h => exists s, h;
    destruct (@wg_loop_sound ascii_only lengths no_env (Done tt) (fun _ _ => false) no_answers None flaky_start
      (lit "balanced", IpScan.V4) 400 s h eq_refl eq_refl R4) as (_ & Hspaced & _) end.
  split; [exact R4|]. split; [reflexivity|]. exact (Hspaced 0%nat _ _ _ eq_refl eq_refl eq_refl eq_refl eq_refl).
Defined.
