(* ===== verification/Zerotrust.v ===== *)
(** * Signing in to an organization (src/native/aether/aether/src/zerotrust.rs)

    The organization's name, the forms a token is read from, the cache of the
    token and the three ways to sign in.  HTTP answers, the line a person
    typed and the clock are arguments; base64, JSON and the names of HTTP
    statuses come from libraries and are the classes below. *)

From stdpp Require Import base list option.
From Stdlib Require Import ZArith Lia.
From S2P Require Import Prelude Rand RustStr StrFacts Error Net Sysprofile Upstream ApiFront Hops.

(** ** Libraries *)

(** A [serde_json::Value]; a number is what [as_i64] and [as_u64] say of it,
    [None] when it is not an integer. *)
#[warnings="-register-all"]
Inductive json :=
| JNull
| JBool (b : bool)
| JNumber (n : option Z)
| JString (s : str)
| JArray (l : list json)
| JObject (fields : list (str * json)).

Definition json_get (v : json) (key : str) : option json :=
  match v with
  | JObject fields => snd <$> List.find (fun f => str_eqb (fst f) key) fields
  | _ => None
  end.
Definition as_array (v : json) : option (list json) := match v with JArray l => Some l | _ => None end.
Definition as_str (v : json) : option str := match v with JString s => Some s | _ => None end.
Definition as_i64 (v : json) : option Z :=
  match v with
  | JNumber (Some n) => if (- 9223372036854775808 <=? n) && (n <=? 9223372036854775807) then Some n else None
  | _ => None
  end.
Definition as_u64 (v : json) : option Z :=
  match v with
  | JNumber (Some n) => if (0 <=? n) && (n <=? u64_max) then Some n else None
  | _ => None
  end.

(** [serde_json::from_slice] as a [Value], the two base64 alphabets in use, and
    [Display] for a status. *)
Class WebLibs := {
  json_value : list Z -> option json;
  base64_encode : list Z -> str;
  base64_decode : str -> list Z + str;
  base64_url_decode : str -> option (list Z);
  status_display : Z -> str
}.

(** ** Organizations *)

Definition TEAM_SUFFIX : str := lit "cloudflareaccess.com".
Definition ENROLL_PATH : str := lit "/warp".
Definition CODE_ATTEMPTS : nat := 3.
Definition INSTALL_ID_LEN : nat := 22.
Definition FCM_SUFFIX_LEN : nat := 134.
Definition ALPHANUM : str := lit "abcdefghijklmnopqrstuvwxyzABCDEFGHIJKLMNOPQRSTUVWXYZ0123456789".

Record TeamSettings := mkTeam {
  team : str;
  client_id : option str;
  client_secret : option str;
  token : option str;
  email : option str
}.

Definition has_service_token (s : TeamSettings) : bool :=
  match client_id s, client_secret s with Some _, Some _ => true | _, _ => false end.

Definition team_domain (team : str) : str := lit "https://" ++ team ++ lit "." ++ TEAM_SUFFIX.
Definition login_url (s : TeamSettings) : str := team_domain (team s) ++ ENROLL_PATH.

Definition team_char (c : Z) : bool := is_ascii_alphanumeric c || (c =? 45) || (c =? 95).

Section Team.
Context `{UnicodeData}.

Definition normalize_team (raw : str) : option str :=
  let value := to_lowercase (trim raw) in
  if str_eqb value [] then None
  else
    let value := fold_left (fun v prefix => default v (strip_prefix v prefix)) [lit "https://"; lit "http://"] value in
    let value := trim_end_matches 47 value in
    let value := default value (hd_error (split 47 value)) in
    let value := match strip_suffix value TEAM_SUFFIX with
                 | Some head => trim_end_matches 46 head
                 | None => value
                 end in
    if str_eqb value [] then None
    else if forallb team_char value then Some value else None.

Definition non_empty (env : environment) (key : str) : option str :=
  value ← env key;
  let value := trim value in
  if str_eqb value [] then None else Some value.

(** [TeamSettings::from_env] *)
Definition team_from_env (env : environment) : option TeamSettings :=
  team ← normalize_team (default [] (env (lit "AETHER_TEAM")));
  Some (mkTeam team
          (non_empty env (lit "AETHER_ACCESS_CLIENT_ID"))
          (non_empty env (lit "AETHER_ACCESS_CLIENT_SECRET"))
          (non_empty env (lit "AETHER_ACCESS_TOKEN"))
          (non_empty env (lit "AETHER_ACCESS_EMAIL"))).

Definition team_scope (env : environment) : option str := team <$> team_from_env env.

End Team.

(** ** Tokens *)

Section Tokens.
Context `{WebLibs}.

Definition jwt_char (c : Z) : bool := is_ascii_alphanumeric c || (c =? 46) || (c =? 45) || (c =? 95).

Definition looks_like_jwt (token : str) : bool :=
  let token := trim token in
  let segments := split 46 token in
  if zlen (utf8 token) <? 32 then false
  else if negb (zlen segments =? 3) then false
  else if existsb (fun s => str_eqb s []) segments then false
  else if negb (forallb jwt_char token) then false
  else match (s ← hd_error segments; base64_url_decode s) with Some _ => true | None => false end.

Definition jwt_expiry (token : str) : option Z :=
  match split 46 token with
  | [_; segment; _] =>
      payload ← base64_url_decode segment;
      value ← json_value payload;
      exp ← json_get value (lit "exp");
      as_u64 exp
  | _ => None
  end.

Definition jwt_expired (token : str) (now : Z) : bool :=
  match jwt_expiry token with Some exp => exp <=? now | None => false end.

Fixpoint take_until (p : Z -> bool) (s : str) : str :=
  match s with
  | [] => []
  | c :: s => if p c then [] else c :: take_until p s
  end.

(** A quote of either kind, an ampersand, a tag or white space. *)
Definition ends_token (c : Z) : bool :=
  (c =? 34) || (c =? 39) || (c =? 38) || (c =? 60) || is_whitespace c.

Definition extract_jwt_from_html (html : str) : option str :=
  '(_, rest) ← split_once_str (lit "token=") html;
  let candidate := trim (take_until ends_token rest) in
  if looks_like_jwt candidate then Some candidate else None.

Fixpoint cookie_parts (parts : list str) : option str :=
  match parts with
  | [] => None
  | part :: parts =>
      let entry := trim part in
      value ← (match strip_prefix entry (lit "CF_Authorization=") with
               | Some value => Some value
               | None => strip_prefix entry (lit "cf_authorization=")
               end);
      if looks_like_jwt value then Some value else cookie_parts parts
  end.

Definition extract_jwt_from_cookie (header : str) : option str := cookie_parts (split 59 header).

End Tokens.

(** ** The enrolment page *)

Definition char_from_u32 (n : Z) : option Z := if decide (is_scalar n) then Some n else None.

Definition decode_entity (entity : str) : option Z :=
  if str_eqb entity (lit "amp") then Some 38
  else if str_eqb entity (lit "lt") then Some 60
  else if str_eqb entity (lit "gt") then Some 62
  else if str_eqb entity (lit "quot") then Some 34
  else if str_eqb entity (lit "apos") || str_eqb entity (lit "#39") then Some 39
  else
    let hex := match strip_prefix entity (lit "#x") with
               | Some h => Some h
               | None => strip_prefix entity (lit "#X")
               end in
    n ← (match hex ≫= from_str_radix 16 u32_max with
         | Some n => Some n
         | None => dec ← strip_prefix entity (lit "#"); parse_uint u32_max dec
         end);
    char_from_u32 n.

(** [while let Some(at) = rest.find('&')]; the position of the semicolon is
    counted in bytes. *)
Fixpoint entities_loop (fuel : nat) (rest : str) : opt str :=
  match fuel with
  | O => Diverge
  | S fuel =>
      match split_once 38 rest with
      | None => Done rest
      | Some (before, after) =>
          let as_is := r ← entities_loop fuel after; Done (before ++ 38 :: r) in
          match split_once 59 after with
          | Some (entity, tail) =>
              if 1 + zlen (utf8 entity) <=? 8 then
                match decode_entity entity with
                | Some c => r ← entities_loop fuel tail; Done (before ++ c :: r)
                | None => as_is
                end
              else as_is
          | None => as_is
          end
      end
  end.

(** A turn removes at least the ampersand. *)
Definition decode_entities (raw : str) : opt str := entities_loop (S (length raw)) raw.

(** [str::rfind] *)
Fixpoint rfind_sub (pat s : list Z) : option Z :=
  match s with
  | [] => None
  | _ :: rest =>
      match rfind_sub pat rest with
      | Some i => Some (1 + i)
      | None => if starts_with s pat then Some 0 else None
      end
  end.

Definition extract_totp_form_action (html : str) : opt str :=
  anchor ← oget (find_sub (lit "id=" ++ [34] ++ lit "totp-form" ++ [34]) html);
  head ← slice html 0 anchor;
  form_start ← oget (rfind_sub (lit "<form") head);
  form ← slice html form_start (zlen html);
  tag_end ← oget (find_sub [62] form);
  tag ← slice html form_start (tag_end + form_start);
  key_at ← oget (find_sub (lit "action=") tag);
  after ← slice tag (key_at + 7) (zlen tag);
  let rest := trim_start_by is_whitespace after in
  match rest with
  | [] => no_value
  | quote :: body =>
      if negb (quote =? 39) && negb (quote =? 34) then no_value
      else
        end_ ← oget (find_sub [quote] body);
        raw ← slice body 0 end_;
        action ← decode_entities raw;
        if starts_with action (lit "https://") then Done action else no_value
  end.

(** The loop of this file's [percent_decode]. *)
Fixpoint percent_loop (fuel : nat) (bytes : list Z) : list Z :=
  match fuel, bytes with
  | S fuel, b :: rest =>
      if (b =? 37) && (2 <=? zlen rest) then
        match from_str_radix 16 u8_max (default [] (from_utf8 (ztake 2 rest))) with
        | Some byte => byte :: percent_loop fuel (zdrop 2 rest)
        | None => 37 :: percent_loop fuel rest
        end
      else if b =? 43 then 32 :: percent_loop fuel rest
      else b :: percent_loop fuel rest
  | _, _ => []
  end.

Definition percent_decode (raw : str) : str :=
  let bytes := utf8 raw in from_utf8_lossy (percent_loop (length bytes) bytes).

Fixpoint query_pairs (key : str) (pairs : list str) : option str :=
  match pairs with
  | [] => None
  | p :: pairs =>
      '(name, value) ← split_once 61 p;
      if str_eqb name key then Some (percent_decode value) else query_pairs key pairs
  end.

Definition query_value (url key : str) : option str :=
  '(_, query) ← split_once 63 url;
  query_pairs key (split 38 query).

(** ** Signing in *)

(** A reply to a request: the error of sending it, or its final URL, its
    status, its cookies and its body with the error of reading it. *)
Inductive reply :=
| Unsent (msg : str)
| Reply (url : str) (status : Z) (cookies : list (list Z)) (body : str + str).

(** A line from the terminal or the pipe. *)
Inductive typed := CodeTimeout | ReadFailed | EndOfInput | Line (text : str).

(** What one sign-in meets: the client's construction and, in turn, the reply
    with the service token, to the enrolment page and to the request for a
    code, then a line and a reply for each attempt. *)
Record signin_world := mkSignin {
  access_client : aresult unit;
  service_reply : reply;
  landing_reply : reply;
  code_reply : reply;
  interactive : bool;
  prompts : list typed;
  callbacks : list reply
}.

(** [HeaderValue::to_str] *)
Definition header_text (h : list Z) : option str :=
  if forallb (fun b => (b =? 9) || between 32 b 126) h then Some h else None.

Section SignIn.
Context `{WebLibs}.

Fixpoint first_cookie (cookies : list (list Z)) : option str :=
  match cookies with
  | [] => None
  | h :: cookies =>
      match header_text h ≫= extract_jwt_from_cookie with
      | Some token => Some token
      | None => first_cookie cookies
      end
  end.

Definition fetch_token_with_service_token (s : TeamSettings) (w : signin_world) : aresult str :=
  _ ← ok_or (Api (lit "missing access client id")) (client_id s);
  _ ← ok_or (Api (lit "missing access client secret")) (client_secret s);
  _ ← access_client w;
  match service_reply w with
  | Unsent e => Fail (Api (lit "access request: " ++ e))
  | Reply _ status cookies body =>
      match first_cookie cookies with
      | Some token => Done token
      | None =>
          match extract_jwt_from_html (match body with inl b => b | inr _ => [] end) with
          | Some token => Done token
          | None =>
              Fail (Api (lit "access did not return a device enrolment token (status " ++ status_display status ++
                         lit "); confirm the service token has Service Auth device enrolment permission for team " ++
                         team s))
          end
      end
  end.

(** A session with the one-time code. *)
Record EmailSignIn := mkEmail { nonce : str; verify_url : str }.

Definition request_email_code (w : signin_world) (fallback_url : option str) : aresult (option str) :=
  match code_reply w with
  | Unsent e => Fail (Api (lit "requesting a login code: " ++ e))
  | Reply sent_url status _ _ =>
      if negb ((200 <=? status) && (status <? 300)) then
        Fail (Api (lit "cloudflare refused to send a login code (status " ++ status_display status ++ lit ")"))
      else
        Done (match query_value sent_url (lit "nonce") with
              | Some nonce => Some nonce
              | None => url ← fallback_url; query_value url (lit "nonce")
              end)
  end.

Definition no_code_offered (s : TeamSettings) : AetherError :=
  Api (lit "team " ++ team s ++ lit " does not offer an email one-time code on its enrolment page; " ++
       lit "use a service token or sign in at " ++ login_url s).

Definition begin_email_signin (s : TeamSettings) (w : signin_world) (email : str) : aresult EmailSignIn :=
  if str_eqb (trim email) [] then Fail (Api (lit "an email address is needed to request a login code"))
  else
    _ ← access_client w;
    match landing_reply w with
    | Unsent e => Fail (Api (lit "enrolment page: " ++ e))
    | Reply _ _ _ (inr e) => Fail (Api (lit "enrolment page body: " ++ e))
    | Reply login_url_ _ _ (inl landing_body) =>
        verify_url ← (match extract_totp_form_action landing_body with
                      | Done action => Done action
                      | Fail _ => Fail (no_code_offered s)
                      | Panic => Panic
                      | Diverge => Diverge
                      end);
        found ← request_email_code w (Some login_url_);
        nonce ← ok_or (Api (lit "cloudflare did not return a nonce for the login code; the enrolment flow " ++
                            lit "may have changed")) found;
        Done (mkEmail nonce verify_url)
    end.

(** [resend_code]: a reply without a nonce keeps the old one. *)
Definition resend_code (w : signin_world) (session : EmailSignIn) : aresult EmailSignIn :=
  found ← request_email_code w None;
  Done (match found with Some nonce => mkEmail nonce (verify_url session) | None => session end).

Inductive CodeOutcome := Token (token : str) | Rejected (status : Z).

Definition submit_code (answer : reply) (code : str) : aresult CodeOutcome :=
  if str_eqb (trim code) [] then Fail (Api (lit "no login code was entered"))
  else
    match answer with
    | Unsent e => Fail (Api (lit "confirming the login code: " ++ e))
    | Reply _ _ _ (inr e) => Fail (Api (lit "callback body: " ++ e))
    | Reply _ status _ (inl body) =>
        Done (match extract_jwt_from_html body with Some token => Token token | None => Rejected status end)
    end.

Definition prompt_login_code (interactive : bool) (email : str) (line : typed) : aresult str :=
  let nothing := Fail (Api (if interactive then lit "no login code was entered"
                            else lit "a login code was emailed to " ++ email ++
                                 lit " but nothing was sent back to answer it")) in
  match line with
  | CodeTimeout =>
      if interactive then Diverge
      else Fail (Api (lit "no login code arrived within 300s; request a fresh code and try again"))
  | ReadFailed | EndOfInput => nothing
  | Line text =>
      let code := trim text in
      if str_eqb code [] then Fail (Api (lit "no login code was entered")) else Done code
  end.

(** [for attempt in 1..=CODE_ATTEMPTS] *)
Fixpoint code_attempts (n : nat) (interactive : bool) (email : str) (prompts : list typed) (callbacks : list reply)
  (last_status : option Z) : aresult str :=
  match n with
  | O =>
      Fail (Api (lit "the login code was not accepted after " ++ show_uint (Z.of_nat CODE_ATTEMPTS) ++
                 lit " attempts (last status " ++
                 match last_status with Some s => show_uint s | None => lit "unknown" end ++
                 lit "); request a fresh code and try again"))
  | S n =>
      code ← prompt_login_code interactive email (default EndOfInput (hd_error prompts));
      outcome ← submit_code (default (Unsent []) (hd_error callbacks)) code;
      match outcome with
      | Token token => Done token
      | Rejected status => code_attempts n interactive email (tail prompts) (tail callbacks) (Some status)
      end
  end.

Definition fetch_token_with_email_code (s : TeamSettings) (w : signin_world) (email : str) : aresult str :=
  session ← begin_email_signin s w email;
  code_attempts CODE_ATTEMPTS (interactive w) (trim email) (prompts w) (callbacks w) None.

Definition no_way_in (s : TeamSettings) : AetherError :=
  Api (lit "team " ++ team s ++ lit " needs a way to sign in. pick one: a service token via " ++
       lit "AETHER_ACCESS_CLIENT_ID and AETHER_ACCESS_CLIENT_SECRET, an email one-time code via " ++
       lit "AETHER_ACCESS_EMAIL, or a token you already hold via AETHER_ACCESS_TOKEN (sign in at " ++
       login_url s ++ lit ")").

Definition sign_in (s : TeamSettings) (now : Z) (w : signin_world) : aresult str :=
  match token s with
  | Some t =>
      if negb (looks_like_jwt t) then
        Fail (Api (lit "the supplied access token is not a jwt; copy the value that follows token= " ++
                   lit "on the enrolment page"))
      else if jwt_expired t now then
        Fail (Api (lit "the supplied access token has expired; sign in again to get a fresh one"))
      else Done t
  | None =>
      if has_service_token s then fetch_token_with_service_token s w
      else match email s with
           | Some e => fetch_token_with_email_code s w e
           | None => Fail (no_way_in s)
           end
  end.

(** *** The cache of the token *)

Definition token_cache : Type := option str.

Definition resolve_token (s : TeamSettings) (now : Z) (w : signin_world) (cache : token_cache)
  : aresult str * token_cache :=
  let fresh := match sign_in s now w with
               | Done t => (Done t, Some t)
               | r => (r, None)
               end in
  match cache with
  | Some t => if jwt_expired t now then fresh else (Done t, cache)
  | None => fresh
  end.

Definition store_token (token : str) (now : Z) (cache : token_cache) : aresult unit * token_cache :=
  let token := trim token in
  if negb (looks_like_jwt token) then
    (Fail (Api (lit "that value is not a jwt; copy the value that follows token= on the enrolment page")), cache)
  else if jwt_expired token now then
    (Fail (Api (lit "that token has already expired; sign in again to get a fresh one")), cache)
  else (Done tt, Some token).

Definition cached_token (now : Z) (cache : token_cache) : option str :=
  t ← cache;
  if jwt_expired t now then None else Some t.

Definition clear_token (cache : token_cache) : token_cache := None.

End SignIn.

(** ** Made-up device names *)

Section Names.
Context {R : Type} `{Rng R}.

Definition random_alphanumeric (n : nat) (r : R) : str * R :=
  draws (fun w => default 0 (zget ALPHANUM (w `mod` zlen ALPHANUM))) n r.

Definition generate_install_id (r : R) : str * R := random_alphanumeric INSTALL_ID_LEN r.

Definition generate_fcm_token (install_id : str) (r : R) : str * R :=
  let '(suffix, r) := random_alphanumeric FCM_SUFFIX_LEN r in
  (install_id ++ lit ":APA91b" ++ suffix, r).

End Names.

(** ** Facts *)

(** *** Finding a pattern *)

Lemma starts_with_app s k : starts_with (s ++ k) s = true.
Proof. induction s as [|c s IH]; [by destruct k|]. cbn. by rewrite Z.eqb_refl. Qed.

Lemma starts_with_length s pat : starts_with s pat = true -> (length pat <= length s)%nat.
Proof.
  revert s. induction pat as [|p pat IH]; intros [|c s]; cbn; [lia|lia|done|].
  intros [_ Hs]%andb_prop. apply IH in Hs. lia.
Qed.

(** Whether a pattern starts a text is decided by as many characters. *)
Lemma starts_with_cut pat a b k :
  starts_with (a ++ b) pat = false -> (length pat <= length (a ++ b))%nat -> starts_with ((a ++ b) ++ k) pat = false.
Proof.
  generalize (a ++ b). clear. intros s. revert s. induction pat as [|p pat IH]; intros [|c s] Hs Hl; cbn in *; try done; [lia|].
  destruct (p =? c); [|done]. cbn in *. apply IH; [done|lia].
Qed.

(** The pattern occurs first after [pre]: it neither occurs in [pre] nor starts
    in it. *)
Definition fresh_before (pre pat : str) : Prop := contains (pre ++ removelast pat) pat = false.

Lemma fresh_before_cons c pre pat :
  pat <> [] -> fresh_before (c :: pre) pat ->
  fresh_before pre pat /\ forall rest, starts_with (c :: pre ++ pat ++ rest) pat = false.
Proof.
  intros Hp Hf. unfold fresh_before in *. cbn [app contains] in Hf. apply orb_false_elim in Hf as [Hs Hc].
  split; [done|]. intros rest. pose proof (app_removelast_last 0 Hp) as E.
  replace (c :: pre ++ pat ++ rest) with (((c :: pre) ++ removelast pat) ++ [List.last pat 0] ++ rest).
  2: { cbn [app]. f_equal. rewrite <- (app_assoc pre). f_equal. rewrite E at 3. by rewrite <- app_assoc. }
  apply starts_with_cut; [done|]. rewrite E at 1. rewrite !length_app. cbn. lia.
Qed.

Lemma find_sub_at pre pat rest : pat <> [] -> fresh_before pre pat -> find_sub pat (pre ++ pat ++ rest) = Some (zlen pre).
Proof.
  intros Hp. induction pre as [|c pre IH]; intros Hf; cbn [app].
  - destruct pat as [|p pat]; [done|]. cbn [app find_sub]. change (p :: pat ++ rest) with ((p :: pat) ++ rest).
    by rewrite starts_with_app.
  - apply fresh_before_cons in Hf as [Hf Hs]; [|done]. cbn [find_sub]. rewrite Hs, IH by done.
    by rewrite zlen_cons.
Qed.

Lemma split_once_str_first pre pat rest :
  pat <> [] -> fresh_before pre pat -> split_once_str pat (pre ++ pat ++ rest) = Some (pre, rest).
Proof.
  intros Hp. induction pre as [|c pre IH]; intros Hf; cbn [app].
  - destruct pat as [|p pat]; [done|]. cbn [app split_once_str]. change (p :: pat ++ rest) with ((p :: pat) ++ rest).
    rewrite starts_with_app. by rewrite drop_app_length.
  - apply fresh_before_cons in Hf as [Hf Hs]; [|done]. cbn [split_once_str]. by rewrite Hs, IH.
Qed.

Lemma rfind_sub_absent pat s : pat <> [] -> contains s pat = false -> rfind_sub pat s = None.
Proof.
  intros Hp. induction s as [|c s IH]; [done|]. cbn [contains rfind_sub]. intros [Hs Hc]%orb_false_elim.
  by rewrite IH, Hs.
Qed.

(** The last occurrence of a pattern: none starts in what follows its first
    character. *)
Lemma rfind_sub_at pre p pat rest :
  contains (pat ++ rest) (p :: pat) = false -> rfind_sub (p :: pat) (pre ++ (p :: pat) ++ rest) = Some (zlen pre).
Proof.
  intros Hc. induction pre as [|c pre IH]; cbn [app].
  - cbn [rfind_sub]. rewrite rfind_sub_absent by done. change (p :: pat ++ rest) with ((p :: pat) ++ rest).
    by rewrite starts_with_app.
  - cbn [rfind_sub]. change (p :: pat ++ rest) with ((p :: pat) ++ rest). rewrite IH. by rewrite zlen_cons.
Qed.

Lemma rfind_sub_bound pat s i : rfind_sub pat s = Some i -> 0 <= i < zlen s.
Proof.
  revert i. induction s as [|c s IH]; intros i; [done|]. cbn [rfind_sub]. rewrite zlen_cons. pose proof (zlen_nonneg s).
  destruct (rfind_sub pat s) as [j|]; [|dest_if; [|done]]; intros [= <-]; [|lia]. specialize (IH _ eq_refl). lia.
Qed.

Lemma split_once_some c s a b : split_once c s = Some (a, b) -> s = a ++ c :: b.
Proof.
  unfold split_once. revert a b. induction s as [|x s IH]; intros a b; [done|]. cbn.
  destruct (Z.eqb_spec c x) as [<-|]; [by intros [= <- <-]|].
  destruct (split_once_by _ s) as [[a' b']|]; [|done]. intros [= <- <-]. cbn. f_equal. by apply IH.
Qed.

(** *** Entities *)

Definition encode_entity (c : Z) : str :=
  if c =? 38 then lit "&amp;" else if c =? 60 then lit "&lt;" else if c =? 62 then lit "&gt;"
  else if c =? 34 then lit "&quot;" else if c =? 39 then lit "&#39;" else [c].
Definition encode_entities (s : str) : str := flat_map encode_entity s.

Lemma entities_loop_total fuel rest :
  (length rest < fuel)%nat -> wp (entities_loop fuel rest) (fun _ => True) (fun _ => False).
Proof.
  revert rest. induction fuel as [|fuel IH]; intros rest Hf; [lia|]. cbn [entities_loop].
  destruct (split_once 38 rest) as [[b a]|] eqn:E; [|done]. apply split_once_some in E as ->.
  rewrite length_app in Hf. cbn in Hf.
  assert (Hi : forall c s, (length s <= length a)%nat ->
    wp (r ← entities_loop fuel s; Done (E := unit) (b ++ c :: r)) (fun _ => True) (fun _ => False)).
  { intros c s Hs. apply wp_bind. eapply wp_mono; [apply IH; lia| |done]. done. }
  destruct (split_once 59 a) as [[e t]|] eqn:Et; [|by apply Hi]. apply split_once_some in Et as Ea.
  assert (length t <= length a)%nat by (rewrite Ea, length_app; cbn; lia).
  dest_if; [|by apply Hi]. destruct (decode_entity e); by apply Hi.
Qed.

Lemma decode_entities_total raw : wp (decode_entities raw) (fun _ => True) (fun _ => False).
Proof. apply entities_loop_total. lia. Qed.

Lemma entities_loop_plain fuel c rest :
  c <> 38 -> entities_loop (S fuel) (c :: rest) = (r ← entities_loop (S fuel) rest; Done (c :: r)).
Proof.
  intros Hc. cbn [entities_loop]. unfold split_once. cbn [split_once_by]. rewrite (proj2 (Z.eqb_neq 38 c)) by done.
  destruct (split_once_by (Z.eqb 38) rest) as [[b a]|]; [|done]. cbn [app].
  assert (Hi : forall x s, (r ← entities_loop fuel s; Done (E := unit) (c :: b ++ x :: r)) =
    (r ← (r ← entities_loop fuel s; Done (b ++ x :: r)); Done (c :: r))).
  { intros x s. by destruct (entities_loop fuel s). }
  destruct (split_once_by (Z.eqb 59) a) as [[e t]|]; [|apply Hi]. dest_if; [|apply Hi]. destruct (decode_entity e); apply Hi.
Qed.

Lemma entities_loop_entity fuel e c rest :
  59 ∉ e -> 1 + zlen (utf8 e) <= 8 -> decode_entity e = Some c ->
  entities_loop (S fuel) (38 :: e ++ 59 :: rest) = (r ← entities_loop fuel rest; Done (c :: r)).
Proof.
  intros He Hl Hd. cbn [entities_loop]. unfold split_once at 1. cbn [split_once_by Z.eqb Pos.eqb].
  rewrite split_once_at by done. rewrite (proj2 (Z.leb_le _ _)) by done. by rewrite Hd.
Qed.

Lemma entities_loop_encode s : forall fuel,
  (length s < fuel)%nat -> entities_loop fuel (encode_entities s) = Done s.
Proof.
  induction s as [|c s IH]; intros [|fuel] Hf; cbn [length] in Hf; try lia; [done|]. unfold encode_entities.
  cbn [flat_map]. change (flat_map encode_entity s) with (encode_entities s).
  assert (He : forall e x, encode_entity c = 38 :: e ++ [59] -> 59 ∉ e -> 1 + zlen (utf8 e) <= 8 -> decode_entity e = Some x ->
    x = c -> entities_loop (S fuel) (encode_entity c ++ encode_entities s) = Done (c :: s)).
  { intros e x -> H1 H2 H3 ->. cbn [app]. rewrite <- app_assoc. cbn [app].
    rewrite (entities_loop_entity _ _ c) by done. rewrite IH by lia. done. }
  unfold encode_entity in *.
  destruct (Z.eqb_spec c 38) as [->|H1]; [eapply (He (lit "amp")); try done; apply (bool_decide_unpack _); vm_compute; done|].
  destruct (Z.eqb_spec c 60) as [->|H2]; [eapply (He (lit "lt")); try done; apply (bool_decide_unpack _); vm_compute; done|].
  destruct (Z.eqb_spec c 62) as [->|H3]; [eapply (He (lit "gt")); try done; apply (bool_decide_unpack _); vm_compute; done|].
  destruct (Z.eqb_spec c 34) as [->|H4]; [eapply (He (lit "quot")); try done; apply (bool_decide_unpack _); vm_compute; done|].
  destruct (Z.eqb_spec c 39) as [->|H5]; [eapply (He (lit "#39")); try done; apply (bool_decide_unpack _); vm_compute; done|].
  cbn [app]. rewrite entities_loop_plain by done. rewrite IH by lia. done.
Qed.

Lemma encode_entities_length s : (length s <= length (encode_entities s))%nat.
Proof.
  induction s as [|c s IH]; [done|]. unfold encode_entities in *. cbn [flat_map length]. rewrite length_app.
  unfold encode_entity at 1. repeat dest_if; cbn; lia.
Qed.

Lemma decode_encode_entities s : decode_entities (encode_entities s) = Done s.
Proof. apply entities_loop_encode. pose proof (encode_entities_length s). lia. Qed.

(** *** The enrolment page *)

Lemma fresh_one l c : c ∉ l -> fresh_before l [c].
Proof.
  unfold fresh_before. cbn [removelast]. rewrite app_nil_r. induction l as [|x l IH]; [done|].
  intros [Hx Hl]%not_elem_of_cons. cbn [contains]. rewrite IH by done.
  cbn. rewrite (proj2 (Z.eqb_neq c x)) by done. done.
Qed.

Definition form_mark : str := lit "<form".
Definition totp_mark : str := lit "id=" ++ [34] ++ lit "totp-form" ++ [34].

(** What the form's tag holds before its mark: attributes, then the escaped
    address between quotes. *)
Definition form_head (attrs : str) (quote : Z) (url more : str) : str :=
  attrs ++ lit "action=" ++ quote :: encode_entities url ++ quote :: more.

Definition enrolment_page (pre attrs : str) (quote : Z) (url more tail post : str) : str :=
  pre ++ form_mark ++ form_head attrs quote url more ++ totp_mark ++ tail ++ 62 :: post.

(** The mark comes first in the tag of the last form before it. *)
Definition page_ok (pre attrs : str) (quote : Z) (url more tail : str) : Prop :=
  (quote = 34 \/ quote = 39) /\ starts_with url (lit "https://") = true /\
  fresh_before (pre ++ form_mark ++ form_head attrs quote url more) totp_mark /\
  contains (lit "form" ++ form_head attrs quote url more) form_mark = false /\
  fresh_before (form_mark ++ attrs) (lit "action=") /\ (62 ∉ attrs) /\ (62 ∉ more) /\ (62 ∉ tail).

Lemma encode_entities_free c url : (c = 34 \/ c = 39 \/ c = 62) -> c ∉ encode_entities url.
Proof.
  intros Hc Hin%list_elem_of_In. apply in_flat_map in Hin as (x & _ & Hx). unfold encode_entity in Hx.
  destruct (Z.eqb_spec x 38), (Z.eqb_spec x 60), (Z.eqb_spec x 62), (Z.eqb_spec x 34), (Z.eqb_spec x 39).
  all: vm_compute in Hx; destruct_or? Hx; subst; lia.
Qed.

Lemma slice_head {E} (l k : list Z) n : n = zlen l -> @slice E Z (l ++ k) 0 n = Done l.
Proof. intros ->. by apply (slice_app_mid [] l k). Qed.

Lemma slice_tail {E} (l k : list Z) n m : n = zlen l -> m = zlen (l ++ k) -> @slice E Z (l ++ k) n m = Done k.
Proof.
  intros -> ->. pose proof (@slice_app_mid E l k [] (zlen l) (zlen (l ++ k)) eq_refl) as Hs.
  rewrite app_nil_r in Hs. apply Hs. by rewrite zlen_app.
Qed.

(** The action of a quoted attribute inside a tag. *)
Lemma quoted_action (before : str) quote url after :
  fresh_before before (lit "action=") -> (quote = 34 \/ quote = 39) -> starts_with url (lit "https://") = true ->
  (key_at ← oget (find_sub (lit "action=") (before ++ lit "action=" ++ quote :: encode_entities url ++ quote :: after));
   rest ← slice (before ++ lit "action=" ++ quote :: encode_entities url ++ quote :: after) (key_at + 7)
            (zlen (before ++ lit "action=" ++ quote :: encode_entities url ++ quote :: after));
   match trim_start_by is_whitespace rest with
   | [] => no_value
   | q :: body =>
       if negb (q =? 39) && negb (q =? 34) then no_value
       else
         end_ ← oget (find_sub [q] body);
         raw ← slice body 0 end_;
         action ← decode_entities raw;
         if starts_with action (lit "https://") then Done action else no_value
   end) = Done url.
Proof.
  intros Hf Hq Hu. rewrite find_sub_at by done. cbn [oget mbind outcome_bind]. rewrite (app_assoc before).
  rewrite slice_tail; [|rewrite zlen_app; change (zlen (lit "action=")) with 7; lia|done]. cbn [mbind outcome_bind].
  rewrite trim_start_id by (destruct Hq as [-> | ->]; done).
  replace (negb (quote =? 39) && negb (quote =? 34)) with false by (destruct Hq as [-> | ->]; done).
  change (encode_entities url ++ quote :: after) with (encode_entities url ++ [quote] ++ after).
  rewrite (find_sub_at (encode_entities url) [quote] after); [|done|apply fresh_one, encode_entities_free; tauto].
  cbn [oget mbind outcome_bind]. rewrite slice_head by done. cbn [mbind outcome_bind].
  rewrite decode_encode_entities. cbn [mbind outcome_bind]. by rewrite Hu.
Qed.

Lemma enrolment_page_read pre attrs quote url more tail post :
  page_ok pre attrs quote url more tail ->
  extract_totp_form_action (enrolment_page pre attrs quote url more tail post) = Done url.
Proof.
  intros (Hq & Hu & Ha & Hform & Hact & Hn1 & Hn2 & Hn3). unfold extract_totp_form_action.
  set (X := form_head attrs quote url more) in *. set (html := enrolment_page _ _ _ _ _ _ _).
  assert (E1 : html = (pre ++ form_mark ++ X) ++ totp_mark ++ tail ++ 62 :: post).
  { unfold html, enrolment_page. fold X. by rewrite <- !app_assoc. }
  assert (E2 : html = pre ++ (form_mark ++ X ++ totp_mark ++ tail) ++ 62 :: post).
  { unfold html, enrolment_page. fold X. by rewrite <- !app_assoc. }
  change (lit "id=" ++ [34] ++ lit "totp-form" ++ [34]) with totp_mark. change (lit "<form") with form_mark.
  rewrite E1 at 1. rewrite find_sub_at by done. cbn [oget mbind outcome_bind].
  rewrite E1 at 1. rewrite slice_head by done. cbn [mbind outcome_bind].
  change form_mark with (60 :: lit "form") at 1 2. rewrite rfind_sub_at by done. change (60 :: lit "form") with form_mark.
  cbn [oget mbind outcome_bind]. rewrite E2 at 1 2. rewrite slice_tail by done. cbn [mbind outcome_bind].
  change (62 :: post) with ([62] ++ post) at 1.
  rewrite (find_sub_at (form_mark ++ X ++ totp_mark ++ tail) [62] post); [|done|].
  2: { apply fresh_one. unfold X, form_head. rewrite !elem_of_app, !elem_of_cons, !elem_of_app, !elem_of_cons.
       pose proof (encode_entities_free 62 url ltac:(tauto)).
       assert (Hd : forall s, forallb (fun c => negb (c =? 62)) s = true -> 62 ∉ s).
       { intros s Hs Hin%list_elem_of_In. rewrite forallb_forall in Hs. apply Hs in Hin. done. }
       pose proof (Hd form_mark eq_refl). pose proof (Hd totp_mark eq_refl). pose proof (Hd (lit "action=") eq_refl).
       assert (62 <> quote) by (destruct Hq as [-> | ->]; done). tauto. }
  cbn [oget mbind outcome_bind]. rewrite E2.
  rewrite (slice_app_mid pre (form_mark ++ X ++ totp_mark ++ tail) (62 :: post)); [|done|lia]. cbn [mbind outcome_bind].
  unfold X, form_head. pose proof (quoted_action (form_mark ++ attrs) quote url (more ++ totp_mark ++ tail) Hact Hq Hu) as Hr.
  rewrite <- !app_assoc in Hr. rewrite <- !app_assoc. cbn [app] in Hr |- *. rewrite <- !app_assoc. exact Hr.
Qed.

Lemma extract_totp_total html : wp (extract_totp_form_action html) (fun _ => True) (fun _ => True).
Proof.
  unfold extract_totp_form_action. apply wp_bind, wp_oget; [|done]. intros anchor Ha%find_sub_bound.
  set (mark := lit "id=" ++ _) in *. pose proof (zlen_nonneg mark).
  apply wp_bind, wp_slice; [lia|lia|]. apply wp_bind, wp_oget; [|done]. intros fs Hf%rfind_sub_bound.
  rewrite zlen_zsub in Hf by lia. apply wp_bind, wp_slice; [lia|lia|].
  apply wp_bind, wp_oget; [|done]. intros te Ht%find_sub_bound. rewrite zlen_zsub in Ht by lia.
  change (zlen [62]) with 1 in Ht. apply wp_bind, wp_slice; [lia|lia|].
  apply wp_bind, wp_oget; [|done]. intros ka Hk%find_sub_bound. change (zlen (lit "action=")) with 7 in Hk.
  apply wp_bind, wp_slice; [lia|lia|]. destruct (trim_start_by _ _) as [|q body]; [done|]. dest_if; [done|].
  apply wp_bind, wp_oget; [|done]. intros e He%find_sub_bound. change (zlen [q]) with 1 in He.
  apply wp_bind, wp_slice; [lia|lia|]. apply wp_bind. eapply wp_mono; [apply decode_entities_total| |done].
  intros action _. cbn. by dest_if.
Qed.

(** *** The nonce *)

Lemma percent_loop_plain fuel bytes : 43 ∉ bytes -> percent_loop fuel bytes = Upstream.percent_loop fuel bytes.
Proof.
  revert bytes. induction fuel as [|fuel IH]; intros [|b rest] Hb; [done..|].
  apply not_elem_of_cons in Hb as [Hb Hr]. cbn [percent_loop Upstream.percent_loop].
  rewrite (proj2 (Z.eqb_neq b 43)) by done. destruct (Z.eqb_spec b 37) as [->|]; cbn [andb]; [|f_equal; by apply IH].
  dest_if; [|f_equal; by apply IH].
  assert (43 ∉ zdrop 2 rest) by (intros Hin; apply Hr; unfold zdrop in Hin; rewrite <- (take_drop (Z.to_nat 2) rest);
    apply elem_of_app; by right).
  destruct (from_str_radix _ _ _); f_equal; by apply IH.
Qed.

Lemma pct_no_plus s : Forall is_scalar s -> forall c, c ∈ pct s -> pct_char c = true.
Proof. intros Hs%pct_chars c Hc. by apply (proj1 (list.Forall_forall _ _) Hs c). Qed.

Lemma percent_decode_escaped s : Forall is_scalar s -> percent_decode (pct s) = s.
Proof.
  intros Hs. pose proof (pct_no_plus s Hs) as Hc. unfold percent_decode. rewrite percent_loop_plain.
  - by apply (percent_decode_pct s).
  - assert (Ha : Forall (fun c => 0 <= c < 128) (pct s)).
    { apply list.Forall_forall. intros c Hin%Hc. unfold pct_char, is_ascii_alphanumeric, is_ascii_digit,
        is_ascii_upper, is_ascii_lower in Hin. lia. }
    rewrite utf8_ascii by done. by intros Hin%Hc.
Qed.

(** A query: parameters with their values escaped, or without a value. *)
Definition query_pair (p : str * option str) : str :=
  p.1 ++ match p.2 with Some v => 61 :: pct v | None => [] end.

Fixpoint query_string (ps : list (str * option str)) : str :=
  match ps with
  | [] => []
  | [p] => query_pair p
  | p :: ps => query_pair p ++ 38 :: query_string ps
  end.

Definition query_ok (p : str * option str) : Prop :=
  (38 ∉ p.1) /\ (61 ∉ p.1) /\ (forall v, p.2 = Some v -> Forall is_scalar v).

(** The parameters before the first without a value. *)
Fixpoint before_flag (ps : list (str * option str)) : list (str * str) :=
  match ps with
  | (name, Some v) :: ps => (name, v) :: before_flag ps
  | _ => []
  end.

Lemma query_pair_free p : query_ok p -> 38 ∉ query_pair p.
Proof.
  intros (H38 & H61 & Hs). unfold query_pair. rewrite elem_of_app. intros [?|Hin]; [done|].
  destruct p.2 as [v|]; [|by apply not_elem_of_nil in Hin].
  apply elem_of_cons in Hin as [?|Hin]; [done|]. by apply pct_no_plus in Hin; [|apply Hs].
Qed.

Lemma split_query ps : ps <> [] -> Forall query_ok ps -> split 38 (query_string ps) = query_pair <$> ps.
Proof.
  intros Hne Hok. induction Hok as [|p ps Hp Hok IH]; [done|]. destruct ps as [|p' ps].
  - by apply split_none, query_pair_free.
  - change (query_string (p :: p' :: ps)) with (query_pair p ++ 38 :: query_string (p' :: ps)).
    unfold split in *. rewrite split_by_sep by done. rewrite IH by done.
    pose proof (split_none 38 (query_pair p) (query_pair_free p Hp)) as Hs. unfold split in Hs. by rewrite Hs.
Qed.

Lemma query_value_exact base ps key :
  63 ∉ base -> ps <> [] -> Forall query_ok ps ->
  query_value (base ++ 63 :: query_string ps) key =
    snd <$> List.find (fun p => str_eqb (fst p) key) (before_flag ps).
Proof.
  intros Hb Hne Hok. unfold query_value. rewrite split_once_at by done. cbn [mbind option_bind].
  rewrite split_query by done. clear Hne. induction Hok as [|[n [v|]] ps Hp Hok IH]; [done|..].
  all: destruct Hp as (H38 & H61 & Hs); cbn [fst snd] in *.
  all: cbn [fmap list_fmap query_pairs List.find before_flag fst snd].
  - change (split_once 61 (query_pair (n, Some v))) with (split_once 61 (n ++ 61 :: pct v)).
    rewrite split_once_at by done. cbn [mbind option_bind].
    destruct (str_eqb n key); [by rewrite percent_decode_escaped by auto|]. apply IH.
  - unfold query_pair. cbn [fst snd]. rewrite app_nil_r.
    by rewrite split_once_none.
Qed.

(** *** Names of organizations *)

Definition plain_team (t : str) : Prop :=
  t <> [] /\ Forall (fun c => team_char c = true /\ is_ascii_upper c = false) t.

(** Lower case ASCII without spaces. *)
Definition tidy (c : Z) : bool := (33 <=? c) && (c <? 127) && negb (is_ascii_upper c).

Lemma tidy_kept `{UnicodeData} s : Forall (fun c => tidy c = true) s -> to_lowercase (trim s) = s.
Proof.
  intros Hs. assert (Hw : forall c, tidy c = true -> is_whitespace c = false /\ 0 <= c < 128 /\ ascii_lower c = c).
  { intros c Hc. unfold tidy in Hc. unfold ascii_lower, is_whitespace.
    destruct (is_ascii_upper c); [by rewrite andb_false_r in Hc|]. cbn [negb] in Hc. lia. }
  unfold trim. rewrite trim_start_id by (destruct Hs as [|c s Hc _]; [done|]; by apply Hw).
  rewrite trim_end_id.
  2: { destruct (rev s) as [|c r] eqn:E; [done|]. apply Hw, (proj1 (list.Forall_forall _ _) Hs).
       apply list_elem_of_In. rewrite in_rev, E. by left. }
  rewrite to_lowercase_ascii.
  - unfold to_ascii_lowercase. induction Hs as [|c s Hc _ IH]; [done|]. cbn. rewrite IH. f_equal. by apply Hw.
  - eapply list.Forall_impl; [done|]. intros c Hc. by apply Hw.
Qed.

(** A name does not read as the start of an address. *)
Lemma team_no_scheme t rest n :
  Forall (fun c => team_char c = true /\ is_ascii_upper c = false) t ->
  match rest with c :: _ => c = 46 \/ c = 47 | [] => True end -> (n = lit "https://" \/ n = lit "http://") ->
  strip_prefix (t ++ rest) n = None.
Proof.
  intros Ht Hr Hn. unfold strip_prefix. assert (Hf : starts_with (t ++ rest) n = false); [|by rewrite Hf].
  assert (Hk : forall k l, Forall (fun c => c <> 46 /\ c <> 47) k ->
    starts_with (t ++ rest) (k ++ 58 :: l) = false).
  { clear Hn n. induction Ht as [|c t [Hc _] _ IH]; intros k l Hk.
    - destruct rest as [|c rest]; [by destruct k|].
      destruct Hk as [|x k [Hx Hy] _]; cbn [app starts_with]; [by destruct Hr as [-> | ->]|].
      rewrite (proj2 (Z.eqb_neq _ _)); [done|]. destruct Hr as [-> | ->]; done.
    - destruct Hk as [|x k _ Hk]; cbn [app starts_with].
      + destruct (Z.eqb_spec 58 c) as [<-|]; [by vm_compute in Hc|done].
      + rewrite IH by done. by rewrite andb_false_r. }
  destruct Hn as [-> | ->];
    [apply (Hk (lit "https") (lit "//"))|apply (Hk (lit "http") (lit "//"))];
    apply (bool_decide_unpack _); vm_compute; done.
Qed.

Lemma strip_prefix_app a b : strip_prefix (a ++ b) a = Some b.
Proof. unfold strip_prefix. by rewrite starts_with_app, drop_app_length. Qed.

Lemma strip_suffix_app a b : strip_suffix (a ++ b) b = Some a.
Proof.
  unfold strip_suffix. rewrite (proj2 (ends_with_spec _ _)) by (by exists a). f_equal.
  rewrite length_app. rewrite Nat.add_sub. by rewrite take_app_length.
Qed.

Lemma trim_end_matches_id c s : c ∉ s -> trim_end_matches c s = s.
Proof.
  intros Hc. apply trim_end_id. destruct (rev s) as [|x r] eqn:E; [done|]. apply Z.eqb_neq. intros ->.
  apply Hc, list_elem_of_In. rewrite in_rev, E. by left.
Qed.

(** What is left of a value once lower case and without a scheme. *)
Definition team_of_value (value : str) : str :=
  let value := trim_end_matches 47 value in
  let value := default value (hd_error (split 47 value)) in
  match strip_suffix value TEAM_SUFFIX with Some head => trim_end_matches 46 head | None => value end.

Definition team_path (path : str) : Prop := path = [] \/ path = ENROLL_PATH.
Definition team_rest (rest : str) : Prop := rest = [] \/ rest = 46 :: TEAM_SUFFIX.

Lemma first_segment v path : (47 ∉ v) -> team_path path -> 
  let value := trim_end_matches 47 (v ++ path) in default value (hd_error (split 47 value)) = v.
Proof.
  intros Hv [-> | ->]; cbv zeta.
  - rewrite app_nil_r, trim_end_matches_id, split_none by done. done.
  - unfold trim_end_matches. rewrite trim_end_id by (rewrite rev_app_distr; done).
    change ENROLL_PATH with (47 :: lit "warp"). unfold split. rewrite split_by_sep by done.
    pose proof (split_none 47 v Hv) as Hs. unfold split in Hs. by rewrite Hs.
Qed.

Lemma team_free t c :
  Forall (fun c => team_char c = true /\ is_ascii_upper c = false) t -> team_char c = false -> c ∉ t.
Proof. intros Ht Hc Hin. apply (proj1 (list.Forall_forall _ _) Ht) in Hin. destruct Hin. congruence. Qed.

Lemma normalize_tail t rest path :
  plain_team t -> team_rest rest -> team_path path -> team_of_value ((t ++ rest) ++ path) = t.
Proof.
  intros [Hne Ht] Hr Hpath. pose proof (team_free t 46 Ht eq_refl) as H46.
  assert (H47 : 47 ∉ t ++ rest).
  { rewrite elem_of_app. intros [Hin|Hin]; [by apply (team_free t 47 Ht eq_refl) in Hin|].
    destruct Hr as [-> | ->]; [by apply not_elem_of_nil in Hin|]. revert Hin. apply (bool_decide_unpack _). vm_compute. done. }
  unfold team_of_value. rewrite first_segment by done. destruct Hr as [-> | ->].
  - rewrite app_nil_r. unfold strip_suffix. destruct (ends_with t TEAM_SUFFIX) eqn:E; [|done].
    apply ends_with_spec in E as [p ->]. destruct H46. apply elem_of_app. right.
    apply (bool_decide_unpack _). vm_compute. done.
  - change (46 :: TEAM_SUFFIX) with ([46] ++ TEAM_SUFFIX). rewrite app_assoc, strip_suffix_app.
    unfold trim_end_matches, trim_end_by. rewrite rev_app_distr. cbn [rev app trim_start_by].
    change (46 =? 46) with true. cbn iota. fold (trim_end_by (Z.eqb 46) t). by apply trim_end_matches_id.
Qed.

Lemma plain_team_tidy t : Forall (fun c => team_char c = true /\ is_ascii_upper c = false) t -> Forall (fun c => tidy c = true) t.
Proof.
  intros Ht. eapply list.Forall_impl; [exact Ht|]. intros c [Hc Hu]. unfold tidy. rewrite Hu.
  unfold team_char, is_ascii_alphanumeric, is_ascii_digit, is_ascii_upper, is_ascii_lower in *. lia.
Qed.

Lemma normalize_forms `{UnicodeData} t prefix rest path :
  plain_team t -> prefix = [] \/ prefix = lit "https://" -> team_rest rest -> team_path path ->
  normalize_team (prefix ++ (t ++ rest) ++ path) = Some t.
Proof.
  intros Hp Hpre Hr Hpath. destruct (Hp) as [Hne Ht]. unfold normalize_team. rewrite tidy_kept.
  2: { repeat apply Forall_app_2; [|by apply plain_team_tidy| |].
       - destruct Hpre as [-> | ->]; apply (bool_decide_unpack _); vm_compute; done.
       - destruct Hr as [-> | ->]; apply (bool_decide_unpack _); vm_compute; done.
       - destruct Hpath as [-> | ->]; apply (bool_decide_unpack _); vm_compute; done. }
  destruct (str_eqb (prefix ++ _) []) eqn:E.
  { apply str_eqb_eq in E. apply app_eq_nil in E as [_ E]. apply app_eq_nil in E as [E _].
    by apply app_eq_nil in E as [E _]. }
  assert (Hnone : forall n, n = lit "https://" \/ n = lit "http://" -> strip_prefix ((t ++ rest) ++ path) n = None).
  { intros n Hn. rewrite <- app_assoc. apply team_no_scheme; [done| |done].
    destruct Hr as [-> | ->], Hpath as [-> | ->]; cbn; tauto. }
  assert (Hf : fold_left (fun v p => default v (strip_prefix v p)) [lit "https://"; lit "http://"]
                 (prefix ++ (t ++ rest) ++ path) = (t ++ rest) ++ path).
  { cbn [fold_left]. destruct Hpre as [-> | ->]; cbn [app].
    - rewrite (Hnone (lit "https://")) by tauto. cbn [default]. by rewrite (Hnone (lit "http://")) by tauto.
    - rewrite strip_prefix_app. change (default (lit "https://" ++ (t ++ rest) ++ path) (Some ((t ++ rest) ++ path))) with ((t ++ rest) ++ path).
      by rewrite (Hnone (lit "http://")) by tauto. }
  rewrite Hf. fold (team_of_value ((t ++ rest) ++ path)). rewrite normalize_tail by done.
  destruct (str_eqb t []) eqn:E'; [by apply str_eqb_eq in E'|].
  rewrite (proj2 (forallb_forall _ _)); [done|]. intros c Hc%list_elem_of_In.
  by apply (proj1 (list.Forall_forall _ _) Ht).
Qed.

Lemma normalize_team_chars `{UnicodeData} raw t :
  normalize_team raw = Some t -> t <> [] /\ Forall (fun c => team_char c = true) t.
Proof.
  unfold normalize_team. dest_if; [done|]. revert E. set (v := match strip_suffix _ _ with Some _ => _ | None => _ end).
  clearbody v. intros _. destruct (str_eqb v []) eqn:Ev; [done|]. destruct (forallb team_char v) eqn:Ef; [|done].
  intros [= <-]. split; [intros ->; done|]. rewrite forallb_forall in Ef. apply list.Forall_forall.
  intros c Hc%list_elem_of_In. by apply Ef.
Qed.

(** *** Signing in *)

Section SignInFacts.
Context `{WebLibs}.

Lemma html_token_jwt html t : extract_jwt_from_html html = Some t -> looks_like_jwt t = true.
Proof.
  unfold extract_jwt_from_html. destruct (split_once_str _ _) as [[a r]|]; [|done]. cbn [mbind option_bind].
  destruct (looks_like_jwt _) eqn:E; [|done]. by intros [= <-].
Qed.

Lemma cookie_token_jwt parts t : cookie_parts parts = Some t -> looks_like_jwt t = true.
Proof.
  induction parts as [|p parts IH]; [done|]. cbn [cookie_parts].
  destruct (match strip_prefix (trim p) _ with Some v => Some v | None => _ end) as [v|]; [|done]. cbn [mbind option_bind].
  destruct (looks_like_jwt v) eqn:E; [|done]. by intros [= <-].
Qed.

Lemma first_cookie_jwt cookies t : first_cookie cookies = Some t -> looks_like_jwt t = true.
Proof.
  induction cookies as [|h cookies IH]; [done|]. cbn [first_cookie].
  destruct (header_text h) as [text|]; [|done]. cbn [mbind option_bind].
  destruct (extract_jwt_from_cookie text) eqn:E; [|done]. intros [= <-]. by eapply cookie_token_jwt.
Qed.

(** A token obtained with a code is in the reply to one of the attempts, and
    what stops the attempts is an error. *)
Lemma code_attempts_spec n int email ps cs last :
  CodeTimeout ∉ ps ->
  wp (code_attempts n int email ps cs last)
     (fun t => exists i u st ck body, (i < n)%nat /\ cs !! i = Some (Reply u st ck (inl body)) /\
        extract_jwt_from_html body = Some t)
     (fun _ => True).
Proof.
  revert ps cs last. induction n as [|n IH]; intros ps cs last Hp; cbn [code_attempts]; [done|]. apply wp_bind.
  assert (Hl : forall line, line <> CodeTimeout -> wp (prompt_login_code int email line) (fun _ => True) (fun _ => True)).
  { intros [| | |text] ?; cbn; [done..|]. by dest_if. }
  eapply wp_mono; [apply Hl| |done].
  { destruct ps as [|p ps]; [done|]. cbn. apply not_elem_of_cons in Hp as [Hp _]. by intros ->. }
  intros code _. apply wp_bind. unfold submit_code. dest_if; [done|]. destruct cs as [|c cs]; [done|]. cbn [hd_error default].
  unfold Datatypes.id. destruct c as [e|u st ck [body|e]]; cbn [wp]; [done| |done].
  destruct (extract_jwt_from_html body) as [t|] eqn:Et; cbn [wp].
  - exists 0%nat. do 4 eexists. split; [lia|]. split; [done|]. done.
  - eapply wp_mono; [apply IH| |done].
    + destruct ps as [|p ps]; [done|]. by apply not_elem_of_cons in Hp as [_ Hp].
    + intros t (i & u' & st' & ck' & body' & Hi & Hc & Hb). exists (S i). do 4 eexists. split; [lia|]. done.
Qed.

(** The token of a sign-in looks like one; with an email it came in one of
    three replies. *)
Definition signed_in (s : TeamSettings) (w : signin_world) (t : str) : Prop :=
  looks_like_jwt t = true /\
  (token s = None -> has_service_token s = false ->
   exists i u st ck body, (i < CODE_ATTEMPTS)%nat /\ callbacks w !! i = Some (Reply u st ck (inl body)) /\
     extract_jwt_from_html body = Some t).

Lemma begin_email_total s w email :
  terminates (access_client w) -> wp (begin_email_signin s w email) (fun _ => True) (fun _ => True).
Proof.
  intros Ha. unfold begin_email_signin. dest_if; [done|]. apply wp_bind. eapply wp_mono; [exact Ha| |done]. intros _ _.
  destruct (landing_reply w) as [e|u st ck [body|e]]; [done| |done]. apply wp_bind.
  pose proof (extract_totp_total body) as Ht. destruct (extract_totp_form_action body); try done. cbn [wp].
  apply wp_bind. unfold request_email_code. destruct (code_reply w); [done|]. dest_if; [done|]. cbn [wp].
  apply wp_bind, wp_ok_or; done.
Qed.

Lemma sign_in_spec s now w :
  terminates (access_client w) -> CodeTimeout ∉ prompts w ->
  wp (sign_in s now w) (signed_in s w) (fun _ => True).
Proof.
  intros Ha Hp. unfold sign_in, signed_in. destruct (token s) as [t|].
  { destruct (looks_like_jwt t) eqn:E; cbn [negb]; [|done]. by dest_if. }
  destruct (has_service_token s) eqn:Es.
  - unfold has_service_token in Es. unfold fetch_token_with_service_token.
    destruct (client_id s); [|done]. destruct (client_secret s); [|done]. cbn [ok_or mbind outcome_bind].
    apply wp_bind. eapply wp_mono; [exact Ha| |done]. intros _ _.
    destruct (service_reply w) as [e|u st ck body]; [done|].
    destruct (first_cookie ck) as [t|] eqn:Ec; cbn [wp]; [split; [by eapply first_cookie_jwt|done]|].
    destruct (extract_jwt_from_html _) as [t|] eqn:Eh; cbn [wp]; [split; [by eapply html_token_jwt|done]|done].
  - destruct (email s) as [e|]; [|done]. apply wp_bind. eapply wp_mono; [by apply begin_email_total| |done].
    intros session _. eapply wp_mono; [by apply code_attempts_spec| |done].
    intros t (i & u & st & ck & body & Hi & Hc & Hb). split; [by eapply html_token_jwt|]. intros _ _. by exists i, u, st, ck, body.
Qed.

Lemma resolve_token_spec s now w cache :
  terminates (access_client w) -> CodeTimeout ∉ prompts w ->
  match resolve_token s now w cache with
  | (Done t, cache') =>
      cache' = Some t /\ (cached_token now cache = Some t \/ cached_token now cache = None /\ signed_in s w t)
  | (Fail _, cache') => cache' = None /\ cached_token now cache = None
  | _ => False
  end.
Proof.
  intros Ha Hp. pose proof (sign_in_spec s now w Ha Hp) as Hs. unfold resolve_token, cached_token.
  assert (Hfresh : match match sign_in s now w with Done t => (Done t, Some t) | r => (r, None) end with
                   | (Done t, cache') => cache' = Some t /\ signed_in s w t
                   | (Fail _, cache') => cache' = None
                   | _ => False
                   end) by (destruct (sign_in s now w); done).
  set (f := match sign_in s now w with Done t => (Done t, Some t) | r => (r, None) end) in *. clearbody f.
  destruct cache as [t|]; cbn [mbind option_bind].
  - destruct (jwt_expired t now); [|by split; [|left]].
    destruct f as [[t'| | |] c]; try done. destruct Hfresh. split; [done|]. by right.
  - destruct f as [[t'| | |] c]; try done. destruct Hfresh. split; [done|]. by right.
Qed.

End SignInFacts.

(** *** Two readings that stop early *)

(** A cookie after another one is not found: the [?] in the loop ends the
    search at the first part that is not the token. *)
Example later_cookie_missed `{WebLibs} t :
  extract_jwt_from_cookie (lit "a=b; CF_Authorization=" ++ t) = None.
Proof.
  unfold extract_jwt_from_cookie. change (lit "a=b; CF_Authorization=" ++ t) with (lit "a=b" ++ 59 :: lit " CF_Authorization=" ++ t).
  unfold split. rewrite split_by_sep by done. reflexivity.
Qed.

(** So does a parameter without a value before the one that is asked for. *)
Example nonce_after_flag_missed : query_value (lit "https://t/x?kid&nonce=abc") (lit "nonce") = None.
Proof. reflexivity. Qed.

(** ** Property *)

(** C31: signing in to an organization.  A team is recognised whether it is
    given as a name, a domain, an address or the address of its enrolment page,
    and whatever is recognised is a word fit for a host name.  The address of
    the form is read exactly, its escapes undone, off any page whose last form
    before the mark carries it.  A parameter such as the nonce is read exactly
    off any address when every one before it has a value; one behind a
    parameter without a value is not found.  Resolving a token never panics: it gives
    the token of this session while that has not expired, and otherwise signs
    in, keeps what that gave, which looks like a token and with an email came
    in the reply to one of three codes, and keeps nothing when it failed. *)
Theorem signin_sound `{UnicodeData} `{WebLibs} t raw raw_team pre attrs quote url more tail post base ps key s now w cache :
  plain_team t -> normalize_team raw = Some raw_team -> page_ok pre attrs quote url more tail ->
  63 ∉ base -> ps <> [] -> Forall query_ok ps ->
  terminates (access_client w) -> CodeTimeout ∉ prompts w ->
  (normalize_team t = Some t /\ normalize_team (t ++ 46 :: TEAM_SUFFIX) = Some t /\
   normalize_team (team_domain t) = Some t /\ normalize_team (team_domain t ++ ENROLL_PATH) = Some t) /\
  (raw_team <> [] /\ Forall (fun c => team_char c = true) raw_team) /\
  extract_totp_form_action (enrolment_page pre attrs quote url more tail post) = Done url /\
  query_value (base ++ 63 :: query_string ps) key =
    snd <$> List.find (fun p => str_eqb (fst p) key) (before_flag ps) /\
  match resolve_token s now w cache with
  | (Done t, cache') =>
      cache' = Some t /\ (cached_token now cache = Some t \/ cached_token now cache = None /\ signed_in s w t)
  | (Fail _, cache') => cache' = None /\ cached_token now cache = None
  | _ => False
  end.
Proof.
  intros Ht Hr Hpage Hb Hne Hq Ha Hp. repeat match goal with |- _ /\ _ => split end.
  - pose proof (normalize_forms t [] [] [] Ht ltac:(tauto) ltac:(by left) ltac:(by left)) as Hn.
    by rewrite !app_nil_r in Hn.
  - pose proof (normalize_forms t [] (46 :: TEAM_SUFFIX) [] Ht ltac:(tauto) ltac:(by right) ltac:(by left)) as Hn.
    by rewrite !app_nil_r in Hn.
  - pose proof (normalize_forms t (lit "https://") (46 :: TEAM_SUFFIX) [] Ht ltac:(tauto) ltac:(by right) ltac:(by left)) as Hn.
    by rewrite app_nil_r in Hn.
  - pose proof (normalize_forms t (lit "https://") (46 :: TEAM_SUFFIX) ENROLL_PATH Ht ltac:(tauto) ltac:(by right) ltac:(by right)) as Hn.
    exact Hn.
  - by apply normalize_team_chars in Hr as [? _].
  - by apply normalize_team_chars in Hr as [_ ?].
  - by apply enrolment_page_read.
  - by apply query_value_exact.
  - by apply resolve_token_spec.
Qed.

(** A library in which base64 is the identity. *)
Definition sample_libs : WebLibs := {|
  json_value := fun _ => None;
  base64_encode := fun l => l;
  base64_decode := fun s => if forallb (fun b => between 0 b 255) s then inl s else inr [];
  base64_url_decode := fun s => Some s;
  status_display := show_uint
|}.

Definition sample_jwt : str := lit "eyJhbGciOiJSUzI1NiJ9.eyJleHAiOjF9.c2lnbmF0dXJl".

(** A sign-in by email whose second code is accepted. *)
Definition sample_signin : signin_world :=
  let page := enrolment_page (lit "<html>") (lit " method='post' ") 34 (lit "https://t/x?a=1&b=2") (lit " ") [] [] in
  mkSignin (Done tt) (Unsent []) (Reply (lit "https://t/login") 200 [] (inl page))
    (Reply (lit "https://t/x?nonce=n%31") 200 [] (inl [])) false [Line (lit "111"); Line (lit "222")]
    [Reply [] 403 [] (inl []); Reply [] 200 [] (inl (lit "0;url=x?token=" ++ sample_jwt ++ [34]))].

Lemma signin_sound_witness :
  let U := ascii_only in
  let W := sample_libs in
  let s := mkTeam (lit "acme") None None None (Some (lit "me@acme.org")) in
  normalize_team (lit "https://acme.cloudflareaccess.com/warp") = Some (lit "acme") /\
  extract_totp_form_action
    (enrolment_page (lit "<html>") (lit " method='post' ") 34 (lit "https://t/x?a=1&b=2") (lit " ") [] []) =
    Done (lit "https://t/x?a=1&b=2") /\
  query_value (lit "https://t/x?kid=%31&nonce=a%2Fb&last") (lit "nonce") = Some (lit "a/b") /\
  resolve_token s 5 sample_signin None = (Done sample_jwt, Some sample_jwt).
Proof.
  cbv zeta.
  destruct (@signin_sound ascii_only sample_libs (lit "acme") (lit " ACME ") (lit "acme") (lit "<html>")
    (lit " method='post' ") 34 (lit "https://t/x?a=1&b=2") (lit " ") [] [] (lit "https://t/x")
    [(lit "kid", Some (lit "1")); (lit "nonce", Some (lit "a/b")); (lit "last", None)] (lit "nonce")
    (mkTeam (lit "acme") None None None (Some (lit "me@acme.org"))) 5 sample_signin None)
    as ((_ & _ & _ & Hn) & _ & Hpage & Hq & Hr).
  - split; [done|]. apply (bool_decide_unpack _); vm_compute; done.
  - vm_compute. done.
  - repeat split; try (by left); try (apply (bool_decide_unpack _); vm_compute; done); vm_compute; done.
  - apply (bool_decide_unpack _); vm_compute; done.
  - done.
  - repeat apply Forall_cons_2; [| | |by apply Forall_nil_2];
      (split; [|split; [|intros v Hv; try discriminate Hv; injection Hv as <-]]);
      apply (bool_decide_unpack _); vm_compute; done.
  - done.
  - cbn. intros Hin. repeat (apply elem_of_cons in Hin as [?|Hin]; [done|]). by apply not_elem_of_nil in Hin.
  - split; [exact Hn|]. split; [exact Hpage|]. split; [exact Hq|].
    clear Hr. vm_compute. reflexivity.
Defined.
