(* ===== verification/Account.v ===== *)
(** * Accounts (src/native/aether/aether/src/account.rs)

    Registering a device, enrolling its key and refreshing its profile over
    the account API: a direct route with retries, then the camouflaged route of
    ApiFront.v.  What the two routes answer is the world of a call; the
    clock, TLS keys and X25519 are arguments. *)

From stdpp Require Import base list option.
From Stdlib Require Import ZArith Lia.
From S2P Require Import Prelude Rand RustStr StrFacts Error Net Sysprofile Upstream ApiFront Zerotrust.

(** ** Data *)

Record Registration := mkRegistration {
  reg_key : str;
  reg_install_id : str;
  reg_fcm_token : str;
  reg_tos : str;
  reg_model : str;
  reg_serial_number : str;
  reg_os_version : str;
  reg_key_type : str;
  reg_tunnel_type : str;
  reg_locale : str
}.

Record TeamRegistration := mkTeamRegistration {
  tr_key : str;
  tr_install_id : str;
  tr_fcm_token : str;
  tr_tos : str;
  tr_model : str;
  tr_name : str;
  tr_serial_number : str;
  tr_locale : str
}.

Record DeviceUpdate := mkDeviceUpdate {
  du_key : str;
  du_key_type : str;
  du_tunnel_type : str;
  du_name : option str
}.

(** The bodies sent. *)
Inductive request_body :=
| RegistrationBody (r : Registration)
| TeamBody (r : TeamRegistration)
| UpdateBody (u : DeviceUpdate).

Record PeerEndpoint := mkPeerEndpoint { pe_v4 : str; pe_v6 : str; pe_host : str }.
Record Peer := mkPeer { public_key : str; endpoint : PeerEndpoint }.
Record AccountInfo := mkAccountInfo { account_id : str; account_type : str; account_organization : str }.
Record Addresses := mkAddresses { addr_v4 : str; addr_v6 : str }.
Record Interface := mkInterface { addresses : Addresses }.
Record Services := mkServices { http_proxy : str }.

Record Config := mkConfig { interface : Interface; peers : list Peer; config_client_id : str; services : Services }.

Record AccountData := mkAccountData { data_id : str; data_token : str; config : Config; account : AccountInfo }.

Record Identity := mkIdentity {
  device_id : str;
  access_token : str;
  cert_pem : list Z;
  key_pem : list Z;
  cert_issued_at : Z;
  ipv4 : str;
  ipv6 : str;
  wg_private_key : list Z;
  wg_peer_public_key : list Z;
  id_client_id : list Z;
  organization : str;
  gateway_proxy : str;
  assigned_endpoint : str;
  refused : bool
}.

(** [Identity { refused, ..identity }] and the like. *)
Definition with_refused (r : bool) (i : Identity) : Identity :=
  mkIdentity (device_id i) (access_token i) (cert_pem i) (key_pem i) (cert_issued_at i) (ipv4 i) (ipv6 i)
    (wg_private_key i) (wg_peer_public_key i) (id_client_id i) (organization i) (gateway_proxy i)
    (assigned_endpoint i) r.
Definition with_cert (cert key : list Z) (issued_at : Z) (i : Identity) : Identity :=
  mkIdentity (device_id i) (access_token i) cert key issued_at (ipv4 i) (ipv6 i)
    (wg_private_key i) (wg_peer_public_key i) (id_client_id i) (organization i) (gateway_proxy i)
    (assigned_endpoint i) (refused i).

(** ** Libraries *)

(** [serde_json] on these types, X25519 and the time as the terms of service
    want it. *)
Class AccountLibs := {
  account_of_json : str -> AccountData + str;
  json_of_body : request_body -> list Z + str;
  x25519_public : list Z -> list Z;
  tos_timestamp : str
}.

(** ** Constants *)

Definition API_URL : str := lit "https://api.cloudflareclient.com".
Definition API_VERSION : str := lit "v0a4471".
Definition DEFAULT_MODEL : str := lit "PC".
Definition DEFAULT_LOCALE : str := lit "en_US".
Definition KEY_TYPE_MASQUE : str := lit "secp256r1".
Definition TUN_TYPE_MASQUE : str := lit "masque".
Definition UA_REGISTER : str := lit "WARP for Android".
Definition CF_CLIENT_VERSION : str := lit "a-6.35-4471".

Definition API_ATTEMPTS : nat := 5.
Definition API_BACKOFF_BASE_MS : Z := 900.
Definition API_BACKOFF_CAP_MS : Z := 15000.
Definition API_RETRY_AFTER_CAP_SECS : Z := 30.

Definition MASQUE_CERT_LIFETIME_SECS : Z := 365 * 86400.
Definition MASQUE_CERT_RENEW_BEFORE_SECS : Z := 7 * 86400.

(** ** The direct route *)

(** The wait before a retry, in milliseconds; [word] is a random one. *)
Definition backoff_delay (attempt word : Z) : Z :=
  let exponential := saturating_mul API_BACKOFF_BASE_MS (Z.shiftl 1 (Z.min attempt 5)) in
  let capped := Z.min exponential API_BACKOFF_CAP_MS in
  let jitter := u32 word `mod` (capped / 3 + 1) in
  capped / 2 + jitter.

(** [retry_after], in milliseconds; the header's value. *)
Definition retry_after (header : option (list Z)) : option Z :=
  raw ← header ≫= header_text;
  seconds ← parse_uint u64_max (trim raw);
  Some (1000 * Z.min seconds API_RETRY_AFTER_CAP_SECS).

Definition refuses_identity (status : Z) : bool := (status =? 401) || (status =? 404) || (status =? 410).

Definition is_server_error (status : Z) : bool := (500 <=? status) && (status <? 600).
Definition is_success (status : Z) : bool := (200 <=? status) && (status <? 300).

Definition worth_retrying (status : Z) : bool := (status =? 429) || (status =? 408) || is_server_error status.

(** [str::trim_start_matches] on a pattern: it is removed as often as it is
    there. *)
Fixpoint trim_prefixes (fuel : nat) (pat s : str) : str :=
  match fuel with
  | O => s
  | S fuel => match strip_prefix s pat with Some s => trim_prefixes fuel pat s | None => s end
  end.

Definition api_host : str :=
  let s := trim_prefixes (length API_URL) (lit "https://") API_URL in
  let s := trim_prefixes (length API_URL) (lit "http://") s in
  default (lit "api.cloudflareclient.com") (hd_error (split 47 s)).

Definition front_headers (bearer jwt : option str) : list (str * str) :=
  [(lit "Content-Type", lit "application/json; charset=UTF-8"); (lit "User-Agent", UA_REGISTER);
   (lit "CF-Client-Version", CF_CLIENT_VERSION); (lit "Accept", lit "application/json")] ++
  (match bearer with Some t => [(lit "Authorization", lit "Bearer " ++ t)] | None => [] end) ++
  (match jwt with Some t => [(lit "CF-Access-Jwt-Assertion", t)] | None => [] end).

Definition base_headers : list (str * str) :=
  [(lit "Content-Type", lit "application/json; charset=UTF-8"); (lit "Connection", lit "Keep-Alive");
   (lit "CF-Client-Version", CF_CLIENT_VERSION)].

(** ** Describing an error *)

Section Descriptions.
Context `{WebLibs}.

(** [Display] for [i64] *)
Definition show_int (n : Z) : str := if n <? 0 then 45 :: show_uint (- n) else show_uint n.

Definition api_error_part (entry : json) : str :=
  let message := default (lit "unknown") (json_get entry (lit "message") ≫= as_str) in
  match json_get entry (lit "code") ≫= as_i64 with
  | Some code => message ++ lit " (code " ++ show_int code ++ lit ")"
  | None => message
  end.

Fixpoint join (sep : str) (parts : list str) : str :=
  match parts with
  | [] => []
  | [p] => p
  | p :: parts => p ++ sep ++ join sep parts
  end.

Definition extract_api_error (body : str) : option str :=
  value ← json_value (utf8 body);
  errors ← json_get value (lit "errors") ≫= as_array;
  match api_error_part <$> errors with
  | [] => None
  | parts => Some (join (lit "; ") parts)
  end.

Definition describe_rejection (status : Z) (body : str) : str :=
  let detail := match extract_api_error body with
                | Some d => d
                | None =>
                    let trimmed := trim body in
                    if str_eqb trimmed [] then lit "no details returned"
                    else if 220 <? zlen trimmed then ztake 220 trimmed ++ [8230] else trimmed
                end in
  let hint :=
    if status =? 403 then
      lit " (cloudflare refused this network; the address looks flagged, " ++
      lit "try again later, switch network, or import an existing identity)"
    else if status =? 429 then
      lit " (too many registrations from this address; wait a few minutes before trying again)"
    else [] in
  lit "status " ++ status_display status ++ lit ": " ++ detail ++ hint.

(** [StatusCode::from_u16] takes three digits. *)
Definition describe_status (status : Z) (body : str) : str :=
  if (100 <=? status) && (status <? 1000) then describe_rejection status body
  else lit "status " ++ show_uint status ++ lit ": " ++ body.

End Descriptions.

(** ** Calls *)

(** A request as the direct route sends it. *)
Record direct_request := mkDirect {
  dr_method : str;
  dr_url : str;
  dr_headers : list (str * str);
  dr_bearer : option str;
  dr_body : option request_body
}.

(** The answer to one attempt: an error of sending it, or a status, the
    Retry-After header and the text, with the error of reading it. *)
Inductive http_answer :=
| SendError (msg : str)
| Answered (status : Z) (retry : option (list Z)) (text : str + str).

(** How the HTTP client is built: the upstream's proxy, if one is configured,
    and the error of [build]. *)
Record client_build := mkClient { upstream_proxy : option (aresult unit); build_error : option str }.

Definition http_client (c : client_build) : aresult unit :=
  _ ← (match upstream_proxy c with Some p => p | None => Done tt end);
  match build_error c with Some e => Fail (Api e) | None => Done tt end.

(** What one call meets: the socket mark, the client and the answer of each
    direct attempt, the addresses and the net of the camouflaged route. *)
Record api_world := mkWorld {
  mark : Z;
  clients : nat -> client_build;
  direct_net : nat -> direct_request -> http_answer;
  edges : list SocketAddr;
  front_net : SocketAddr -> Fingerprint -> attempt
}.

(** What a call does on the direct route: waits, in milliseconds, and
    requests. *)
Inductive call_event := Waited (ms : Z) | Sent (q : direct_request).

Section Calls.
Context `{UnicodeData} `{WebLibs} `{AccountLibs} `{ErrorTexts}.
Context {R : Type} `{Rng R}.

(** What an answer leads to: the end of the call, or an error and another
    attempt. *)
Definition judge (label : str) (a : http_answer) : aresult AccountData + AetherError :=
  match a with
  | SendError e => inr (Api (label ++ lit ": " ++ e))
  | Answered _ _ (inr e) => inl (Fail (Api (label ++ lit ": " ++ e)))
  | Answered status _ (inl body) =>
      if is_success status then
        inl (match account_of_json body with
             | inl account => Done account
             | inr e => Fail (Api (label ++ lit " decode: " ++ e ++ lit " (" ++ show_uint (zlen (utf8 body)) ++
                                   lit " byte answer)"))
             end)
      else
        let described := label ++ lit ": " ++ describe_rejection status body in
        let error := if refuses_identity status then IdentityRefused described else Api described in
        if worth_retrying status then inr error else inl (Fail error)
  end.

(** The wait an answer asks for. *)
Definition cooldown (a : http_answer) : list call_event :=
  match a with
  | Answered _ retry (inl _) => match retry_after retry with Some ms => [Waited ms] | None => [] end
  | _ => []
  end.

(** [for attempt in 0..API_ATTEMPTS] *)
Fixpoint attempts (n attempt : nat) (label : str) (w : api_world) (build : direct_request) (last_error : AetherError)
  (r : R) : list call_event * aresult AccountData * R :=
  match n with
  | O => ([], Fail last_error, r)
  | S n =>
      let '(pre, r) :=
        match attempt with
        | O => ([], r)
        | S k => let '(word, r) := draw r in ([Waited (backoff_delay (Z.of_nat k) word)], r)
        end in
      match http_client (clients w attempt) with
      | Done _ =>
          let answer := direct_net w attempt build in
          match judge label answer with
          | inl result => (pre ++ [Sent build], result, r)
          | inr error =>
              let '(rest, result, r) := attempts n (S attempt) label w build error r in
              (pre ++ Sent build :: cooldown answer ++ rest, result, r)
          end
      | Fail e => (pre, Fail e, r)
      | Panic => (pre, Panic, r)
      | Diverge => (pre, Diverge, r)
      end
  end.

Definition marked (label : str) : AetherError :=
  Api (label ++ lit ": the direct route cannot carry the socket mark, so it would loop back into the tunnel").

Definition send_with_retry (label : str) (w : api_world) (build : direct_request) (r : R)
  : list call_event * aresult AccountData * R :=
  if negb (mark w =? 0) then ([], Fail (marked label), r)
  else attempts API_ATTEMPTS 0 label w build (Api (label ++ lit ": no attempt was made")) r.

(** The name of a route. *)
Definition show_route (route : SocketAddr * Fingerprint) : str :=
  show_socket_addr route.1 ++ lit " / " ++ ApiFront.label route.2.

Definition fallback_call (label : str) (w : api_world) (method path : str) (body : option (list Z))
  (bearer jwt : option str) : aresult AccountData :=
  response ← fetch (front_net w) (mkRequest method api_host path (front_headers bearer jwt) body) (edges w);
  let route := show_route (route response) in
  if (200 <=? status response) && (status response <? 300) then
    match account_of_json (text response) with
    | inl account => Done account
    | inr e => Fail (Api (label ++ lit " decode over " ++ route ++ lit ": " ++ e ++ lit " (" ++
                          show_uint (zlen (utf8 (text response))) ++ lit " byte answer)"))
    end
  else
    let described := label ++ lit " over " ++ route ++ lit ": " ++ describe_status (status response) (text response) in
    if refuses_identity (status response) then Fail (IdentityRefused described) else Fail (Api described).

(** The direct route, then the camouflaged one; [merge] makes the error of the
    two errors. *)
Definition two_routes (label : str) (w : api_world) (build : direct_request) (path : str) (body : option (list Z))
  (bearer jwt : option str) (merge : AetherError -> AetherError -> AetherError) (r : R)
  : list call_event * aresult AccountData * R :=
  let '(l, direct, r) := send_with_retry label w build r in
  (l, match direct with
      | Fail primary => map_err (merge primary) (fallback_call label w (dr_method build) path body bearer jwt)
      | direct => direct
      end, r).

Definition both_failed (label : str) (primary secondary : AetherError) : AetherError :=
  Api (label ++ lit ": direct route -> " ++ error_display primary ++ lit "; camouflaged route -> " ++
       error_display secondary).

Definition reg_path : str := 47 :: API_VERSION ++ lit "/reg".
Definition device_path (id : str) : str := reg_path ++ 47 :: id.

(** [serde_json::to_vec] of a body, then the call. *)
Definition encoded {A} (body : request_body) (r : R) (k : list Z -> list call_event * aresult A * R)
  : list call_event * aresult A * R :=
  match json_of_body body with
  | inl bytes => k bytes
  | inr e => ([], Fail (Api (lit "encode: " ++ e)), r)
  end.

(** A clamped private key and its public half. *)
Definition generate_x25519_keypair (r : R) : (list Z * str) * R :=
  let '(bytes, r) := fill_bytes 32 r in
  let private := alter (fun b => Z.land b 248) 0%nat bytes in
  let private := alter (fun b => Z.lor (Z.land b 127) 64) 31%nat private in
  ((private, base64_encode (x25519_public private)), r).

(** [hex::encode] *)
Definition hex_encode (l : list Z) : str :=
  flat_map (fun b => [default 0 (zget (lit "0123456789abcdef") (b / 16));
                      default 0 (zget (lit "0123456789abcdef") (b `mod` 16))]) l.

Definition random_android_serial (r : R) : str * R :=
  let '(s, r) := fill_bytes 8 r in (hex_encode s, r).

Definition registration_body (key serial model locale : str) : Registration :=
  mkRegistration key [] [] tos_timestamp model serial [] (lit "curve25519") (lit "wireguard") locale.

Definition with_jwt (jwt : option str) : list (str * str) :=
  match jwt with Some t => [(lit "CF-Access-Jwt-Assertion", t)] | None => [] end.

Definition register (w : api_world) (model locale : str) (jwt : option str) (r : R)
  : list call_event * aresult (AccountData * list Z) * R :=
  let '((private, public), r) := generate_x25519_keypair r in
  let '(serial, r) := random_android_serial r in
  let body := RegistrationBody (registration_body public serial model locale) in
  encoded body r (fun bytes =>
    let '(l, account, r) :=
      two_routes (lit "registration") w
        (mkDirect (lit "POST") (API_URL ++ reg_path) (base_headers ++ with_jwt jwt) None (Some body))
        reg_path (Some bytes) None jwt (both_failed (lit "registration")) r in
    (l, (a ← account; Done (a, private)), r)).

Definition team_registration_body (key model locale : str) (r : R) : TeamRegistration * R :=
  let '(install_id, r) := generate_install_id r in
  let '(fcm_token, r) := generate_fcm_token install_id r in
  (mkTeamRegistration key install_id fcm_token tos_timestamp model install_id install_id locale, r).

Definition register_with_team (w : api_world) (model locale token : str) (r : R)
  : list call_event * aresult (AccountData * list Z) * R :=
  let '((private, public), r) := generate_x25519_keypair r in
  let '(team_body, r) := team_registration_body public model locale r in
  let body := TeamBody team_body in
  encoded body r (fun bytes =>
    let '(l, account, r) :=
      two_routes (lit "team registration") w
        (mkDirect (lit "POST") (API_URL ++ reg_path) (base_headers ++ with_jwt (Some token)) None (Some body))
        reg_path (Some bytes) None (Some token) (both_failed (lit "team registration")) r in
    (l, (a ← account; Done (a, private)), r)).

Definition enroll_key (w : api_world) (id token : str) (spki_der : list Z) (name : option str) (r : R)
  : list call_event * aresult AccountData * R :=
  let body := UpdateBody (mkDeviceUpdate (base64_encode spki_der) KEY_TYPE_MASQUE TUN_TYPE_MASQUE name) in
  encoded body r (fun bytes =>
    two_routes (lit "key enrollment") w
      (mkDirect (lit "PATCH") (API_URL ++ device_path id) base_headers (Some token) (Some body))
      (device_path id) (Some bytes) (Some token) None (both_failed (lit "key enrollment")) r).

Definition fetch_device (w : api_world) (id token : str) (r : R) : list call_event * aresult AccountData * R :=
  two_routes (lit "device refresh") w
    (mkDirect (lit "GET") (API_URL ++ device_path id) base_headers (Some token) None)
    (device_path id) None (Some token) None (fun _ secondary => secondary) r.

(** ** Provisioning *)

Definition endpoint_from (reg : AccountData) : str :=
  let raw := match peers (config reg) with p :: _ => trim (pe_v4 (endpoint p)) | [] => [] end in
  match rsplit_once 58 raw with
  | Some (host, _) => if str_eqb host [] then raw else host
  | None => raw
  end.

Definition extract_wg_peer (reg : AccountData) : aresult (list Z) :=
  match peers (config reg) with
  | [] => Fail (Api (lit "no peers in registration response"))
  | p :: _ =>
      match base64_decode (public_key p) with
      | inr e => Fail (Api (lit "decode peer pubkey: " ++ e))
      | inl decoded =>
          if negb (zlen decoded =? 32) then Fail (Api (lit "invalid peer pubkey length")) else Done decoded
      end
  end.

Definition no_client_id : list Z := [0; 0; 0].

Definition finish_provision (reg : AccountData) (wg_private : list Z) : aresult Identity :=
  if str_eqb (data_token reg) [] then Fail (Api (lit "registration returned empty token"))
  else
    wg_peer_public ← extract_wg_peer reg;
    let client_id :=
      if str_eqb (config_client_id (config reg)) [] then no_client_id
      else match base64_decode (config_client_id (config reg)) with
           | inl decoded => if zlen decoded =? 3 then decoded else no_client_id
           | inr _ => no_client_id
           end in
    let a := addresses (interface (config reg)) in
    Done (mkIdentity (data_id reg) (data_token reg) [] [] 0 (addr_v4 a) (addr_v6 a) wg_private wg_peer_public client_id
            (trim (account_organization (account reg))) (trim (http_proxy (services (config reg))))
            (endpoint_from reg) false).

Definition provision_wg (w : api_world) (model locale : str) (jwt : option str) (r : R)
  : list call_event * aresult Identity * R :=
  let '(l, reg, r) := register w model locale jwt r in
  (l, ('(reg, private) ← reg; finish_provision reg private), r).

(** [token] is what [resolve_token] gave. *)
Definition provision_team (w : api_world) (model locale : str) (token : aresult str) (r : R)
  : list call_event * aresult Identity * R :=
  match token with
  | Done token =>
      let '(l, reg, r) := register_with_team w model locale token r in
      (l, ('(reg, private) ← reg; finish_provision reg private), r)
  | Fail e => ([], Fail e, r)
  | Panic => ([], Panic, r)
  | Diverge => ([], Diverge, r)
  end.

(** ** The profile *)

(** The profile the API reported, onto the identity. *)
Definition apply_profile (reg : AccountData) (i : Identity) : Identity :=
  let v4 := trim (addr_v4 (addresses (interface (config reg)))) in
  let v6 := trim (addr_v6 (addresses (interface (config reg)))) in
  mkIdentity (device_id i) (access_token i) (cert_pem i) (key_pem i) (cert_issued_at i)
    (if str_eqb v4 [] then ipv4 i else v4) (if str_eqb v6 [] then ipv6 i else v6)
    (wg_private_key i) (wg_peer_public_key i) (id_client_id i)
    (trim (account_organization (account reg))) (trim (http_proxy (services (config reg)))) (endpoint_from reg) false.

Definition refresh_profile (w : api_world) (i : Identity) (r : R) : list call_event * opt Identity * R :=
  let '(l, answer, r) := fetch_device w (device_id i) (access_token i) r in
  (l, match answer with
      | Done reg => Done (apply_profile reg i)
      | Fail (IdentityRefused _) => Done (with_refused true i)
      | Fail _ => Done i
      | Panic => Panic
      | Diverge => Diverge
      end, r).

(** ** The MASQUE certificate *)

Definition masque_cert_expiring (now issued_at : Z) : bool :=
  if issued_at =? 0 then true
  else if now <? issued_at then true
  else MASQUE_CERT_LIFETIME_SECS <=? (now - issued_at) + MASQUE_CERT_RENEW_BEFORE_SECS.

Definition is_nil {A} (l : list A) : bool := zlen l =? 0.

Definition cert_still_usable (now : Z) (i : Identity) : bool :=
  if is_nil (cert_pem i) || is_nil (key_pem i) then false
  else if cert_issued_at i =? 0 then false
  else if now <? cert_issued_at i then false
  else now - cert_issued_at i <? MASQUE_CERT_LIFETIME_SECS.

Definition has_masque_credentials (now : Z) (i : Identity) : bool :=
  negb (is_nil (cert_pem i)) && negb (is_nil (key_pem i)) && negb (masque_cert_expiring now (cert_issued_at i)).

Record MasqueEnrollment := mkEnrollment {
  en_cert_pem : list Z;
  en_key_pem : list Z;
  en_issued_at : Z;
  renewed : bool
}.

Record MasqueKeyPair := mkKeyPair { kp_key_pem : list Z; kp_cert_pem : list Z; kp_spki_der : list Z }.

(** The clock when the certificate is looked at and when the enrolment has
    answered, and the key pair the TLS library made. *)
Record enroll_world := mkEnroll {
  now_before : Z;
  now_after : Z;
  generate_masque_keypair : aresult MasqueKeyPair;
  enroll_api : api_world
}.

Definition ensure_masque_enrolled (e : enroll_world) (i : Identity) (r : R)
  : list call_event * aresult MasqueEnrollment * R :=
  let usable := negb (is_nil (cert_pem i)) && negb (is_nil (key_pem i)) in
  let kept := mkEnrollment (cert_pem i) (key_pem i) (cert_issued_at i) false in
  if usable && negb (masque_cert_expiring (now_before e) (cert_issued_at i)) then ([], Done kept, r)
  else
    match generate_masque_keypair e with
    | Done keypair =>
        let '(l, answer, r) := enroll_key (enroll_api e) (device_id i) (access_token i) (kp_spki_der keypair) None r in
        (l, match answer with
            | Done _ => Done (mkEnrollment (kp_cert_pem keypair) (kp_key_pem keypair) (now_after e) true)
            | Fail error => if cert_still_usable (now_after e) i then Done kept else Fail error
            | Panic => Panic
            | Diverge => Diverge
            end, r)
    | Fail error => ([], Fail error, r)
    | Panic => ([], Panic, r)
    | Diverge => ([], Diverge, r)
    end.

End Calls.

(** ** Facts *)

(** What a device needs to build a tunnel. *)
Definition identity_wf (i : Identity) : Prop :=
  zlen (wg_private_key i) = 32 /\ bytes_ok (wg_private_key i) /\
  zlen (wg_peer_public_key i) = 32 /\ bytes_ok (wg_peer_public_key i) /\
  zlen (id_client_id i) = 3 /\ bytes_ok (id_client_id i).

(** base64 gives bytes. *)
Definition decodes_bytes `{WebLibs} : Prop := forall s l, base64_decode s = inl l -> bytes_ok l.

Definition waited (l : list call_event) : Z :=
  foldr (fun e n => match e with Waited ms => ms + n | Sent _ => n end) 0 l.
Definition sends (l : list call_event) : list direct_request :=
  omap (fun e => match e with Sent q => Some q | Waited _ => None end) l.

Lemma waited_app a b : waited (a ++ b) = waited a + waited b.
Proof. induction a as [|[ms|q] a IH]; cbn [app waited foldr] in *; [done| |done]. unfold waited in *. cbn. lia. Qed.

Lemma backoff_delay_bound attempt word :
  0 <= attempt -> 450 <= backoff_delay attempt word <= 12500 /\
  backoff_delay attempt word <= 750 * 2 ^ Z.min attempt 5.
Proof.
  intros Ha. unfold backoff_delay, API_BACKOFF_BASE_MS, API_BACKOFF_CAP_MS, saturating_mul.
  rewrite Z.shiftl_1_l. assert (Hp : 1 <= 2 ^ Z.min attempt 5 <= 32).
  { split; [change 1 with (2 ^ 0) at 1; apply Z.pow_le_mono_r; lia|].
    change 32 with (2 ^ 5). apply Z.pow_le_mono_r; lia. }
  set (p := 2 ^ Z.min attempt 5) in *. unfold u64_max. set (c := Z.min (Z.min (900 * p) _) 15000).
  assert (Hc : 900 <= c <= 15000 /\ c <= 900 * p) by (unfold c; lia).
  pose proof (Z.mod_pos_bound (u32 word) (c / 3 + 1)). Z.div_mod_to_equations. lia.
Qed.

Lemma retry_after_bound header ms : retry_after header = Some ms -> 0 <= ms <= 30000.
Proof.
  unfold retry_after. destruct (header ≫= header_text) as [raw|]; [|done]. cbn [mbind option_bind].
  destruct (parse_uint u64_max (trim raw)) as [s|] eqn:E; [|done]. intros [= <-].
  apply from_str_radix_range in E; [|lia]. unfold API_RETRY_AFTER_CAP_SECS. lia.
Qed.

Section CallFacts.
Context `{UnicodeData} `{WebLibs} `{AccountLibs} `{ErrorTexts}.
Context {R : Type} `{Rng R}.

Lemma cooldown_waits a : 0 <= waited (cooldown a) <= 30000 /\ sends (cooldown a) = [].
Proof.
  destruct a as [e|status retry [body|e]]; cbn [cooldown]; [by cbn| |by cbn].
  destruct (retry_after retry) as [ms|] eqn:E; [|by cbn]. apply retry_after_bound in E. split; [cbn; lia|done].
Qed.

(** The first answer that ends the call decides it, else the last error. *)
Fixpoint decided (l : list (aresult AccountData + AetherError)) (last : AetherError) : aresult AccountData :=
  match l with
  | [] => Fail last
  | inl r :: _ => r
  | inr e :: l => decided l e
  end.

Fixpoint undecided (l : list (aresult AccountData + AetherError)) : nat :=
  match l with
  | [] => 0
  | inl _ :: _ => 1
  | inr _ :: l => S (undecided l)
  end.

Definition verdicts (label : str) (w : api_world) (q : direct_request) (k n : nat) :=
  (fun i => judge label (direct_net w i q)) <$> seq k n.

Definition clients_ok (w : api_world) : Prop := forall k, http_client (clients w k) = Done tt.

(** The waits before the attempts from [k] on. *)
Fixpoint backoffs (k n : nat) : Z :=
  match n with
  | O => 0
  | S n => match k with O => 0 | S j => Z.min 12500 (750 * 2 ^ Z.min (Z.of_nat j) 5) end + 30000 + backoffs (S k) n
  end.

Lemma attempts_spec label w q : clients_ok w -> forall n k last (r : R),
  let '(l, result, _) := attempts n k label w q last r in
  result = decided (verdicts label w q k n) last /\
  sends l = repeat q (undecided (verdicts label w q k n)) /\
  0 <= waited l <= backoffs k n.
Proof.
  intros Hc n. induction n as [|n IH]; intros k last r; [by cbn|].
  cbn [attempts]. set (pre := match k with O => ([], r) | S j => _ end).
  assert (Hpre : 0 <= waited pre.1 <= match k with O => 0 | S j => Z.min 12500 (750 * 2 ^ Z.min (Z.of_nat j) 5) end /\
                 sends pre.1 = []).
  { unfold pre. destruct k as [|j]; [by cbn|]. destruct (draw r) as [word r']. split; [|done]. cbn.
    pose proof (backoff_delay_bound (Z.of_nat j) word ltac:(lia)). lia. }
  destruct pre as [p r']. cbn [fst] in Hpre. destruct Hpre as [Hw Hs]. rewrite Hc.
  unfold verdicts. cbn [seq fmap list_fmap]. fold (verdicts label w q (S k) n).
  assert (Hb : 0 <= backoffs (S k) n).
  { clear. revert k. induction n as [|n IH]; intros k; [done|]. cbn [backoffs]. specialize (IH (S k)).
    pose proof (Z.pow_nonneg 2 (Z.min (Z.of_nat k) 5)). lia. }
  assert (Hsa : forall a b, sends (a ++ b) = sends a ++ sends b) by (intros; unfold sends; apply omap_app).
  cbn [backoffs]. destruct (judge label (direct_net w k q)) as [result|error] eqn:Ej; cbn [decided undecided].
  - split; [done|]. rewrite Hsa, waited_app, Hs. cbn. split; [done|]. lia.
  - specialize (IH (S k) error r'). destruct (attempts n (S k) label w q error r') as [[l result] r''].
    destruct IH as (-> & Hl & Hwl). split; [done|].
    destruct (cooldown_waits (direct_net w k q)) as [Hcw Hcs].
    rewrite Hsa. change (sends (Sent q :: cooldown (direct_net w k q) ++ l))
      with (q :: sends (cooldown (direct_net w k q) ++ l)). rewrite Hsa, Hs, Hcs, Hl. split; [done|].
    rewrite waited_app. change (waited (Sent q :: cooldown (direct_net w k q) ++ l))
      with (waited (cooldown (direct_net w k q) ++ l)). rewrite waited_app. lia.
Qed.

Lemma undecided_le l : (undecided l <= length l)%nat.
Proof. induction l as [|[r|e] l IH]; cbn; lia. Qed.

Lemma send_with_retry_spec label w q (r : R) :
  clients_ok w -> mark w = 0 ->
  let '(l, result, _) := send_with_retry label w q r in
  result = decided (verdicts label w q 0 API_ATTEMPTS) (Api (label ++ lit ": no attempt was made")) /\
  sends l = repeat q (undecided (verdicts label w q 0 API_ATTEMPTS)) /\
  0 <= waited l <= 161250.
Proof.
  intros Hc Hm. unfold send_with_retry. rewrite Hm. cbn [Z.eqb negb].
  pose proof (attempts_spec label w q Hc API_ATTEMPTS 0 (Api (label ++ lit ": no attempt was made")) r) as Ha.
  destruct (attempts _ _ _ _ _ _ _) as [[l result] r']. destruct Ha as (? & ? & ?). split; [done|]. split; [done|].
  change (backoffs 0 API_ATTEMPTS) with 161250 in *. done.
Qed.

(** *** What a call ends with *)

Lemma judge_total label a : match judge label a with inl r => terminates r | inr _ => True end.
Proof.
  destruct a as [e|status retry [body|e]]; cbn [judge]; [done| |done].
  destruct (is_success status); [by destruct (account_of_json body)|]. by destruct (worth_retrying status).
Qed.

Lemma decided_total label w q k n last : terminates (decided (verdicts label w q k n) last).
Proof.
  revert k last. induction n as [|n IH]; intros k last; [done|]. unfold verdicts. cbn [seq fmap list_fmap decided].
  pose proof (judge_total label (direct_net w k q)) as Ht. destruct (judge _ _); [done|]. apply IH.
Qed.

Lemma send_total label w q (r : R) : clients_ok w -> terminates (send_with_retry label w q r).1.2.
Proof.
  intros Hc. destruct (Z.eq_dec (mark w) 0) as [Hm|Hm].
  - pose proof (send_with_retry_spec label w q r Hc Hm) as Hs.
    destruct (send_with_retry label w q r) as [[l result] r']. destruct Hs as (-> & _ & _). apply decided_total.
  - unfold send_with_retry. by rewrite (proj2 (Z.eqb_neq _ _)).
Qed.

(** What the camouflaged route answers. *)
Definition front_response (w : api_world) (method path : str) (body : option (list Z)) (bearer jwt : option str)
  : aresult ApiResponse :=
  fetch (front_net w) (mkRequest method api_host path (front_headers bearer jwt) body) (edges w).

(** The connections of the camouflaged route end, and never in a refusal. *)
Definition plain (e : AetherError) : Prop := forall m, e <> IdentityRefused m.
Definition front_ends (w : api_world) : Prop :=
  forall a f, wp (established (front_net w a f)) (fun _ => True) plain /\
    forall d, wp (exchanged (front_net w a f) d) (fun _ => True) plain.

Lemma parse_response_plain raw : wp (parse_response raw) (fun _ => True) plain.
Proof.
  assert (Ha : forall m, plain (Api m)) by (intros m m'; discriminate).
  pose proof (parse_response_total raw) as Ht. unfold parse_response in *.
  destruct (find_sub _ _) as [i|]; [|apply Ha].
  destruct (slice (E := AetherError) raw 0 i) as [h| | |] eqn:E1; try done; cbn [mbind outcome_bind] in *.
  2: { unfold slice in E1. by destruct (in_slice _ _ _). }
  destruct (slice (E := AetherError) raw (i + 4) (zlen raw)) as [b| | |] eqn:E2; try done; cbn [mbind outcome_bind] in *.
  2: { unfold slice in E2. by destruct (in_slice _ _ _). }
  destruct (split_crlf _) as [|status_line lines]; [apply Ha|].
  destruct (word ← _ !! _; _) as [st|]; [|apply Ha]. destruct (existsb is_chunked lines); [|done].
  destruct (dechunk b); try done; cbn [wp] in *; apply Ha.
Qed.

Lemma exchange_plain net q a f :
  wp (established (net a f)) (fun _ => True) plain -> (forall d, wp (exchanged (net a f) d) (fun _ => True) plain) ->
  wp (exchange net q a f) (fun _ => True) plain.
Proof.
  intros He Hx. unfold exchange. apply wp_bind. eapply wp_mono; [exact He| |done]. intros _ _.
  apply wp_bind. eapply wp_mono; [apply Hx| |done]. intros chunks _.
  apply wp_bind. eapply wp_mono; [apply parse_response_plain| |done]. by intros [st t] _.
Qed.

Lemma fetch_loop_plain net q routes : forall rejection failure,
  (forall a f, wp (exchange net q a f) (fun _ => True) plain) ->
  match failure with Some e => plain e | None => True end ->
  wp (fetch_loop net q routes rejection failure) (fun _ => True) plain.
Proof.
  induction routes as [|[f a] routes IH]; intros rejection failure Hx Hf; cbn [fetch_loop].
  - destruct rejection; [done|]. by destruct failure.
  - pose proof (Hx a f) as Ha. destruct (exchange net q a f) as [r|e| |]; try done; [|by apply IH].
    destruct (success r); [done|]. by apply IH.
Qed.

Lemma front_plain w method path body bearer jwt :
  front_ends w -> wp (front_response w method path body bearer jwt) (fun _ => True) plain.
Proof.
  intros Hf. unfold front_response, fetch. destruct (edges w) as [|a l]; [done|].
  apply fetch_loop_plain; [|done]. intros a' f. destruct (Hf a' f). by apply exchange_plain.
Qed.

(** A refusal of the camouflaged route is an answer that refuses. *)
Lemma fallback_spec label w method path body bearer jwt :
  front_ends w ->
  match fallback_call label w method path body bearer jwt with
  | Done account => exists a, front_response w method path body bearer jwt = Done a /\ account_of_json (text a) = inl account
  | Fail (IdentityRefused _) =>
      exists a, front_response w method path body bearer jwt = Done a /\ refuses_identity (status a) = true
  | Fail _ => True
  | _ => False
  end.
Proof.
  intros Hf. pose proof (front_plain w method path body bearer jwt Hf) as Ht. unfold fallback_call.
  unfold front_response in *. destruct (fetch _ _ _) as [a|e| |]; try done; cbn [mbind outcome_bind].
  - destruct ((200 <=? status a) && (status a <? 300)).
    + destruct (account_of_json (text a)) eqn:E; [|done]. eauto.
    + destruct (refuses_identity (status a)) eqn:E; [|done]. eauto.
  - destruct e; try done. by destruct (Ht msg).
Qed.

(** *** Both routes *)

Lemma two_routes_end label w q path body bearer jwt merge (r : R) :
  clients_ok w -> front_ends w ->
  match (two_routes label w q path body bearer jwt merge r).1.2 with
  | Done _ => True
  | Fail e => exists primary secondary, e = merge primary secondary /\
      fallback_call label w (dr_method q) path body bearer jwt = Fail secondary
  | _ => False
  end.
Proof.
  intros Hc Hf. unfold two_routes. pose proof (send_total label w q r Hc) as Hs.
  destruct (send_with_retry label w q r) as [[l direct] r']. cbn [fst snd] in *.
  destruct direct as [a|primary| |]; try done.
  pose proof (fallback_spec label w (dr_method q) path body bearer jwt Hf) as Hb.
  destruct (fallback_call _ _ _ _ _ _ _) as [a|e| |]; cbn [map_err]; try done. by exists primary, e.
Qed.

(** A device is refused on the word of the camouflaged route alone. *)
Definition front_refuses (w : api_world) (i : Identity) : Prop :=
  exists a, front_response w (lit "GET") (device_path (device_id i)) None (Some (access_token i)) None = Done a /\
    refuses_identity (status a) = true.

Lemma fetch_device_spec w i (r : R) :
  clients_ok w -> front_ends w ->
  match (fetch_device w (device_id i) (access_token i) r).1.2 with
  | Done _ => True
  | Fail (IdentityRefused _) => front_refuses w i
  | Fail _ => True
  | _ => False
  end.
Proof.
  intros Hc Hf. unfold fetch_device. set (m := fun _ secondary : AetherError => secondary).
  pose proof (two_routes_end (lit "device refresh") w
    (mkDirect (lit "GET") (API_URL ++ device_path (device_id i)) base_headers (Some (access_token i)) None)
    (device_path (device_id i)) None (Some (access_token i)) None m r Hc Hf) as Ht.
  destruct (two_routes _ _ _ _ _ _ _ _ _) as [[l [a|e| |]] r']; cbn [fst snd] in *; try done.
  destruct Ht as (p & s & -> & Hs). unfold m. cbn [dr_method] in Hs.
  pose proof (fallback_spec (lit "device refresh") w (lit "GET") (device_path (device_id i)) None
    (Some (access_token i)) None Hf) as Hb. rewrite Hs in Hb. by destruct s.
Qed.

Lemma both_failed_plain label p s : plain (both_failed label p s).
Proof. intros m. discriminate. Qed.

(** The error of an enrolment is never a refusal, whatever the API said. *)
Lemma enroll_key_plain w id token spki name (r : R) :
  clients_ok w -> front_ends w -> wp (enroll_key w id token spki name r).1.2 (fun _ => True) plain.
Proof.
  intros Hc Hf. unfold enroll_key, encoded. destruct (json_of_body _) as [bytes|e]; [|intros m; discriminate].
  set (q := mkDirect _ _ _ _ _).
  pose proof (two_routes_end (lit "key enrollment") w q (device_path id) (Some bytes) (Some token) None
    (both_failed (lit "key enrollment")) r Hc Hf) as Ht.
  destruct (two_routes _ _ _ _ _ _ _ _ _) as [[l [a|e| |]] r']; cbn [fst snd wp] in *; try done.
  destruct Ht as (p & s & -> & _). apply both_failed_plain.
Qed.

(** *** Keys *)

Definition clamped (key : list Z) : Prop :=
  exists a mid z, key = a :: mid ++ [z] /\ Z.land a 7 = 0 /\ 64 <= z < 128.

Lemma byte_clamps b : byte_ok b ->
  (byte_ok (Z.land b 248) /\ Z.land (Z.land b 248) 7 = 0) /\ 64 <= Z.lor (Z.land b 127) 64 < 128.
Proof.
  intros Hb.
  set (f := fun b => (0 <=? Z.land b 248) && (Z.land b 248 <? 256) && (Z.land (Z.land b 248) 7 =? 0) &&
     (64 <=? Z.lor (Z.land b 127) 64) && (Z.lor (Z.land b 127) 64 <? 128)).
  assert (Hf : f b = true) by (apply (all_bytes_spec f); [by vm_compute|done]). unfold f in Hf. unfold byte_ok. lia.
Qed.

Lemma keypair_spec (r : R) :
  let '((private, public), _) := generate_x25519_keypair r in
  zlen private = 32 /\ bytes_ok private /\ clamped private /\ public = base64_encode (x25519_public private).
Proof.
  unfold generate_x25519_keypair. pose proof (fill_bytes_spec 32 r ltac:(lia)) as [Hl Hb].
  destruct (fill_bytes 32 r) as [bytes r']. cbn [fst] in *.
  destruct bytes as [|a bytes]; [done|]. destruct (@exists_last _ bytes) as (mid & z & ->).
  { intros ->. done. }
  assert (Hm : length mid = 30%nat) by (unfold zlen in Hl; cbn [length] in Hl; rewrite length_app in Hl; cbn in Hl; lia).
  assert (Ha : byte_ok a) by (by inversion Hb). assert (Hz : byte_ok z).
  { inversion Hb as [|? ? _ Ht]. by apply Forall_app in Ht as [_ Ht%Forall_inv]. }
  set (f := fun b => Z.lor (Z.land b 127) 64).
  assert (E : alter f 31%nat (alter (fun b => Z.land b 248) 0%nat (a :: mid ++ [z])) = Z.land a 248 :: mid ++ [f z]).
  { cbn [alter list_alter]. change (list_alter f 30%nat (mid ++ [z])) with (alter f 30%nat (mid ++ [z])).
    by rewrite alter_app_r_alt, Hm by lia. }
  rewrite E. destruct (byte_clamps a Ha) as [[Hga H7] _]. destruct (byte_clamps z Hz) as [_ Hgz].
  split; [by rewrite zlen_cons, zlen_app in *|]. split.
  { inversion Hb as [|? ? _ Ht]; subst. apply Forall_app in Ht as [Ht _]. constructor; [done|].
    apply Forall_app. split; [done|]. constructor; [|constructor]. unfold byte_ok, f. lia. }
  split; [|done]. by exists (Z.land a 248), mid, (f z).
Qed.

(** *** Provisioning *)

Lemma finish_provision_spec reg private :
  zlen private = 32 -> bytes_ok private -> decodes_bytes ->
  wp (finish_provision reg private)
     (fun i => identity_wf i /\ wg_private_key i = private /\ device_id i = data_id reg /\ access_token i = data_token reg /\
        access_token i <> [] /\ refused i = false) plain.
Proof.
  intros Hl Hb Hd. assert (Ha : forall m, plain (Api m)) by (intros m m'; discriminate).
  unfold finish_provision. destruct (str_eqb (data_token reg) []) eqn:Et; [apply Ha|]. apply wp_bind. unfold extract_wg_peer.
  destruct (peers (config reg)) as [|p ps]; [apply Ha|]. destruct (base64_decode (public_key p)) as [key|e] eqn:Ek; [|apply Ha].
  destruct (Z.eqb_spec (zlen key) 32) as [Hk|]; cbn [negb]; [|apply Ha]. cbn [wp].
  set (cid := if str_eqb (config_client_id (config reg)) [] then _ else _).
  assert (Hcid : zlen cid = 3 /\ bytes_ok cid).
  { assert (Hz : zlen no_client_id = 3 /\ bytes_ok no_client_id).
    { split; [done|]. repeat constructor; done. }
    unfold cid. dest_if; [done|]. destruct (base64_decode (config_client_id (config reg))) as [d|] eqn:Ed; [|done]. dest_if; [|done].
    split; [by apply Z.eqb_eq|]. by eapply Hd. }
  split; [|split; [done|split; [done|split; [done|split; [|done]]]]].
  - unfold identity_wf. cbn. destruct Hcid. split; [done|]. split; [done|]. split; [done|]. split; [by eapply Hd|]. done.
  - cbn. intros E. rewrite E in Et. done.
Qed.

Lemma provision_wg_spec w model locale jwt (r : R) :
  clients_ok w -> front_ends w -> decodes_bytes ->
  wp (provision_wg w model locale jwt r).1.2
     (fun i => identity_wf i /\ clamped (wg_private_key i) /\ access_token i <> [] /\ refused i = false) plain.
Proof.
  intros Hc Hf Hd. unfold provision_wg, register. pose proof (keypair_spec r) as Hk.
  destruct (generate_x25519_keypair r) as [[private public] r1]. destruct Hk as (Hl & Hb & Hcl & _).
  destruct (random_android_serial r1) as [serial r2]. unfold encoded.
  destruct (json_of_body _) as [bytes|e]; [|intros m; discriminate]. set (q := mkDirect _ _ _ _ _).
  pose proof (two_routes_end (lit "registration") w q reg_path (Some bytes) None jwt
    (both_failed (lit "registration")) r2 Hc Hf) as Ht.
  destruct (two_routes _ _ _ _ _ _ _ _ _) as [[l [a|e| |]] r3]; cbn [fst snd mbind outcome_bind wp] in *; try done.
  - eapply wp_mono; [by apply (finish_provision_spec a private)| |done]. cbn. intros i (Hwf & -> & _ & _ & Ht' & Hr). done.
  - destruct Ht as (p & s & -> & _). apply both_failed_plain.
Qed.

Lemma provision_team_spec w model locale token (r : R) :
  clients_ok w -> front_ends w -> decodes_bytes ->
  match token with Done _ => True | Fail e => plain e | _ => False end ->
  wp (provision_team w model locale token r).1.2
     (fun i => identity_wf i /\ clamped (wg_private_key i) /\ access_token i <> [] /\ refused i = false) plain.
Proof.
  intros Hc Hf Hd Htok. unfold provision_team, register_with_team. destruct token as [token|e| |]; try done.
  pose proof (keypair_spec r) as Hk.
  destruct (generate_x25519_keypair r) as [[private public] r1]. destruct Hk as (Hl & Hb & Hcl & _).
  destruct (team_registration_body public model locale r1) as [tb r2]. unfold encoded.
  destruct (json_of_body _) as [bytes|e]; [|intros m; discriminate]. set (q := mkDirect _ _ _ _ _).
  pose proof (two_routes_end (lit "team registration") w q reg_path (Some bytes) None (Some token)
    (both_failed (lit "team registration")) r2 Hc Hf) as Ht.
  destruct (two_routes _ _ _ _ _ _ _ _ _) as [[l [a|e| |]] r3]; cbn [fst snd mbind outcome_bind wp] in *; try done.
  - eapply wp_mono; [by apply (finish_provision_spec a private)| |done]. cbn. intros i (Hwf & -> & _ & _ & Ht' & Hr). done.
  - destruct Ht as (p & s & -> & _). apply both_failed_plain.
Qed.

(** *** Refreshing *)

(** What a refresh may not touch. *)
Definition same_device (i i' : Identity) : Prop :=
  device_id i' = device_id i /\ access_token i' = access_token i /\ cert_pem i' = cert_pem i /\ key_pem i' = key_pem i /\
  cert_issued_at i' = cert_issued_at i /\ wg_private_key i' = wg_private_key i /\
  wg_peer_public_key i' = wg_peer_public_key i /\ id_client_id i' = id_client_id i /\
  (ipv4 i <> [] -> ipv4 i' <> []) /\ (ipv6 i <> [] -> ipv6 i' <> []).

(** An address after a profile that reports [reported]: the reported one, the
    old one where none is reported. *)
Definition readdressed (reported old new : str) : Prop :=
  (trim reported = [] -> new = old) /\ (trim reported <> [] -> new = trim reported).

Lemma readdressed_spec reported old :
  readdressed reported old (if str_eqb (trim reported) [] then old else trim reported).
Proof.
  unfold readdressed. destruct (str_eqb (trim reported) []) eqn:E; [apply str_eqb_eq in E|]; split; try done.
  intros E'. by rewrite E' in E.
Qed.

(** What the answer of the API makes of the profile: a report replaces the
    addresses it names and the team's settings and lifts a refusal; without
    one all of them stay, and a refusal is noted. *)
Definition profile_follows (answer : aresult AccountData) (i i' : Identity) : Prop :=
  match answer with
  | Done reg =>
      readdressed (addr_v4 (addresses (interface (config reg)))) (ipv4 i) (ipv4 i') /\
      readdressed (addr_v6 (addresses (interface (config reg)))) (ipv6 i) (ipv6 i') /\
      organization i' = trim (account_organization (account reg)) /\
      gateway_proxy i' = trim (http_proxy (services (config reg))) /\
      assigned_endpoint i' = endpoint_from reg /\ refused i' = false
  | _ =>
      ipv4 i' = ipv4 i /\ ipv6 i' = ipv6 i /\ organization i' = organization i /\ gateway_proxy i' = gateway_proxy i /\
      assigned_endpoint i' = assigned_endpoint i /\
      refused i' = (if answer is Fail (IdentityRefused _) then true else refused i)
  end.

Lemma refresh_profile_follows w i (r : R) :
  clients_ok w -> front_ends w ->
  wp (refresh_profile w i r).1.2
     (profile_follows (fetch_device w (device_id i) (access_token i) r).1.2 i) (fun _ => False).
Proof.
  intros Hc Hf. pose proof (fetch_device_spec w i r Hc Hf) as Hd. unfold refresh_profile.
  destruct (fetch_device _ _ _ _) as [[l [reg|e| |]] r']; cbn [fst snd] in *; try done.
  - cbn. split_and!; try done; apply readdressed_spec.
  - by destruct e.
Qed.

Lemma refresh_profile_spec w i (r : R) :
  clients_ok w -> front_ends w ->
  wp (refresh_profile w i r).1.2
     (fun i' => same_device i i' /\ (refused i' = true -> refused i = true \/ front_refuses w i)) (fun _ => False).
Proof.
  intros Hc Hf. pose proof (fetch_device_spec w i r Hc Hf) as Hd. unfold refresh_profile.
  destruct (fetch_device _ _ _ _) as [[l [reg|e| |]] r']; cbn [fst snd] in *; try done.
  - split; [|done]. unfold same_device, apply_profile. cbn. split_and!; try done.
    + dest_if; [done|]. intros _ E'. by rewrite E' in E.
    + dest_if; [done|]. intros _ E'. by rewrite E' in E.
  - assert (Hs : same_device i i) by (unfold same_device; split_and!; done).
    destruct e; cbn [wp]; try (split; [exact Hs|]; intros ->; by left).
    split; [|by right]. unfold same_device. split_and!; done.
Qed.

End CallFacts.

(** ** Property *)

(** C30: calls to the account API.  A direct call sends its request at most
    five times, no further than the first answer that is not worth retrying,
    which is then its result, with waits of at most 161.25 seconds in all; a
    profile refresh always ends and keeps the device, its token, its keys and
    its certificate; each address becomes the one the API reports and stays
    where it reports none, and nothing but the mark of a refusal changes when
    there is no report; an identity is marked refused only when the
    camouflaged route answered 401, 404 or 410; registering ends with an error
    or with an identity whose keys have their lengths, the private one clamped
    for X25519, and with a token; an enrolment fails with an error that is
    never a refusal. *)
Theorem account_calls_sound `{UnicodeData} `{WebLibs} `{AccountLibs} `{ErrorTexts} {R} `{Rng R}
  w label q model locale jwt i spki (r : R) :
  clients_ok w -> front_ends w -> decodes_bytes -> mark w = 0 ->
  (let '(l, result, _) := send_with_retry label w q r in
   result = decided (verdicts label w q 0 API_ATTEMPTS) (Api (label ++ lit ": no attempt was made")) /\
   sends l = repeat q (undecided (verdicts label w q 0 API_ATTEMPTS)) /\ (length (sends l) <= 5)%nat /\
   0 <= waited l <= 161250) /\
  wp (refresh_profile w i r).1.2
     (fun i' => same_device i i' /\ profile_follows (fetch_device w (device_id i) (access_token i) r).1.2 i i' /\
                (refused i' = true -> refused i = true \/ front_refuses w i)) (fun _ => False) /\
  wp (provision_wg w model locale jwt r).1.2
     (fun i => identity_wf i /\ clamped (wg_private_key i) /\ access_token i <> [] /\ refused i = false) plain /\
  wp (enroll_key w (device_id i) (access_token i) spki None r).1.2 (fun _ => True) plain.
Proof.
  intros Hc Hf Hd Hm. split.
  { pose proof (send_with_retry_spec label w q r Hc Hm) as Hs.
    destruct (send_with_retry label w q r) as [[l result] r']. destruct Hs as (-> & Hl & Hw).
    split; [done|]. split; [done|]. split; [|done]. rewrite Hl, repeat_length.
    pose proof (undecided_le (verdicts label w q 0 API_ATTEMPTS)) as Hu. unfold verdicts in Hu at 2.
    rewrite length_fmap, length_seq in Hu. exact Hu. }
  split; [|split; [by apply provision_wg_spec|]].
  { eapply wp_mono; [apply wp_and; [by apply refresh_profile_spec|by apply refresh_profile_follows]|cbn beta; tauto|cbn beta; tauto]. } by apply enroll_key_plain.
Qed.

(** Libraries in which an answer that is an account is the text of its token. *)
Definition sample_account (body : str) : AccountData :=
  mkAccountData (lit "device") body
    (mkConfig (mkInterface (mkAddresses (lit "172.16.0.2") []))
       [mkPeer (repeat 7 32) (mkPeerEndpoint (lit "162.159.192.1:0") [] [])] (lit "abc") (mkServices []))
    (mkAccountInfo [] [] []).

Definition sample_account_libs : AccountLibs := {|
  account_of_json := fun body => inl (sample_account body);
  json_of_body := fun _ => inl [];
  x25519_public := fun key => key;
  tos_timestamp := []
|}.

Definition sample_texts : ErrorTexts := {| io_text := fun _ => []; quic_text := fun _ => []; h3_text := fun _ => [] |}.

#[global] Instance counter_rng : Rng Z := {| draw := fun n => (n, n + 1) |}.

(** A direct route that answers from a list, a camouflaged one that is down. *)
Definition sample_api (l : list http_answer) : api_world :=
  mkWorld 0 (fun _ => mkClient None None) (fun k _ => default (SendError []) (l !! k)) [sample_edge]
    (fun _ _ => mkAttempt (Fail (Api (lit "down"))) (fun _ => Done [])).

Definition sample_identity (r : bool) : Identity :=
  mkIdentity (lit "device") (lit "token") [1] [2] 1000 (lit "172.16.0.2") [] (repeat 8 32) (repeat 7 32) [1; 2; 3]
    [] [] [] r.

#[local] Existing Instances ascii_only sample_libs sample_account_libs sample_texts.

Lemma account_calls_sound_witness :
  let w := sample_api [Answered 503 None (inl []); SendError (lit "reset"); Answered 200 None (inl (lit "tok"))] in
  let q := mkDirect (lit "GET") [] [] None None in
  let call := send_with_retry (lit "x") w q 0 in
  call.1.2 = Done (sample_account (lit "tok")) /\ length (sends call.1.1) = 3%nat /\
  wp (enroll_key w (lit "device") (lit "token") [] None 0).1.2
    (fun _ => True) plain.
Proof.
  cbv zeta. set (w := sample_api _).
  assert (Hc : clients_ok w) by done.
  assert (Hf : front_ends w) by (intros a f; split; [intros m; discriminate|done]).
  assert (Hd : decodes_bytes).
  { intros s l. cbn. destruct (forallb (fun b => between 0 b 255) s) eqn:E; [|done]. intros [= <-].
    apply list.Forall_forall. intros b Hb%list_elem_of_In. rewrite forallb_forall in E. apply E in Hb.
    unfold between in Hb. unfold byte_ok. lia. }
  destruct (account_calls_sound w (lit "x")
    (mkDirect (lit "GET") [] [] None None) [] [] None (sample_identity false) [] 0 Hc Hf Hd eq_refl) as (Hs & _ & _ & He).
  destruct (send_with_retry (lit "x") w (mkDirect (lit "GET") [] [] None None) 0) as [[l result] r'].
  destruct Hs as (-> & Hl & _). split; [reflexivity|]. split; [|exact He]. cbn [fst snd]. rewrite Hl. reflexivity.
Defined.

(** The direct route's refusal is dropped when the camouflaged route is down:
    a revoked identity is kept as if the API could not be reached. *)
Example direct_refusal_forgotten :
  let w := sample_api [Answered 401 None (inl [])] in
  (send_with_retry (lit "device refresh") w
     (mkDirect (lit "GET") (API_URL ++ device_path (lit "device")) base_headers (Some (lit "token")) None) 0).1.2 =
    Fail (IdentityRefused (lit "device refresh: status 401: no details returned")) /\
  (refresh_profile w (sample_identity false) 0).1.2 =
    Done (sample_identity false).
Proof. vm_compute. done. Qed.

(** The wait an answer asks for is kept after the last attempt too. *)
Example waits_before_giving_up :
  let w := sample_api (repeat (Answered 429 (Some (lit "30")) (inl [])) 5) in
  exists l e r, send_with_retry (lit "x") w
    (mkDirect [] [] [] None None) 0 = (l, Fail e, r) /\ List.last l (Sent (mkDirect [] [] [] None None)) = Waited 30000.
Proof. cbv zeta. do 3 eexists. split; [vm_compute; reflexivity|]. reflexivity. Qed.
