(* ===== verification/Identity.v ===== *)
(** * Saved identities (src/native/aether/aether/src/config.rs and lib.rs)

    The file an identity is kept in, and [load_or_provision_warp] and
    [load_or_provision_masque], which load it, check it with the account API
    and provision a new one when there is none or it was refused.  Files are a
    map from paths; which system calls fail is an argument, as are the [toml]
    crate and what the API answers. *)

From stdpp Require Import base list option gmap.
From Stdlib Require Import ZArith Lia.
From S2P Require Import Prelude Rand RustStr StrFacts Error Net Sysprofile Upstream ApiFront Zerotrust Account.

(** ** The persisted form *)

Record PersistedIdentity := mkPersisted {
  p_device_id : str;
  p_access_token : str;
  p_cert_pem : str;
  p_key_pem : str;
  p_cert_issued_at : Z;
  p_ipv4 : str;
  p_ipv6 : str;
  p_wg_private_key : str;
  p_wg_peer_public_key : str;
  p_client_id : str;
  p_organization : str;
  p_gateway_proxy : str;
  p_assigned_endpoint : str
}.

(** [toml::from_str] and [toml::to_string_pretty] on it. *)
Class IdentityToml := {
  toml_decode : str -> PersistedIdentity + str;
  toml_encode : PersistedIdentity -> str + str
}.

Section Persisted.
Context `{WebLibs}.

Definition persist (i : Identity) : PersistedIdentity :=
  mkPersisted (device_id i) (access_token i) (from_utf8_lossy (cert_pem i)) (from_utf8_lossy (key_pem i))
    (cert_issued_at i) (ipv4 i) (ipv6 i) (base64_encode (wg_private_key i)) (base64_encode (wg_peer_public_key i))
    (base64_encode (id_client_id i)) (organization i) (gateway_proxy i) (assigned_endpoint i).

Definition decode_fixed (n : Z) (field value : str) : aresult (list Z) :=
  match base64_decode value with
  | inr e => Fail (Other (lit "config field " ++ field ++ lit " is not valid base64: " ++ e))
  | inl decoded =>
      if negb (zlen decoded =? n) then
        Fail (Other (lit "config field " ++ field ++ lit " must decode to " ++ show_uint n ++ lit " bytes, found " ++
                     show_uint (zlen decoded)))
      else Done decoded
  end.

Definition revive (p : PersistedIdentity) : aresult Identity :=
  private ← decode_fixed 32 (lit "wg_private_key") (p_wg_private_key p);
  peer ← decode_fixed 32 (lit "wg_peer_public_key") (p_wg_peer_public_key p);
  let client_id :=
    if str_eqb (p_client_id p) [] then no_client_id
    else match decode_fixed 3 (lit "client_id") (p_client_id p) with Done c => c | _ => no_client_id end in
  Done (mkIdentity (p_device_id p) (p_access_token p) (utf8 (p_cert_pem p)) (utf8 (p_key_pem p)) (p_cert_issued_at p)
          (p_ipv4 p) (p_ipv6 p) private peer client_id (p_organization p) (p_gateway_proxy p) (p_assigned_endpoint p) false).

End Persisted.

(** ** Paths *)

(** A path backwards, without its trailing slashes and dot components. *)
Fixpoint trim_tail (r : str) : str :=
  match r with
  | [] => []
  | c :: r' =>
      if c =? 47 then trim_tail r'
      else if (c =? 46) && (match r' with d :: _ => d =? 47 | [] => false end) then trim_tail r'
      else r
  end.

Definition not_slash (c : Z) : bool := negb (c =? 47).

(** The last component, and what is before it. *)
Definition last_component (path : str) : str := rev (take_until (fun c => c =? 47) (trim_tail (rev path))).

(** [Path::file_name] *)
Definition file_name (path : str) : option str :=
  let n := last_component path in
  if str_eqb n [] || str_eqb n (lit ".") || str_eqb n (lit "..") then None else Some n.

(** [Path::parent], of a path with a file name. *)
Definition parent (path : str) : str :=
  let r := trim_tail (trim_start_by not_slash (trim_tail (rev path))) in
  match r, path with
  | [], 47 :: _ => [47]
  | _, _ => rev r
  end.

(** [PathBuf::push] of a relative name. *)
Definition push (base name : str) : str :=
  match rev base with
  | [] => name
  | c :: _ => if c =? 47 then base ++ name else base ++ 47 :: name
  end.

Definition set_file_name (path name : str) : str :=
  match file_name path with Some _ => push (parent path) name | None => push path name end.

Definition own_name (path : str) : str := default (lit "aether.toml") (file_name path).

Definition quarantine_path (path : str) : str := set_file_name path (own_name path ++ lit ".corrupt").

Definition temporary_path (pid : Z) (path : str) : str :=
  set_file_name path (46 :: own_name path ++ lit "." ++ show_uint pid ++ lit ".tmp").

(** ** Files *)

Record file := mkFile { bytes : list Z; mode : Z }.
Abbreviation fs := (gmap str file).

(** Owner may read and write. *)
Definition OWNER_ONLY : Z := 384.

(** Which of the calls fail: of a load, of a write. *)
Record load_io := mkLoadIo { read_fault : option IoErrorKind; move_fault : option IoErrorKind }.

Record write_io := mkWriteIo {
  pid : Z;
  umask : Z;
  mkdir_fault : option IoErrorKind;
  open_fault : option IoErrorKind;
  write_fault : option (Z * IoErrorKind);     (* after how many bytes *)
  flush_fault : option IoErrorKind;
  sync_fault : option IoErrorKind;
  chmod_fault : option IoErrorKind;
  rename_fault : option IoErrorKind;
  removed : bool
}.

Section Files.
Context `{WebLibs} `{IdentityToml}.

Definition quarantine (w : load_io) (path : str) (s : fs) : option str * fs :=
  match move_fault w, s !! path with
  | None, Some f => (Some (quarantine_path path), <[quarantine_path path := f]> (delete path s))
  | _, _ => (None, s)
  end.

Definition damaged (path message : str) (moved : option str) : AetherError :=
  Other (match moved with
         | Some target => message ++ lit "; the damaged file was moved to " ++ target ++
                          lit " so a fresh identity can be provisioned"
         | None => message ++ lit "; delete " ++ path ++ lit " to provision a fresh identity"
         end).

Definition load `{ErrorTexts} (w : load_io) (path : str) (s : fs) : aresult (option Identity) * fs :=
  match s !! path with
  | None => (Done None, s)
  | Some f =>
      match read_fault w with
      | Some kind => (Fail (Io kind), s)
      | None =>
          match from_utf8 (bytes f) with
          | None => (Fail (Io InvalidData), s)
          | Some text =>
              match toml_decode text with
              | inr e =>
                  let '(moved, s) := quarantine w path s in
                  (Fail (damaged path (lit "config parse: " ++ e) moved), s)
              | inl persisted =>
                  match revive persisted with
                  | Done i => (Done (Some i), s)
                  | Fail e =>
                      let '(moved, s) := quarantine w path s in (Fail (damaged path (error_display e) moved), s)
                  | Panic => (Panic, s)
                  | Diverge => (Diverge, s)
                  end
              end
          end
      end
  end.

(** The closure of [write_private]: the states it passes through and its
    result; the last state is the one it leaves. *)
Definition write_steps (w : write_io) (path temporary : str) (contents : list Z) (s : fs)
  : list fs * aresult unit :=
  match open_fault w with
  | Some e => ([s], Fail (Io e))
  | None =>
      let created := match s !! temporary with Some f => mode f | None => Z.land OWNER_ONLY (Z.lnot (umask w)) end in
      let opened := <[temporary := mkFile [] created]> s in
      match write_fault w with
      | Some (n, e) => ([opened; <[temporary := mkFile (ztake n contents) created]> opened], Fail (Io e))
      | None =>
          let written := <[temporary := mkFile contents created]> opened in
          match flush_fault w, sync_fault w, chmod_fault w with
          | Some e, _, _ | None, Some e, _ | None, None, Some e => ([opened; written], Fail (Io e))
          | None, None, None =>
              let private := <[temporary := mkFile contents OWNER_ONLY]> written in
              match rename_fault w with
              | Some e => ([opened; written; private], Fail (Io e))
              | None =>
                  ([opened; written; private; <[path := mkFile contents OWNER_ONLY]> (delete temporary private)], Done tt)
              end
          end
      end
  end.

Definition write_private (w : write_io) (path text : str) (s : fs) : list fs * aresult unit :=
  let directory := if str_eqb (parent path) [] then None else mkdir_fault w in
  match directory with
  | Some e => ([s], Fail (Io e))
  | None =>
      let temporary := temporary_path (pid w) path in
      let '(states, outcome) := write_steps w path temporary (utf8 text) s in
      (match outcome with
       | Fail _ => if removed w then states ++ [delete temporary (List.last states s)] else states
       | _ => states
       end, outcome)
  end.

Definition save (w : write_io) (path : str) (i : Identity) (s : fs) : list fs * aresult unit :=
  match toml_encode (persist i) with
  | inr e => ([s], Fail (Other (lit "config encode: " ++ e)))
  | inl text => write_private w path text s
  end.

Definition set_creds (cert key : list Z) (issued_at : Z) (p : PersistedIdentity) : PersistedIdentity :=
  mkPersisted (p_device_id p) (p_access_token p) (from_utf8_lossy cert) (from_utf8_lossy key) issued_at (p_ipv4 p)
    (p_ipv6 p) (p_wg_private_key p) (p_wg_peer_public_key p) (p_client_id p) (p_organization p) (p_gateway_proxy p)
    (p_assigned_endpoint p).

Definition save_masque_creds (l : load_io) (w : write_io) (path : str) (cert key : list Z) (issued_at : Z) (s : fs)
  : list fs * aresult unit :=
  match s !! path with
  | None => ([s], Done tt)
  | Some f =>
      match read_fault l with
      | Some kind => ([s], Fail (Io kind))
      | None =>
          match from_utf8 (bytes f) with
          | None => ([s], Fail (Io InvalidData))
          | Some text =>
              match toml_decode text with
              | inr e => ([s], Fail (Other (lit "config parse: " ++ e)))
              | inl persisted =>
                  match toml_encode (set_creds cert key issued_at persisted) with
                  | inr e => ([s], Fail (Other (lit "config encode: " ++ e)))
                  | inl updated => write_private w path updated s
                  end
              end
          end
      end
  end.

End Files.

(** ** Which file *)

Definition is_separator (c : Z) : bool := (c =? 47) || (c =? 92).

(** [base[..dir_end]] and [base[dir_end..]] *)
Definition split_dir (base : str) : str * str :=
  let name := rev (take_until is_separator (rev base)) in
  (take (length base - length name) base, name).

Definition derive_sibling_path (base suffix : str) : str :=
  let '(dir, name) := split_dir base in
  match rsplit_once 46 name with
  | Some (stem, extension) => dir ++ stem ++ lit "-" ++ suffix ++ 46 :: extension
  | None => base ++ lit "-" ++ suffix
  end.

Section Paths.
Context `{UnicodeData}.

Definition warp_config_path (env : environment) (base : str) : str :=
  match env (lit "AETHER_WG_CONFIG") with
  | Some p => p
  | None => match team_scope env with
            | Some t => derive_sibling_path base (lit "team-" ++ t)
            | None => base
            end
  end.

Definition masque_config_path (env : environment) (base : str) : str :=
  match env (lit "AETHER_MASQUE_CONFIG") with
  | Some p => p
  | None => match team_scope env with
            | Some t => derive_sibling_path base (lit "team-" ++ t)
            | None => derive_sibling_path base (lit "masque")
            end
  end.

End Paths.

(** Whether a refused identity may be replaced. *)
Definition keep_saved_identity (env : environment) : bool :=
  match env (lit "AETHER_REPROVISION") with
  | Some v => negb (str_eqb v (lit "0") || str_eqb v (lit "off") || str_eqb v (lit "false"))
  | None => true
  end.

(** ** Loading or provisioning *)

(** What a profile sets for the rest of the process. *)
Inductive team_effect := GatewayProxy (address : str) | TeamEndpoint (peer : str).

(** What a run meets: the file system, the clock, the API each time it is
    asked about a saved identity and in provisioning, and the token of the
    organization. *)
Record run_world := mkRun {
  load_calls : load_io;
  save_calls : write_io;
  clock : Z;
  saved_api : api_world;
  saved_enroll : enroll_world;
  team_token : aresult str;
  provision_api : api_world;
  refresh_api : api_world;
  fresh_enroll : enroll_world;
  adopt_api : api_world
}.

Section Runs.
Context `{UnicodeData} `{WebLibs} `{AccountLibs} `{ErrorTexts} `{IdentityToml}.
Context {R : Type} `{Rng R}.

Record prov_state := mkState { files : fs; rng : R; effects : list team_effect }.

Definition run (A : Type) : Type := prov_state -> aresult A * prov_state.

#[global] Instance run_ret : MRet run := fun A a s => (Done a, s).
#[global] Instance run_bind : MBind run := fun A B k m s =>
  match m s with
  | (Done a, s) => k a s
  | (Fail e, s) => (Fail e, s)
  | (Panic, s) => (Panic, s)
  | (Diverge, s) => (Diverge, s)
  end.

(** Calls to the API, to the file system, and effects. *)
Definition call {A} (f : R -> list call_event * aresult A * R) : run A := fun s =>
  let '(_, result, r) := f (rng s) in (result, mkState (files s) r (effects s)).
Definition attempt_call {A} (f : R -> list call_event * aresult A * R) : run (aresult A) := fun s =>
  let '(_, result, r) := f (rng s) in (Done result, mkState (files s) r (effects s)).
Definition loading {A} (f : fs -> aresult A * fs) : run A := fun s =>
  let '(result, t) := f (files s) in (result, mkState t (rng s) (effects s)).
Definition saving (f : fs -> list fs * aresult unit) : run unit := fun s =>
  let '(states, result) := f (files s) in (result, mkState (List.last states (files s)) (rng s) (effects s)).
Definition emit (e : list team_effect) : run unit := fun s => (Done tt, mkState (files s) (rng s) (effects s ++ e)).

Definition never_fails {A} (m : opt A) : aresult A :=
  match m with Done a => Done a | Fail _ => Panic | Panic => Panic | Diverge => Diverge end.

Definition refresh (w : api_world) (i : Identity) : run Identity :=
  call (fun r => let '(l, m, r) := refresh_profile w i r in (l, never_fails m, r)).

Definition provision_account (env : environment) (w : run_world) : run Identity :=
  match team_from_env env with
  | Some _ =>
      i ← call (provision_team (provision_api w) DEFAULT_MODEL DEFAULT_LOCALE (team_token w));
      refresh (refresh_api w) i
  | None => call (provision_wg (provision_api w) DEFAULT_MODEL DEFAULT_LOCALE None)
  end.

Definition gateway_effect (env : environment) (i : Identity) : list team_effect :=
  if str_eqb (gateway_proxy i) [] then []
  else match env (lit "AETHER_GATEWAY") with Some _ => [GatewayProxy (gateway_proxy i)] | None => [] end.

Definition team_port (env : environment) : Z :=
  match env (lit "AETHER_PROTOCOL") with
  | Some v => if str_eqb v (lit "wg") || str_eqb v (lit "gool") then 2408 else 443
  | None => 443
  end.

Definition endpoint_effect (env : environment) (i : Identity) : list team_effect :=
  if str_eqb (assigned_endpoint i) [] then []
  else match env (lit "AETHER_PEER") with
       | Some _ => []
       | None =>
           let peer := assigned_endpoint i ++ lit ":" ++ show_uint (team_port env) in
           match parse_socket_addr peer with Some _ => [TeamEndpoint peer] | None => [] end
       end.

Definition adopt_team_profile (env : environment) (w : api_world) (i : Identity) : run Identity :=
  match team_scope env with
  | None => mret i
  | Some _ =>
      i ← refresh w i;
      _ ← emit (gateway_effect env i ++ endpoint_effect env i);
      mret i
  end.

Definition enrolled (i : Identity) (e : MasqueEnrollment) : Identity :=
  with_cert (en_cert_pem e) (en_key_pem e) (en_issued_at e) i.

Definition fresh_warp (env : environment) (w : run_world) (path : str) : run Identity :=
  i ← provision_account env w;
  i ← adopt_team_profile env (adopt_api w) i;
  _ ← saving (save (save_calls w) path i);
  mret i.

Definition load_or_provision_warp (env : environment) (w : run_world) (path : str) : run Identity :=
  found ← loading (load (load_calls w) path);
  match found with
  | None => fresh_warp env w path
  | Some i =>
      i ← adopt_team_profile env (saved_api w) i;
      if negb (refused i) then
        _ ← saving (save (save_calls w) path i);
        mret i
      else if negb (keep_saved_identity env) then mret i
      else fresh_warp env w path
  end.

Definition fresh_masque (env : environment) (w : run_world) (path : str) : run Identity :=
  i ← provision_account env w;
  enrollment ← call (ensure_masque_enrolled (fresh_enroll w) i);
  i ← adopt_team_profile env (adopt_api w) (enrolled i enrollment);
  _ ← saving (save (save_calls w) path i);
  mret i.

(** The saved identity, settled ([inl]) or refused ([inr]). *)
Definition check_masque (env : environment) (w : run_world) (path : str) (i : Identity) : run (Identity + Identity) :=
  if has_masque_credentials (clock w) i then
    i ← adopt_team_profile env (saved_api w) i;
    if negb (refused i) then
      _ ← saving (save (save_calls w) path i);
      mret (inl i)
    else mret (inr i)
  else
    answer ← attempt_call (ensure_masque_enrolled (saved_enroll w) i);
    match answer with
    | Done enrollment =>
        let i := enrolled i enrollment in
        _ ← saving (save (save_calls w) path i);
        mret (inl i)
    | Fail (IdentityRefused _) => mret (inr (with_refused true i))
    | Fail e => fun s => (Fail e, s)
    | Panic => fun s => (Panic, s)
    | Diverge => fun s => (Diverge, s)
    end.

Definition load_or_provision_masque (env : environment) (w : run_world) (path : str) : run Identity :=
  found ← loading (load (load_calls w) path);
  match found with
  | None => fresh_masque env w path
  | Some i =>
      checked_identity ← check_masque env w path i;
      match checked_identity with
      | inl i => mret i
      | inr i => if negb (keep_saved_identity env) then mret i else fresh_masque env w path
      end
  end.

End Runs.

(** ** Facts *)

(** *** Names of files *)

Definition normal_name (n : str) : Prop := (47 ∉ n) /\ (2 < length n)%nat.

Lemma take_until_app p a b :
  forallb (fun c => negb (p c)) a = true -> match b with c :: _ => p c = true | [] => True end ->
  take_until p (a ++ b) = a.
Proof.
  intros Ha Hb. induction a as [|c a IH]; cbn [app take_until forallb] in *.
  - destruct b as [|c b]; [done|]. cbn. by rewrite Hb.
  - apply andb_prop in Ha as [Hc%negb_true_iff Ha]. rewrite Hc. f_equal. by apply IH.
Qed.

Lemma take_until_free p s : forallb (fun c => negb (p c)) (take_until p s) = true.
Proof. induction s as [|c s IH]; [done|]. cbn. destruct (p c) eqn:E; [done|]. cbn. by rewrite E, IH. Qed.

Lemma no_slash_forallb n : 47 ∉ n -> forallb (fun c => negb (c =? 47)) (rev n) = true.
Proof.
  intros Hn. apply forallb_forall. intros c Hc%in_rev. apply negb_true_iff, Z.eqb_neq. intros ->.
  by apply Hn, list_elem_of_In.
Qed.

Lemma file_name_push base n : normal_name n -> file_name (push base n) = Some n.
Proof.
  intros [Hs Hl]. assert (E : exists t, rev (push base n) = rev n ++ t /\ match t with c :: _ => c = 47 | [] => True end).
  { unfold push. destruct (rev base) as [|c b] eqn:Eb; [by exists []; rewrite app_nil_r|].
    destruct (Z.eqb_spec c 47) as [->|]; rewrite rev_app_distr.
    - exists (47 :: b). by rewrite Eb.
    - cbn [rev]. exists (47 :: rev base). by rewrite <- app_assoc. }
  destruct E as (t & E & Ht). pose proof (no_slash_forallb n Hs) as Hf. unfold file_name, last_component. rewrite E.
  assert (Hlr : (2 < length (rev n))%nat) by (by rewrite length_rev).
  assert (Htt : trim_tail (rev n ++ t) = rev n ++ t).
  { destruct (rev n) as [|x [|y r]]; cbn in Hlr; [lia|lia|]. cbn [app trim_tail forallb] in *.
    destruct (x =? 47); [done|]. cbn in Hf. destruct (y =? 47); [done|]. by rewrite andb_false_r. }
  rewrite Htt, take_until_app, rev_involutive.
  - destruct n as [|a [|b [|c n]]]; cbn in Hl; try lia. cbn. unfold str_eqb. rewrite !bool_decide_eq_false_2 by done. done.
  - done.
  - destruct t as [|c t]; [done|]. by rewrite Ht.
Qed.

Lemma file_name_set path n : normal_name n -> file_name (set_file_name path n) = Some n.
Proof. intros Hn. unfold set_file_name. destruct (file_name path); by apply file_name_push. Qed.

Lemma own_name_no_slash path : 47 ∉ own_name path.
Proof.
  unfold own_name, file_name. dest_if; [apply (bool_decide_unpack _); vm_compute; done|]. cbn [default].
  unfold Datatypes.id, last_component. intros Hin%list_elem_of_In%in_rev.
  pose proof (take_until_free (fun c => c =? 47) (trim_tail (rev path))) as Hf. rewrite forallb_forall in Hf.
  by apply Hf in Hin.
Qed.

Lemma set_name_differs path n :
  normal_name n -> (length (own_name path) < length n)%nat -> set_file_name path n <> path.
Proof.
  intros Hn Hl E. pose proof (file_name_set path n Hn) as Hf. rewrite E in Hf. unfold own_name in Hl. rewrite Hf in Hl.
  cbn in Hl. unfold Datatypes.id in Hl. lia.
Qed.

Lemma quarantine_differs path : quarantine_path path <> path.
Proof.
  apply set_name_differs; [|rewrite length_app; cbn; lia]. split; [|rewrite length_app; cbn; lia].
  rewrite elem_of_app. intros [Hin|Hin]; [by apply own_name_no_slash in Hin|]. revert Hin.
  apply (bool_decide_unpack _). vm_compute. done.
Qed.

Lemma temporary_differs p path : 0 <= p -> temporary_path p path <> path.
Proof.
  intros Hp. apply set_name_differs; [|cbn [length]; rewrite !length_app; change (length (lit ".tmp")) with 4%nat; lia].
  split; [|cbn [length]; rewrite !length_app; change (length (lit ".tmp")) with 4%nat; lia]. rewrite elem_of_cons, !elem_of_app.
  intros [?|[Hin|[Hin|[Hin|Hin]]]]; [done|by apply own_name_no_slash in Hin| |by apply (not_in_digits 47 p) in Hin; [|lia|lia]|].
  - revert Hin. apply (bool_decide_unpack _). vm_compute. done.
  - revert Hin. apply (bool_decide_unpack _). vm_compute. done.
Qed.

(** *** Writing *)

Section FileFacts.
Context `{WebLibs} `{IdentityToml} `{ErrorTexts}.

(** Nothing but the file and its temporary file is touched, and the file is at
    each moment what it was or what it is to be. *)
Definition untorn (path temporary : str) (contents : list Z) (s t : fs) : Prop :=
  (t !! path = s !! path \/ t !! path = Some (mkFile contents OWNER_ONLY)) /\
  forall p, p <> path -> p <> temporary -> t !! p = s !! p.

Lemma untorn_delete path temporary contents s t :
  temporary <> path -> untorn path temporary contents s t -> untorn path temporary contents s (delete temporary t).
Proof.
  intros Ht [Hp Ho]. split; [by rewrite lookup_delete_ne|]. intros p Hpp Hpt. rewrite lookup_delete_ne by done. by apply Ho.
Qed.

Ltac each_state := repeat (apply Forall_cons_2; [first [done | by split; [left|]]|]); apply Forall_nil_2.

Lemma write_steps_spec w path temporary contents s :
  temporary <> path ->
  let '(states, outcome) := write_steps w path temporary contents s in
  Forall (untorn path temporary contents s) states /\ states <> [] /\
  match outcome with
  | Done _ => List.last states s !! path = Some (mkFile contents OWNER_ONLY) /\ List.last states s !! temporary = None
  | Fail _ => List.last states s !! path = s !! path
  | _ => False
  end.
Proof.
  intros Hne.
  assert (Ht : forall f g h, untorn path temporary contents s (<[temporary := f]> s) /\
     untorn path temporary contents s (<[temporary := g]> (<[temporary := f]> s)) /\
     untorn path temporary contents s (<[temporary := h]> (<[temporary := g]> (<[temporary := f]> s)))).
  { intros f g h. unfold untorn. split; [|split].
    all: split; [left; by rewrite !lookup_insert_ne by done|intros p _ Hp; by rewrite !lookup_insert_ne by done]. }
  assert (Hs : untorn path temporary contents s s) by (split; [by left|done]).
  unfold write_steps. destruct (open_fault w); [split; [each_state|done]|].
  set (m := match s !! temporary with Some f => mode f | None => _ end).
  set (o := mkFile [] m).
  destruct (write_fault w) as [[n e]|].
  { set (g := mkFile (ztake n contents) m). destruct (Ht o g g) as (? & ? & _). split; [each_state|].
    split; [done|]. cbn [List.last]. by rewrite !lookup_insert_ne. }
  set (g := mkFile contents m). set (h := mkFile contents OWNER_ONLY). destruct (Ht o g h) as (Hu1 & Hu2 & Hu3).
  assert (Hearly : forall e : IoErrorKind,
    Forall (untorn path temporary contents s) [<[temporary := o]> s; <[temporary := g]> (<[temporary := o]> s)] /\
    [<[temporary := o]> s; <[temporary := g]> (<[temporary := o]> s)] <> [] /\
    List.last [<[temporary := o]> s; <[temporary := g]> (<[temporary := o]> s)] s !! path = s !! path).
  { intros e. split; [each_state|]. split; [done|]. cbn [List.last]. by rewrite !lookup_insert_ne. }
  destruct (flush_fault w) as [e|]; [by apply Hearly|]. destruct (sync_fault w) as [e|]; [by apply Hearly|].
  destruct (chmod_fault w) as [e|]; [by apply Hearly|].
  destruct (rename_fault w) as [e|].
  - split; [each_state|]. split; [done|]. cbn [List.last]. by rewrite !lookup_insert_ne.
  - split; [|split; [done|]].
    + repeat (apply Forall_cons_2; [done|]). apply Forall_cons_2; [|apply Forall_nil_2].
      split; [by right; rewrite lookup_insert_eq|]. intros p Hp1 Hp2.
      rewrite lookup_insert_ne, lookup_delete_ne, !lookup_insert_ne by done. done.
    + cbn [List.last]. split; [by rewrite lookup_insert_eq|]. by rewrite lookup_insert_ne, lookup_delete_eq.
Qed.

Lemma last_snoc_default {A} (l : list A) x d : List.last (l ++ [x]) d = x.
Proof. apply last_last. Qed.

(** A write, whatever fails and wherever it is cut short. *)
Lemma write_private_spec w path text s :
  0 <= pid w ->
  let '(states, outcome) := write_private w path text s in
  Forall (untorn path (temporary_path (pid w) path) (utf8 text) s) states /\
  match outcome with
  | Done _ => List.last states s !! path = Some (mkFile (utf8 text) OWNER_ONLY)
  | Fail _ => List.last states s !! path = s !! path
  | _ => False
  end /\
  (outcome = Done tt -> List.last states s !! temporary_path (pid w) path = None).
Proof.
  intros Hp. pose proof (temporary_differs (pid w) path Hp) as Hne. unfold write_private.
  destruct (if str_eqb (parent path) [] then None else mkdir_fault w) as [e|].
  { split; [each_state|]. by split. }
  set (temporary := temporary_path (pid w) path) in *.
  pose proof (write_steps_spec w path temporary (utf8 text) s Hne) as Hs.
  destruct (write_steps w path temporary (utf8 text) s) as [states outcome]. destruct Hs as (Hf & Hnil & Ho).
  destruct outcome as [[]|e| |]; try done.
  - destruct Ho as [Hpath Htmp]. done.
  - destruct (removed w); [|by split].
    split; [|split; [|done]].
    + apply Forall_app. split; [done|]. apply Forall_cons_2; [|apply Forall_nil_2]. split; [|intros p Hp1 Hp2].
      * rewrite lookup_delete_ne by done. by left.
      * rewrite lookup_delete_ne by done.
        assert (Hl : untorn path temporary (utf8 text) s (List.last states s)).
        { apply (proj1 (list.Forall_forall _ _) Hf). destruct (@exists_last _ states) as (l & x & ->); [done|].
          rewrite last_last. apply elem_of_app. right. by apply list_elem_of_singleton. }
        by apply Hl.
    + rewrite last_last. by rewrite lookup_delete_ne.
Qed.

End FileFacts.

(** *** Reading back *)

Definition persisted_strs (p : PersistedIdentity) : list str :=
  [p_device_id p; p_access_token p; p_cert_pem p; p_key_pem p; p_ipv4 p; p_ipv6 p; p_wg_private_key p;
   p_wg_peer_public_key p; p_client_id p; p_organization p; p_gateway_proxy p; p_assigned_endpoint p].

(** Strings and times the file format can hold. *)
Definition persisted_ok (p : PersistedIdentity) : Prop :=
  0 <= p_cert_issued_at p < 2 ^ 63 /\ Forall is_scalar (concat (persisted_strs p)).

(** What [toml] and base64 promise. *)
Class PersistLaws `{WebLibs} `{IdentityToml} := {
  toml_roundtrip p : persisted_ok p ->
    exists text, toml_encode p = inl text /\ Forall is_scalar text /\ toml_decode text = inl p;
  base64_roundtrip l : bytes_ok l -> base64_decode (base64_encode l) = inl l;
  base64_nonempty l : base64_encode l = [] -> l = []
}.

(** An identity the file can hold. *)
Definition storable `{WebLibs} (i : Identity) : Prop :=
  identity_wf i /\ persisted_ok (persist i) /\
  exists cert key, cert_pem i = utf8 cert /\ key_pem i = utf8 key /\ Forall is_scalar cert /\ Forall is_scalar key.

Section ReadBack.
Context `{WebLibs} `{IdentityToml} `{ErrorTexts}.

Definition file_holds (path : str) (i : Identity) (s : fs) : Prop :=
  exists text, toml_encode (persist i) = inl text /\ s !! path = Some (mkFile (utf8 text) OWNER_ONLY).

Lemma revive_persist `{!PersistLaws} i : storable i -> revive (persist i) = Done (with_refused false i).
Proof.
  intros ((Hl1 & Hb1 & Hl2 & Hb2 & Hl3 & Hb3) & _ & cert & key & Hc & Hk & Hsc & Hsk).
  unfold revive, persist, decode_fixed. cbn.
  rewrite !base64_roundtrip by done. rewrite Hl1, Hl2. cbn. rewrite Hl3. cbn.
  destruct (str_eqb (base64_encode (id_client_id i)) []) eqn:E.
  { apply str_eqb_eq, base64_nonempty in E. rewrite E in Hl3. done. }
  rewrite Hc, Hk, !from_utf8_lossy_utf8 by done. unfold with_refused. by rewrite Hc, Hk.
Qed.

Lemma load_holds `{!PersistLaws} l path i s :
  read_fault l = None -> storable i -> file_holds path i s -> load l path s = (Done (Some (with_refused false i)), s).
Proof.
  intros Hr Hs (text & He & Hp). pose proof (revive_persist i Hs) as Hi. destruct Hs as (_ & Hok & _).
  destruct (toml_roundtrip _ Hok) as (text' & He' & Hsc & Hd). rewrite He in He'. injection He' as <-.
  unfold load. rewrite Hp, Hr. cbn [bytes]. by rewrite from_utf8_utf8, Hd, Hi.
Qed.

Lemma save_spec w path i s :
  0 <= pid w ->
  let '(states, outcome) := save w path i s in
  (forall t, t ∈ states -> t !! path = s !! path \/ file_holds path i t) /\
  (forall t p, t ∈ states -> p <> path -> p <> temporary_path (pid w) path -> t !! p = s !! p) /\
  match outcome with
  | Done _ => file_holds path i (List.last states s)
  | Fail _ => List.last states s !! path = s !! path
  | _ => False
  end.
Proof.
  intros Hp. unfold save. destruct (toml_encode (persist i)) as [text|e] eqn:E.
  2: { split; [|split]; [intros t Ht|intros t p Ht|done]; apply list_elem_of_singleton in Ht as ->; [by left|done]. }
  pose proof (write_private_spec w path text s Hp) as Hw.
  destruct (write_private w path text s) as [states outcome]. destruct Hw as (Hf & Ho & _).
  assert (Hin : forall t, t ∈ states -> untorn path (temporary_path (pid w) path) (utf8 text) s t)
    by exact (proj1 (list.Forall_forall _ _) Hf).
  split; [|split].
  - intros t Ht%Hin. destruct Ht as [[Ht|Ht] _]; [by left|]. right. by exists text.
  - intros t p Ht%Hin. by apply Ht.
  - destruct outcome; try done. by exists text.
Qed.

(** What a load reports, and that a damaged file is not lost. *)
Lemma load_spec l path s :
  decodes_bytes ->
  match load l path s with
  | (Done None, t) => t = s /\ s !! path = None
  | (Done (Some i), t) => t = s /\ is_Some (s !! path) /\ identity_wf i /\ refused i = false
  | (Fail _, t) => t !! path = s !! path \/ t !! path = None /\ t !! quarantine_path path = s !! path
  | _ => False
  end.
Proof.
  intros Hd. unfold load. destruct (s !! path) as [f|] eqn:Ef; [|done].
  assert (Hq : forall w message, (let '(moved, t) := quarantine w path s in (Fail (E := AetherError) (A := option Identity) (damaged path message moved), t)).2 !! path = s !! path \/
    (let '(moved, t) := quarantine w path s in (Fail (E := AetherError) (A := option Identity) (damaged path message moved), t)).2 !! path = None /\
    (let '(moved, t) := quarantine w path s in (Fail (E := AetherError) (A := option Identity) (damaged path message moved), t)).2 !! quarantine_path path = s !! path).
  { intros w message. unfold quarantine. rewrite Ef. destruct (move_fault w); cbn; [by left|]. right.
    pose proof (quarantine_differs path). rewrite lookup_insert_ne, lookup_delete_eq, lookup_insert_eq by done. done. }
  rewrite Ef in Hq.
  destruct (read_fault l); [by left|]. destruct (from_utf8 (bytes f)) as [text|]; [|by left].
  destruct (toml_decode text) as [p|e].
  2: { specialize (Hq l (lit "config parse: " ++ e)). by destruct (quarantine l path s). }
  assert (Hfix : forall n field v, match decode_fixed n field v with
    | Done d => zlen d = n /\ bytes_ok d | Fail _ => True | _ => False end).
  { intros n field v. unfold decode_fixed. destruct (base64_decode v) as [d|] eqn:Ed; [|done].
    destruct (Z.eqb_spec (zlen d) n) as [E|]; cbn [negb]; [|done]. split; [exact E|]. by eapply Hd. }
  unfold revive. pose proof (Hfix 32 (lit "wg_private_key") (p_wg_private_key p)) as H32.
  destruct (decode_fixed 32 (lit "wg_private_key") _) as [k1|e| |]; cbn [mbind outcome_bind]; try done.
  2: { specialize (Hq l (error_display e)). by destruct (quarantine l path s). }
  pose proof (Hfix 32 (lit "wg_peer_public_key") (p_wg_peer_public_key p)) as H32'.
  destruct (decode_fixed 32 (lit "wg_peer_public_key") _) as [k2|e| |]; cbn [mbind outcome_bind]; try done.
  2: { specialize (Hq l (error_display e)). by destruct (quarantine l path s). }
  split; [done|]. split; [done|]. split; [|done]. destruct H32, H32'. unfold identity_wf. cbn.
  assert (Hz : zlen no_client_id = 3 /\ bytes_ok no_client_id) by (split; [done|repeat constructor; done]).
  pose proof (Hfix 3 (lit "client_id") (p_client_id p)) as Hc3.
  destruct (str_eqb (p_client_id p) []); [by destruct Hz|].
  destruct (decode_fixed 3 _ _); destruct Hz; try done.
Qed.

End ReadBack.

(** *** Runs *)

Lemma same_device_refl i : same_device i i.
Proof. unfold same_device. repeat (split; [done|]). done. Qed.

Lemma same_device_trans i j k : same_device i j -> same_device j k -> same_device i k.
Proof.
  intros (E1 & E2 & E3 & E4 & E5 & E6 & E7 & E8 & A1 & A2) (F1 & F2 & F3 & F4 & F5 & F6 & F7 & F8 & B1 & B2).
  unfold same_device. repeat (split; [congruence|]). split; auto.
Qed.

Lemma same_device_wf i j : same_device i j -> identity_wf i -> identity_wf j.
Proof. intros (_ & _ & _ & _ & _ & E1 & E2 & E3 & _). unfold identity_wf. by rewrite E1, E2, E3. Qed.

Section RunFacts.
Context `{UnicodeData} `{WebLibs} `{AccountLibs} `{ErrorTexts} `{IdentityToml}.
Context {R : Type} `{Rng R}.

(** A run ends, in a result that satisfies [Q] or in an error in a state that
    satisfies [E]. *)
Definition runs {A} (m : run A) (s : prov_state (R := R)) (Q : A -> prov_state (R := R) -> Prop)
  (E : prov_state (R := R) -> Prop) : Prop :=
  match m s with
  | (Done a, t) => Q a t
  | (Fail _, t) => E t
  | _ => False
  end.

Lemma runs_bind {A B} (m : run A) (k : A -> run B) s Q' Q E :
  runs m s Q' E -> (forall a t, Q' a t -> runs (k a) t Q E) -> runs (m ≫= k) s Q E.
Proof.
  unfold runs, mbind, run_bind. destruct (m s) as [[a|e| |] t]; try done. intros Hq Hk. by apply Hk.
Qed.

Lemma runs_mono {A} (m : run A) s (Q Q' : A -> prov_state -> Prop) (E E' : prov_state -> Prop) :
  runs m s Q E -> (forall a t, Q a t -> Q' a t) -> (forall t, E t -> E' t) -> runs m s Q' E'.
Proof. unfold runs. destruct (m s) as [[a|e| |] t]; auto. Qed.

Lemma runs_ret {A} (a : A) s (Q : A -> prov_state -> Prop) E : Q a s -> runs (mret a) s Q E.
Proof. done. Qed.

Lemma runs_call {A} (f : R -> list call_event * aresult A * R) s (P : A -> Prop) F Q (E : prov_state -> Prop) :
  wp (f (rng s)).1.2 P F ->
  (forall a t, P a -> files t = files s -> Q a t) -> (forall t, files t = files s -> E t) ->
  runs (call f) s Q E.
Proof.
  intros Hw HQ HE. unfold runs, call. destruct (f (rng s)) as [[l [a|e| |]] r]; cbn in *; try done; auto.
Qed.

(** Apis that behave: the client can be built and the camouflaged route ends. *)
Definition api_ok (w : api_world) : Prop := clients_ok w /\ front_ends w.

Definition keypair_ok (e : enroll_world) : Prop :=
  0 < now_after e /\
  match generate_masque_keypair e with
  | Done k => kp_cert_pem k <> [] /\ kp_key_pem k <> []
  | Fail error => plain error
  | _ => False
  end.

Record world_ok (w : run_world) : Prop := {
  ok_saved : api_ok (saved_api w);
  ok_provision : api_ok (provision_api w);
  ok_refresh : api_ok (refresh_api w);
  ok_adopt : api_ok (adopt_api w);
  ok_saved_enroll : api_ok (enroll_api (saved_enroll w)) /\ keypair_ok (saved_enroll w);
  ok_fresh_enroll : api_ok (enroll_api (fresh_enroll w)) /\ keypair_ok (fresh_enroll w);
  ok_token : match team_token w with Done _ => True | Fail e => plain e | _ => False end;
  ok_pid : 0 <= pid (save_calls w);
  ok_base64 : decodes_bytes
}.

Lemma refresh_runs w i s :
  api_ok w ->
  runs (refresh w i) s
    (fun j t => files t = files s /\ same_device i j /\ (refused j = true -> refused i = true \/ front_refuses w i))
    (fun _ => False).
Proof.
  intros [Hc Hf]. unfold refresh.
  pose proof (refresh_profile_spec w i (rng s) Hc Hf) as Hr. unfold runs, call.
  destruct (refresh_profile w i (rng s)) as [[l [j|e| |]] r]; cbn in *; try done.
Qed.

Lemma adopt_runs env w i s :
  api_ok w ->
  runs (adopt_team_profile env w i) s
    (fun j t => files t = files s /\ same_device i j /\ (refused j = true -> refused i = true \/ front_refuses w i))
    (fun _ => False).
Proof.
  intros Hw. unfold adopt_team_profile. destruct (team_scope env); [|split; [done|split; [apply same_device_refl|by left]]].
  eapply runs_bind; [by apply refresh_runs|]. intros j t Hj. exact Hj.
Qed.

Lemma saving_runs w path i s :
  0 <= pid w ->
  runs (saving (save w path i)) s (fun _ t => file_holds path i (files t)) (fun t => files t !! path = files s !! path).
Proof.
  intros Hp. unfold runs, saving. pose proof (save_spec w path i (files s) Hp) as Hs.
  destruct (save w path i (files s)) as [states outcome]. destruct Hs as (_ & _ & Ho). by destruct outcome.
Qed.

(** A new identity: well formed, with a token. *)
Definition provisioned (i : Identity) : Prop := identity_wf i /\ access_token i <> [].

Lemma provisioned_same i j : same_device i j -> provisioned i -> provisioned j.
Proof. intros Hs [Hw Ht]. split; [by eapply same_device_wf|]. destruct Hs as (_ & -> & _). done. Qed.

Lemma provision_runs env w s :
  world_ok w ->
  runs (provision_account env w) s (fun i t => provisioned i /\ files t = files s) (fun t => files t = files s).
Proof.
  intros Hw. destruct (ok_provision w Hw) as [Hc Hf]. pose proof (ok_base64 w Hw) as Hd. unfold provision_account.
  destruct (team_from_env env).
  - eapply runs_bind.
    { eapply (runs_call _ s provisioned plain).
      - eapply wp_mono; [by apply (provision_team_spec _ _ _ _ (rng s) Hc Hf Hd (ok_token w Hw))| |done].
        intros i (? & _ & ? & _). by split.
      - intros i t1 Hi Ht. exact (conj Hi Ht).
      - done. }
    intros i t1 [Hi Ht1]. eapply runs_mono; [apply refresh_runs, (ok_refresh w Hw)| |done].
    intros j t2 (Hf2 & Hs & _). split; [by eapply provisioned_same|congruence].
  - eapply (runs_call _ s provisioned plain); [|by split|done].
    eapply wp_mono; [by apply (provision_wg_spec _ _ _ _ (rng s) Hc Hf Hd)| |done].
    intros i (? & _ & ? & _). by split.
Qed.

(** *** The certificate *)

Lemma cert_window now i :
  cert_still_usable now i = true <->
  cert_pem i <> [] /\ key_pem i <> [] /\ cert_issued_at i <> 0 /\
  cert_issued_at i <= now < cert_issued_at i + MASQUE_CERT_LIFETIME_SECS.
Proof.
  assert (Hnil : forall l : list Z, is_nil l = true <-> l = []).
  { intros [|x l]; [done|]. unfold is_nil. rewrite zlen_cons. pose proof (zlen_nonneg l). rewrite Z.eqb_eq. split; [lia|done]. }
  unfold cert_still_usable. destruct (is_nil (cert_pem i)) eqn:E1; cbn [orb].
  { apply Hnil in E1. split; [done|]. by intros (? & _). }
  destruct (is_nil (key_pem i)) eqn:E2. { apply Hnil in E2. split; [done|]. by intros (_ & ? & _). }
  assert (cert_pem i <> []) by (intros E; apply Hnil in E; congruence).
  assert (key_pem i <> []) by (intros E; apply Hnil in E; congruence).
  unfold MASQUE_CERT_LIFETIME_SECS.
  destruct (Z.eqb_spec (cert_issued_at i) 0); [split; [done|]; intros (_ & _ & ? & _); done|].
  destruct (Z.ltb_spec now (cert_issued_at i)); [split; [done|]; intros (_ & _ & _ & ?); lia|].
  rewrite Z.ltb_lt. split; [intros ?; repeat (split; [done|]); lia|]. intros (_ & _ & _ & ?). lia.
Qed.

(** A certificate that need not be renewed is usable, and stays so for a week
    at least. *)
Lemma credentials_usable now later i :
  has_masque_credentials now i = true -> now <= later < now + MASQUE_CERT_RENEW_BEFORE_SECS ->
  cert_still_usable later i = true.
Proof.
  unfold has_masque_credentials, masque_cert_expiring, is_nil. intros Hc Hl. apply cert_window.
  destruct (Z.eqb_spec (cert_issued_at i) 0); [by rewrite andb_false_r in Hc|].
  destruct (Z.ltb_spec now (cert_issued_at i)); [by rewrite andb_false_r in Hc|].
  apply andb_prop in Hc as [[Hc%negb_true_iff Hk%negb_true_iff]%andb_prop He%negb_true_iff].
  unfold MASQUE_CERT_LIFETIME_SECS, MASQUE_CERT_RENEW_BEFORE_SECS in *.
  split; [intros E; by rewrite E in Hc|]. split; [intros E; by rewrite E in Hk|]. lia.
Qed.

(** What an enrolment gives is a certificate in its lifetime when it was
    settled on. *)
Definition cert_in (times : list Z) (i : Identity) : Prop := exists t, t ∈ times /\ cert_still_usable t i = true.

Lemma ensure_spec e i (r : R) :
  api_ok (enroll_api e) -> keypair_ok e ->
  wp (ensure_masque_enrolled e i r).1.2
     (fun en => cert_in [now_before e; now_after e] (enrolled i en) /\ (renewed en = false -> enrolled i en = i)) plain.
Proof.
  intros [Hc Hf] [Hn Hk]. unfold ensure_masque_enrolled.
  set (kept := mkEnrollment _ _ _ false).
  assert (Hkept : enrolled i kept = i) by (by destruct i).
  destruct (negb (is_nil (cert_pem i)) && negb (is_nil (key_pem i)) && negb (masque_cert_expiring (now_before e) (cert_issued_at i)))
    eqn:E; cbn [andb fst snd wp].
  { rewrite Hkept. split; [|done]. exists (now_before e). split; [left|].
    eapply (credentials_usable (now_before e)); [exact E|]. unfold MASQUE_CERT_RENEW_BEFORE_SECS. lia. }
  destruct (generate_masque_keypair e) as [k|error| |]; try done.
  pose proof (enroll_key_plain (enroll_api e) (device_id i) (access_token i) (kp_spki_der k) None r Hc Hf) as He.
  destruct (enroll_key _ _ _ _ _ _) as [[l [a|error| |]] r']; cbn [fst snd wp] in *; try done.
  - split; [|done]. exists (now_after e). split; [by right; left|]. apply cert_window. destruct Hk. cbn.
    unfold MASQUE_CERT_LIFETIME_SECS. split; [done|]. split; [done|]. lia.
  - destruct (cert_still_usable (now_after e) i) eqn:Eu; cbn [wp]; [|done].
    rewrite Hkept. split; [|done]. exists (now_after e). split; [by right; left|done].
Qed.

(** *** Whole runs *)

Definition kept_file (path : str) (s t : prov_state (R := R)) : Prop := files t !! path = files s !! path.

(** A new identity is in the file it will be loaded from. *)
Definition fresh (path : str) (i : Identity) (t : prov_state (R := R)) : Prop :=
  provisioned i /\ file_holds path i (files t).

Lemma fresh_warp_runs env w path s :
  world_ok w -> runs (fresh_warp env w path) s (fresh path) (kept_file path s).
Proof.
  intros Hw. unfold fresh_warp, kept_file. eapply runs_bind.
  { eapply runs_mono; [by apply provision_runs|intros i t Hi; exact Hi|by intros t ->]. }
  intros i t [Hi Ht]. eapply runs_bind.
  { eapply runs_mono; [by apply adopt_runs, ok_adopt|intros j u Hj; exact Hj|done]. }
  intros j u (Hu & Hs & _). eapply runs_bind.
  { eapply runs_mono; [by apply saving_runs, ok_pid|intros x v Hv; exact Hv|]. intros v ->. by rewrite Hu, Ht. }
  intros ? v Hv. apply runs_ret. split; [by eapply provisioned_same|done].
Qed.

Lemma enrolled_provisioned i en : provisioned i -> provisioned (enrolled i en).
Proof. done. Qed.

Lemma cert_in_same times i j : same_device i j -> cert_in times i -> cert_in times j.
Proof.
  intros (_ & _ & Hc & Hk & Ht & _) (t & Hin & Hu). exists t. split; [done|]. apply cert_window in Hu. apply cert_window.
  by rewrite Hc, Hk, Ht.
Qed.

Definition enroll_times (e : enroll_world) : list Z := [now_before e; now_after e].

Lemma fresh_masque_runs env w path s :
  world_ok w ->
  runs (fresh_masque env w path) s (fun i t => fresh path i t /\ cert_in (enroll_times (fresh_enroll w)) i)
    (kept_file path s).
Proof.
  intros Hw. destruct (ok_fresh_enroll w Hw) as [Ha Hk]. unfold fresh_masque, kept_file. eapply runs_bind.
  { eapply runs_mono; [by apply provision_runs|intros i t Hi; exact Hi|by intros t ->]. }
  intros i t [Hi Ht]. eapply runs_bind.
  { eapply (runs_call _ t (fun en => cert_in (enroll_times (fresh_enroll w)) (enrolled i en)) plain).
    - eapply wp_mono; [by apply (ensure_spec _ i (rng t) Ha Hk)| |done]. by intros en [? _].
    - intros en u Hen Hu. exact (conj Hen Hu).
    - intros u ->. by rewrite Ht. }
  intros en u [Hen Hu]. eapply runs_bind.
  { eapply runs_mono; [by apply adopt_runs, ok_adopt|intros j v Hj; exact Hj|done]. }
  intros j v (Hv & Hs & _). eapply runs_bind.
  { eapply runs_mono; [by apply saving_runs, ok_pid|intros x y Hy; exact Hy|]. intros y ->. by rewrite Hv, Hu, Ht. }
  intros ? y Hy. apply runs_ret. split; [|by eapply cert_in_same].
  split; [by eapply provisioned_same, enrolled_provisioned|done].
Qed.

(** What an error leaves: the file as it was, or a damaged one set aside. *)
Definition not_lost (path : str) (s t : prov_state (R := R)) : Prop :=
  files t !! path = files s !! path \/ files t !! path = None /\ files t !! quarantine_path path = files s !! path.

Definition saved_identity (w : run_world) (path : str) (s : prov_state (R := R)) : option Identity :=
  match (load (load_calls w) path (files s)).1 with Done found => found | _ => None end.

Lemma loading_runs w path s :
  world_ok w ->
  runs (loading (load (load_calls w) path)) s
    (fun found t => files t = files s /\ found = saved_identity w path s /\
       match found with Some i => identity_wf i /\ refused i = false | None => files s !! path = None end)
    (not_lost path s).
Proof.
  intros Hw. unfold runs, loading, saved_identity, not_lost.
  pose proof (load_spec (load_calls w) path (files s) (ok_base64 w Hw)) as Hl.
  destruct (load (load_calls w) path (files s)) as [[[i|]|e| |] t]; cbn in *; try done; [|by destruct Hl].
  destruct Hl as (? & _ & ? & ?). done.
Qed.

(** The saved WireGuard identity is kept, refused and kept because a new one is
    not wanted, or refused and replaced. *)
Definition warp_result (env : environment) (w : run_world) (path : str) (s : prov_state (R := R)) (i : Identity)
  (t : prov_state (R := R)) : Prop :=
  match saved_identity w path s with
  | None => files s !! path = None /\ fresh path i t
  | Some saved =>
      (same_device saved i /\ refused i = false /\ file_holds path i (files t)) \/
      (front_refuses (saved_api w) saved /\
       if keep_saved_identity env then fresh path i t
       else same_device saved i /\ refused i = true /\ files t = files s)
  end.

Lemma load_or_provision_warp_runs env w path s :
  world_ok w -> runs (load_or_provision_warp env w path) s (warp_result env w path s) (not_lost path s).
Proof.
  intros Hw. unfold load_or_provision_warp. eapply runs_bind; [by apply loading_runs|].
  intros found t (Ht & Hfound & Hl). unfold warp_result. rewrite <- Hfound.
  assert (Hfresh : forall t', files t' = files s -> runs (fresh_warp env w path) t' (fresh path) (not_lost path s)).
  { intros t' Ht'. eapply runs_mono; [by apply fresh_warp_runs|done|]. intros u Hu. left. rewrite Hu. by rewrite Ht'. }
  destruct found as [saved|].
  2: { eapply runs_mono; [by apply Hfresh|by split|done]. }
  destruct Hl as [Hwf Hr]. eapply runs_bind.
  { eapply runs_mono; [by apply adopt_runs, ok_saved|intros j u Hj; exact Hj|done]. }
  intros j u (Hu & Hs & Href). destruct (refused j) eqn:Ej; cbn [negb].
  - destruct (Href eq_refl) as [?|Hfront]; [congruence|]. destruct (keep_saved_identity env); cbn [negb].
    + eapply runs_mono; [apply Hfresh; congruence| |done]. intros k v Hk. by right.
    + apply runs_ret. right. split; [done|]. split; [done|]. split; [done|congruence].
  - eapply runs_bind.
    { eapply runs_mono; [by apply saving_runs, ok_pid|intros x v Hv; exact Hv|]. intros v Hv. left. rewrite Hv. by rewrite Hu, Ht. }
    intros ? v Hv. apply runs_ret. by left.
Qed.

(** The same for a MASQUE identity, whose certificate may have been renewed:
    only one that had a certificate to show is ever found refused. *)
Definition masque_result (env : environment) (w : run_world) (path : str) (s : prov_state (R := R)) (i : Identity)
  (t : prov_state (R := R)) : Prop :=
  cert_in (clock w :: enroll_times (saved_enroll w) ++ enroll_times (fresh_enroll w)) i /\
  match saved_identity w path s with
  | None => files s !! path = None /\ fresh path i t
  | Some saved =>
      (device_id i = device_id saved /\ access_token i = access_token saved /\ wg_private_key i = wg_private_key saved /\
       refused i = false /\ file_holds path i (files t)) \/
      (has_masque_credentials (clock w) saved = true /\ front_refuses (saved_api w) saved /\
       if keep_saved_identity env then fresh path i t
       else same_device saved i /\ refused i = true /\ files t = files s)
  end.

(** How a saved identity is settled. *)
Definition checked_identity (w : run_world) (path : str) (s : prov_state (R := R)) (saved : Identity) (c : Identity + Identity)
  (t : prov_state (R := R)) : Prop :=
  match c with
  | inl i =>
      cert_in (clock w :: enroll_times (saved_enroll w)) i /\ device_id i = device_id saved /\
      access_token i = access_token saved /\ wg_private_key i = wg_private_key saved /\
      refused i = false /\ file_holds path i (files t)
  | inr i =>
      cert_in [clock w] i /\ has_masque_credentials (clock w) saved = true /\ front_refuses (saved_api w) saved /\
      same_device saved i /\ refused i = true /\ files t = files s
  end.

Lemma check_masque_runs env w path saved s :
  world_ok w -> refused saved = false ->
  runs (check_masque env w path saved) s (checked_identity w path s saved) (kept_file path s).
Proof.
  intros Hw Hr. destruct (ok_saved_enroll w Hw) as [Ha Hk]. unfold check_masque, kept_file.
  destruct (has_masque_credentials (clock w) saved) eqn:Ec.
  - assert (Hcert : cert_in [clock w] saved).
    { exists (clock w). split; [left|]. eapply credentials_usable; [exact Ec|].
      unfold MASQUE_CERT_RENEW_BEFORE_SECS. lia. }
    eapply runs_bind.
    { eapply runs_mono; [by apply adopt_runs, ok_saved|intros j u Hj; exact Hj|done]. }
    intros j u (Hu & Hs & Href). destruct (refused j) eqn:Ej; cbn [negb].
    + apply runs_ret. destruct (Href eq_refl); [congruence|]. split; [by eapply cert_in_same|]. done.
    + eapply runs_bind.
      { eapply runs_mono; [by apply saving_runs, ok_pid|intros x v Hv; exact Hv|]. intros v ->. by rewrite Hu. }
      intros ? v Hv. apply runs_ret. destruct (cert_in_same _ _ _ Hs Hcert) as (t0 & Hin & Hcu).
      pose proof Hs as (E1 & E2 & _ & _ & _ & E3 & _). split.
      { exists t0. split; [|done]. apply list_elem_of_singleton in Hin as ->. left. }
      done.
  - unfold attempt_call. pose proof (ensure_spec (saved_enroll w) saved (rng s) Ha Hk) as He.
    unfold runs at 1, mbind at 1, run_bind at 1.
    destruct (ensure_masque_enrolled (saved_enroll w) saved (rng s)) as [[l answer] r]. cbn [fst snd] in He.
    destruct answer as [en|e| |]; cbn [wp] in He; try done.
    + destruct He as [(t0 & Hin & Hcu) _].
      pose proof (saving_runs (save_calls w) path (enrolled saved en) (mkState (files s) r (effects s)) (ok_pid w Hw)) as Hsv.
      unfold runs in Hsv. unfold mbind, run_bind.
      destruct (saving _ _) as [[x|e| |] v]; try done. cbn. split; [|done].
      exists t0. split; [by right|done].
    + destruct e; try done. by destruct (He msg).
Qed.

Lemma load_or_provision_masque_runs env w path s :
  world_ok w -> runs (load_or_provision_masque env w path) s (masque_result env w path s) (not_lost path s).
Proof.
  intros Hw. unfold load_or_provision_masque. eapply runs_bind; [by apply loading_runs|].
  intros found t (Ht & Hfound & Hl). unfold masque_result. rewrite <- Hfound.
  assert (Hsub : forall l l' i, cert_in l i -> l ⊆ l' -> cert_in l' i) by (intros l l' i (x & Hx & Hu) Hs; exists x; auto).
  assert (Hfresh : forall t', files t' = files s -> runs (fresh_masque env w path) t'
    (fun i u => fresh path i u /\ cert_in (clock w :: enroll_times (saved_enroll w) ++ enroll_times (fresh_enroll w)) i)
    (not_lost path s)).
  { intros t' Ht'. eapply runs_mono; [by apply fresh_masque_runs| |].
    - intros i u [Hi Hc]. split; [done|]. eapply Hsub; [exact Hc|]. intros x Hx. right. apply elem_of_app. by right.
    - intros u Hu. left. rewrite Hu. by rewrite Ht'. }
  destruct found as [saved|].
  2: { eapply runs_mono; [by apply Hfresh| |done]. intros i u [Hi Hc]. done. }
  destruct Hl as [Hwf Hr]. eapply runs_bind.
  { eapply runs_mono; [by apply check_masque_runs|intros c u Hc; exact Hc|]. intros u Hu. left. rewrite Hu. by rewrite Ht. }
  intros [i|i] u Hc; cbn [checked_identity] in Hc.
  - apply runs_ret. destruct Hc as (Hc & Hd & Htok & Hk & Hrf & Hh). split; [|by left].
    eapply Hsub; [exact Hc|]. intros x Hx. apply elem_of_cons in Hx as [->|Hx]; [left|]. right. apply elem_of_app. by left.
  - destruct Hc as (Hc & Hcred & Hfront & Hs & Hrf & Hu). destruct (keep_saved_identity env); cbn [negb].
    + eapply runs_mono; [apply Hfresh; congruence| |done]. intros k v [Hk Hck]. split; [done|]. by right.
    + apply runs_ret. split; [eapply Hsub; [exact Hc|]; intros x Hx; apply list_elem_of_singleton in Hx as ->; left|].
      right. split; [done|]. split; [done|]. split; [done|]. split; [done|congruence].
Qed.

End RunFacts.

(** *** A cut-short save *)

Lemma load_same `{WebLibs} `{IdentityToml} `{ErrorTexts} l path s t :
  t !! path = s !! path -> (load l path t).1 = (load l path s).1.
Proof.
  intros E. unfold load. rewrite E. destruct (s !! path) as [f|] eqn:Es; [|done]. destruct (read_fault l); [done|].
  destruct (from_utf8 (bytes f)) as [text|]; [|done].
  assert (Hq : (quarantine l path t).1 = (quarantine l path s).1).
  { unfold quarantine. rewrite E, Es. by destruct (move_fault l). }
  destruct (quarantine l path t) as [m1 t1], (quarantine l path s) as [m2 s1]. cbn in Hq. subst m2.
  destruct (toml_decode text) as [p|e]; [|done]. by destruct (revive p).
Qed.

(** ** Properties *)

(** C28: the file of an identity.  Whatever system call fails while an identity
    is saved, and wherever the write is cut short, the next load finds what was
    there before or the whole new identity, and no other file but the temporary
    one has changed; a save that succeeds is read back exactly, one that fails
    leaves the file as it was; a load never panics and never loses a file: a
    damaged one is where it was or set aside. *)
Theorem identity_file_sound `{WebLibs} `{IdentityToml} `{ErrorTexts} `{!PersistLaws} l w path i s :
  0 <= pid w -> read_fault l = None -> storable i -> decodes_bytes ->
  (let '(states, outcome) := save w path i s in
   (forall t, t ∈ states ->
      ((load l path t).1 = (load l path s).1 \/ load l path t = (Done (Some (with_refused false i)), t)) /\
      forall p, p <> path -> p <> temporary_path (pid w) path -> t !! p = s !! p) /\
   match outcome with
   | Done _ => load l path (List.last states s) = (Done (Some (with_refused false i)), List.last states s)
   | Fail _ => List.last states s !! path = s !! path
   | _ => False
   end) /\
  match load l path s with
  | (Done _, t) => t = s
  | (Fail _, t) => t !! path = s !! path \/ t !! path = None /\ t !! quarantine_path path = s !! path
  | _ => False
  end.
Proof.
  intros Hp Hr Hs Hd. split.
  - pose proof (save_spec w path i s Hp) as Hw. destruct (save w path i s) as [states outcome]. destruct Hw as (Hf & Ho & Hout).
    split.
    + intros t Ht. split; [|by intros p; apply Ho]. destruct (Hf t Ht) as [E|E]; [left; by apply load_same|right].
      by apply load_holds.
    + destruct outcome; try done. by apply load_holds.
  - pose proof (load_spec l path s Hd) as Hl. destruct (load l path s) as [[[i'|]|e| |] t]; try done; by destruct Hl.
Qed.

(** C29: loading or provisioning an identity.  Both runs end.  A saved identity is
    used, with the same keys, and saved again unless the API refused it over
    the camouflaged route; only then, if replacing is allowed, or when there is
    no file, is a new one provisioned, well formed and saved where it will be
    loaded from; an error loses no identity.  What a MASQUE run gives has a
    certificate in its lifetime, and only an identity whose certificate needs
    no renewal is ever replaced. *)
Theorem identity_runs_sound `{UnicodeData} `{WebLibs} `{AccountLibs} `{ErrorTexts} `{IdentityToml} {R} `{Rng R}
  env w path (s : prov_state (R := R)) :
  world_ok w ->
  runs (load_or_provision_warp env w path) s (warp_result env w path s) (not_lost path s) /\
  runs (load_or_provision_masque env w path) s (masque_result env w path s) (not_lost path s).
Proof. intros Hw. split; [by apply load_or_provision_warp_runs|by apply load_or_provision_masque_runs]. Qed.

(** *** Witnesses *)

(** A file format: the issue time in eight bytes, then the strings, each
    character after a 1, each string ended by a 0. *)
Definition put_str (s : str) : str := flat_map (fun c => [1; c]) s ++ [0].

Fixpoint get_str (l : str) : option (str * str) :=
  match l with
  | x :: l' =>
      if x =? 0 then Some ([], l')
      else match l' with
           | c :: r => '(s, r) ← get_str r; Some (c :: s, r)
           | [] => None
           end
  | [] => None
  end.

Fixpoint get_strs (n : nat) (l : str) : option (list str) :=
  match n with
  | O => Some []
  | S n => '(s, l) ← get_str l; ss ← get_strs n l; Some (s :: ss)
  end.

Lemma get_put_str s r : get_str (put_str s ++ r) = Some (s, r).
Proof.
  unfold put_str. induction s as [|c s IH]; [done|]. cbn [flat_map app get_str]. change (1 =? 0) with false.
  rewrite <- app_assoc in *. cbn [app] in *. by rewrite IH.
Qed.

Lemma get_put_strs ss r : get_strs (length ss) (flat_map put_str ss ++ r) = Some ss.
Proof.
  induction ss as [|s ss IH]; [done|]. cbn [flat_map length get_strs]. rewrite <- app_assoc, get_put_str.
  cbn [mbind option_bind]. by rewrite IH.
Qed.

Definition sample_toml : IdentityToml := {|
  toml_encode := fun p => inl (be_bytes 8 (p_cert_issued_at p) ++ flat_map put_str (persisted_strs p));
  toml_decode := fun text =>
    match get_strs 12 (drop 8 text) with
    | Some [a; b; c; d; e; f; g; h; i; j; k; l] => inl (mkPersisted a b c d (be_value (take 8 text)) e f g h i j k l)
    | _ => inr []
    end
|}.

#[local] Existing Instances ascii_only sample_libs sample_account_libs sample_texts sample_toml.

Lemma sample_decodes : decodes_bytes.
Proof.
  intros s l. cbn. destruct (forallb _ s) eqn:E; [|done]. intros [= <-].
  apply list.Forall_forall. intros b Hb%list_elem_of_In. rewrite forallb_forall in E. apply E in Hb.
  unfold between in Hb. unfold byte_ok. lia.
Qed.

Lemma sample_laws : PersistLaws.
Proof.
  split.
  - intros p [Hi Hs]. eexists. split; [reflexivity|]. split.
    + apply Forall_app. split.
      * eapply list.Forall_impl; [apply be_bytes_ok|]. intros c Hc. unfold byte_ok in Hc. left. lia.
      * apply list.Forall_forall. intros c Hc%list_elem_of_In. apply in_flat_map in Hc as (x & Hx & Hc).
        unfold put_str in Hc. apply in_app_or in Hc as [Hc|[<-|[]]]; [|left; lia].
        apply in_flat_map in Hc as (y & Hy & [<-|[<-|[]]]); [left; lia|].
        apply (proj1 (list.Forall_forall _ _) Hs), list_elem_of_In.
        apply in_concat. eauto.
    + cbn [toml_decode toml_encode sample_toml].
      rewrite drop_app_length' by by rewrite be_bytes_length. rewrite take_app_length' by by rewrite be_bytes_length.
      rewrite <- (app_nil_r (flat_map put_str _)). change 12%nat with (length (persisted_strs p)).
      rewrite get_put_strs. cbn [persisted_strs]. rewrite be_value_bytes, Z.mod_small; [by destruct p|].
      change (256 ^ Z.of_nat 8) with (2 ^ 64). change (2 ^ 63) with 9223372036854775808 in Hi.
      change (2 ^ 64) with 18446744073709551616. lia.
  - intros l Hl. cbn. rewrite (proj2 (forallb_forall _ _)); [done|]. intros b Hb%list_elem_of_In.
    apply (proj1 (list.Forall_forall _ _) Hl) in Hb. unfold byte_ok in Hb. unfold between. lia.
  - by intros l.
Qed.

Definition quiet_load : load_io := mkLoadIo None None.
Definition quiet_write : write_io := mkWriteIo 7 18 None None None None None None None true.

Definition sample_path : str := lit "/data/aether-masque.toml".

Lemma sample_storable : storable (sample_identity false).
Proof.
  split; [|split].
  - repeat split; try done; apply (bool_decide_unpack _); vm_compute; done.
  - split; [done|]. apply (bool_decide_unpack _). vm_compute. done.
  - exists [1], [2]. repeat split; try done; apply (bool_decide_unpack _); vm_compute; done.
Qed.

Lemma identity_file_sound_witness :
  let save := save quiet_write sample_path (sample_identity false) ∅ in
  (forall t, t ∈ save.1 ->
     (load quiet_load sample_path t).1 = Done None \/
     load quiet_load sample_path t = (Done (Some (sample_identity false)), t)) /\
  length save.1 = 4%nat.
Proof.
  cbv zeta. split; [|vm_compute; reflexivity].
  destruct (@identity_file_sound _ _ _ sample_laws quiet_load quiet_write sample_path (sample_identity false) ∅)
    as [Hs _]; [done|done|apply sample_storable|apply sample_decodes|].
  destruct (save quiet_write sample_path (sample_identity false) ∅) as [states outcome]. destruct Hs as [Hs _].
  intros t Ht. destruct (Hs t Ht) as [Ht' _]. exact Ht'.
Defined.

Definition sample_world (api : api_world) : run_world :=
  let enroll := mkEnroll 2000 2001 (Done (mkKeyPair [1] [2] [3])) api in
  mkRun quiet_load quiet_write 2000 api enroll (Done []) api api enroll api.

(** Routes that both answer, with one status. *)
Definition answering (status : str) (code : Z) (body : str) : api_world :=
  mkWorld 0 (fun _ => mkClient None None) (fun _ _ => Answered code None (inl body)) [sample_edge]
    (fun _ _ => mkAttempt (Done tt)
       (fun _ => Done [lit "HTTP/1.1 " ++ status ++ line_end ++ line_end])).

Lemma sample_world_ok : world_ok (sample_world (answering (lit "200 OK") 200 (lit "tok"))).
Proof.
  assert (Ha : api_ok (answering (lit "200 OK") 200 (lit "tok"))) by (by split; [|intros a f; split]).
  split; try exact Ha; try done; try (split; [exact Ha|]; split; [done|by split]). exact sample_decodes.
Qed.

Lemma identity_runs_sound_witness :
  let w := sample_world (answering (lit "200 OK") 200 (lit "tok")) in
  let s := mkState ∅ 0 [] in
  exists i t, load_or_provision_masque (fun _ => None) w sample_path s = (Done i, t) /\
    masque_result (fun _ => None) w sample_path s i t.
Proof.
  cbv zeta. destruct (identity_runs_sound (fun _ => None) (sample_world (answering (lit "200 OK") 200 (lit "tok")))
    sample_path (mkState ∅ 0 []) sample_world_ok) as [_ Hm].
  unfold runs in Hm. revert Hm.
  destruct (load_or_provision_masque _ _ _ _) as [[i|e| |] t] eqn:E; intros Hm; [by exists i, t| | |];
    exfalso; revert E; vm_compute; discriminate.
Defined.

(** Both routes say that the saved identity is gone, but it has no certificate
    to show: the run fails, and so will every later one, though replacing it
    is allowed.  The arm for a refused enrolment is never taken. *)
Example refused_without_certificate :
  let w := sample_world (answering (lit "401 Unauthorized") 401 []) in
  let saved := with_cert [] [] 0 (sample_identity false) in
  let s := mkState (List.last (save quiet_write sample_path saved ∅).1 ∅) 0 [] in
  keep_saved_identity (fun _ => None) = true /\
  match load_or_provision_masque (fun _ => None) w sample_path s with
  | (Fail (Api _), t) => saved_identity w sample_path t = Some saved
  | _ => False
  end.
Proof. vm_compute. done. Qed.

(** In the run that renews a certificate the profile of the organization is
    not adopted. *)
Example renewal_skips_profile :
  let w := sample_world (answering (lit "200 OK") 200 (lit "tok")) in
  let env := fun k => if str_eqb k (lit "AETHER_TEAM") then Some (lit "acme") else None in
  let s i := mkState (List.last (save quiet_write sample_path i ∅).1 ∅) 0 [] in
  effects (load_or_provision_masque env w sample_path (s (sample_identity false))).2 =
    [TeamEndpoint (lit "162.159.192.1:443")] /\
  effects (load_or_provision_masque env w sample_path (s (with_cert [] [] 0 (sample_identity false)))).2 = [].
Proof. vm_compute. done. Qed.
